(** * The loom tree document model (model.py, util/util_tree.py)

    A shallow embedding of [TreeModel] and of the tree utilities it calls.
    Python dictionaries that stand for nodes live in a store and are named
    by their address, so that the nested tree under [tree_raw_data["root"]]
    and the flat index [tree_node_dict] alias the same objects, as they do
    in the program.  Every method is a computation in a state monad that
    keeps the store when an exception is raised. *)

From Stdlib Require Import ZArith QArith String Ascii List Lia Bool.
From stdpp Require Import base list strings.

Set Warnings "-register-all".

Local Open Scope string_scope.
Local Open Scope Z_scope.
Close Scope Q_scope.

(** ** Strings *)

Definition nl : string := String (ascii_of_nat 10) EmptyString.
Definition space : ascii := ascii_of_nat 32.

(** [s.startswith(p)] and [s.endswith(p)]. *)
Definition str_rev (s : string) : string :=
  string_of_list_ascii (rev (list_ascii_of_string s)).

Definition startswith (s p : string) : bool := String.prefix p s.

Definition endswith (s p : string) : bool := String.prefix (str_rev p) (str_rev s).

(** [s[:-1]] and [s[1:]]. *)
Definition drop_last (s : string) : string :=
  string_of_list_ascii (removelast (list_ascii_of_string s)).

Definition drop_first (s : string) : string :=
  match s with EmptyString => EmptyString | String _ r => r end.

(** [" " * n]. *)
Fixpoint spaces (n : nat) : string :=
  match n with O => EmptyString | S n' => String space (spaces n') end.

(** [p in s] for strings. *)
Fixpoint str_contains (p s : string) : bool :=
  String.prefix p s ||
  match s with EmptyString => false | String _ r => str_contains p r end.

(** [s.replace("\n\n", "\n")]: non-overlapping, left to right. *)
Fixpoint replace_nlnl (s : string) : string :=
  match s with
  | EmptyString => EmptyString
  | String c r =>
      match r with
      | EmptyString => s
      | String c' r' =>
          if Ascii.eqb c (ascii_of_nat 10) && Ascii.eqb c' (ascii_of_nat 10)
          then String (ascii_of_nat 10) (replace_nlnl r')
          else String c (replace_nlnl r)
      end
  end.

(** The [while text.endswith(" ")] loop of [update_text]; it runs at most
    [len(text)] times, which is the bound given to it below. *)
Fixpoint trim_loop (fuel : nat) (text : string) (num_spaces : nat) : string * nat :=
  match fuel with
  | O => (text, num_spaces)
  | S fuel' =>
      if endswith text " " then trim_loop fuel' (drop_last text) (S num_spaces)
      else (text, num_spaces)
  end.

Definition trim_trailing_spaces (text : string) : string * nat :=
  trim_loop (String.length text) text 0.

(** [s.rstrip(" ")]. *)
Definition rstrip_spaces (s : string) : string := fst (trim_trailing_spaces s).

(** [s[i:]] and [s[:i]] for a Python integer [i]. *)
Definition py_start (len i : Z) : nat :=
  Z.to_nat (if i <? 0 then Z.max 0 (len + i) else Z.min i len).

Definition str_drop (n : nat) (s : string) : string :=
  string_of_list_ascii (drop n (list_ascii_of_string s)).

Definition str_take (n : nat) (s : string) : string :=
  string_of_list_ascii (take n (list_ascii_of_string s)).

Definition py_slice_from (s : string) (i : Z) : string :=
  str_drop (py_start (Z.of_nat (String.length s)) i) s.

Definition py_slice_to (s : string) (i : Z) : string :=
  str_take (py_start (Z.of_nat (String.length s)) i) s.

(** ** Nodes, documents and the model object *)

(** The address of an object in the store. *)
Abbreviation addr := nat (only parsing).

(** A node dictionary; a key that is absent is [None]. *)
Record node := mkNode {
  n_id : option string;
  n_text : option string;
  n_parent_id : option string;
  n_children : option (list addr);
  n_open : option bool;
  n_visited : option bool;
  n_active_text : option string;
  n_chapter_id : option string }.

Definition set_id (v : option string) (n : node) : node :=
  mkNode v (n_text n) (n_parent_id n) (n_children n) (n_open n) (n_visited n)
         (n_active_text n) (n_chapter_id n).
Definition set_text (v : option string) (n : node) : node :=
  mkNode (n_id n) v (n_parent_id n) (n_children n) (n_open n) (n_visited n)
         (n_active_text n) (n_chapter_id n).
Definition set_parent_id (v : option string) (n : node) : node :=
  mkNode (n_id n) (n_text n) v (n_children n) (n_open n) (n_visited n)
         (n_active_text n) (n_chapter_id n).
Definition set_children (v : option (list addr)) (n : node) : node :=
  mkNode (n_id n) (n_text n) (n_parent_id n) v (n_open n) (n_visited n)
         (n_active_text n) (n_chapter_id n).
Definition set_open (v : option bool) (n : node) : node :=
  mkNode (n_id n) (n_text n) (n_parent_id n) (n_children n) v (n_visited n)
         (n_active_text n) (n_chapter_id n).
Definition set_visited (v : option bool) (n : node) : node :=
  mkNode (n_id n) (n_text n) (n_parent_id n) (n_children n) (n_open n) v
         (n_active_text n) (n_chapter_id n).
Definition set_active_text (v : option string) (n : node) : node :=
  mkNode (n_id n) (n_text n) (n_parent_id n) (n_children n) (n_open n) (n_visited n)
         v (n_chapter_id n).

(** ["key" in d]. *)
Definition has_key {A : Type} (o : option A) : bool :=
  match o with Some _ => true | None => false end.

(** A dictionary is true when it has a key. *)
Definition node_truthy (n : node) : bool :=
  has_key (n_id n) || has_key (n_text n) || has_key (n_parent_id n)
  || has_key (n_children n) || has_key (n_open n) || has_key (n_visited n)
  || has_key (n_active_text n) || has_key (n_chapter_id n).

(** A generation settings dictionary; the two floating-point options are
    only handed to the backend and are kept as rationals. *)
Record gen_settings := mkGen {
  num_continuations : option Z;
  temperature : option Q;
  top_p : option Q;
  response_length : option Z;
  prompt_length : option Z;
  janus : option bool;
  adaptive : option bool;
  model : option string;
  memory : option string }.

Definition DEFAULT_GENERATION_SETTINGS : gen_settings :=
  mkGen (Some 4) (Some (Qmake 9 10)) (Some (Qmake 1 1)) (Some 100) (Some 6000)
        (Some false) (Some false) (Some "davinci") (Some "").

(** [{**a, **b}]: the keys of [b] win. *)
Definition over {A : Type} (a b : option A) : option A :=
  match b with Some _ => b | None => a end.

Definition merge_gen_settings (a b : gen_settings) : gen_settings :=
  mkGen (over (num_continuations a) (num_continuations b))
        (over (temperature a) (temperature b))
        (over (top_p a) (top_p b))
        (over (response_length a) (response_length b))
        (over (prompt_length a) (prompt_length b))
        (over (janus a) (janus b))
        (over (adaptive a) (adaptive b))
        (over (model a) (model b))
        (over (memory a) (memory b)).

Definition no_settings : gen_settings :=
  mkGen None None None None None None None None None.

Record chapter := mkChapter {
  ch_id : string;
  ch_root_id : string;
  ch_title : string }.

(** [tree_raw_data]: the document dictionary.  Its visualization settings
    are display options that no method below reads; they are left out. *)
Record raw_data := mkRaw {
  rd_root : addr;
  rd_selected_node_id : option string;
  rd_chapters : option (list (string * chapter));
  rd_generation_settings : option gen_settings }.

(** What [json_open] hands to [load_tree_data]: a document with a ["root"]
    key, or a dictionary without one, which is then read as a node. *)
Inductive loaded_data :=
  | Document (doc : raw_data)
  | BareRecord (record : addr).

(** The ordered dictionary [tree_node_dict]: keys in insertion order. *)
Definition pydict := list (string * addr).

Fixpoint dict_get (d : pydict) (k : string) : option addr :=
  match d with
  | [] => None
  | (k', v) :: r => if decide (k = k') then Some v else dict_get r k
  end.

Fixpoint dict_set (d : pydict) (k : string) (v : addr) : pydict :=
  match d with
  | [] => [(k, v)]
  | (k', v') :: r =>
      if decide (k = k') then (k', v) :: r else (k', v') :: dict_set r k v
  end.

Definition dict_values (d : pydict) : list addr := map snd d.
Definition dict_keys (d : pydict) : list string := map fst d.

(** The methods wrapped by [@event], in the order of their firing. *)
Inductive event :=
  | ev_tree_updated | ev_pre_selection_updated | ev_selection_updated | ev_io_update.

(** The arguments of a worker started by [threading.Thread(...).start()]. *)
Record worker := mkWorker {
  w_prompt : string;
  w_nodes : list addr;
  w_grandchildren : list addr }.

Record TreeModel := mkModel {
  heap : list node;
  tree_raw_data : option raw_data;
  tree_node_dict : option pydict;
  selected_node_id : option string;
  uuid_clock : nat;
  fired : list event;
  app_queue : list string;
  started : list worker }.

Definition with_heap (h : list node) (m : TreeModel) : TreeModel :=
  mkModel h (tree_raw_data m) (tree_node_dict m) (selected_node_id m)
          (uuid_clock m) (fired m) (app_queue m) (started m).
Definition with_raw (r : option raw_data) (m : TreeModel) : TreeModel :=
  mkModel (heap m) r (tree_node_dict m) (selected_node_id m)
          (uuid_clock m) (fired m) (app_queue m) (started m).
Definition with_dict (d : option pydict) (m : TreeModel) : TreeModel :=
  mkModel (heap m) (tree_raw_data m) d (selected_node_id m)
          (uuid_clock m) (fired m) (app_queue m) (started m).
Definition with_selected (s : option string) (m : TreeModel) : TreeModel :=
  mkModel (heap m) (tree_raw_data m) (tree_node_dict m) s
          (uuid_clock m) (fired m) (app_queue m) (started m).
Definition with_clock (c : nat) (m : TreeModel) : TreeModel :=
  mkModel (heap m) (tree_raw_data m) (tree_node_dict m) (selected_node_id m)
          c (fired m) (app_queue m) (started m).
Definition with_fired (f : list event) (m : TreeModel) : TreeModel :=
  mkModel (heap m) (tree_raw_data m) (tree_node_dict m) (selected_node_id m)
          (uuid_clock m) f (app_queue m) (started m).
Definition with_queue (q : list string) (m : TreeModel) : TreeModel :=
  mkModel (heap m) (tree_raw_data m) (tree_node_dict m) (selected_node_id m)
          (uuid_clock m) (fired m) q (started m).
Definition with_started (w : list worker) (m : TreeModel) : TreeModel :=
  mkModel (heap m) (tree_raw_data m) (tree_node_dict m) (selected_node_id m)
          (uuid_clock m) (fired m) (app_queue m) w.

(** [TreeModel.__init__]. *)
Definition init_model : TreeModel := mkModel [] None None None 0 [] [] [].

(** ** Computations: state, exceptions, and loops that do not end *)

Inductive exn :=
  | KeyError | ValueError | AttributeError | AssertionError
  | IndexError | TypeError | RecursionError | SystemError.

Inductive outcome (A : Type) :=
  | Ok (a : A)
  | Raise (e : exn)
  | Diverge.
Arguments Ok {A} a.
Arguments Raise {A} e.
Arguments Diverge {A}.

Definition M (A : Type) : Type := TreeModel -> outcome A * TreeModel.

Definition ret {A : Type} (a : A) : M A := fun st => (Ok a, st).

Definition bind {A B : Type} (m : M A) (k : A -> M B) : M B :=
  fun st =>
    match m st with
    | (Ok a, st') => k a st'
    | (Raise e, st') => (Raise e, st')
    | (Diverge, st') => (Diverge, st')
    end.

Definition raise {A : Type} (e : exn) : M A := fun st => (Raise e, st).

Definition get : M TreeModel := fun st => (Ok st, st).

Definition modify (f : TreeModel -> TreeModel) : M unit := fun st => (Ok tt, f st).

Notation "'let*' x ':=' m 'in' k" := (bind m (fun x => k))
  (at level 10, x name, m at level 100, k at level 200).
Notation "'let*' ' p ':=' m 'in' k" := (bind m (fun x => let 'p := x in k))
  (at level 10, p pattern, m at level 100, k at level 200).
Notation "m ';;;' k" := (bind m (fun _ => k))
  (at level 100, k at level 200, right associativity).

(** [for x in xs: acc = body(x, acc)]. *)
Fixpoint for_each {A B : Type} (xs : list A) (body : A -> B -> M B) (acc : B) : M B :=
  match xs with
  | [] => ret acc
  | x :: xs' => let* acc' := body x acc in for_each xs' body acc'
  end.

Definition when (b : bool) (m : M unit) : M unit := if b then m else ret tt.

(** Lift a lookup that raises when the key is missing. *)
Definition key {A : Type} (o : option A) : M A :=
  match o with Some a => ret a | None => raise KeyError end.

Definition diverge {A : Type} : M A := fun st => (Diverge, st).

(** Lift a value that raises when it is [None]. *)
Definition not_none {A : Type} (o : option A) : M A :=
  match o with Some a => ret a | None => raise TypeError end.

(** ** The store *)

(** An address always names an object of the store; [SystemError] marks
    the reads that no Python program can perform. *)
Definition read (a : addr) : M node :=
  fun st =>
    match heap st !! a with
    | Some n => (Ok n, st)
    | None => (Raise SystemError, st)
    end.

Definition update (a : addr) (f : node -> node) : M unit :=
  let* n := read a in modify (fun st => with_heap (<[a := f n]> (heap st)) st).

(** A dictionary literal. *)
Definition alloc (n : node) : M addr :=
  fun st => (Ok (length (heap st)), with_heap (heap st ++ [n])%list st).

(** [d["id"]], [d["text"]], [d["children"]]. *)
Definition get_id (a : addr) : M string := let* n := read a in key (n_id n).
Definition get_text (a : addr) : M string := let* n := read a in key (n_text n).
Definition get_children (a : addr) : M (list addr) := let* n := read a in key (n_children n).

(** [l[i]] for a Python integer [i]. *)
Definition py_nth {A : Type} (l : list A) (i : Z) : M A :=
  let n := Z.of_nat (length l) in
  if (0 <=? i) && (i <? n) then
    match l !! Z.to_nat i with Some x => ret x | None => raise IndexError end
  else if (i <? 0) && (- n <=? i) then
    match l !! Z.to_nat (n + i) with Some x => ret x | None => raise IndexError end
  else raise IndexError.

(** *** Equality of dictionaries

    [list.index] and [list.remove] compare with [==], which on dictionaries
    is structural and follows the children.  The scalar keys are compared
    first; on which key the comparison stops does not change its answer.
    Two different pairs of nodes can nest at most [len(store)^2] deep before
    a pair repeats, at which point the interpreter would recurse for ever:
    that is [RecursionError], here [None]. *)

Definition scalars_eqb (x y : node) : bool :=
  bool_decide (n_id x = n_id y) && bool_decide (n_text x = n_text y)
  && bool_decide (n_parent_id x = n_parent_id y)
  && bool_decide (n_open x = n_open y) && bool_decide (n_visited x = n_visited y)
  && bool_decide (n_active_text x = n_active_text y)
  && bool_decide (n_chapter_id x = n_chapter_id y).

Fixpoint list_eqb (eq : addr -> addr -> option bool) (xs ys : list addr) : option bool :=
  match xs, ys with
  | [], [] => Some true
  | x :: xs', y :: ys' =>
      match eq x y with
      | Some true => list_eqb eq xs' ys'
      | r => r
      end
  | _, _ => Some false
  end.

Fixpoint node_eqb (fuel : nat) (h : list node) (a b : addr) : option bool :=
  if Nat.eqb a b then Some true else
  match fuel with
  | O => None
  | S fuel' =>
      match h !! a, h !! b with
      | Some x, Some y =>
          if scalars_eqb x y then
            match n_children x, n_children y with
            | None, None => Some true
            | Some cx, Some cy => list_eqb (node_eqb fuel' h) cx cy
            | _, _ => Some false
            end
          else Some false
      | _, _ => None
      end
  end.

Definition node_eq (h : list node) (a b : addr) : option bool :=
  node_eqb (S (length h * length h)) h a b.

(** [l.index(x)]. *)
Fixpoint index_in (h : list node) (l : list addr) (x : addr) : outcome nat :=
  match l with
  | [] => Raise ValueError
  | y :: l' =>
      match node_eq h y x with
      | None => Raise RecursionError
      | Some true => Ok O
      | Some false =>
          match index_in h l' x with
          | Ok i => Ok (S i)
          | r => r
          end
      end
  end.

(** [l.remove(x)]. *)
Fixpoint remove_in (h : list node) (l : list addr) (x : addr) : outcome (list addr) :=
  match l with
  | [] => Raise ValueError
  | y :: l' =>
      match node_eq h y x with
      | None => Raise RecursionError
      | Some true => Ok l'
      | Some false =>
          match remove_in h l' x with
          | Ok r => Ok (y :: r)
          | Raise e => Raise e
          | Diverge => Diverge
          end
      end
  end.

Definition lift_store {A : Type} (f : list node -> outcome A) : M A :=
  fun st => (f (heap st), st).

Definition list_index (l : list addr) (x : addr) : M nat :=
  lift_store (fun h => index_in h l x).

Definition list_remove (l : list addr) (x : addr) : M (list addr) :=
  lift_store (fun h => remove_in h l x).

(** [assert a == b]. *)
Definition assert_eq (a b : addr) : M unit :=
  let* r := lift_store (fun h => match node_eq h a b with
                                 | Some t => Ok t
                                 | None => Raise RecursionError
                                 end) in
  if r : bool then ret tt else raise AssertionError.

(** The decorator [@event]: the callbacks of the method run after its body. *)
Definition fire (e : event) : M unit :=
  modify (fun st => with_fired (fired st ++ [e])%list st).

(** [self.tree_node_dict[k]]. *)
Definition dict_lookup (d : option pydict) (k : string) : M addr :=
  match d with
  | None => raise TypeError
  | Some d' => key (dict_get d' k)
  end.

(** The truth value of [self.tree_node_dict]. *)
Definition dict_truthy (d : option pydict) : bool :=
  match d with Some (_ :: _) => true | _ => false end.

(** [k in self.tree_node_dict], once the dictionary is known to be true. *)
Definition dict_has (d : option pydict) (k : string) : bool :=
  match d with Some d' => has_key (dict_get d' k) | None => false end.

(** ** util/util_tree.py and model.py *)

Section Model.

(** [str(uuid.uuid1())]: the values the generator returns, in order. *)
Variable uuid1 : nat -> string.

(** [html2text.HTML2Text().handle] with [body_width = 0]. *)
Variable html2text_handle : string -> string.

Definition str_uuid1 : M string :=
  fun st => (Ok (uuid1 (uuid_clock st)), with_clock (S (uuid_clock st)) st).

(** *** util_tree.flatten_tree *)

Fixpoint flatten_tree_rec (depth : nat) (d : addr) : M (list addr) :=
  match depth with
  | O => raise RecursionError
  | S depth' =>
      let* n := read d in
      let* id := match n_id n with
                 | Some i => ret i
                 | None => let* u := str_uuid1 in
                           update d (set_id (Some u)) ;;; ret u
                 end in
      let children := default [] (n_children n) in
      let* flat_children :=
        for_each children
          (fun child flat =>
             update child (set_parent_id (Some id)) ;;;
             let* sub := flatten_tree_rec depth' child in
             ret (flat ++ sub)%list) [] in
      ret (d :: flat_children)
  end.

(** A chain of calls longer than the store visits some node twice and so
    never ends; the interpreter then raises [RecursionError]. *)
Definition flatten_tree (d : addr) : M (list addr) :=
  let* st := get in flatten_tree_rec (S (length (heap st))) d.

(** [{d["id"]: d for d in flat}]. *)
Definition build_dict (flat : list addr) : M pydict :=
  for_each flat (fun d acc => let* i := get_id d in ret (dict_set acc i d)) [].

(** *** util_tree.node_ancestry

    The loop reads the store without changing it: when it has followed more
    parents than the dictionary has entries it has met one of them twice and
    goes on for ever. *)
Fixpoint node_ancestry_loop (fuel : nat) (node_dict : option pydict)
    (node : addr) (ancestry : list addr) : M (list addr) :=
  match fuel with
  | O => diverge
  | S fuel' =>
      let* n := read node in
      match n_parent_id n with
      | None => ret ancestry
      | Some pid =>
          let* p := dict_lookup node_dict pid in
          node_ancestry_loop fuel' node_dict p (p :: ancestry)
      end
  end.

Definition node_ancestry (node : addr) (node_dict : option pydict) : M (list addr) :=
  node_ancestry_loop (2 + length (default [] node_dict)) node_dict node [node].

(** *** util_tree.fix_miro_tree *)

Definition has_miro_markup (t : string) : bool :=
  str_contains "<p>" t || str_contains "</p" t.

Definition strip_newline_pair (t : string) : string :=
  let t1 := if startswith t nl then drop_first t else t in
  if endswith t1 nl then drop_last t1 else t1.

Definition fix_miro_node (id_to_node : pydict) (d : addr) : M unit :=
  let* n := read d in
  match n_text n with
  | None => ret tt
  | Some t =>
      if negb (has_miro_markup t) then ret tt
      else
        let t' := rstrip_spaces (strip_newline_pair (replace_nlnl (html2text_handle t))) in
        update d (set_text (Some t')) ;;;
        if startswith t' nl then ret tt
        else
          let* needs_space :=
            match n_parent_id n with
            | None => ret true
            | Some pid =>
                let* p := key (dict_get id_to_node pid) in
                let* pt := get_text p in
                ret (negb (endswith pt nl))
            end in
          when needs_space (update d (set_text (Some (String space t'))))
  end.

Definition fix_miro_tree (flat_data : option (list addr)) : M unit :=
  let* flat := not_none flat_data in
  let* id_to_node := build_dict flat in
  for_each flat (fun d _ => fix_miro_node id_to_node d) tt.

(** *** Hooks *)

(** The property [nodes]. *)
Definition nodes : M (option (list addr)) :=
  let* st := get in
  ret (if dict_truthy (tree_node_dict st)
       then option_map dict_values (tree_node_dict st) else None).

Definition tree_updated (rebuild_dict : bool) : M unit :=
  let* st := get in
  match tree_raw_data st with
  | Some rd =>
      if rebuild_dict then
        let* flat := flatten_tree (rd_root rd) in
        let* d := build_dict flat in
        modify (with_dict (Some d)) ;;;
        let* ns := nodes in
        fix_miro_tree ns
      else ret tt
  | None => ret tt
  end ;;;
  fire ev_tree_updated.

Definition pre_selection_updated : M unit := fire ev_pre_selection_updated.
Definition selection_updated : M unit := fire ev_selection_updated.
Definition io_update : M unit := fire ev_io_update.

(** *** Access *)

(** The property [selected_node]. *)
Definition selected_node : M (option addr) :=
  let* st := get in
  match tree_node_dict st, selected_node_id st with
  | Some d, Some s => ret (dict_get d s)
  | _, _ => ret None
  end.

(** [node if node else self.selected_node]. *)
Definition or_selected (node : option addr) : M (option addr) :=
  match node with
  | Some a => let* n := read a in
              if node_truthy n then ret (Some a) else selected_node
  | None => selected_node
  end.

(** [not node]. *)
Definition is_falsy (node : option addr) : M bool :=
  match node with
  | Some a => let* n := read a in ret (negb (node_truthy n))
  | None => ret true
  end.

Definition parent (node : addr) : M addr :=
  let* n := read node in
  let* pid := key (n_parent_id n) in
  let* st := get in
  dict_lookup (tree_node_dict st) pid.

Definition node_ancestry_text (node : option addr) : M (list string) :=
  let* node := or_selected node in
  let* a := not_none node in
  let* st := get in
  let* anc := node_ancestry a (tree_node_dict st) in
  for_each anc (fun x acc => let* t := get_text x in ret (acc ++ [t])%list) [].

(** The property [tree_traversal_idx]. *)
Definition tree_traversal_idx : M nat :=
  let* ns := nodes in
  match ns with
  | None => raise AttributeError
  | Some l =>
      let* sel := selected_node in
      match sel with
      | None => raise ValueError
      | Some a => list_index l a
      end
  end.

(** *** Traversal *)

Definition set_raw_selected (s : option string) : M unit :=
  let* st := get in
  match tree_raw_data st with
  | None => raise TypeError
  | Some rd =>
      modify (with_raw (Some (mkRaw (rd_root rd) s (rd_chapters rd)
                                    (rd_generation_settings rd))))
  end.

Definition raw_root : M addr :=
  let* st := get in
  match tree_raw_data st with
  | None => raise TypeError
  | Some rd => ret (rd_root rd)
  end.

Definition select_node (node_id : string) (fire_callbacks : bool) : M (option addr) :=
  let* st := get in
  if bool_decide (selected_node_id st <> Some node_id)
     && dict_truthy (tree_node_dict st) && dict_has (tree_node_dict st) node_id
  then
    pre_selection_updated ;;;
    modify (with_selected (Some node_id)) ;;;
    let* sel := selected_node in
    let* a := not_none sel in
    update a (set_visited (Some true)) ;;;
    set_raw_selected (Some node_id) ;;;
    let* ancestors := node_ancestry a (tree_node_dict st) in
    for_each (removelast ancestors)
      (fun ancestor _ => update ancestor (set_open (Some true))) tt ;;;
    let* r := raw_root in
    update r (set_open (Some true)) ;;;
    when fire_callbacks selection_updated ;;;
    selected_node
  else ret None.

(** Modelled from the spec: [util.util.clip_num], which is not among the
    sources.  The spec has [move_by] clip the index to [[0, count-1]], so
    that out-of-range offsets saturate. *)
Definition clip_num (n lower upper : Z) : Z := Z.max lower (Z.min n upper).

(** Modelled from the spec: [util.util.index_clip], which is not among the
    sources.  The spec has [select_child(n)] clipped to the existing
    children. *)
Definition index_clip {A : Type} (l : list A) (i : Z) : M A :=
  py_nth l (clip_num i 0 (Z.of_nat (length l) - 1)).

Definition traverse_tree (offset : Z) : M (option addr) :=
  let* st := get in
  if dict_truthy (tree_node_dict st) then
    let* idx := tree_traversal_idx in
    let new_idx :=
      clip_num (Z.of_nat idx + offset) 0
               (Z.of_nat (length (default [] (tree_node_dict st))) - 1) in
    let* ns := nodes in
    let* l := not_none ns in
    let* n := py_nth l new_idx in
    let* new_node_id := get_id n in
    select_node new_node_id true
  else ret None.

Definition select_parent (node : option addr) : M (option addr) :=
  let* node := or_selected node in
  match node with
  | None => ret None
  | Some a =>
      let* n := read a in
      if node_truthy n then
        match n_parent_id n with
        | Some pid => select_node pid true
        | None => ret None
        end
      else ret None
  end.

Definition select_child (child_num : Z) (node : option addr) : M (option addr) :=
  let* node := or_selected node in
  match node with
  | None => ret None
  | Some a =>
      let* n := read a in
      if node_truthy n then
        let* cs := key (n_children n) in
        if 0 <? Z.of_nat (length cs) then
          let* c := index_clip cs child_num in
          let* i := get_id c in
          select_node i true
        else ret None
      else ret None
  end.

Definition select_sibling (offset : Z) (node : option addr) : M (option addr) :=
  let* node := or_selected node in
  match node with
  | None => ret None
  | Some a =>
      let* n := read a in
      if node_truthy n then
        match n_parent_id n with
        | Some pid =>
            let* st := get in
            let* p := dict_lookup (tree_node_dict st) pid in
            let* siblings := get_children p in
            let* i := list_index siblings a in
            let* sibling :=
              py_nth siblings ((Z.of_nat i + offset) mod Z.of_nat (length siblings)) in
            let* sid := get_id sibling in
            select_node sid true
        | None => ret None
        end
      else ret None
  end.

(** *** Updates *)

Definition create_child (parent : option addr) (update_selection expand : bool)
    : M (option addr) :=
  let* parent := or_selected parent in
  let* stop := is_falsy parent in
  match parent with
  | Some p =>
      if stop : bool then ret None
      else
        let* u := str_uuid1 in
        let* new_child :=
          alloc (mkNode (Some u) (Some "") None (Some []) None None None None) in
        let* cs := get_children p in
        update p (set_children (Some (cs ++ [new_child])%list)) ;;;
        tree_updated true ;;;
        when update_selection
          (let* i := get_id new_child in select_node i true ;;; ret tt) ;;;
        when expand (update new_child (set_open (Some true))) ;;;
        ret (Some new_child)
  | None => ret None
  end.

Definition create_sibling (node : option addr) (update_selection : bool) : M unit :=
  let* node := or_selected node in
  let* stop := is_falsy node in
  match node with
  | Some a =>
      if stop : bool then ret tt
      else
        let* p := parent a in
        create_child (Some p) update_selection true ;;; ret tt
  | None => ret tt
  end.

Definition set_raw_root (r : addr) : M unit :=
  let* st := get in
  match tree_raw_data st with
  | None => raise TypeError
  | Some rd =>
      modify (with_raw (Some (mkRaw r (rd_selected_node_id rd) (rd_chapters rd)
                                    (rd_generation_settings rd))))
  end.

Definition create_parent (node : option addr) : M unit :=
  let* node := or_selected node in
  let* stop := is_falsy node in
  match node with
  | Some a =>
      if stop : bool then ret tt
      else
        let* u := str_uuid1 in
        let* new_parent :=
          alloc (mkNode (Some u) (Some "") None (Some [a]) None None None None) in
        let* n := read a in
        match n_parent_id n with
        | None =>
            let* r := raw_root in
            assert_eq r a ;;;
            set_raw_root new_parent
        | Some pid =>
            let* st := get in
            let* p := dict_lookup (tree_node_dict st) pid in
            let* old_siblings := get_children p in
            let* i := list_index old_siblings a in
            update p (set_children (Some (<[i := new_parent]> old_siblings))) ;;;
            update new_parent (set_parent_id (Some pid))
        end ;;;
        let* i := get_id new_parent in
        update a (set_parent_id (Some i)) ;;;
        tree_updated true
  | None => ret tt
  end.

Definition merge_with_parent (node : option addr) : M unit :=
  let* node := or_selected node in
  let* stop := is_falsy node in
  match node with
  | Some a =>
      if stop : bool then ret tt
      else
        let* p := parent a in
        let* pt := get_text p in
        let* t := get_text a in
        update p (set_text (Some (pt ++ t))) ;;;
        let* siblings := get_children p in
        let* index_in_parent := list_index siblings a in
        let* cs := get_children a in
        update p (set_children
                    (Some (take index_in_parent siblings ++ cs
                           ++ drop (S index_in_parent) siblings)%list)) ;;;
        let* cs' := get_children a in
        for_each cs' (fun c _ =>
                        let* i := get_id p in
                        update c (set_parent_id (Some i))) tt ;;;
        let* i := get_id p in
        select_node i true ;;;
        tree_updated true
  | None => ret tt
  end.

Definition change_parent (node : option addr) (new_parent_id : string) : M unit :=
  let* node := or_selected node in
  let* stop := is_falsy node in
  match node with
  | Some a =>
      if stop : bool then ret tt
      else
        let* i := get_id a in
        if bool_decide (i = new_parent_id) then ret tt
        else
          let* n := read a in
          match n_parent_id n with
          | None =>
              let* r := raw_root in
              assert_eq r a
          | Some pid =>
              if bool_decide (new_parent_id = pid) then ret tt
              else
                let* st := get in
                let* p := dict_lookup (tree_node_dict st) pid in
                let* old_siblings := get_children p in
                let* rest := list_remove old_siblings a in
                update p (set_children (Some rest)) ;;;
                update a (set_parent_id (Some new_parent_id)) ;;;
                let* q := dict_lookup (tree_node_dict st) new_parent_id in
                let* qs := get_children q in
                update q (set_children (Some (qs ++ [a])%list)) ;;;
                tree_updated true
          end
  | None => ret tt
  end.

Definition delete_node (node : option addr) (reassign_children : bool) : M unit :=
  let* node := or_selected node in
  let* a := not_none node in
  let* n := read a in
  match n_parent_id n with
  | None => ret tt
  | Some pid =>
      let* st := get in
      let* p := dict_lookup (tree_node_dict st) pid in
      let* siblings := get_children p in
      let* old_index := list_index siblings a in
      let* rest := list_remove siblings a in
      update p (set_children (Some rest)) ;;;
      when reassign_children
        (let* cs := get_children a in
         let* siblings := get_children p in
         update p (set_children (Some (siblings ++ cs)%list))) ;;;
      let* siblings := get_children p in
      (if reassign_children || (Z.of_nat (length siblings) =? 0) then
         let* i := get_id p in select_node i true
       else
         let* s := py_nth siblings (Z.of_nat old_index mod Z.of_nat (length siblings)) in
         let* i := get_id s in select_node i true) ;;;
      tree_updated true
  end.

Definition merge_with_children (node : option addr) : M unit :=
  let* node := or_selected node in
  let* stop := is_falsy node in
  match node with
  | Some a =>
      if stop : bool then ret tt
      else
        let* children := get_children a in
        for_each children
          (fun child _ =>
             let* t := get_text a in
             let* ct := get_text child in
             update child (set_text (Some (t ++ ct)))) tt ;;;
        delete_node (Some a) true
  | None => ret tt
  end.

Definition update_text (node : addr) (text : string) (active_text : option string)
    : M unit :=
  let* i := get_id node in
  let* st := get in
  match tree_node_dict st with
  | None => raise TypeError
  | Some d => if has_key (dict_get d i) then ret tt else raise AssertionError
  end ;;;
  let '(text, num_spaces) := trim_trailing_spaces text in
  let* old := get_text node in
  let* edited1 :=
    if bool_decide (old <> text) then
      let* cs := get_children node in
      for_each cs (fun child _ =>
                     let* ct := get_text child in
                     update child (set_text (Some (spaces num_spaces ++ ct)))) tt ;;;
      update node (set_text (Some text)) ;;;
      ret true
    else ret false in
  let* edited2 :=
    match active_text with
    | Some at' =>
        let* n := read node in
        if bool_decide (default "" (n_active_text n) <> at') then
          update node (set_active_text (Some at')) ;;; ret true
        else ret false
    | None => ret false
    end in
  when (edited1 || edited2) (tree_updated true).

(** *** I/O *)

(** The property [generation_settings]. *)
Definition generation_settings : M gen_settings :=
  let* st := get in
  match tree_raw_data st with
  | Some rd => ret (default DEFAULT_GENERATION_SETTINGS (rd_generation_settings rd))
  | None => ret DEFAULT_GENERATION_SETTINGS
  end.

Definition _init_global_objects : M unit :=
  let* st := get in
  match tree_raw_data st with
  | None => raise TypeError
  | Some rd =>
      modify (with_raw
        (Some (mkRaw (rd_root rd) (rd_selected_node_id rd)
                 (Some (default [] (rd_chapters rd)))
                 (Some (merge_gen_settings DEFAULT_GENERATION_SETTINGS
                          (default no_settings (rd_generation_settings rd)))))))
  end.

(** When the assertion on a record without ["root"] fails the program has
    already bound [tree_raw_data] to that record; no method can use the
    model in that state, and it is not tracked here. *)
Definition load_tree_data (data : loaded_data) : M unit :=
  match data with
  | Document doc => modify (with_raw (Some doc))
  | BareRecord r =>
      let* n := read r in
      if has_key (n_text n) then modify (with_raw (Some (mkRaw r None None None)))
      else raise AssertionError
  end ;;;
  let* r := raw_root in
  let* flat := flatten_tree r in
  let* d := build_dict flat in
  modify (with_dict (Some d)) ;;;
  for_each (dict_values d)
    (fun node _ =>
       let* n := read node in
       update node (set_open (Some (default false (n_open n))))) tt ;;;
  _init_global_objects ;;;
  tree_updated true ;;;
  let* ns := nodes in
  let* l := not_none ns in
  let* first := py_nth l 0 in
  let* first_id := get_id first in
  let* st := get in
  let* rd := not_none (tree_raw_data st) in
  select_node (default first_id (rd_selected_node_id rd)) true ;;;
  ret tt.

(** *** Generation *)

(** One completion of the backend; log-probabilities are kept as rationals. *)
Record completion := mkCompletion {
  c_text : string;
  c_token_logprobs : list Q;
  c_text_offset : list Z }.

(** What [results] is bound to: [None], a response with [choices], or the
    tuple that [zip] builds in the parallel mode. *)
Inductive py_results :=
  | RNone
  | RResponse (choices : list completion)
  | RTuple.

(** [results.choices]. *)
Definition choices_of (r : py_results) : M (list completion) :=
  match r with
  | RResponse cs => ret cs
  | _ => raise AttributeError
  end.

(** What the backend answered: the pair returned by [api_generate], and
    the pair returned by the [i]-th call of [janus_generate]. *)
Record backend := mkBackend {
  api_generate : option (list completion) * option string;
  janus_generate : nat -> option (list completion) * option string }.

(** The truth value of an error: [None] and the empty string are false. *)
Definition error_truthy (e : option string) : bool :=
  match e with
  | Some s => negb (bool_decide (s = ""))
  | None => false
  end.

(** [np.argmin]: the first position of the least element. *)
Fixpoint argmin_from (best : Q) (besti : nat) (i : nat) (l : list Q) : nat :=
  match l with
  | [] => besti
  | x :: l' =>
      if Qle_bool best x then argmin_from best besti (S i) l'
      else argmin_from x i (S i) l'
  end.

Definition np_argmin (l : list Q) : M nat :=
  match l with
  | [] => raise ValueError
  | x :: l' => ret (argmin_from x O 1%nat l')
  end.

Definition enumerate {A : Type} (l : list A) : list (nat * A) :=
  combine (seq 0 (length l)) l.

(** The pair [(results, error)] that the dispatch binds. *)
Definition dispatch (b : backend) (settings : gen_settings) (nodes : list addr)
    : M (py_results * option string) :=
  let* j := key (janus settings) in
  if j : bool then
    if Nat.eqb (length nodes) 0 then raise ValueError
    else
      let janus_responses := map (janus_generate b) (seq 0 (length nodes)) in
      let errors := List.filter error_truthy (map snd janus_responses) in
      ret (RTuple, match errors with e :: _ => e | [] => None end)
  else
    key (response_length settings) ;;;
    key (temperature settings) ;;;
    key (top_p settings) ;;;
    key (model settings) ;;;
    ret (match fst (api_generate b) with Some cs => RResponse cs | None => RNone end,
         snd (api_generate b)).

Definition generate_for_nodes (b : backend) (prompt : string) (nodes : list addr)
    (grandchildren : list addr) : M unit :=
  let* settings := generation_settings in
  let* '(results, error) := dispatch b settings nodes in
  (if negb (error_truthy error) then
     let* settings := generation_settings in
     let* ad := key (adaptive settings) in
     if ad : bool then
       let* cs := choices_of results in
       for_each (enumerate cs)
         (fun '(i, result) _ =>
            let* min_logprob := np_argmin (c_token_logprobs result) in
            let* off := py_nth (c_text_offset result) (Z.of_nat min_logprob) in
            let split_position := off - Z.of_nat (String.length prompt) in
            let childtext := py_slice_to (c_text result) split_position in
            let grandchild_text := py_slice_from (c_text result) split_position in
            let* n := py_nth nodes (Z.of_nat i) in
            update n (set_text (Some childtext)) ;;;
            let* g := py_nth grandchildren (Z.of_nat i) in
            update g (set_text (Some grandchild_text))) tt
     else
       for_each (enumerate nodes)
         (fun '(index, node) _ =>
            let* cs := choices_of results in
            let* c := py_nth cs (Z.of_nat index) in
            update node (set_text (Some (c_text c)))) tt
   else
     for_each nodes
       (fun node _ =>
          let* e := not_none error in
          update node (set_text (Some ("ERROR: " ++ e))) ;;;
          let* p := parent node in
          let* cs := get_children p in
          let* rest := list_remove cs node in
          update p (set_children (Some rest))) tt) ;;;
  let* cs := choices_of results in
  modify (fun st => with_queue (app_queue st ++ ["<<TreeUpdated>>"])%list st).

(** The handler bound to [<<TreeUpdated>>] in [__init__]. *)
Definition handle_app_event : M unit :=
  let* st := get in
  match app_queue st with
  | [] => ret tt
  | _ :: q => modify (with_queue q) ;;; tree_updated true
  end.

Definition generate_continuation (node : option addr) (update_selection : bool)
    : M unit :=
  let* node := or_selected node in
  let* stop := is_falsy node in
  match node with
  | Some a =>
      if stop : bool then ret tt
      else
        let* settings := generation_settings in
        let* k := key (num_continuations settings) in
        let* '(children, grandchildren) :=
          for_each (seq 0 (Z.to_nat k))
            (fun _ '(children, grandchildren) =>
               let* child := create_child (Some a) false true in
               let* c := not_none child in
               let* settings := generation_settings in
               let* ad := key (adaptive settings) in
               if ad : bool then
                 let* g := create_child (Some c) false true in
                 let* g' := not_none g in
                 ret ((children ++ [c])%list, (grandchildren ++ [g'])%list)
               else ret ((children ++ [c])%list, grandchildren))
            ([], []) in
        let* first := py_nth children 0 in
        let* texts := node_ancestry_text (Some first) in
        let prompt := String.concat "" texts in
        let* settings := generation_settings in
        let* pl := key (prompt_length settings) in
        let prompt := py_slice_from prompt (- pl) in
        let* mem := key (memory settings) in
        let prompt := mem ++ prompt in
        modify (fun st => with_started
                            (started st ++ [mkWorker prompt children grandchildren])%list st) ;;;
        for_each children
          (fun child _ => update child (set_text (Some (nl ++ nl ++ "** Generating **")))) tt ;;;
        for_each grandchildren
          (fun g _ => update g (set_text (Some (nl ++ nl ++ "** Generating **")))) tt ;;;
        tree_updated true ;;;
        when update_selection
          (let* first := py_nth children 0 in
           let* i := get_id first in
           select_node i true ;;; ret tt)
  | None => ret tt
  end.

End Model.

(** ** The nested tree as a value

    [tree_raw_data["root"]] is a tree of dictionaries.  Its form is kept
    apart from the store: an [rtree] names the address of a node and the
    subtrees under it, and [shape] says that the store holds exactly this
    tree there. *)

Inductive rtree := RT (a : addr) (kids : list rtree).

Definition raddr (t : rtree) : addr := match t with RT a _ => a end.
Definition rkids (t : rtree) : list rtree := match t with RT _ ks => ks end.

(** The nodes of a tree, every parent before its children, siblings in order. *)
Fixpoint preorder (t : rtree) : list addr :=
  match t with RT a ks => a :: concat (map preorder ks) end.

Definition forest_nodes (ks : list rtree) : list addr := concat (map preorder ks).

(** The number of levels of a tree. *)
Fixpoint height (t : rtree) : nat :=
  match t with RT _ ks => S (list_max (map height ks)) end.

Inductive shape (h : list node) : rtree -> Prop :=
  | shape_node a ks n :
      h !! a = Some n ->
      default [] (n_children n) = map raddr ks ->
      Forall (shape h) ks ->
      shape h (RT a ks).

Definition id_at (h : list node) (a : addr) : option string :=
  match h !! a with Some n => n_id n | None => None end.

Definition text_at (h : list node) (a : addr) : option string :=
  match h !! a with Some n => n_text n | None => None end.

Definition parent_id_at (h : list node) (a : addr) : option string :=
  match h !! a with Some n => n_parent_id n | None => None end.

Definition children_at (h : list node) (a : addr) : option (list addr) :=
  match h !! a with Some n => n_children n | None => None end.

(** Every child carries the id of its parent. *)
Inductive linked (h : list node) : rtree -> Prop :=
  | linked_node a ks :
      Forall (fun k => parent_id_at h (raddr k) = id_at h a /\ linked h k) ks ->
      linked h (RT a ks).

(** The index that [tree_updated] builds from the nodes [l]. *)
Definition index_of (h : list node) (l : list addr) : pydict :=
  map (fun a => (default "" (id_at h a), a)) l.

(** The nested tree [t] is in the store: every node has an id, a text and
    a list of children, ids are pairwise different, and the root carries
    no parent id. *)
Record tree_in (h : list node) (t : rtree) : Prop := mk_tree_in {
  ti_shape : shape h t;
  ti_keys : forall a, a ∈ preorder t ->
      exists n, h !! a = Some n /\ is_Some (n_id n) /\ is_Some (n_text n)
                /\ is_Some (n_children n);
  ti_ids : NoDup (map (id_at h) (preorder t));
  ti_root : parent_id_at h (raddr t) = None }.

(** The state of a model whose document is the tree [t]: the tree is in
    the store, the parent ids are stamped, and the index is the one that
    flattening builds. *)
Record tree_ok (st : TreeModel) (t : rtree) : Prop := mk_tree_ok {
  ok_raw : option_map rd_root (tree_raw_data st) = Some (raddr t);
  ok_tree : tree_in (heap st) t;
  ok_linked : linked (heap st) t;
  ok_index : tree_node_dict st = Some (index_of (heap st) (preorder t)) }.

(** The generator never returns an id twice, and no id of the store is one
    it has yet to return. *)
Definition uuid_fresh (uuid1 : nat -> string) (st : TreeModel) : Prop :=
  (forall i j, uuid1 i = uuid1 j -> i = j) /\
  (forall a k, (uuid_clock st <= k)%nat -> id_at (heap st) a <> Some (uuid1 k)).

(** The nodes of the flat index, in its order. *)
Definition index_nodes (st : TreeModel) : list addr :=
  dict_values (default [] (tree_node_dict st)).

(** The three structural invariants of the data model, read off the model
    object: one root without [parent_id]; every other node's [parent_id]
    resolves in the index to a node that lists it exactly once among its
    children; ids are unique. *)
Record structural_invariants (st : TreeModel) : Prop := mk_structural {
  si_one_root : exists r, option_map rd_root (tree_raw_data st) = Some r /\
      r ∈ index_nodes st /\
      forall a, a ∈ index_nodes st -> (parent_id_at (heap st) a = None <-> a = r);
  si_parent_lists_child :
      forall a pid, a ∈ index_nodes st -> parent_id_at (heap st) a = Some pid ->
      exists p cs, dict_get (default [] (tree_node_dict st)) pid = Some p /\
                   p ∈ index_nodes st /\
                   children_at (heap st) p = Some cs /\
                   length (List.filter (Nat.eqb a) cs) = 1%nat;
  si_unique_ids :
      (forall a, a ∈ index_nodes st -> is_Some (id_at (heap st) a)) /\
      NoDup (map (id_at (heap st)) (index_nodes st)) }.

(** ** What flattening does to the store *)

(** The ids that flattening leaves on the nodes [l], visited in this order
    from the clock value [clk]: an id that is there stays, a missing one
    is the next value of the generator. *)
Fixpoint ids_from (uuid1 : nat -> string) (h : list node) (clk : nat) (l : list addr)
    : list string :=
  match l with
  | [] => []
  | a :: l' =>
      match id_at h a with
      | Some i => i :: ids_from uuid1 h clk l'
      | None => uuid1 clk :: ids_from uuid1 h (S clk) l'
      end
  end.

(** How many of the nodes [l] lack an id. *)
Fixpoint missing (h : list node) (l : list addr) : nat :=
  match l with
  | [] => O
  | a :: l' => ((if has_key (id_at h a) then 0 else 1) + missing h l')%nat
  end.

(** The keys of a node that flattening never writes. *)
Definition payload (n : node) :=
  (n_text n, n_children n, n_open n, n_visited n, n_active_text n, n_chapter_id n).

Definition payload_at (h : list node) (b : addr) := option_map payload (h !! b).

(** The store [h'] after flattening the tree [t] of the store [h] from the
    clock value [clk]. *)
Record flat_post (uuid1 : nat -> string) (h : list node) (clk : nat) (t : rtree)
    (h' : list node) : Prop := mk_flat_post {
  fp_length : length h' = length h;
  fp_frame : forall b, b ∉ preorder t -> h' !! b = h !! b;
  fp_payload : forall b, payload_at h' b = payload_at h b;
  fp_ids : map (id_at h') (preorder t) = map Some (ids_from uuid1 h clk (preorder t));
  fp_root : parent_id_at h' (raddr t) = parent_id_at h (raddr t);
  fp_linked : linked h' t }.

(** What [flatten_tree_rec] does on the tree [t], for any bound on the
    depth that the tree stays under. *)
Definition flattens (uuid1 : nat -> string) (t : rtree) : Prop :=
  forall depth st,
    (height t <= depth)%nat -> shape (heap st) t -> NoDup (preorder t) ->
    exists h',
      flatten_tree_rec uuid1 depth (raddr t) st
      = (Ok (preorder t),
         with_clock (uuid_clock st + missing (heap st) (preorder t))
                    (with_heap h' st))
      /\ flat_post uuid1 (heap st) (uuid_clock st) t h'.

(** The same for the subtrees [ks] of a node whose id is [pid]. *)
Record forest_post (uuid1 : nat -> string) (h : list node) (clk : nat) (pid : string)
    (ks : list rtree) (h' : list node) : Prop := mk_forest_post {
  fo_length : length h' = length h;
  fo_frame : forall b, b ∉ forest_nodes ks -> h' !! b = h !! b;
  fo_payload : forall b, payload_at h' b = payload_at h b;
  fo_ids : map (id_at h') (forest_nodes ks)
           = map Some (ids_from uuid1 h clk (forest_nodes ks));
  fo_linked : Forall (fun k => parent_id_at h' (raddr k) = Some pid /\ linked h' k) ks }.

(** The keys of a node that the form of the tree rests on: its id, its
    children and whether it has a text. *)
Definition frame_keys (n : node) := (n_id n, n_children n, has_key (n_text n)).

Definition frame_at (h : list node) (b : addr) := option_map frame_keys (h !! b).

(** Everything in a node but its text. *)
Definition skeleton (n : node) :=
  (n_id n, n_parent_id n, n_children n, has_key (n_text n),
   (n_open n, n_visited n, n_active_text n, n_chapter_id n)).

Definition skeleton_at (h : list node) (b : addr) := option_map skeleton (h !! b).

(** Everything in a node but the flags [open] and [visited]. *)
Definition content (n : node) :=
  (n_id n, n_text n, n_parent_id n, n_children n, n_active_text n, n_chapter_id n).

Definition content_at (h : list node) (b : addr) := option_map content (h !! b).

(** Everything in a node but its parent id and the value of its text:
    what a refresh of the tree keeps in every node. *)
Definition kept (n : node) :=
  (n_id n, n_children n, has_key (n_text n),
   (n_open n, n_visited n, n_active_text n, n_chapter_id n)).

Definition kept_at (h : list node) (b : addr) := option_map kept (h !! b).

(** The store [h'] after [tree_updated] on the store [h] holding the tree
    [t]: texts change only where they carry paragraph markup. *)
Record refresh_post (t : rtree) (h h' : list node) : Prop := mk_refresh_post {
  rp_length : length h' = length h;
  rp_frame : forall b, b ∉ preorder t -> h' !! b = h !! b;
  rp_kept : forall b, kept_at h' b = kept_at h b;
  rp_text : forall b s, text_at h b = Some s -> has_miro_markup s = false ->
                        text_at h' b = Some s }.

(** The path that [node_ancestry] follows from a node up to a node without
    parent id, written from the top down. *)
Inductive ancestry (h : list node) (d : pydict) : addr -> list addr -> Prop :=
  | anc_root a :
      is_Some (h !! a) -> parent_id_at h a = None -> ancestry h d a [a]
  | anc_step a pid p l :
      parent_id_at h a = Some pid -> dict_get d pid = Some p ->
      ancestry h d p l -> ancestry h d a (l ++ [a]).

(** What [select_node] leaves of the model [st] in [st']: the contents of
    the nodes, the index, the document but for its stored selection, the
    clock, the queue and the workers.  It writes the selection, the flags
    [open] and [visited], and the list of notifications. *)
Record selected_post (st st' : TreeModel) : Prop := mk_selected_post {
  sp_length : length (heap st') = length (heap st);
  sp_content : forall b, content_at (heap st') b = content_at (heap st) b;
  sp_dict : tree_node_dict st' = tree_node_dict st;
  sp_root : option_map rd_root (tree_raw_data st') = option_map rd_root (tree_raw_data st);
  sp_settings : option_map rd_generation_settings (tree_raw_data st')
                = option_map rd_generation_settings (tree_raw_data st);
  sp_clock : uuid_clock st' = uuid_clock st;
  sp_queue : app_queue st' = app_queue st;
  sp_started : started st' = started st }.

(** The node that a method works on when it is called with [node]: the
    argument itself, or the selected node when the argument is left out. *)
Definition names (st : TreeModel) (node : option addr) (a : addr) : Prop :=
  node = Some a \/ (node = None /\ selected_node_id st = id_at (heap st) a).

(** The keys that every node of a tree in the store has. *)
Definition has_keys (h : list node) (a : addr) : Prop :=
  exists n, h !! a = Some n /\ is_Some (n_id n) /\ is_Some (n_text n)
            /\ is_Some (n_children n).

(** What the refresh at the end of an edit, with or without a selection
    before it, leaves of the model [st] in [st']: ids and children of all
    nodes, their texts unless they carry paragraph markup, the clock, the
    document but for its stored selection, the queue and the workers. *)
Record settled (st st' : TreeModel) : Prop := mk_settled {
  se_length : length (heap st') = length (heap st);
  se_ids : forall b, id_at (heap st') b = id_at (heap st) b;
  se_children : forall b, children_at (heap st') b = children_at (heap st) b;
  se_text : forall b s, text_at (heap st) b = Some s -> has_miro_markup s = false ->
                        text_at (heap st') b = Some s;
  se_has_text : forall b, is_Some (text_at (heap st) b) -> is_Some (text_at (heap st') b);
  se_root : option_map rd_root (tree_raw_data st') = option_map rd_root (tree_raw_data st);
  se_settings : option_map rd_generation_settings (tree_raw_data st')
                = option_map rd_generation_settings (tree_raw_data st);
  se_clock : uuid_clock st' = uuid_clock st;
  se_queue : app_queue st' = app_queue st;
  se_started : started st' = started st }.

(** ** Edits of the nested tree *)

(** The tree [t] with the subtrees under its node [p] replaced by [new]. *)
Fixpoint replace_kids (p : addr) (new : list rtree) (t : rtree) : rtree :=
  match t with
  | RT a ks => if Nat.eqb a p then RT a new else RT a (map (replace_kids p new) ks)
  end.

(** ** Rebuilding a nested tree from the flat nodes

    Worded after the spec, not after the code: the root is the first node
    of the flat sequence, and the children of a node are the nodes whose
    [parent_id] is the id of that node, in the order of the flat sequence. *)

Definition is_child_of (h : list node) (x c : addr) : bool :=
  match parent_id_at h c, id_at h x with
  | Some pid, Some i => String.eqb pid i
  | _, _ => false
  end.

Definition children_of (h : list node) (flat : list addr) (x : addr) : list addr :=
  List.filter (is_child_of h x) flat.

Fixpoint rebuild_from (fuel : nat) (h : list node) (flat : list addr) (x : addr) : rtree :=
  match fuel with
  | O => RT x []
  | S fuel' => RT x (map (rebuild_from fuel' h flat) (children_of h flat x))
  end.

Definition rebuild (h : list node) (flat : list addr) : option rtree :=
  match flat with
  | [] => None
  | r :: _ => Some (rebuild_from (length flat) h flat r)
  end.

(** [s] is [t] or a tree under a node of [t]. *)
Inductive subtree (s : rtree) : rtree -> Prop :=
  | subtree_here : subtree s s
  | subtree_kid a ks k : k ∈ ks -> subtree s k -> subtree s (RT a ks).

(** ** Documents

    A nested tree as a document brings it: no node twice, a text on every
    node, ids that differ where they are there, no [parent_id] on the
    root.  Ids and lists of children may be missing. *)
Record doc_in (h : list node) (t : rtree) : Prop := mk_doc_in {
  di_shape : shape h t;
  di_nodup : NoDup (preorder t);
  di_text : forall a, a ∈ preorder t -> is_Some (text_at h a);
  di_ids : NoDup (omap (id_at h) (preorder t));
  di_root : parent_id_at h (raddr t) = None }.

(** The tree once it is flattened: every node has its id, the ids differ,
    every child carries the id of its parent. *)
Record flat_in (h : list node) (t : rtree) : Prop := mk_flat_in {
  fi_shape : shape h t;
  fi_has_ids : forall a, a ∈ preorder t -> is_Some (id_at h a);
  fi_text : forall a, a ∈ preorder t -> is_Some (text_at h a);
  fi_ids : NoDup (map (id_at h) (preorder t));
  fi_root : parent_id_at h (raddr t) = None;
  fi_linked : linked h t }.

(** The root of the loaded data and the selection stored with it: a bare
    record is its own root and stores no selection. *)
Definition doc_root (d : loaded_data) : addr :=
  match d with Document doc => rd_root doc | BareRecord r => r end.

Definition doc_selection (d : loaded_data) : option string :=
  match d with Document doc => rd_selected_node_id doc | BareRecord _ => None end.

(** ** A reported generation error

    The backend answers the request for [nodes] with the error [e] and no
    results: in the sequential mode the one call of [api_generate] returns
    [(None, e)]; in the parallel mode every call of [janus_generate] does. *)
Definition reports_error (b : backend) (gs : gen_settings) (nodes : list addr)
    (e : string) : Prop :=
  (janus gs = Some false /\ is_Some (response_length gs) /\ is_Some (temperature gs)
   /\ is_Some (top_p gs) /\ is_Some (model gs) /\ api_generate b = (None, Some e))
  \/ (janus gs = Some true /\ nodes <> [] /\ forall i, janus_generate b i = (None, Some e)).

(** [x] stands before [y] in the list [l]. *)
Definition before {A : Type} (l : list A) (x y : A) : Prop :=
  exists i j, (i < j)%nat /\ l !! i = Some x /\ l !! j = Some y.

(** ** Sequences of structural edits *)

(** A call of one of the seven structural edits, with its arguments. *)
Inductive edit : Type :=
  | Create_child (parent : option addr) (update_selection expand : bool)
  | Create_sibling (node : option addr) (update_selection : bool)
  | Create_parent (node : option addr)
  | Merge_with_parent (node : option addr)
  | Merge_with_children (node : option addr)
  | Change_parent (node : option addr) (new_parent_id : string)
  | Delete_node (node : option addr) (reassign_children : bool).

Section Edits.

Variable uuid1 : nat -> string.
Variable html2text_handle : string -> string.

Definition run_edit (e : edit) : M unit :=
  match e with
  | Create_child parent update_selection expand =>
      create_child uuid1 html2text_handle parent update_selection expand ;;; ret tt
  | Create_sibling node update_selection =>
      create_sibling uuid1 html2text_handle node update_selection
  | Create_parent node => create_parent uuid1 html2text_handle node
  | Merge_with_parent node => merge_with_parent uuid1 html2text_handle node
  | Merge_with_children node => merge_with_children uuid1 html2text_handle node
  | Change_parent node new_parent_id =>
      change_parent uuid1 html2text_handle node new_parent_id
  | Delete_node node reassign_children =>
      delete_node uuid1 html2text_handle node reassign_children
  end.

(** The node that the edit works on is a node of the index. *)
Definition target (st : TreeModel) (node : option addr) (a : addr) : Prop :=
  names st node a /\ a ∈ index_nodes st.

(** The preconditions of an edit: its target exists, and so does the new
    parent of [change_parent]. *)
Definition edit_pre (st : TreeModel) (e : edit) : Prop :=
  match e with
  | Create_child node _ _ | Create_sibling node _ | Create_parent node
  | Merge_with_parent node | Merge_with_children node | Delete_node node _ =>
      exists a, target st node a
  | Change_parent node new_parent_id =>
      exists a q, target st node a /\ q ∈ index_nodes st
                  /\ id_at (heap st) q = Some new_parent_id
  end.

(** [create_sibling] and [merge_with_parent] read [node["parent_id"]]
    before anything else, with no guard for the root. *)
Definition reads_parent_of_root (st : TreeModel) (e : edit) : Prop :=
  match e with
  | Create_sibling node _ | Merge_with_parent node =>
      exists a, target st node a /\ parent_id_at (heap st) a = None
  | _ => False
  end.

(** The edits of a sequence, each with the model it starts from, its
    outcome and the model it leaves. *)
Fixpoint run_edits (es : list edit) (st : TreeModel)
    : list (TreeModel * edit * (outcome unit * TreeModel)) :=
  match es with
  | [] => []
  | e :: es' => let r := run_edit e st in (st, e, r) :: run_edits es' (snd r)
  end.

(** The preconditions hold for every edit of the sequence, at the model
    that the edits before it have left. *)
Fixpoint edits_pre (es : list edit) (st : TreeModel) : Prop :=
  match es with
  | [] => True
  | e :: es' => edit_pre st e /\ edits_pre es' (snd (run_edit e st))
  end.

End Edits.

(** ** A small document used in the examples

    A root ["r"] with three children ["a"], ["b"], ["c"], loaded and with
    the root selected. *)

Definition ex_uuid (k : nat) : string := String.concat "" (repeat "u" (S k)).

Definition ex_html (s : string) : string := s.

Definition ex_node (i t : string) (p : option string) (cs : list addr) : node :=
  mkNode (Some i) (Some t) p (Some cs) (Some false) None None None.

Definition ex_heap : list node :=
  [ ex_node "r" "root" None [1; 2; 3]%nat;
    ex_node "a" "one" (Some "r") [];
    ex_node "b" "two" (Some "r") [];
    ex_node "c" "three" (Some "r") [] ].

Definition ex_tree : rtree := RT 0%nat [RT 1%nat []; RT 2%nat []; RT 3%nat []].

Definition ex_state : TreeModel :=
  mkModel ex_heap
          (Some (mkRaw 0%nat (Some "r") (Some []) (Some DEFAULT_GENERATION_SETTINGS)))
          (Some [("r", 0%nat); ("a", 1%nat); ("b", 2%nat); ("c", 3%nat)])
          (Some "r") 0%nat [] [] [].

Definition ex_backend_empty_error : backend :=
  mkBackend (None, Some "") (fun _ => (None, None)).

Definition ex_backend_rate_limited : backend :=
  mkBackend (None, Some "rate limited") (fun _ => (None, None)).

(** The document of [ex_state] with a stored selection that names no node. *)
Definition ex_doc_dangling : raw_data := mkRaw 0%nat (Some "zzz") None None.

Definition ex_unloaded : TreeModel := mkModel ex_heap None None None 0%nat [] [] [].

(** A sequence of edits on [ex_state] that uses each of the seven; the last
    one is called on the root. *)
Definition ex_edits : list edit :=
  [ Create_child (Some 1%nat) true true;
    Change_parent (Some 1%nat) "b";
    Create_sibling None false;
    Create_parent (Some 0%nat);
    Delete_node (Some 3%nat) false;
    Merge_with_children (Some 2%nat);
    Merge_with_parent (Some 1%nat);
    Merge_with_parent (Some 6%nat) ].

(** The document of the spec's scenario, not yet loaded: a root ["Once"]
    with one child [" upon a time"], no ids, and no list of children on
    the child. *)
Definition ex_raw_heap : list node :=
  [ mkNode None (Some "Once") None (Some [1%nat]) None None None None;
    mkNode None (Some " upon a time") None None None None None None ].

Definition ex_raw_tree : rtree := RT 0%nat [RT 1%nat []].

Definition ex_raw_state : TreeModel := mkModel ex_raw_heap None None None 0%nat [] [] [].

(** [ex_state] after [generate_continuation] on its root: four
    placeholders are listed after the three children. *)
Definition ex_gen_state : TreeModel :=
  Eval vm_compute in snd (generate_continuation ex_uuid ex_html (Some 0%nat) false ex_state).

Definition ex_gen_tree : rtree :=
  RT 0%nat [RT 1%nat []; RT 2%nat []; RT 3%nat [];
            RT 4%nat []; RT 5%nat []; RT 6%nat []; RT 7%nat []].

(** ** The measures of util/util_tree.py

    [height], [depth], [num_descendents] and [num_leaves] read the store
    and leave it as it is.  They are recursive functions: on a store whose
    children or parents form a cycle the interpreter raises
    [RecursionError], which is what the bound on the calls stands for. *)

Module util_tree.

(** [1 + max([0, *[height(c) for c in d["children"]]])]. *)
Fixpoint height_rec (fuel : nat) (d : addr) : M nat :=
  match fuel with
  | O => raise RecursionError
  | S fuel' =>
      let* children := get_children d in
      let* heights :=
        for_each children
          (fun c acc => let* x := height_rec fuel' c in ret (acc ++ [x])%list) [] in
      ret (1 + list_max (0 :: heights))%nat
  end.

Definition height (d : addr) : M nat :=
  let* st := get in height_rec (S (length (heap st))) d.

(** [0 if "parent_id" not in d else 1 + depth(node_dict[d["parent_id"]], node_dict)]. *)
Fixpoint depth_rec (fuel : nat) (d : addr) (node_dict : option pydict) : M nat :=
  match fuel with
  | O => raise RecursionError
  | S fuel' =>
      let* n := read d in
      match n_parent_id n with
      | None => ret 0%nat
      | Some pid =>
          let* p := dict_lookup node_dict pid in
          let* k := depth_rec fuel' p node_dict in
          ret (1 + k)%nat
      end
  end.

Definition depth (d : addr) (node_dict : option pydict) : M nat :=
  depth_rec (2 + length (default [] node_dict)) d node_dict.

Fixpoint num_descendents_rec (fuel : nat) (node : addr) : M nat :=
  match fuel with
  | O => raise RecursionError
  | S fuel' =>
      let* n := read node in
      match n_children n with
      | Some children =>
          for_each children
            (fun child descendents =>
               let* k := num_descendents_rec fuel' child in
               ret (descendents + k)%nat) 1%nat
      | None => ret 1%nat
      end
  end.

Definition num_descendents (node : addr) : M nat :=
  let* st := get in num_descendents_rec (S (length (heap st))) node.

(** The loop adds [num_descendents(child)], not [num_leaves(child)]. *)
Definition num_leaves (node : addr) : M nat :=
  let* n := read node in
  match n_children n with
  | Some (c :: cs) =>
      for_each (c :: cs)
        (fun child leaves =>
           let* k := num_descendents child in
           ret (leaves + k)%nat) 0%nat
  | _ => ret 1%nat
  end.

End util_tree.

(** [flatten_tree_revisit_parents]: as [flatten_tree], but every call on a
    child ends its list with the parent it came from. *)
Section Revisit.

Variable uuid1 : nat -> string.

Fixpoint flatten_tree_revisit_parents_rec (depth : nat) (d : addr) (parent : option addr)
    : M (list addr) :=
  match depth with
  | O => raise RecursionError
  | S depth' =>
      let* n := read d in
      let* id := match n_id n with
                 | Some i => ret i
                 | None => let* u := str_uuid1 uuid1 in
                           update d (set_id (Some u)) ;;; ret u
                 end in
      let children := default [] (n_children n) in
      let* flat_children :=
        for_each children
          (fun child flat =>
             update child (set_parent_id (Some id)) ;;;
             let* sub := flatten_tree_revisit_parents_rec depth' child (Some d) in
             ret (flat ++ sub)%list) [] in
      ret (match parent with
           | None => d :: flat_children
           | Some p => d :: flat_children ++ [p]
           end)%list
  end.

Definition flatten_tree_revisit_parents (d : addr) (parent : option addr) : M (list addr) :=
  let* st := get in flatten_tree_revisit_parents_rec (S (length (heap st))) d parent.

End Revisit.

(** Every node of the list has a list of children. *)
Definition all_have_children (h : list node) (l : list addr) : bool :=
  forallb (fun a => has_key (children_at h a)) l.

(** Everything in a node but its text. *)
Definition but_text (n : node) :=
  (n_id n, n_parent_id n, n_children n, n_open n, n_visited n, n_active_text n,
   n_chapter_id n).

Definition but_text_at (h : list node) (b : addr) := option_map but_text (h !! b).

(** The flags [open] and [visited] of a node. *)
Definition open_at (h : list node) (a : addr) : option bool :=
  match h !! a with Some n => n_open n | None => None end.

Definition visited_at (h : list node) (a : addr) : option bool :=
  match h !! a with Some n => n_visited n | None => None end.

Definition active_text_at (h : list node) (a : addr) : option string :=
  match h !! a with Some n => n_active_text n | None => None end.

(** ** What a refresh of the tree leaves of any model

    The keys of a node that [tree_updated] never writes, whatever the
    store holds: it stamps ids where they are missing, parent ids, and the
    texts that carry paragraph markup. *)
Definition steady (n : node) :=
  (n_children n, n_open n, n_visited n, n_active_text n, n_chapter_id n).

Definition steady_at (h : list node) (b : addr) := option_map steady (h !! b).

Record refreshed (st st' : TreeModel) : Prop := mk_refreshed {
  rf_length : length (heap st') = length (heap st);
  rf_steady : forall b, steady_at (heap st') b = steady_at (heap st) b;
  rf_ids : forall b i, id_at (heap st) b = Some i -> id_at (heap st') b = Some i;
  rf_text : forall b s, text_at (heap st) b = Some s -> has_miro_markup s = false ->
                        text_at (heap st') b = Some s;
  rf_no_text : forall b, text_at (heap st) b = None -> text_at (heap st') b = None;
  rf_raw : tree_raw_data st' = tree_raw_data st;
  rf_selected : selected_node_id st' = selected_node_id st;
  rf_clock : (uuid_clock st <= uuid_clock st')%nat;
  rf_fired : exists l, fired st' = (fired st ++ l)%list;
  rf_queue : app_queue st' = app_queue st;
  rf_started : started st' = started st }.

(** Computations that only read. *)
Definition reads_only {A : Type} (m : M A) : Prop := forall st, snd (m st) = st.

(** ** More of the access methods of model.py *)

(** [TreeModel.node]. *)
Definition get_node (node_id : option string) : M (option addr) :=
  match node_id with
  | None => selected_node
  | Some i =>
      let* st := get in
      if dict_truthy (tree_node_dict st) && dict_has (tree_node_dict st) i
      then let* a := dict_lookup (tree_node_dict st) i in ret (Some a)
      else ret None
  end.

(** The settings and the chapters that the loaded data brings: a bare
    record brings none. *)
Definition doc_settings (d : loaded_data) : option gen_settings :=
  match d with Document doc => rd_generation_settings doc | BareRecord _ => None end.

Definition doc_chapters (d : loaded_data) : option (list (string * chapter)) :=
  match d with Document doc => rd_chapters doc | BareRecord _ => None end.

(** ** The document of the spec's scenario, loaded

    [ex_raw_state] after [load_tree_data] on its document: the two nodes
    have their ids, the leaf still has no list of children. *)

Definition ex_raw_loaded : TreeModel :=
  Eval vm_compute in
    snd (load_tree_data ex_uuid ex_html (Document (mkRaw 0%nat None None None)) ex_raw_state).

(** ** A chain used in the examples

    A root ["r"] with one child ["a"] that has one child ["b"]: a tree of
    three levels with one leaf. *)

Definition ex_chain_heap : list node :=
  [ ex_node "r" "root" None [1%nat];
    ex_node "a" "one" (Some "r") [2%nat];
    ex_node "b" "two" (Some "a") [] ].

Definition ex_chain_tree : rtree := RT 0%nat [RT 1%nat [RT 2%nat []]].

Definition ex_chain_state : TreeModel :=
  mkModel ex_chain_heap
          (Some (mkRaw 0%nat (Some "r") (Some []) (Some DEFAULT_GENERATION_SETTINGS)))
          (Some [("r", 0%nat); ("a", 1%nat); ("b", 2%nat)])
          (Some "r") 0%nat [] [] [].

(** ** Backends and settings used in the examples *)

(** Four completions, for the four placeholders of [ex_gen_state]. *)
Definition ex_backend_four : backend :=
  mkBackend (Some [ mkCompletion " first" [] []; mkCompletion " second" [] [];
                    mkCompletion " third" [] []; mkCompletion " fourth" [] [] ], None)
            (fun _ => (None, None)).

(** One completion whose second token is the least likely one; with a
    prompt of ten characters it starts at offset 6 of the completion. *)
Definition ex_backend_adaptive : backend :=
  mkBackend (Some [ mkCompletion "hello world" [Qmake (-1) 10; Qmake (-5) 1; Qmake (-2) 1]
                                 [10; 16; 20] ], None)
            (fun _ => (None, None)).

Definition ex_settings (janus_on adaptive_on : bool) : gen_settings :=
  mkGen (Some 1) (Some (Qmake 9 10)) (Some (Qmake 1 1)) (Some 100) (Some 6000)
        (Some janus_on) (Some adaptive_on) (Some "davinci") (Some "").

(** The chain with the given settings: its middle node and its leaf stand
    for a placeholder and its grandchild. *)
Definition ex_chain_with (gs : gen_settings) : TreeModel :=
  mkModel ex_chain_heap (Some (mkRaw 0%nat (Some "r") (Some []) (Some gs)))
          (Some [("r", 0%nat); ("a", 1%nat); ("b", 2%nat)])
          (Some "r") 0%nat [] [] [].

(** ** A document with the children listed

    The document of the spec's scenario with an empty list of children on
    the child; no node has an id yet. *)

Definition ex_listed_heap : list node :=
  [ mkNode None (Some "Once") None (Some [1%nat]) None None None None;
    mkNode None (Some " upon a time") None (Some []) None None None None ].

Definition ex_listed_state : TreeModel :=
  mkModel ex_listed_heap None None None 0%nat [] [] [].

Definition ex_listed_doc : loaded_data := Document (mkRaw 0%nat None None None).

(** ** Chapters

    [_init_global_objects] binds [self.chapters] to the dictionary
    [tree_raw_data["chapters"]] itself: the attribute and the document
    share one object.  The dictionary is kept where the document keeps it,
    so that what a method writes through the attribute is in the document
    as well.  Before the first load the document and the attribute are
    both [None].  A load that raises before it reaches
    [_init_global_objects] leaves the attribute on the dictionary of the
    document loaded before it; the methods are not followed from such a
    state. *)

Definition chapters_dict := list (string * chapter).

Fixpoint chapters_get (d : chapters_dict) (k : string) : option chapter :=
  match d with
  | [] => None
  | (k', v) :: r => if decide (k = k') then Some v else chapters_get r k
  end.

(** [d[k] = v]: a new key goes to the end. *)
Fixpoint chapters_set (d : chapters_dict) (k : string) (v : chapter) : chapters_dict :=
  match d with
  | [] => [(k, v)]
  | (k', v') :: r =>
      if decide (k = k') then (k', v) :: r else (k', v') :: chapters_set r k v
  end.

(** [d.pop(k)] on a dictionary that has the key. *)
Fixpoint chapters_pop (d : chapters_dict) (k : string) : chapters_dict :=
  match d with
  | [] => []
  | (k', v) :: r => if decide (k = k') then r else (k', v) :: chapters_pop r k
  end.

Definition set_chapter_id (v : option string) (n : node) : node :=
  mkNode (n_id n) (n_text n) (n_parent_id n) (n_children n) (n_open n) (n_visited n)
         (n_active_text n) v.

Definition chapter_id_at (h : list node) (a : addr) : option string :=
  match h !! a with Some n => n_chapter_id n | None => None end.

(** The attribute [self.chapters]. *)
Definition chapters : M (option chapters_dict) :=
  let* st := get in
  ret (match tree_raw_data st with Some rd => rd_chapters rd | None => None end).

(** A write to the dictionary that [self.chapters] is bound to. *)
Definition with_chapters (d : chapters_dict) (st : TreeModel) : TreeModel :=
  with_raw (option_map (fun rd => mkRaw (rd_root rd) (rd_selected_node_id rd) (Some d)
                                        (rd_generation_settings rd))
                       (tree_raw_data st)) st.

(** [self.chapters[k]]. *)
Definition chapters_item (k : string) : M chapter :=
  let* c := chapters in
  let* d := not_none c in
  key (chapters_get d k).

(** [TreeModel.chapter_title]. *)
Definition chapter_title (node : addr) : M string :=
  let* n := read node in
  match n_chapter_id n with
  | Some cid => let* ch := chapters_item cid in ret (ch_title ch)
  | None => ret ""%string
  end.

(** [TreeModel.chapter], here [chapter_of] (the record of a chapter has
    the name): the loop over the reversed ancestry, then the method. *)
Fixpoint chapter_loop (lineage : list addr) : M (option chapter) :=
  match lineage with
  | [] => ret None
  | lineage_node :: rest =>
      let* n := read lineage_node in
      match n_chapter_id n with
      | Some cid => let* ch := chapters_item cid in ret (Some ch)
      | None => chapter_loop rest
      end
  end.

Definition chapter_of (node : addr) : M (option chapter) :=
  let* st := get in
  let* ancestry := node_ancestry node (tree_node_dict st) in
  chapter_loop (rev ancestry).

(** [node if node else self.tree_raw_data['root']]. *)
Definition or_root (node : option addr) : M addr :=
  match node with
  | Some a => let* n := read a in if node_truthy n then ret a else raw_root
  | None => raw_root
  end.

Section Chapters.

Variable uuid1 : nat -> string.
Variable html2text_handle : string -> string.

(** [TreeModel.delete_chapter].  [pop] is looked up on [self.chapters]
    before its argument is evaluated. *)
Definition delete_chapter (ch : chapter) (update_tree : bool) : M unit :=
  let* c := chapters in
  match c with
  | None => raise AttributeError
  | Some d =>
      match chapters_get d (ch_id ch) with
      | None => raise KeyError
      | Some _ => modify (with_chapters (chapters_pop d (ch_id ch)))
      end
  end ;;;
  let* st := get in
  let* root := dict_lookup (tree_node_dict st) (ch_root_id ch) in
  let* n := read root in
  match n_chapter_id n with
  | None => raise KeyError
  | Some _ => update root (set_chapter_id None)
  end ;;;
  when update_tree (tree_updated uuid1 html2text_handle true).

(** [TreeModel.create_new_chapter]. *)
Definition create_new_chapter (node : addr) (title : string) : M unit :=
  let* n := read node in
  match n_chapter_id n with
  | Some cid => let* ch := chapters_item cid in delete_chapter ch false
  | None => ret tt
  end ;;;
  (if decide (title = ""%string) then ret tt
   else
     let* new_id := str_uuid1 uuid1 in
     let* root_id := get_id node in
     let new_chapter := mkChapter new_id root_id title in
     let* c := chapters in
     let* d := not_none c in
     modify (with_chapters (chapters_set d new_id new_chapter)) ;;;
     update node (set_chapter_id (Some new_id))) ;;;
  tree_updated uuid1 html2text_handle true.

(** [TreeModel.remove_all_chapters].  On a tree the recursion ends.  Where
    it does not, the interpreter raises [RecursionError]: every
    [delete_chapter] that returns takes the key [chapter_id] from a node,
    so no more of them return than the store has nodes, and a chain of
    more nested calls than the bound below has a stretch of more calls
    than the store has nodes during which nothing is deleted; two calls of
    that stretch are on the same node, in the same state, and what lies
    between them repeats for ever. *)
Fixpoint remove_all_chapters_rec (depth : nat) (node : option addr) : M unit :=
  match depth with
  | O => raise RecursionError
  | S depth' =>
      let was_root := negb (has_key node) in
      let* a := or_root node in
      let* n := read a in
      match n_chapter_id n with
      | Some cid => let* ch := chapters_item cid in delete_chapter ch false
      | None => ret tt
      end ;;;
      let* children := get_children a in
      for_each children (fun child _ => remove_all_chapters_rec depth' (Some child)) tt ;;;
      when was_root (tree_updated uuid1 html2text_handle true)
  end.

Definition remove_all_chapters (node : option addr) : M unit :=
  let* st := get in
  remove_all_chapters_rec (S (length (heap st)) * S (length (heap st))) node.

End Chapters.

(** The chapters of the nodes of [t] are in the dictionary [chs] under
    their ids, each with the id of its node as root. *)
Record chapters_ok (st : TreeModel) (t : rtree) (chs : chapters_dict) : Prop :=
  mk_chapters_ok {
    co_chapters : option_map rd_chapters (tree_raw_data st) = Some (Some chs);
    co_keys : NoDup (map fst chs);
    co_nodes : forall a cid, a ∈ preorder t -> chapter_id_at (heap st) a = Some cid ->
        exists ch, chapters_get chs cid = Some ch /\ ch_id ch = cid
                   /\ id_at (heap st) a = Some (ch_root_id ch) }.

(** The model [st1] with the chapters [chs1], after the chapters of the
    nodes [done] of the tree [t] have been deleted from the model [st]
    with the chapters [chs]. *)
Record chapters_cleared (st : TreeModel) (t : rtree) (chs : chapters_dict)
    (done : list addr) (st1 : TreeModel) (chs1 : chapters_dict) : Prop :=
  mk_chapters_cleared {
    cc_ok : tree_ok st1 t;
    cc_chapters : option_map rd_chapters (tree_raw_data st1) = Some (Some chs1);
    cc_keys : NoDup (map fst chs1);
    cc_done : forall b, b ∈ done -> chapter_id_at (heap st1) b = None;
    cc_rest : forall b, b ∉ done -> heap st1 !! b = heap st !! b;
    cc_frame : forall b, frame_at (heap st1) b = frame_at (heap st) b;
    cc_gone : forall b cid, b ∈ done -> chapter_id_at (heap st) b = Some cid ->
                chapters_get chs1 cid = None;
    cc_kept : forall k, (forall b, b ∈ done -> chapter_id_at (heap st) b <> Some k) ->
                chapters_get chs1 k = chapters_get chs k }.

(** The chain with the chapter ["One"] on its middle node. *)
Definition ex_chaptered_state : TreeModel :=
  Eval vm_compute in snd (create_new_chapter ex_uuid ex_html 1%nat "One" ex_chain_state).

Definition ex_chapters : chapters_dict := [("u", mkChapter "u" "a" "One")].

(** * Properties *)

Close Scope string_scope.

(** ** Stepping through computations *)

Lemma bind_ok {A B : Type} (m : M A) (k : A -> M B) st a st' :
  m st = (Ok a, st') -> bind m k st = k a st'.
Proof. intros H. unfold bind. rewrite H. reflexivity. Qed.

Lemma bind_raise {A B : Type} (m : M A) (k : A -> M B) st e st' :
  m st = (Raise e, st') -> bind m k st = (Raise e, st').
Proof. intros H. unfold bind. rewrite H. reflexivity. Qed.

Lemma bind_assoc {A B C : Type} (m : M A) (k : A -> M B) (k' : B -> M C) st :
  bind (bind m k) k' st = bind m (fun x => bind (k x) k') st.
Proof. unfold bind. destruct (m st) as [[a|e|] st']; reflexivity. Qed.

Lemma bind_ret_l {A B : Type} (a : A) (k : A -> M B) st : bind (ret a) k st = k a st.
Proof. reflexivity. Qed.

Lemma bind_get {A : Type} (k : TreeModel -> M A) st : bind get k st = k st st.
Proof. reflexivity. Qed.

Lemma bind_modify {A : Type} f (k : unit -> M A) st : bind (modify f) k st = k tt (f st).
Proof. reflexivity. Qed.

Ltac mget := rewrite ?bind_assoc; rewrite bind_get; cbv beta iota.
Ltac mmod := rewrite ?bind_assoc; rewrite bind_modify; cbv beta iota.
Ltac mstep H := rewrite ?bind_assoc; rewrite (bind_ok _ _ _ _ _ H); cbv beta iota.
Ltac mret := rewrite ?bind_assoc; rewrite bind_ret_l; cbv beta iota.

Lemma read_ok st a n : heap st !! a = Some n -> read a st = (Ok n, st).
Proof. intros H. unfold read. rewrite H. reflexivity. Qed.

Lemma update_ok st a n f :
  heap st !! a = Some n ->
  update a f st = (Ok tt, with_heap (<[a := f n]> (heap st)) st).
Proof. intros H. unfold update. mstep (read_ok _ _ _ H). reflexivity. Qed.

Lemma get_id_ok st a n i :
  heap st !! a = Some n -> n_id n = Some i -> get_id a st = (Ok i, st).
Proof. intros H Hi. unfold get_id. mstep (read_ok _ _ _ H). rewrite Hi. reflexivity. Qed.

Lemma get_text_ok st a n s :
  heap st !! a = Some n -> n_text n = Some s -> get_text a st = (Ok s, st).
Proof. intros H Hi. unfold get_text. mstep (read_ok _ _ _ H). rewrite Hi. reflexivity. Qed.

Lemma get_children_ok st a n cs :
  heap st !! a = Some n -> n_children n = Some cs -> get_children a st = (Ok cs, st).
Proof.
  intros H Hi. unfold get_children. mstep (read_ok _ _ _ H). rewrite Hi. reflexivity.
Qed.

Lemma or_selected_some st a n :
  heap st !! a = Some n -> node_truthy n = true ->
  or_selected (Some a) st = (Ok (Some a), st).
Proof. intros H Ht. unfold or_selected. mstep (read_ok _ _ _ H). rewrite Ht. reflexivity. Qed.

Lemma is_falsy_some st a n :
  heap st !! a = Some n -> node_truthy n = true ->
  is_falsy (Some a) st = (Ok false, st).
Proof. intros H Ht. unfold is_falsy. mstep (read_ok _ _ _ H). rewrite Ht. reflexivity. Qed.

Lemma node_truthy_id n : is_Some (n_id n) -> node_truthy n = true.
Proof. intros [i Hi]. unfold node_truthy. rewrite Hi. reflexivity. Qed.

(** [self.parent(node)] on a node without [parent_id]. *)
Lemma parent_root_raises (st : TreeModel) (a : addr) (n : node) :
  heap st !! a = Some n -> n_parent_id n = None -> parent a st = (Raise KeyError, st).
Proof.
  intros Ha Hp. unfold parent. mstep (read_ok _ _ _ Ha). rewrite Hp. reflexivity.
Qed.

Section RootGuards.

Variable uuid1 : nat -> string.
Variable html2text_handle : string -> string.

(** ** Deleting or merging the root *)

(** C10: [delete_node] on a node without [parent_id] returns without
    raising and leaves the whole model as it was: the store (tree and
    texts), the selection, the index and the list of fired notifications.
    The same holds when the node is left out and the selection is such a
    node. *)
Theorem delete_node_root_is_noop (st : TreeModel) (a : addr) (n : node)
    (reassign_children : bool) :
  heap st !! a = Some n -> node_truthy n = true -> n_parent_id n = None ->
  delete_node uuid1 html2text_handle (Some a) reassign_children st = (Ok tt, st)
  /\ (selected_node st = (Ok (Some a), st) ->
      delete_node uuid1 html2text_handle None reassign_children st = (Ok tt, st)).
Proof.
  intros Ha Ht Hp. split.
  - unfold delete_node. mstep (or_selected_some _ _ _ Ha Ht).
    unfold not_none. mstep (eq_refl (ret a st)). mstep (read_ok _ _ _ Ha).
    rewrite Hp. reflexivity.
  - intros Hs. unfold delete_node, or_selected. mstep Hs.
    unfold not_none. mstep (eq_refl (ret a st)). mstep (read_ok _ _ _ Ha).
    rewrite Hp. reflexivity.
Qed.

(** C5: on a node without [parent_id], the root, [merge_with_parent] is no
    silent no-op: it raises [KeyError] at [node["parent_id"]], before it
    has changed anything.  ([delete_node] and [change_parent] test
    ["parent_id" not in node] first; [merge_with_parent] does not.) *)
Theorem merge_with_parent_root_raises (st : TreeModel) (a : addr) (n : node) :
  heap st !! a = Some n -> node_truthy n = true -> n_parent_id n = None ->
  merge_with_parent uuid1 html2text_handle (Some a) st = (Raise KeyError, st).
Proof.
  intros Ha Ht Hp. unfold merge_with_parent.
  mstep (or_selected_some _ _ _ Ha Ht). mstep (is_falsy_some _ _ _ Ha Ht).
  apply bind_raise. apply (parent_root_raises st a n Ha Hp).
Qed.

End RootGuards.

(** ** Trees and their nodes *)

(** Induction on a tree with the subtrees as hypotheses. *)
Lemma rtree_ind' (P : rtree -> Prop) :
  (forall a ks, Forall P ks -> P (RT a ks)) -> forall t, P t.
Proof.
  intros step. fix IH 1. intros [a ks]. apply step.
  induction ks as [|k ks IHks]; constructor; [apply IH | exact IHks].
Qed.

Lemma forest_nodes_cons k ks : forest_nodes (k :: ks) = (preorder k ++ forest_nodes ks)%list.
Proof. reflexivity. Qed.

Lemma forest_nodes_app ks1 ks2 :
  forest_nodes (ks1 ++ ks2) = (forest_nodes ks1 ++ forest_nodes ks2)%list.
Proof. unfold forest_nodes. rewrite map_app, concat_app. reflexivity. Qed.

Lemma preorder_unfold a ks : preorder (RT a ks) = a :: forest_nodes ks.
Proof. reflexivity. Qed.

Lemma raddr_in_preorder t : raddr t ∈ preorder t.
Proof. destruct t. rewrite preorder_unfold. simpl. apply list_elem_of_here. Qed.

Lemma elem_of_forest_nodes b ks :
  b ∈ forest_nodes ks <-> exists k, k ∈ ks /\ b ∈ preorder k.
Proof.
  unfold forest_nodes. induction ks as [|k ks IH]; simpl.
  - split; [intros H; inversion H | intros (k & H & _); inversion H].
  - rewrite elem_of_app, IH. split.
    + intros [H | (k' & H1 & H2)].
      * exists k. split; [apply list_elem_of_here | exact H].
      * exists k'. split; [apply list_elem_of_further, H1 | exact H2].
    + intros (k' & H1 & H2). apply elem_of_cons in H1 as [-> | H1].
      * left. exact H2.
      * right. exists k'. split; assumption.
Qed.

Lemma kid_root_in_forest k ks : k ∈ ks -> raddr k ∈ forest_nodes ks.
Proof. intros H. apply elem_of_forest_nodes. exists k. split; [exact H | apply raddr_in_preorder]. Qed.

Lemma height_le_nodes t : (height t <= length (preorder t))%nat.
Proof.
  induction t as [a ks IH] using rtree_ind'. rewrite preorder_unfold. simpl.
  apply le_n_S. induction IH as [|k ks Hk _ IHks]; simpl; [lia |].
  rewrite forest_nodes_cons, length_app. lia.
Qed.

Lemma height_kid k a ks : k ∈ ks -> (height k < height (RT a ks))%nat.
Proof.
  intros H. simpl. apply Nat.lt_succ_r.
  induction ks as [|k' ks IH]; [inversion H |].
  simpl. apply elem_of_cons in H as [-> | H]; [lia |]. specialize (IH H). lia.
Qed.

(** ** What the store holds for a tree *)

Lemma shape_inv h a ks :
  shape h (RT a ks) ->
  exists n, h !! a = Some n /\ default [] (n_children n) = map raddr ks
            /\ Forall (shape h) ks.
Proof. intros H. inversion H; subst. eauto. Qed.

Lemma shape_lookup h t b : shape h t -> b ∈ preorder t -> is_Some (h !! b).
Proof.
  induction t as [a ks IH] using rtree_ind'. intros Hs Hb.
  apply shape_inv in Hs as (n & Hn & _ & Hks).
  rewrite preorder_unfold in Hb. apply elem_of_cons in Hb as [-> | Hb]; [eauto |].
  apply elem_of_forest_nodes in Hb as (k & Hk & Hb).
  rewrite Forall_forall in IH, Hks. eapply IH; eauto.
Qed.

Lemma shape_lt h t b : shape h t -> b ∈ preorder t -> (b < length h)%nat.
Proof. intros Hs Hb. apply lookup_lt_is_Some. eapply shape_lookup; eauto. Qed.

(** [shape] only reads the children of the tree's own nodes. *)
Lemma shape_ext h h' t :
  shape h t ->
  (forall b, b ∈ preorder t ->
     is_Some (h' !! b) /\ default [] (children_at h' b) = default [] (children_at h b)) ->
  shape h' t.
Proof.
  induction t as [a ks IH] using rtree_ind'. intros Hs Hext.
  apply shape_inv in Hs as (n & Hn & Hc & Hks).
  destruct (Hext a (raddr_in_preorder (RT a ks))) as [[n' Hn'] Hca].
  apply shape_node with n'; [exact Hn' | |].
  - unfold children_at in Hca. rewrite Hn, Hn' in Hca. congruence.
  - rewrite Forall_forall in IH, Hks. apply Forall_forall. intros k Hk.
    apply IH; [exact Hk | apply Hks, Hk |].
    intros b Hb. apply Hext. rewrite preorder_unfold. apply list_elem_of_further.
    apply elem_of_forest_nodes. eauto.
Qed.

Lemma linked_inv h a ks :
  linked h (RT a ks) ->
  Forall (fun k => parent_id_at h (raddr k) = id_at h a /\ linked h k) ks.
Proof. intros H. inversion H; subst. assumption. Qed.

(** [linked] reads the ids of the tree's nodes and the parent ids of all
    of them but the root. *)
Lemma linked_ext h h' t :
  linked h t ->
  (forall b, b ∈ preorder t -> id_at h' b = id_at h b) ->
  (forall b, b ∈ preorder t -> b <> raddr t -> parent_id_at h' b = parent_id_at h b) ->
  NoDup (preorder t) ->
  linked h' t.
Proof.
  induction t as [a ks IH] using rtree_ind'. intros Hl Hid Hp Hnd.
  apply linked_inv in Hl. constructor.
  rewrite preorder_unfold in Hnd. apply NoDup_cons in Hnd as [Ha Hnd].
  rewrite Forall_forall in IH, Hl. apply Forall_forall. intros k Hk.
  destruct (Hl k Hk) as [Hpk Hlk].
  assert (Hin : forall b, b ∈ preorder k -> b ∈ preorder (RT a ks)).
  { intros b Hb. rewrite preorder_unfold. apply list_elem_of_further.
    apply elem_of_forest_nodes. eauto. }
  assert (Hne : forall b, b ∈ preorder k -> b <> a).
  { intros b Hb ->. apply Ha. apply elem_of_forest_nodes. eauto. }
  assert (Hndk : NoDup (preorder k)).
  { clear -Hnd Hk. induction ks as [|k' ks IHks]; [inversion Hk |].
    rewrite forest_nodes_cons in Hnd. apply NoDup_app in Hnd as (H1 & _ & H2).
    apply elem_of_cons in Hk as [-> | Hk]; auto. }
  split.
  - rewrite (Hp (raddr k));
      [| apply Hin, raddr_in_preorder | apply Hne, raddr_in_preorder].
    rewrite (Hid a); [exact Hpk | apply (raddr_in_preorder (RT a ks))].
  - apply IH; auto.
Qed.

Lemma NoDup_kid a ks k : NoDup (preorder (RT a ks)) -> k ∈ ks -> NoDup (preorder k).
Proof.
  rewrite preorder_unfold. intros Hnd Hk. apply NoDup_cons in Hnd as [_ Hnd].
  induction ks as [|k' ks IHks]; [inversion Hk |].
  rewrite forest_nodes_cons in Hnd. apply NoDup_app in Hnd as (H1 & _ & H2).
  apply elem_of_cons in Hk as [-> | Hk]; auto.
Qed.

Lemma NoDup_forest_kid ks k : NoDup (forest_nodes ks) -> k ∈ ks -> NoDup (preorder k).
Proof.
  intros Hnd Hk. induction ks as [|k' ks IHks]; [inversion Hk |].
  rewrite forest_nodes_cons in Hnd. apply NoDup_app in Hnd as (H1 & _ & H2).
  apply elem_of_cons in Hk as [-> | Hk]; auto.
Qed.

(** A list of distinct addresses of the store is no longer than the store. *)
Lemma NoDup_bounded_length (l : list nat) (n : nat) :
  NoDup l -> (forall x, x ∈ l -> (x < n)%nat) -> (length l <= n)%nat.
Proof.
  intros Hnd Hlt. rewrite <- (length_seq n 0%nat).
  apply NoDup_incl_length.
  - apply NoDup_ListNoDup, Hnd.
  - intros x Hx. apply in_seq. apply list_elem_of_In in Hx. specialize (Hlt x Hx). lia.
Qed.

Lemma height_le_store h t :
  shape h t -> NoDup (preorder t) -> (height t <= length h)%nat.
Proof.
  intros Hs Hnd. etransitivity; [apply height_le_nodes |].
  apply NoDup_bounded_length; [exact Hnd |]. intros x Hx. eapply shape_lt; eauto.
Qed.

(** ** Equality of nodes with different ids *)

Lemma node_eq_refl h a : node_eq h a a = Some true.
Proof. unfold node_eq. simpl. rewrite Nat.eqb_refl. reflexivity. Qed.

Lemma node_eq_diff h a b :
  is_Some (h !! a) -> is_Some (h !! b) -> id_at h a <> id_at h b ->
  node_eq h a b = Some false.
Proof.
  intros [x Hx] [y Hy] Hne. unfold node_eq. simpl.
  destruct (Nat.eqb_spec a b) as [-> | Hab]; [exfalso; apply Hne; reflexivity |].
  rewrite Hx, Hy. unfold id_at in Hne. rewrite Hx, Hy in Hne.
  unfold scalars_eqb. rewrite (bool_decide_eq_false_2 _ Hne). reflexivity.
Qed.

Lemma index_in_spec h l1 a l2 :
  (forall y, y ∈ l1 -> node_eq h y a = Some false) ->
  index_in h (l1 ++ a :: l2) a = Ok (length l1).
Proof.
  induction l1 as [|y l1 IH]; intros Hne; simpl.
  - rewrite node_eq_refl. reflexivity.
  - rewrite (Hne y (list_elem_of_here _ _)).
    rewrite IH; [reflexivity |]. intros z Hz. apply Hne, list_elem_of_further, Hz.
Qed.

Lemma remove_in_spec h l1 a l2 :
  (forall y, y ∈ l1 -> node_eq h y a = Some false) ->
  remove_in h (l1 ++ a :: l2) a = Ok (l1 ++ l2)%list.
Proof.
  induction l1 as [|y l1 IH]; intros Hne; simpl.
  - rewrite node_eq_refl. reflexivity.
  - rewrite (Hne y (list_elem_of_here _ _)).
    rewrite IH; [reflexivity |]. intros z Hz. apply Hne, list_elem_of_further, Hz.
Qed.

Lemma NoDup_map_inj_on {A B : Type} (f : A -> B) (l : list A) (a b : A) :
  NoDup (map f l) -> a ∈ l -> b ∈ l -> f a = f b -> a = b.
Proof.
  induction l as [|x l IH]; intros Hnd Ha Hb Hf; [inversion Ha |].
  simpl in Hnd. apply NoDup_cons in Hnd as [Hx Hnd].
  apply elem_of_cons in Ha as [-> | Ha]; apply elem_of_cons in Hb as [-> | Hb]; auto.
  - exfalso. apply Hx. rewrite Hf. apply (list_elem_of_fmap_2 f), Hb.
  - exfalso. apply Hx. rewrite <- Hf. apply (list_elem_of_fmap_2 f), Ha.
Qed.

(** Two different nodes of a tree in the store are not equal. *)
Lemma tree_in_node_eq h t a b :
  tree_in h t -> a ∈ preorder t -> b ∈ preorder t -> a <> b ->
  node_eq h a b = Some false.
Proof.
  intros [Hs Hk Hids _] Ha Hb Hab. apply node_eq_diff.
  - eapply shape_lookup; eauto.
  - eapply shape_lookup; eauto.
  - intros Heq. apply Hab. eapply NoDup_map_inj_on; eauto.
Qed.

Lemma tree_in_nodup h t : tree_in h t -> NoDup (preorder t).
Proof. intros [_ _ Hids _]. eapply (NoDup_fmap_1 (id_at h)). exact Hids. Qed.

(** ** The index *)

Lemma dict_get_None d k : k ∉ dict_keys d -> dict_get d k = None.
Proof.
  induction d as [|[k' v] d IH]; intros Hk; simpl; [reflexivity |].
  destruct (decide (k = k')) as [-> | Hne].
  - exfalso. apply Hk. simpl. apply list_elem_of_here.
  - apply IH. intros H. apply Hk. simpl. apply list_elem_of_further, H.
Qed.

Lemma dict_set_fresh d k v : k ∉ dict_keys d -> dict_set d k v = (d ++ [(k, v)])%list.
Proof.
  induction d as [|[k' v'] d IH]; intros Hk; simpl; [reflexivity |].
  destruct (decide (k = k')) as [-> | Hne].
  - exfalso. apply Hk. simpl. apply list_elem_of_here.
  - rewrite IH; [reflexivity |]. intros H. apply Hk. simpl. apply list_elem_of_further, H.
Qed.

Lemma dict_get_app_l d1 d2 k v :
  dict_get d1 k = Some v -> dict_get (d1 ++ d2) k = Some v.
Proof.
  induction d1 as [|[k' v'] d1 IH]; simpl; [discriminate |].
  destruct (decide (k = k')); auto.
Qed.

Lemma dict_get_app_r d1 d2 k :
  k ∉ dict_keys d1 -> dict_get (d1 ++ d2) k = dict_get d2 k.
Proof.
  induction d1 as [|[k' v'] d1 IH]; simpl; intros Hk; [reflexivity |].
  destruct (decide (k = k')) as [-> | Hne].
  - exfalso. apply Hk. apply list_elem_of_here.
  - apply IH. intros H. apply Hk. apply list_elem_of_further, H.
Qed.

Lemma dict_values_index_of h l : dict_values (index_of h l) = l.
Proof.
  unfold dict_values, index_of. rewrite map_map. simpl. apply map_id.
Qed.

Lemma dict_keys_index_of h l :
  (forall x, x ∈ l -> is_Some (id_at h x)) ->
  map Some (dict_keys (index_of h l)) = map (id_at h) l.
Proof.
  intros Hs. unfold dict_keys, index_of. rewrite !map_map. simpl.
  apply map_ext_in. intros a Ha. apply list_elem_of_In in Ha.
  destruct (Hs a Ha) as [i ->]. reflexivity.
Qed.

Lemma length_index_of h l : length (index_of h l) = length l.
Proof. unfold index_of. apply length_map. Qed.

Lemma dict_get_index_of h l a i :
  (forall x, x ∈ l -> is_Some (id_at h x)) ->
  NoDup (map (id_at h) l) -> a ∈ l -> id_at h a = Some i ->
  dict_get (index_of h l) i = Some a.
Proof.
  induction l as [|x l IH]; intros Hs Hnd Ha Hi; [inversion Ha |].
  simpl in Hnd. apply NoDup_cons in Hnd as [Hx Hnd]. simpl.
  apply elem_of_cons in Ha as [-> | Ha].
  - rewrite Hi. simpl. rewrite decide_True by reflexivity. reflexivity.
  - destruct (Hs x (list_elem_of_here _ _)) as [j Hj]. rewrite Hj. simpl.
    destruct (decide (i = j)) as [-> | Hne].
    + exfalso. apply Hx. rewrite Hj, <- Hi. apply (list_elem_of_fmap_2 (id_at h)), Ha.
    + apply IH; auto. intros y Hy. apply Hs, list_elem_of_further, Hy.
Qed.

Lemma dict_get_index_of_inv h l a i :
  (forall x, x ∈ l -> is_Some (id_at h x)) ->
  dict_get (index_of h l) i = Some a -> a ∈ l /\ id_at h a = Some i.
Proof.
  induction l as [|x l IH]; intros Hs Hg; [discriminate |].
  simpl in Hg. destruct (Hs x (list_elem_of_here _ _)) as [j Hj].
  rewrite Hj in Hg. simpl in Hg.
  destruct (decide (i = j)) as [-> | Hne].
  - injection Hg as <-. split; [apply list_elem_of_here | exact Hj].
  - destruct IH as [H1 H2]; auto.
    + intros y Hy. apply Hs, list_elem_of_further, Hy.
    + split; [apply list_elem_of_further, H1 | exact H2].
Qed.

Lemma id_at_get_id st a i : id_at (heap st) a = Some i -> get_id a st = (Ok i, st).
Proof.
  unfold id_at. destruct (heap st !! a) as [n|] eqn:Hn; [| discriminate].
  intros Hi. eapply get_id_ok; eauto.
Qed.

Lemma build_dict_acc l : forall acc st,
  (forall x, x ∈ l -> is_Some (id_at (heap st) x)) ->
  NoDup (map (id_at (heap st)) l) ->
  (forall x, x ∈ l -> forall i, id_at (heap st) x = Some i -> i ∉ dict_keys acc) ->
  for_each l (fun d acc => let* i := get_id d in ret (dict_set acc i d)) acc st
  = (Ok (acc ++ index_of (heap st) l)%list, st).
Proof.
  induction l as [|x l IH]; intros acc st Hs Hnd Hfresh; simpl.
  - rewrite app_nil_r. reflexivity.
  - destruct (Hs x (list_elem_of_here _ _)) as [i Hi].
    apply NoDup_cons in Hnd as [Hx Hnd].
    rewrite (bind_ok _ _ _ _ _ (bind_ok _ _ _ _ _ (id_at_get_id _ _ _ Hi))).
    rewrite dict_set_fresh by (eapply Hfresh; [apply list_elem_of_here | exact Hi]).
    rewrite IH.
    + rewrite Hi. simpl. rewrite <- app_assoc. reflexivity.
    + intros y Hy. apply Hs, list_elem_of_further, Hy.
    + exact Hnd.
    + intros y Hy j Hj. unfold dict_keys. rewrite map_app. simpl.
      rewrite elem_of_app. intros [Hin | Hin].
      * eapply Hfresh; [apply list_elem_of_further, Hy | exact Hj | exact Hin].
      * apply list_elem_of_singleton in Hin. subst j. apply Hx. rewrite Hi, <- Hj.
        apply (list_elem_of_fmap_2 (id_at (heap st))), Hy.
Qed.

Lemma build_dict_spec l st :
  (forall x, x ∈ l -> is_Some (id_at (heap st) x)) ->
  NoDup (map (id_at (heap st)) l) ->
  build_dict l st = (Ok (index_of (heap st) l), st).
Proof.
  intros Hs Hnd. unfold build_dict. rewrite build_dict_acc; auto.
  intros x _ i _ H. inversion H.
Qed.

(** ** Single writes to the store *)

Ltac stsimp :=
  cbn [heap tree_raw_data tree_node_dict selected_node_id uuid_clock fired
       app_queue started with_heap with_raw with_dict with_selected with_clock
       with_fired with_queue with_started] in *.

Ltac stnorm :=
  unfold with_heap, with_raw, with_dict, with_selected, with_clock, with_fired,
         with_queue, with_started;
  cbn [heap tree_raw_data tree_node_dict selected_node_id uuid_clock fired
       app_queue started].

Lemma lookup_write_eq (h : list node) a n n' :
  h !! a = Some n -> <[a := n']> h !! a = Some n'.
Proof. intros H. apply list_lookup_insert_eq. eapply lookup_lt_Some, H. Qed.

Lemma lookup_write_ne (h : list node) a b n' :
  a <> b -> <[a := n']> h !! b = h !! b.
Proof. intros H. apply list_lookup_insert_ne, H. Qed.

Lemma payload_at_write (h : list node) a n n' b :
  h !! a = Some n -> payload n' = payload n ->
  payload_at (<[a := n']> h) b = payload_at h b.
Proof.
  intros Ha Hp. unfold payload_at. destruct (decide (a = b)) as [-> | Hne].
  - rewrite (lookup_write_eq _ _ _ _ Ha), Ha. simpl. congruence.
  - rewrite lookup_write_ne by exact Hne. reflexivity.
Qed.

Lemma id_at_write_ne (h : list node) a n' b :
  a <> b -> id_at (<[a := n']> h) b = id_at h b.
Proof. intros H. unfold id_at. rewrite lookup_write_ne by exact H. reflexivity. Qed.

Lemma id_at_write_same (h : list node) a n n' b :
  h !! a = Some n -> n_id n' = n_id n -> id_at (<[a := n']> h) b = id_at h b.
Proof.
  intros Ha Hi. destruct (decide (a = b)) as [-> | Hne].
  - unfold id_at. rewrite (lookup_write_eq _ _ _ _ Ha), Ha. exact Hi.
  - apply id_at_write_ne, Hne.
Qed.

Lemma parent_id_at_write_ne (h : list node) a n' b :
  a <> b -> parent_id_at (<[a := n']> h) b = parent_id_at h b.
Proof. intros H. unfold parent_id_at. rewrite lookup_write_ne by exact H. reflexivity. Qed.

Lemma payload_children h h' b :
  payload_at h' b = payload_at h b -> children_at h' b = children_at h b.
Proof.
  unfold payload_at, children_at, payload.
  destruct (h' !! b), (h !! b); simpl; congruence.
Qed.

Lemma payload_text h h' b :
  payload_at h' b = payload_at h b -> text_at h' b = text_at h b.
Proof.
  unfold payload_at, text_at, payload.
  destruct (h' !! b), (h !! b); simpl; congruence.
Qed.

Lemma payload_is_Some h h' b :
  payload_at h' b = payload_at h b -> is_Some (h !! b) -> is_Some (h' !! b).
Proof.
  unfold payload_at. intros H [n Hn]. rewrite Hn in H.
  destruct (h' !! b); [eauto | discriminate].
Qed.

Lemma shape_payload h h' t :
  shape h t -> (forall b, payload_at h' b = payload_at h b) -> shape h' t.
Proof.
  intros Hs Hp. eapply shape_ext; [exact Hs |]. intros b Hb. split.
  - eapply payload_is_Some; [apply Hp | eapply shape_lookup; eauto].
  - rewrite (payload_children _ _ _ (Hp b)). reflexivity.
Qed.

(** ** The ids that flattening assigns *)

Lemma ids_from_app uuid1 h l1 : forall clk l2,
  ids_from uuid1 h clk (l1 ++ l2)
  = (ids_from uuid1 h clk l1 ++ ids_from uuid1 h (clk + missing h l1) l2)%list.
Proof.
  induction l1 as [|a l1 IH]; intros clk l2; simpl.
  - rewrite Nat.add_0_r. reflexivity.
  - destruct (id_at h a); simpl; rewrite IH; [reflexivity |].
    replace (S clk + missing h l1)%nat with (clk + S (missing h l1))%nat by lia.
    reflexivity.
Qed.

Lemma missing_app h l1 l2 : missing h (l1 ++ l2) = (missing h l1 + missing h l2)%nat.
Proof. induction l1 as [|a l1 IH]; simpl; [reflexivity | rewrite IH; lia]. Qed.

Lemma ids_from_ext uuid1 h h' l : forall clk,
  (forall b, b ∈ l -> id_at h' b = id_at h b) ->
  ids_from uuid1 h' clk l = ids_from uuid1 h clk l.
Proof.
  induction l as [|a l IH]; intros clk Hext; simpl; [reflexivity |].
  rewrite (Hext a (list_elem_of_here _ _)).
  destruct (id_at h a); rewrite IH; auto;
    intros b Hb; apply Hext, list_elem_of_further, Hb.
Qed.

Lemma missing_ext h h' l :
  (forall b, b ∈ l -> id_at h' b = id_at h b) -> missing h' l = missing h l.
Proof.
  induction l as [|a l IH]; intros Hext; simpl; [reflexivity |].
  rewrite (Hext a (list_elem_of_here _ _)), IH; auto.
  intros b Hb. apply Hext, list_elem_of_further, Hb.
Qed.

Lemma ids_from_present uuid1 h l clk :
  (forall b, b ∈ l -> is_Some (id_at h b)) ->
  map Some (ids_from uuid1 h clk l) = map (id_at h) l /\ missing h l = O.
Proof.
  induction l as [|a l IH]; intros Hs; simpl; [auto |].
  destruct (Hs a (list_elem_of_here _ _)) as [i Hi]. rewrite Hi. simpl.
  destruct IH as [IH1 IH2].
  - intros b Hb. apply Hs, list_elem_of_further, Hb.
  - rewrite IH1, IH2. auto.
Qed.

(** ** Flattening a tree of the store *)

Section Flatten.

Variable uuid1 : nat -> string.

Lemma flatten_forest (d : nat) (pid : string) (ks : list rtree) :
  Forall (flattens uuid1) ks ->
  forall st acc,
    Forall (fun k => (height k <= d)%nat) ks ->
    Forall (shape (heap st)) ks ->
    NoDup (forest_nodes ks) ->
    exists h',
      for_each (map raddr ks)
        (fun child flat =>
           update child (set_parent_id (Some pid)) ;;;
           let* sub := flatten_tree_rec uuid1 d child in
           ret (flat ++ sub)%list) acc st
      = (Ok (acc ++ forest_nodes ks)%list,
         with_clock (uuid_clock st + missing (heap st) (forest_nodes ks))
                    (with_heap h' st))
      /\ forest_post uuid1 (heap st) (uuid_clock st) pid ks h'.
Proof.
  induction 1 as [|k ks Hk _ IH]; intros st acc Hh Hs Hnd.
  - exists (heap st). split.
    + simpl. rewrite app_nil_r. destruct st; stnorm.
      rewrite Nat.add_0_r. reflexivity.
    + constructor; auto.
  - apply Forall_cons in Hh as [Hhk Hh]. apply Forall_cons in Hs as [Hsk Hs].
    rewrite forest_nodes_cons in Hnd. apply NoDup_app in Hnd as (Hndk & Hdisj & Hndks).
    destruct k as [a kks]. pose proof Hsk as Hsk0.
    apply shape_inv in Hsk0 as (n & Hn & _ & _).
    set (h1 := <[a := set_parent_id (Some pid) n]> (heap st)).
    assert (Hp1 : forall b, payload_at h1 b = payload_at (heap st) b).
    { intros b. eapply payload_at_write; eauto. }
    assert (Hid1 : forall b, id_at h1 b = id_at (heap st) b).
    { intros b. eapply id_at_write_same; eauto. }
    destruct (Hk d (with_heap h1 st) Hhk) as (h2 & Hrun2 & Hpost2).
    { stsimp. eapply shape_payload; eauto. }
    { exact Hndk. }
    stsimp. destruct Hpost2 as [Hl2 Hf2 Hp2 Hi2 Hr2 Hlk2].
    assert (Hid2 : forall b, b ∈ forest_nodes ks -> id_at h2 b = id_at (heap st) b).
    { intros b Hb. rewrite <- Hid1. unfold id_at. rewrite Hf2; [reflexivity |].
      intros Hbk. eapply Hdisj; eauto. }
    destruct (IH (with_clock (uuid_clock st + missing h1 (preorder (RT a kks)))
                    (with_heap h2 (with_heap h1 st)))
                 (acc ++ preorder (RT a kks))%list Hh)
      as (h3 & Hrun3 & Hpost3).
    { stsimp. eapply Forall_impl; [exact Hs |]. intros k' Hk'.
      eapply shape_payload; [exact Hk' |]. intros b. rewrite Hp2. apply Hp1. }
    { exact Hndks. }
    stsimp. destruct Hpost3 as [Hl3 Hf3 Hp3 Hi3 Hlk3].
    exists h3. split.
    + simpl map. cbn [for_each].
      mstep (update_ok _ _ _ (set_parent_id (Some pid)) Hn). fold h1.
      mstep Hrun2. mret.
      rewrite Hrun3. rewrite forest_nodes_cons, <- app_assoc. f_equal.
      rewrite (missing_ext _ _ _ (fun b _ => Hid1 b)).
      rewrite (missing_ext _ _ _ Hid2).
      rewrite missing_app, Nat.add_assoc. destruct st; reflexivity.
    + constructor.
      * rewrite Hl3, Hl2. unfold h1. apply length_insert.
      * intros b Hb. rewrite forest_nodes_cons, elem_of_app in Hb.
        rewrite Hf3 by tauto. rewrite Hf2 by tauto.
        unfold h1. apply lookup_write_ne. intros Hab. apply Hb. left.
        rewrite <- Hab. apply (raddr_in_preorder (RT a kks)).
      * intros b. rewrite Hp3, Hp2. apply Hp1.
      * rewrite forest_nodes_cons, map_app, ids_from_app, map_app. f_equal.
        -- rewrite <- (ids_from_ext uuid1 _ h1 _ _ (fun b _ => Hid1 b)).
           rewrite <- Hi2. apply map_ext_in. intros b Hb.
           apply list_elem_of_In in Hb. unfold id_at. rewrite Hf3; [reflexivity |].
           intros Hbk. eapply Hdisj; eauto.
        -- rewrite Hi3. f_equal.
           rewrite (missing_ext _ _ _ (fun b _ => Hid1 b)).
           apply ids_from_ext. exact Hid2.
      * constructor; [| exact Hlk3]. split.
        -- unfold parent_id_at. rewrite Hf3.
           ++ fold (parent_id_at h2 (raddr (RT a kks))). rewrite Hr2.
              unfold parent_id_at, h1. simpl.
              rewrite (lookup_write_eq _ _ _ _ Hn). reflexivity.
           ++ intros Hbk. eapply Hdisj; [| exact Hbk].
              apply (raddr_in_preorder (RT a kks)).
        -- eapply linked_ext; [exact Hlk2 | | | exact Hndk].
           ++ intros b Hb. unfold id_at. rewrite Hf3; [reflexivity |].
              intros Hbk. eapply Hdisj; eauto.
           ++ intros b Hb _. unfold parent_id_at. rewrite Hf3; [reflexivity |].
              intros Hbk. eapply Hdisj; eauto.
Qed.

Lemma forall_height_kids a ks d :
  (height (RT a ks) <= S d)%nat -> Forall (fun k => (height k <= d)%nat) ks.
Proof.
  intros H. apply Forall_forall. intros k Hk.
  pose proof (height_kid k a ks Hk). lia.
Qed.

Lemma flatten_rec_spec (t : rtree) : flattens uuid1 t.
Proof.
  induction t as [a ks IH] using rtree_ind'. intros depth st Hd Hs Hnd.
  destruct depth as [|d]; [simpl in Hd; lia |].
  pose proof Hs as Hs0. apply shape_inv in Hs0 as (n & Hn & Hc & Hks).
  rewrite preorder_unfold in Hnd. apply NoDup_cons in Hnd as [Ha Hnd].
  pose proof (forall_height_kids _ _ _ Hd) as Hh.
  cbn [flatten_tree_rec raddr]. mstep (read_ok _ _ _ Hn). rewrite Hc.
  destruct (n_id n) as [i|] eqn:Hi.
  - destruct (flatten_forest d i ks IH st [] Hh Hks Hnd) as (h' & Hrun & Hpost).
    destruct Hpost as [Hl Hf Hp Hids Hlk].
    exists h'. split.
    + mret. mstep Hrun. unfold ret. rewrite preorder_unfold. simpl.
      unfold id_at. rewrite Hn, Hi. reflexivity.
    + assert (Hia : id_at h' a = Some i).
      { unfold id_at. rewrite Hf by exact Ha. rewrite Hn. exact Hi. }
      constructor.
      * exact Hl.
      * intros b Hb. apply Hf. intros Hbk. apply Hb. rewrite preorder_unfold.
        apply list_elem_of_further, Hbk.
      * exact Hp.
      * rewrite preorder_unfold. simpl. rewrite Hia. unfold id_at at 2.
        rewrite Hn, Hi. simpl. f_equal. exact Hids.
      * simpl. unfold parent_id_at. rewrite Hf by exact Ha. reflexivity.
      * constructor. eapply Forall_impl; [exact Hlk |]. intros k [H1 H2].
        split; [congruence | exact H2].
  - set (u := uuid1 (uuid_clock st)).
    set (h0 := <[a := set_id (Some u) n]> (heap st)).
    assert (Hp0 : forall b, payload_at h0 b = payload_at (heap st) b).
    { intros b. eapply payload_at_write; eauto. }
    assert (Hid0 : forall b, b ∈ forest_nodes ks -> id_at h0 b = id_at (heap st) b).
    { intros b Hb. apply id_at_write_ne. intros ->. exact (Ha Hb). }
    destruct (flatten_forest d u ks IH
                (with_heap h0 (with_clock (S (uuid_clock st)) st)) [] Hh)
      as (h' & Hrun & Hpost).
    { stsimp. eapply Forall_impl; [exact Hks |]. intros k Hk.
      eapply shape_payload; eauto. }
    { exact Hnd. }
    stsimp. destruct Hpost as [Hl Hf Hp Hids Hlk].
    exists h'. split.
    + unfold str_uuid1 at 1.
      rewrite ?bind_assoc.
      unfold bind at 1. cbv beta iota. fold u.
      mstep (update_ok (with_clock (S (uuid_clock st)) st) _ _ (set_id (Some u)) Hn).
      mret. stsimp. fold h0.
      mstep Hrun. unfold ret. rewrite preorder_unfold. simpl.
      unfold id_at at 1. rewrite Hn, Hi. simpl.
      rewrite (missing_ext _ _ _ Hid0).
      replace (S (uuid_clock st + missing (heap st) (forest_nodes ks)))
        with (uuid_clock st + S (missing (heap st) (forest_nodes ks)))%nat by lia.
      destruct st; reflexivity.
    + assert (Hia : id_at h' a = Some u).
      { unfold id_at. rewrite Hf by exact Ha. unfold h0.
        rewrite (lookup_write_eq _ _ _ _ Hn). reflexivity. }
      constructor.
      * rewrite Hl. unfold h0. apply length_insert.
      * intros b Hb. rewrite Hf.
        -- unfold h0. apply lookup_write_ne. intros ->. apply Hb.
           rewrite preorder_unfold. apply list_elem_of_here.
        -- intros Hbk. apply Hb. rewrite preorder_unfold.
           apply list_elem_of_further, Hbk.
      * intros b. rewrite Hp. apply Hp0.
      * rewrite preorder_unfold. simpl. rewrite Hia. unfold id_at at 2.
        rewrite Hn, Hi. simpl. f_equal. fold u.
        rewrite Hids. f_equal. apply ids_from_ext. exact Hid0.
      * simpl. unfold parent_id_at. rewrite Hf by exact Ha. unfold h0.
        rewrite (lookup_write_eq _ _ _ _ Hn), Hn. reflexivity.
      * constructor. eapply Forall_impl; [exact Hlk |]. intros k [H1 H2].
        split; [congruence | exact H2].
Qed.

End Flatten.

(** ** Stores that agree on a tree *)

Lemma frame_at_id h h' b : frame_at h' b = frame_at h b -> id_at h' b = id_at h b.
Proof.
  unfold frame_at, id_at, frame_keys. destruct (h' !! b), (h !! b); simpl; congruence.
Qed.

Lemma frame_at_children h h' b :
  frame_at h' b = frame_at h b -> children_at h' b = children_at h b.
Proof.
  unfold frame_at, children_at, frame_keys.
  destruct (h' !! b), (h !! b); simpl; congruence.
Qed.

Lemma frame_at_is_Some h h' b :
  frame_at h' b = frame_at h b -> is_Some (h !! b) -> is_Some (h' !! b).
Proof.
  unfold frame_at. intros H [n Hn]. rewrite Hn in H.
  destruct (h' !! b); [eauto | discriminate].
Qed.

Lemma map_ext_elem {A B : Type} (f g : A -> B) (l : list A) :
  (forall x, x ∈ l -> f x = g x) -> map f l = map g l.
Proof. intros H. apply map_ext_in. intros x Hx. apply H, list_elem_of_In, Hx. Qed.

(** [tree_in] reads the frame keys of the tree's nodes and the parent id
    of its root. *)
Lemma tree_in_ext h h' t :
  tree_in h t ->
  (forall b, b ∈ preorder t -> frame_at h' b = frame_at h b) ->
  parent_id_at h' (raddr t) = parent_id_at h (raddr t) ->
  tree_in h' t.
Proof.
  intros [Hs Hk Hids Hr] Hf Hp. constructor.
  - eapply shape_ext; [exact Hs |]. intros b Hb. split.
    + eapply frame_at_is_Some; [apply Hf, Hb | eapply shape_lookup; eauto].
    + rewrite (frame_at_children _ _ _ (Hf b Hb)). reflexivity.
  - intros a Ha. destruct (Hk a Ha) as (n & Hn & Hi & Ht & Hc).
    specialize (Hf a Ha). unfold frame_at in Hf. rewrite Hn in Hf.
    destruct (h' !! a) as [n'|]; [| discriminate]. simpl in Hf.
    unfold frame_keys in Hf. injection Hf as H1 H2 H3.
    exists n'. split; [reflexivity |]. rewrite H1, H2. repeat split; auto.
    destruct Ht as [s Hs']. rewrite Hs' in H3. simpl in H3.
    destruct (n_text n'); [eauto | discriminate].
  - rewrite (map_ext_elem (id_at h') (id_at h)); [exact Hids |].
    intros b Hb. apply frame_at_id, Hf, Hb.
  - congruence.
Qed.

Lemma index_of_ext h h' l :
  (forall b, b ∈ l -> id_at h' b = id_at h b) -> index_of h' l = index_of h l.
Proof.
  intros H. unfold index_of. apply map_ext_elem. intros b Hb. rewrite (H b Hb). reflexivity.
Qed.

Lemma tree_in_keys_id h t a : tree_in h t -> a ∈ preorder t -> is_Some (id_at h a).
Proof.
  intros Ht Ha. destruct (ti_keys _ _ Ht a Ha) as (n & Hn & Hi & _).
  unfold id_at. rewrite Hn. exact Hi.
Qed.

Lemma tree_in_keys_text h t a : tree_in h t -> a ∈ preorder t -> is_Some (text_at h a).
Proof.
  intros Ht Ha. destruct (ti_keys _ _ Ht a Ha) as (n & Hn & _ & Hi & _).
  unfold text_at. rewrite Hn. exact Hi.
Qed.

Lemma tree_in_keys_children h t a :
  tree_in h t -> a ∈ preorder t -> is_Some (children_at h a).
Proof.
  intros Ht Ha. destruct (ti_keys _ _ Ht a Ha) as (n & Hn & _ & _ & Hi).
  unfold children_at. rewrite Hn. exact Hi.
Qed.

Lemma payload_frame h h' b :
  payload_at h' b = payload_at h b -> id_at h' b = id_at h b ->
  frame_at h' b = frame_at h b.
Proof.
  unfold payload_at, id_at, frame_at, payload, frame_keys.
  destruct (h' !! b), (h !! b); simpl; congruence.
Qed.

Section FlattenTop.

Variable uuid1 : nat -> string.

Lemma flatten_tree_spec t st :
  shape (heap st) t -> NoDup (preorder t) ->
  exists h',
    flatten_tree uuid1 (raddr t) st
    = (Ok (preorder t),
       with_clock (uuid_clock st + missing (heap st) (preorder t)) (with_heap h' st))
    /\ flat_post uuid1 (heap st) (uuid_clock st) t h'.
Proof.
  intros Hs Hnd. unfold flatten_tree. rewrite bind_get.
  apply flatten_rec_spec; auto.
  pose proof (height_le_store _ _ Hs Hnd). lia.
Qed.

(** Flattening a tree whose nodes all have an id changes parent ids only:
    the tree stays in the store and is now linked. *)
Lemma flatten_tree_in t st :
  tree_in (heap st) t ->
  exists h',
    flatten_tree uuid1 (raddr t) st = (Ok (preorder t), with_heap h' st)
    /\ tree_in h' t /\ linked h' t
    /\ length h' = length (heap st)
    /\ (forall b, payload_at h' b = payload_at (heap st) b)
    /\ (forall b, id_at h' b = id_at (heap st) b)
    /\ (forall b, b ∉ preorder t -> h' !! b = heap st !! b).
Proof.
  intros Ht. pose proof (tree_in_nodup _ _ Ht) as Hnd.
  destruct (flatten_tree_spec t st (ti_shape _ _ Ht) Hnd) as (h' & Hrun & Hpost).
  destruct Hpost as [Hl Hf Hp Hids Hr Hlk].
  destruct (ids_from_present uuid1 (heap st) (preorder t) (uuid_clock st)) as [Hpres Hmiss].
  { intros b Hb. eapply tree_in_keys_id; eauto. }
  rewrite Hpres in Hids. rewrite Hmiss in Hrun.
  assert (Hid : forall b, id_at h' b = id_at (heap st) b).
  { intros b. destruct (decide (b ∈ preorder t)) as [Hb | Hb].
    - apply list_elem_of_lookup in Hb as [i Hi].
      apply (f_equal (fun l => l !! i)) in Hids.
      rewrite !list_lookup_fmap, Hi in Hids. simpl in Hids. congruence.
    - unfold id_at. rewrite Hf by exact Hb. reflexivity. }
  exists h'. split; [| split; [| split; [| split; [| split; [| split]]]]]; auto.
  - rewrite Hrun. f_equal. destruct st; stnorm. rewrite Nat.add_0_r. reflexivity.
  - eapply tree_in_ext; [exact Ht | | exact Hr].
    intros b _. apply payload_frame; auto.
Qed.

End FlattenTop.

(** ** Parents in a linked tree *)

Lemma linked_parent h t b :
  linked h t -> b ∈ preorder t ->
  b = raddr t \/ exists p, p ∈ preorder t /\ parent_id_at h b = id_at h p.
Proof.
  induction t as [a ks IH] using rtree_ind'. intros Hl Hb.
  rewrite preorder_unfold in Hb. apply elem_of_cons in Hb as [-> | Hb]; [left; reflexivity |].
  right. apply linked_inv in Hl.
  apply elem_of_forest_nodes in Hb as (k & Hk & Hb).
  rewrite Forall_forall in IH, Hl. destruct (Hl k Hk) as [Hpk Hlk].
  destruct (IH k Hk Hlk Hb) as [-> | (p & Hp & Hpp)].
  - exists a. split; [apply (raddr_in_preorder (RT a ks)) | exact Hpk].
  - exists p. split; [| exact Hpp]. rewrite preorder_unfold.
    apply list_elem_of_further, elem_of_forest_nodes. eauto.
Qed.

(** In a linked tree a parent id resolves in the index to a node of the tree. *)
Lemma linked_parent_lookup h t b pid :
  tree_in h t -> linked h t -> b ∈ preorder t -> parent_id_at h b = Some pid ->
  exists p, p ∈ preorder t /\ id_at h p = Some pid
            /\ dict_get (index_of h (preorder t)) pid = Some p.
Proof.
  intros Ht Hl Hb Hp. destruct (linked_parent h t b Hl Hb) as [-> | (p & Hpt & Hpp)].
  - rewrite (ti_root _ _ Ht) in Hp. discriminate.
  - exists p. rewrite Hp in Hpp. split; [exact Hpt |]. split; [auto |].
    apply dict_get_index_of; auto.
    + intros x Hx. eapply tree_in_keys_id; eauto.
    + apply (ti_ids _ _ Ht).
Qed.

(** ** The sanitizer *)

Lemma skeleton_write_text (h : list node) a n s b :
  h !! a = Some n -> is_Some (n_text n) ->
  skeleton_at (<[a := set_text (Some s) n]> h) b = skeleton_at h b.
Proof.
  intros Ha [s0 Hs]. unfold skeleton_at. destruct (decide (a = b)) as [-> | Hne].
  - rewrite (lookup_write_eq _ _ _ _ Ha), Ha. simpl. unfold skeleton. simpl.
    rewrite Hs. reflexivity.
  - rewrite lookup_write_ne by exact Hne. reflexivity.
Qed.

Lemma skeleton_parent_id h h' b :
  skeleton_at h' b = skeleton_at h b -> parent_id_at h' b = parent_id_at h b.
Proof.
  unfold skeleton_at, parent_id_at, skeleton.
  destruct (h' !! b), (h !! b); simpl; congruence.
Qed.

Lemma skeleton_text_Some h h' b :
  skeleton_at h' b = skeleton_at h b -> is_Some (text_at h b) -> is_Some (text_at h' b).
Proof.
  unfold skeleton_at, text_at, skeleton.
  destruct (h' !! b) as [n'|], (h !! b) as [n|]; simpl; try congruence.
  intros H [s Hs]. injection H as _ _ _ H _ _ _ _. rewrite Hs in H. simpl in H.
  destruct (n_text n'); [eauto | discriminate].
Qed.

Lemma skeleton_is_Some h h' b :
  skeleton_at h' b = skeleton_at h b -> is_Some (h !! b) -> is_Some (h' !! b).
Proof.
  unfold skeleton_at. intros H [n Hn]. rewrite Hn in H.
  destruct (h' !! b); [eauto | discriminate].
Qed.

Lemma skeleton_kept h h' b :
  skeleton_at h' b = skeleton_at h b -> kept_at h' b = kept_at h b.
Proof.
  unfold skeleton_at, kept_at, skeleton, kept.
  destruct (h' !! b), (h !! b); simpl; congruence.
Qed.

Lemma with_heap_same st : with_heap (heap st) st = st.
Proof. destruct st; reflexivity. Qed.

Section Sanitizer.

Variable html2text_handle : string -> string.

Lemma fix_miro_node_spec (idx : pydict) (d : addr) st n :
  heap st !! d = Some n ->
  (forall pid, n_parent_id n = Some pid ->
     exists p, dict_get idx pid = Some p /\ is_Some (text_at (heap st) p)) ->
  exists h',
    fix_miro_node html2text_handle idx d st = (Ok tt, with_heap h' st)
    /\ length h' = length (heap st)
    /\ (forall b, skeleton_at h' b = skeleton_at (heap st) b)
    /\ (forall b, b <> d -> h' !! b = heap st !! b)
    /\ (forall s, n_text n = Some s -> has_miro_markup s = false -> h' = heap st).
Proof.
  intros Hn Hpar. unfold fix_miro_node. mstep (read_ok _ _ _ Hn).
  destruct (n_text n) as [s|] eqn:Hs.
  2:{ exists (heap st). rewrite with_heap_same. unfold ret. repeat split; auto. }
  destruct (has_miro_markup s) eqn:Hm; cbn [negb]; cbv iota zeta.
  2:{ exists (heap st). rewrite with_heap_same. unfold ret. repeat split; auto. }
  set (t' := rstrip_spaces (strip_newline_pair (replace_nlnl (html2text_handle s)))).
  set (n1 := set_text (Some t') n).
  set (h1 := <[d := n1]> (heap st)).
  assert (Hn1 : h1 !! d = Some n1) by (apply (lookup_write_eq _ _ _ _ Hn)).
  assert (Hsk1 : forall b, skeleton_at h1 b = skeleton_at (heap st) b).
  { intros b. apply skeleton_write_text; [exact Hn | rewrite Hs; eauto]. }
  mstep (update_ok _ _ _ (set_text (Some t')) Hn). fold n1 h1.
  destruct (startswith t' nl) eqn:Hst.
  { exists h1. unfold ret. repeat split; auto.
    - unfold h1. apply length_insert.
    - intros b Hb. unfold h1. apply lookup_write_ne. congruence.
    - intros s0 Hs0 Hm0. congruence. }
  set (n2 := set_text (Some (String space t')) n).
  set (h2 := <[d := n2]> (heap st)).
  assert (Hh2 : <[d := set_text (Some (String space t')) n1]> h1 = h2).
  { unfold h1, h2. rewrite list_insert_insert_eq. reflexivity. }
  assert (Hsk2 : forall b, skeleton_at h2 b = skeleton_at (heap st) b).
  { intros b. apply skeleton_write_text; [exact Hn | rewrite Hs; eauto]. }
  assert (Hr2 : exists h',
     when true (update d (set_text (Some (String space t')))) (with_heap h1 st)
     = (Ok tt, with_heap h' st) /\ h' = h2).
  { exists h2. split; [| reflexivity]. simpl when.
    rewrite (update_ok (with_heap h1 st) d n1 _ Hn1). stsimp. rewrite Hh2. reflexivity. }
  assert (Hfin : forall h', h' = h1 \/ h' = h2 ->
     length h' = length (heap st)
     /\ (forall b, skeleton_at h' b = skeleton_at (heap st) b)
     /\ (forall b, b <> d -> h' !! b = heap st !! b)
     /\ (forall s0, Some s = Some s0 -> has_miro_markup s0 = false -> h' = heap st)).
  { intros h' [-> | ->]; (split; [apply length_insert |]); (split; [assumption |]);
      (split; [intros b Hb; apply lookup_write_ne; congruence |]);
      intros s0 Hs0 Hm0; congruence. }
  destruct (n_parent_id n) as [pid|] eqn:Hpid.
  - destruct (Hpar pid eq_refl) as (p & Hp & Htp).
    unfold key at 1. rewrite Hp.
    assert (Htp1 : is_Some (text_at h1 p)).
    { eapply skeleton_text_Some; [apply Hsk1 | exact Htp]. }
    destruct Htp1 as [pt Hpt]. unfold text_at in Hpt.
    destruct (h1 !! p) as [pn|] eqn:Hpn; [| discriminate].
    mret. mstep (get_text_ok (with_heap h1 st) p pn pt Hpn Hpt). mret.
    destruct (endswith pt nl); simpl negb.
    + exists h1. split; [reflexivity |]. apply Hfin. auto.
    + destruct Hr2 as (h' & Hr & ->). exists h2. split; [exact Hr |]. apply Hfin. auto.
  - mret. destruct Hr2 as (h' & Hr & ->). exists h2. split; [exact Hr |].
    apply Hfin. auto.
Qed.

Lemma fix_miro_loop (idx : pydict) (l : list addr) : forall st,
  NoDup l ->
  (forall b, b ∈ l -> is_Some (heap st !! b)) ->
  (forall b pid, b ∈ l -> parent_id_at (heap st) b = Some pid ->
     exists p, dict_get idx pid = Some p /\ is_Some (text_at (heap st) p)) ->
  exists h',
    for_each l (fun d _ => fix_miro_node html2text_handle idx d) tt st
    = (Ok tt, with_heap h' st)
    /\ length h' = length (heap st)
    /\ (forall b, skeleton_at h' b = skeleton_at (heap st) b)
    /\ (forall b, b ∉ l -> h' !! b = heap st !! b)
    /\ (forall b s, text_at (heap st) b = Some s -> has_miro_markup s = false ->
                    h' !! b = heap st !! b).
Proof.
  induction l as [|d l IH]; intros st Hnd Hex Hpar.
  - exists (heap st). rewrite with_heap_same. simpl. unfold ret. repeat split; auto.
  - apply NoDup_cons in Hnd as [Hd Hnd].
    destruct (Hex d (list_elem_of_here _ _)) as [n Hn].
    destruct (fix_miro_node_spec idx d st n Hn) as (h1 & Hrun1 & Hl1 & Hsk1 & Hf1 & Ht1).
    { intros pid Hpid. apply (Hpar d pid (list_elem_of_here _ _)).
      unfold parent_id_at. rewrite Hn. exact Hpid. }
    destruct (IH (with_heap h1 st) Hnd) as (h2 & Hrun2 & Hl2 & Hsk2 & Hf2 & Ht2).
    { stsimp. intros b Hb. eapply skeleton_is_Some; [apply Hsk1 |].
      apply Hex, list_elem_of_further, Hb. }
    { stsimp. intros b pid Hb Hp. rewrite (skeleton_parent_id _ _ _ (Hsk1 b)) in Hp.
      destruct (Hpar b pid (list_elem_of_further _ _ _ Hb) Hp) as (p & Hp1 & Hp2).
      exists p. split; [exact Hp1 |]. eapply skeleton_text_Some; [apply Hsk1 | exact Hp2]. }
    stsimp. exists h2. split; [| split; [| split; [| split]]].
    + cbn [for_each]. mstep Hrun1. rewrite Hrun2. reflexivity.
    + congruence.
    + intros b. rewrite Hsk2. apply Hsk1.
    + intros b Hb. rewrite Hf2.
      * apply Hf1. intros ->. apply Hb, list_elem_of_here.
      * intros Hbl. apply Hb, list_elem_of_further, Hbl.
    + intros b s Hs Hm. destruct (decide (b = d)) as [-> | Hne].
      * rewrite Hf2 by exact Hd. rewrite (Ht1 s); auto.
        unfold text_at in Hs. rewrite Hn in Hs. exact Hs.
      * rewrite (Ht2 b s); [apply Hf1, Hne | | exact Hm].
        unfold text_at. rewrite Hf1 by exact Hne. exact Hs.
Qed.

End Sanitizer.

(** ** Rebuilding the index *)

Section Refresh.

Variable uuid1 : nat -> string.
Variable html2text_handle : string -> string.

Lemma dict_truthy_index_of h t : dict_truthy (Some (index_of h (preorder t))) = true.
Proof. destruct t. reflexivity. Qed.

(** [tree_updated] on a store that holds the tree under the root of the
    document: it returns, the tree stays in the store and is linked, and
    the index is the one of the tree. *)
Lemma tree_updated_spec st t :
  option_map rd_root (tree_raw_data st) = Some (raddr t) ->
  tree_in (heap st) t ->
  exists h',
    tree_updated uuid1 html2text_handle true st
    = (Ok tt, with_fired (fired st ++ [ev_tree_updated])
                (with_dict (Some (index_of h' (preorder t))) (with_heap h' st)))
    /\ tree_in h' t /\ linked h' t /\ refresh_post t (heap st) h'.
Proof.
  intros Hraw Ht.
  destruct (tree_raw_data st) as [rd|] eqn:Hrd; [| discriminate].
  simpl in Hraw. injection Hraw as Hroot.
  destruct (flatten_tree_in uuid1 t st Ht)
    as (h1 & Hrun1 & Ht1 & Hlk1 & Hl1 & Hp1 & Hid1 & Hf1).
  set (l := preorder t).
  assert (Hids1 : forall x, x ∈ l -> is_Some (id_at h1 x)).
  { intros x Hx. eapply tree_in_keys_id; eauto. }
  pose proof (ti_ids _ _ Ht1) as Hnd1. fold l in Hnd1.
  set (d := index_of h1 l).
  set (st2 := with_dict (Some d) (with_heap h1 st)).
  destruct (fix_miro_loop html2text_handle d l st2) as (h2 & Hrun2 & Hl2 & Hsk2 & Hf2 & Htx2).
  { eapply tree_in_nodup; eauto. }
  { intros b Hb. eapply shape_lookup; [apply (ti_shape _ _ Ht1) | exact Hb]. }
  { unfold st2. stsimp. intros b pid Hb Hp.
    destruct (linked_parent_lookup h1 t b pid Ht1 Hlk1 Hb Hp) as (p & Hpt & _ & Hg).
    exists p. split; [exact Hg |]. eapply tree_in_keys_text; eauto. }
  unfold st2 in *. stsimp.
  assert (Hid2 : forall b, id_at h2 b = id_at h1 b).
  { intros b. specialize (Hsk2 b). unfold skeleton_at, id_at, skeleton in *.
    destruct (h2 !! b), (h1 !! b); simpl in *; congruence. }
  exists h2. split; [| split; [| split]].
  - unfold tree_updated. mget. rewrite Hrd. cbv iota.
    rewrite Hroot. mstep Hrun1.
    mstep (build_dict_spec l (with_heap h1 st) Hids1 Hnd1). stsimp. fold d.
    mmod. unfold nodes. mget. stsimp.
    unfold d at 1. unfold l at 1. rewrite dict_truthy_index_of. mret.
    unfold fix_miro_tree. simpl option_map. unfold not_none. mret.
    unfold d. rewrite dict_values_index_of. fold d.
    mstep (build_dict_spec l (with_dict (Some d) (with_heap h1 st)) Hids1 Hnd1).
    stsimp. fold d. mstep Hrun2.
    unfold fire, modify. f_equal. unfold d.
    rewrite (index_of_ext h1 h2 l (fun b _ => Hid2 b)).
    destruct st; reflexivity.
  - eapply tree_in_ext; [exact Ht1 | |].
    + intros b _. specialize (Hsk2 b). unfold skeleton_at, frame_at, skeleton, frame_keys in *.
      destruct (h2 !! b), (h1 !! b); simpl in *; congruence.
    + apply skeleton_parent_id, Hsk2.
  - eapply linked_ext; [exact Hlk1 | | | eapply tree_in_nodup; eauto].
    + intros b _. apply Hid2.
    + intros b _ _. apply skeleton_parent_id, Hsk2.
  - constructor.
    + congruence.
    + intros b Hb. rewrite Hf2 by exact Hb. apply Hf1, Hb.
    + intros b. rewrite (skeleton_kept _ _ _ (Hsk2 b)).
      specialize (Hp1 b). specialize (Hid1 b).
      unfold payload_at, id_at, kept_at, payload, kept in *.
      destruct (h1 !! b), (heap st !! b); simpl in *; congruence.
    + intros b s Hs Hm.
      assert (Hs1 : text_at h1 b = Some s).
      { rewrite (payload_text _ _ _ (Hp1 b)). exact Hs. }
      unfold text_at. rewrite (Htx2 b s Hs1 Hm). exact Hs1.
Qed.

End Refresh.

(** ** Ancestors and the selection *)

Lemma content_parent_id h h' b :
  content_at h' b = content_at h b -> parent_id_at h' b = parent_id_at h b.
Proof.
  unfold content_at, parent_id_at, content.
  destruct (h' !! b), (h !! b); simpl; congruence.
Qed.

Lemma content_id h h' b : content_at h' b = content_at h b -> id_at h' b = id_at h b.
Proof.
  unfold content_at, id_at, content. destruct (h' !! b), (h !! b); simpl; congruence.
Qed.

Lemma content_text h h' b : content_at h' b = content_at h b -> text_at h' b = text_at h b.
Proof.
  unfold content_at, text_at, content. destruct (h' !! b), (h !! b); simpl; congruence.
Qed.

Lemma content_children h h' b :
  content_at h' b = content_at h b -> children_at h' b = children_at h b.
Proof.
  unfold content_at, children_at, content.
  destruct (h' !! b), (h !! b); simpl; congruence.
Qed.

Lemma content_is_Some h h' b :
  content_at h' b = content_at h b -> is_Some (h !! b) -> is_Some (h' !! b).
Proof.
  unfold content_at. intros H [n Hn]. rewrite Hn in H.
  destruct (h' !! b); [eauto | discriminate].
Qed.

Lemma content_frame h h' b : content_at h' b = content_at h b -> frame_at h' b = frame_at h b.
Proof.
  unfold content_at, frame_at, content, frame_keys.
  destruct (h' !! b), (h !! b); simpl; congruence.
Qed.

Lemma content_at_write (h : list node) a n n' b :
  h !! a = Some n -> content n' = content n ->
  content_at (<[a := n']> h) b = content_at h b.
Proof.
  intros Ha Hp. unfold content_at. destruct (decide (a = b)) as [-> | Hne].
  - rewrite (lookup_write_eq _ _ _ _ Ha), Ha. simpl. congruence.
  - rewrite lookup_write_ne by exact Hne. reflexivity.
Qed.

(** The path only reads the parent ids along it. *)
Lemma ancestry_ext h h' d a l :
  ancestry h d a l ->
  (forall b, b ∈ l -> is_Some (h' !! b) /\ parent_id_at h' b = parent_id_at h b) ->
  ancestry h' d a l.
Proof.
  induction 1 as [a Ha Hp | a pid p l Hp Hg _ IH]; intros Hext.
  - destruct (Hext a (list_elem_of_here _ _)) as [H1 H2].
    apply anc_root; [exact H1 | congruence].
  - destruct (Hext a) as [H1 H2]; [apply elem_of_app; right; apply list_elem_of_here |].
    eapply anc_step; [rewrite H2; exact Hp | exact Hg |].
    apply IH. intros b Hb. apply Hext, elem_of_app. left. exact Hb.
Qed.

Lemma ancestry_last h d a l : ancestry h d a l -> exists l', l = (l' ++ [a])%list.
Proof. destruct 1; [exists [] | eexists]; reflexivity. Qed.

Lemma ancestry_exists h d a l : ancestry h d a l -> forall b, b ∈ l -> is_Some (h !! b).
Proof.
  induction 1 as [a Ha Hp | a pid p l Hp Hg _ IH]; intros b Hb.
  - apply list_elem_of_singleton in Hb. subst. exact Ha.
  - apply elem_of_app in Hb as [Hb | Hb]; [auto |].
    apply list_elem_of_singleton in Hb. subst.
    unfold parent_id_at in Hp. destruct (h !! a); [eauto | discriminate].
Qed.

Lemma node_ancestry_loop_spec h d a l :
  ancestry h d a l ->
  forall fuel rest st, heap st = h -> (length l <= fuel)%nat ->
    node_ancestry_loop fuel (Some d) a (a :: rest) st = (Ok (l ++ rest)%list, st).
Proof.
  induction 1 as [a Ha Hp | a pid p l Hp Hg _ IH]; intros fuel rest st Hh Hf.
  - destruct fuel as [|fuel]; [simpl in Hf; lia |]. simpl.
    destruct Ha as [n Hn]. rewrite <- Hh in Hn. mstep (read_ok _ _ _ Hn).
    unfold parent_id_at in Hp. rewrite <- Hh, Hn in Hp. rewrite Hp. reflexivity.
  - destruct fuel as [|fuel]; [rewrite length_app in Hf; simpl in Hf; lia |]. simpl.
    unfold parent_id_at in Hp. rewrite <- Hh in Hp.
    destruct (heap st !! a) as [n|] eqn:Hn; [| discriminate].
    mstep (read_ok _ _ _ Hn). rewrite Hp. unfold key. rewrite Hg. mret.
    rewrite IH; [| exact Hh | rewrite length_app in Hf; simpl in Hf; lia].
    rewrite <- app_assoc. reflexivity.
Qed.

Lemma node_ancestry_spec st d a l :
  ancestry (heap st) d a l -> (length l <= 2 + length d)%nat ->
  node_ancestry a (Some d) st = (Ok l, st).
Proof.
  intros Ha Hl. unfold node_ancestry. simpl default.
  rewrite (node_ancestry_loop_spec _ _ _ _ Ha _ [] st eq_refl Hl).
  rewrite app_nil_r. reflexivity.
Qed.

(** Every node of a linked tree has a path, no longer than the tree is high. *)
Lemma ancestry_in_subtree h d t :
  linked h t ->
  (forall p, p ∈ preorder t -> exists i, id_at h p = Some i /\ dict_get d i = Some p) ->
  forall lr, ancestry h d (raddr t) lr ->
  forall b, b ∈ preorder t ->
    exists l, ancestry h d b l /\ (length l < length lr + height t)%nat.
Proof.
  induction t as [a ks IH] using rtree_ind'. intros Hl Hidx lr Hr b Hb.
  rewrite preorder_unfold in Hb. apply elem_of_cons in Hb as [-> | Hb].
  - exists lr. split; [exact Hr |]. simpl. lia.
  - apply linked_inv in Hl. apply elem_of_forest_nodes in Hb as (k & Hk & Hb).
    rewrite Forall_forall in IH, Hl. destruct (Hl k Hk) as [Hpk Hlk].
    destruct (Hidx a (raddr_in_preorder (RT a ks))) as (i & Hi & Hg).
    assert (Hrk : ancestry h d (raddr k) (lr ++ [raddr k])).
    { eapply anc_step; [rewrite Hpk; exact Hi | exact Hg | exact Hr]. }
    destruct (IH k Hk Hlk) with (lr := (lr ++ [raddr k])%list) (b := b) as (l & Hl1 & Hl2);
      auto.
    + intros p Hp. apply Hidx. rewrite preorder_unfold.
      apply list_elem_of_further, elem_of_forest_nodes. eauto.
    + exists l. split; [exact Hl1 |]. rewrite length_app in Hl2. simpl in Hl2.
      pose proof (height_kid k a ks Hk). lia.
Qed.

Lemma tree_index_lookup h t p :
  tree_in h t -> p ∈ preorder t ->
  exists i, id_at h p = Some i /\ dict_get (index_of h (preorder t)) i = Some p.
Proof.
  intros Ht Hp. destruct (tree_in_keys_id h t p Ht Hp) as [i Hi].
  exists i. split; [exact Hi |]. apply dict_get_index_of; auto.
  - intros x Hx. eapply tree_in_keys_id; eauto.
  - apply (ti_ids _ _ Ht).
Qed.

Lemma tree_ancestry h t b :
  tree_in h t -> linked h t -> b ∈ preorder t ->
  exists l, ancestry h (index_of h (preorder t)) b l
            /\ (length l <= 2 + length (index_of h (preorder t)))%nat.
Proof.
  intros Ht Hl Hb.
  destruct (ancestry_in_subtree h (index_of h (preorder t)) t Hl) with (lr := [raddr t]) (b := b)
    as (l & Hl1 & Hl2); auto.
  - intros p Hp. eapply tree_index_lookup; eauto.
  - apply anc_root; [| apply (ti_root _ _ Ht)].
    eapply shape_lookup; [apply (ti_shape _ _ Ht) | apply raddr_in_preorder].
  - exists l. split; [exact Hl1 |]. rewrite length_index_of.
    pose proof (height_le_nodes t). simpl in Hl2. lia.
Qed.

(** ** [select_node] *)

Lemma open_all_spec (l : list addr) : forall st,
  (forall x, x ∈ l -> is_Some (heap st !! x)) ->
  exists h',
    for_each l (fun ancestor _ => update ancestor (set_open (Some true))) tt st
    = (Ok tt, with_heap h' st)
    /\ length h' = length (heap st)
    /\ (forall b, content_at h' b = content_at (heap st) b).
Proof.
  induction l as [|x l IH]; intros st Hex.
  - exists (heap st). rewrite with_heap_same. simpl. unfold ret. auto.
  - destruct (Hex x (list_elem_of_here _ _)) as [n Hn].
    set (h1 := <[x := set_open (Some true) n]> (heap st)).
    assert (Hc1 : forall b, content_at h1 b = content_at (heap st) b).
    { intros b. eapply content_at_write; eauto. }
    destruct (IH (with_heap h1 st)) as (h2 & Hrun & Hl2 & Hc2).
    { stsimp. intros y Hy. eapply content_is_Some; [apply Hc1 |].
      apply Hex, list_elem_of_further, Hy. }
    stsimp. exists h2. split; [| split].
    + cbn [for_each]. mstep (update_ok _ _ _ (set_open (Some true)) Hn). fold h1.
      rewrite Hrun. reflexivity.
    + rewrite Hl2. unfold h1. apply length_insert.
    + intros b. rewrite Hc2. apply Hc1.
Qed.

Lemma selected_post_refl st : selected_post st st.
Proof. constructor; reflexivity. Qed.

Lemma selected_post_trans st1 st2 st3 :
  selected_post st1 st2 -> selected_post st2 st3 -> selected_post st1 st3.
Proof.
  intros [] []. constructor; congruence.
Qed.

Lemma dict_get_truthy d i a : dict_get d i = Some a -> dict_truthy (Some d) = true.
Proof. destruct d; [discriminate | reflexivity]. Qed.

Lemma selected_node_ok st d i :
  tree_node_dict st = Some d -> selected_node_id st = Some i ->
  selected_node st = (Ok (dict_get d i), st).
Proof. intros Hd Hs. unfold selected_node. mget. rewrite Hd, Hs. reflexivity. Qed.

Lemma select_node_spec st d a i l rd fc :
  tree_node_dict st = Some d -> dict_get d i = Some a ->
  ancestry (heap st) d a l -> (length l <= 2 + length d)%nat ->
  tree_raw_data st = Some rd -> is_Some (heap st !! rd_root rd) ->
  exists r st',
    select_node i fc st = (Ok r, st')
    /\ selected_node_id st' = Some i /\ selected_post st st'.
Proof.
  intros Hd Hg Hanc Hlen Hrd Hroot.
  unfold select_node. mget.
  destruct (bool_decide (selected_node_id st <> Some i)) eqn:Hsel.
  2:{ apply bool_decide_eq_false in Hsel. exists None, st. simpl. unfold ret.
      split; [reflexivity |]. split; [| apply selected_post_refl].
      destruct (decide (selected_node_id st = Some i)); [assumption | contradiction]. }
  rewrite Hd, (dict_get_truthy _ _ _ Hg). unfold dict_has. rewrite Hg. simpl.
  unfold pre_selection_updated, fire. mmod. mmod.
  set (st1 := with_selected (Some i) (with_fired (fired st ++ [ev_pre_selection_updated]) st)).
  rewrite (bind_ok _ _ _ _ _ (selected_node_ok st1 d i Hd eq_refl)). cbv beta.
  rewrite Hg. unfold not_none. mret.
  pose proof (ancestry_exists _ _ _ _ Hanc) as Hex.
  destruct (ancestry_last _ _ _ _ Hanc) as [l0 Hl0].
  destruct (Hex a) as [n Hn]; [rewrite Hl0; apply elem_of_app; right; apply list_elem_of_here |].
  mstep (update_ok st1 a n (set_visited (Some true)) Hn).
  set (h1 := <[a := set_visited (Some true) n]> (heap st1)).
  assert (Hc1 : forall b, content_at h1 b = content_at (heap st) b).
  { intros b. unfold h1, st1. stsimp. eapply content_at_write; eauto. }
  unfold set_raw_selected. mget. unfold st1 at 1. stsimp. rewrite Hrd. mmod.
  set (st2 := with_raw _ _).
  assert (Hanc2 : ancestry (heap st2) d a l).
  { unfold st2. stsimp. eapply ancestry_ext; [exact Hanc |]. intros b Hb. split.
    - eapply content_is_Some; [apply Hc1 | apply Hex, Hb].
    - apply content_parent_id, Hc1. }
  mstep (node_ancestry_spec st2 d a l Hanc2 Hlen).
  destruct (open_all_spec (removelast l) st2) as (h2 & Hrun2 & Hl2 & Hc2).
  { intros x Hx. unfold st2. stsimp. eapply content_is_Some; [apply Hc1 |].
    apply Hex. subst l. rewrite removelast_last in Hx. apply elem_of_app. left. exact Hx. }
  mstep Hrun2. unfold raw_root. mget. unfold st2 at 1. stsimp. mret.
  assert (Hr2 : is_Some (h2 !! rd_root rd)).
  { eapply content_is_Some; [apply Hc2 |]. unfold st2. stsimp.
    eapply content_is_Some; [apply Hc1 | exact Hroot]. }
  destruct Hr2 as [rn Hrn].
  mstep (update_ok (with_heap h2 st2) (rd_root rd) rn (set_open (Some true)) Hrn).
  set (h3 := <[rd_root rd := set_open (Some true) rn]> _).
  assert (Hc3 : forall b, content_at h3 b = content_at (heap st) b).
  { intros b. unfold h3. stsimp. erewrite content_at_write; eauto.
    rewrite Hc2. unfold st2. stsimp. apply Hc1. }
  assert (Hl3 : length h3 = length (heap st)).
  { unfold h3. rewrite length_insert. stsimp. rewrite Hl2. unfold st2. stsimp.
    unfold h1. rewrite length_insert. reflexivity. }
  set (st3 := with_heap h3 _).
  assert (Hfin : forall st4, st4 = st3 \/ st4 = with_fired (fired st3 ++ [ev_selection_updated]) st3 ->
     selected_node st4 = (Ok (Some a), st4)
     /\ selected_node_id st4 = Some i /\ selected_post st st4).
  { assert (Hd3 : tree_node_dict st3 = Some d) by exact Hd.
    assert (Hs3 : selected_node_id st3 = Some i) by reflexivity.
    intros st4 Hst4. split; [| split].
    - rewrite (selected_node_ok st4 d i); [rewrite Hg; reflexivity | |];
        destruct Hst4 as [-> | ->]; assumption.
    - destruct Hst4 as [-> | ->]; reflexivity.
    - destruct Hst4 as [-> | ->]; constructor; unfold st3, st2, st1; stsimp; auto;
        rewrite ?Hrd; reflexivity. }
  destruct fc; simpl when.
  - unfold selection_updated, fire. mmod. fold st3.
    destruct (Hfin (with_fired (fired st3 ++ [ev_selection_updated]) st3)) as (H1 & H2 & H3); auto.
    rewrite H1. eauto.
  - mret. fold st3. destruct (Hfin st3) as (H1 & H2 & H3); auto.
    rewrite H1. eauto.
Qed.

(** ** The selection in a well-formed model *)

Lemma tree_ok_selected_post st st' t :
  tree_ok st t -> selected_post st st' -> tree_ok st' t.
Proof.
  intros [Hraw Ht Hl Hidx] [Hlen Hc Hd Hr _ _ _ _]. constructor.
  - congruence.
  - eapply tree_in_ext; [exact Ht | |].
    + intros b _. apply content_frame, Hc.
    + apply content_parent_id, Hc.
  - eapply linked_ext; [exact Hl | | | eapply tree_in_nodup; eauto].
    + intros b _. apply content_id, Hc.
    + intros b _ _. apply content_parent_id, Hc.
  - rewrite Hd, Hidx. f_equal. symmetry. apply index_of_ext.
    intros b _. apply content_id, Hc.
Qed.

Lemma tree_ok_root_exists st t :
  tree_ok st t ->
  exists rd, tree_raw_data st = Some rd /\ rd_root rd = raddr t
             /\ is_Some (heap st !! rd_root rd).
Proof.
  intros [Hraw Ht _ _]. destruct (tree_raw_data st) as [rd|]; [| discriminate].
  simpl in Hraw. injection Hraw as Hr. exists rd. split; [reflexivity |]. split; [exact Hr |].
  rewrite Hr. eapply shape_lookup; [apply (ti_shape _ _ Ht) | apply raddr_in_preorder].
Qed.

(** In a well-formed model [select_node] on the id of a node of the tree
    returns and makes it the selection; the model stays well formed. *)
Lemma select_node_tree_ok st t a i fc :
  tree_ok st t -> a ∈ preorder t -> id_at (heap st) a = Some i ->
  exists r st',
    select_node i fc st = (Ok r, st')
    /\ selected_node_id st' = Some i /\ selected_post st st' /\ tree_ok st' t.
Proof.
  intros Hok Ha Hi. pose proof Hok as [Hraw Ht Hl Hidx].
  destruct (tree_ok_root_exists st t Hok) as (rd & Hrd & _ & Hroot).
  destruct (tree_ancestry _ _ a Ht Hl Ha) as (l & Hanc & Hlen).
  destruct (select_node_spec st _ a i l rd fc Hidx) as (r & st' & Hrun & Hsel & Hpost); auto.
  - apply dict_get_index_of; auto.
    + intros x Hx. eapply tree_in_keys_id; eauto.
    + apply (ti_ids _ _ Ht).
  - exists r, st'. split; [exact Hrun |]. split; [exact Hsel |]. split; [exact Hpost |].
    eapply tree_ok_selected_post; eauto.
Qed.

(** ** Children lists in a tree *)

Lemma NoDup_roots ks : NoDup (forest_nodes ks) -> NoDup (map raddr ks).
Proof.
  induction ks as [|k ks IH]; intros Hnd; simpl; [constructor |].
  rewrite forest_nodes_cons in Hnd. apply NoDup_app in Hnd as (H1 & H2 & H3).
  apply NoDup_cons. split; [| auto].
  intros Hin. apply list_elem_of_fmap in Hin as (k' & Hr & Hk').
  apply (H2 (raddr k) (raddr_in_preorder k)). rewrite Hr.
  apply kid_root_in_forest, Hk'.
Qed.

(** The subtree under a node of the tree. *)
Lemma subtree_at h t p :
  shape h t -> NoDup (preorder t) -> p ∈ preorder t ->
  exists ks, shape h (RT p ks)
             /\ NoDup (preorder (RT p ks))
             /\ (forall b, b ∈ preorder (RT p ks) -> b ∈ preorder t).
Proof.
  induction t as [a ks IH] using rtree_ind'. intros Hs Hnd Hp.
  rewrite preorder_unfold in Hp. apply elem_of_cons in Hp as [-> | Hp].
  - exists ks. auto.
  - apply elem_of_forest_nodes in Hp as (k & Hk & Hp).
    pose proof Hs as Hs0. apply shape_inv in Hs0 as (n & _ & _ & Hks).
    rewrite Forall_forall in IH, Hks.
    destruct (IH k Hk (Hks k Hk) (NoDup_kid _ _ _ Hnd Hk) Hp) as (ks' & H1 & H2 & H3).
    exists ks'. split; [exact H1 |]. split; [exact H2 |].
    intros b Hb. rewrite preorder_unfold. apply list_elem_of_further, elem_of_forest_nodes.
    eauto.
Qed.

Lemma tree_children h t p cs :
  tree_in h t -> p ∈ preorder t -> children_at h p = Some cs ->
  NoDup cs /\ (forall c, c ∈ cs -> c ∈ preorder t) /\ p ∉ cs.
Proof.
  intros Ht Hp Hcs. pose proof (tree_in_nodup _ _ Ht) as Hnd.
  destruct (subtree_at h t p (ti_shape _ _ Ht) Hnd Hp) as (ks & Hs & Hnd' & Hsub).
  apply shape_inv in Hs as (n & Hn & Hc & _).
  unfold children_at in Hcs. rewrite Hn in Hcs. rewrite Hcs in Hc. simpl in Hc. subst cs.
  rewrite preorder_unfold in Hnd'. apply NoDup_cons in Hnd' as [Hp' Hnd'].
  split; [apply NoDup_roots, Hnd' |]. split.
  - intros c Hc. apply list_elem_of_fmap in Hc as (k & -> & Hk). apply Hsub.
    rewrite preorder_unfold. apply list_elem_of_further, kid_root_in_forest, Hk.
  - intros Hin. apply Hp'. apply list_elem_of_fmap in Hin as (k & -> & Hk).
    apply kid_root_in_forest, Hk.
Qed.

Lemma lookup_split {A : Type} (l : list A) k x :
  l !! k = Some x -> l = (take k l ++ x :: drop (S k) l)%list /\ length (take k l) = k.
Proof.
  intros H. split.
  - symmetry. apply take_drop_middle, H.
  - apply length_take_le. apply lookup_lt_Some in H. lia.
Qed.

(** [l.index(a)] and [l.remove(a)] on distinct nodes of the tree. *)
Lemma tree_list_index h t (l : list addr) k a st :
  tree_in h t -> heap st = h -> NoDup l -> (forall c, c ∈ l -> c ∈ preorder t) ->
  l !! k = Some a ->
  list_index l a st = (Ok k, st)
  /\ list_remove l a st = (Ok (take k l ++ drop (S k) l)%list, st).
Proof.
  intros Ht Hh Hnd Hsub Hk. destruct (lookup_split l k a Hk) as [Hl Hlen].
  assert (Hne : forall y, y ∈ take k l -> node_eq h y a = Some false).
  { intros y Hy. eapply tree_in_node_eq; eauto.
    - apply Hsub. rewrite Hl. apply elem_of_app. left. exact Hy.
    - apply Hsub. eapply list_elem_of_lookup_2, Hk.
    - intros ->. rewrite Hl in Hnd. apply NoDup_app in Hnd as (_ & Hd & _).
      apply (Hd a Hy). apply list_elem_of_here. }
  unfold list_index, list_remove, lift_store. rewrite Hh. split.
  - rewrite Hl at 1. rewrite index_in_spec by exact Hne. rewrite Hlen. reflexivity.
  - rewrite Hl at 1. rewrite remove_in_spec by exact Hne. reflexivity.
Qed.

Lemma py_nth_ok {A : Type} (l : list A) (i : Z) (x : A) st :
  0 <= i -> l !! Z.to_nat i = Some x -> py_nth l i st = (Ok x, st).
Proof.
  intros Hi Hx. unfold py_nth. pose proof (lookup_lt_Some _ _ _ Hx) as Hlt.
  rewrite (proj2 (Z.leb_le 0 i) Hi).
  rewrite (proj2 (Z.ltb_lt i (Z.of_nat (length l)))) by lia.
  simpl. rewrite Hx. reflexivity.
Qed.

Lemma tree_ok_node st t a :
  tree_ok st t -> a ∈ preorder t ->
  exists n i, heap st !! a = Some n /\ n_id n = Some i /\ node_truthy n = true
              /\ id_at (heap st) a = Some i.
Proof.
  intros Hok Ha. destruct (ti_keys _ _ (ok_tree _ _ Hok) a Ha) as (n & Hn & [i Hi] & _).
  exists n, i. repeat split; auto.
  - apply node_truthy_id. rewrite Hi. eauto.
  - unfold id_at. rewrite Hn. exact Hi.
Qed.

(** ** Parents and siblings *)

Lemma or_selected_names st t node a :
  tree_ok st t -> a ∈ preorder t -> names st node a ->
  or_selected node st = (Ok (Some a), st).
Proof.
  intros Hok Ha [-> | [-> Hsel]].
  - destruct (tree_ok_node st t a Hok Ha) as (n & i & Hn & _ & Htr & _).
    eapply or_selected_some; eauto.
  - simpl. destruct (tree_ok_node st t a Hok Ha) as (n & i & Hn & _ & _ & Hi).
    rewrite Hi in Hsel.
    rewrite (selected_node_ok st _ i (ok_index _ _ Hok) Hsel).
    rewrite (dict_get_index_of _ _ a i); auto.
    + intros x Hx. eapply tree_in_keys_id; [apply (ok_tree _ _ Hok) | exact Hx].
    + apply (ti_ids _ _ (ok_tree _ _ Hok)).
Qed.

(** A node under the root has a parent in the tree that lists it. *)
Lemma shape_parent h t a :
  shape h t -> linked h t ->
  (forall b, b ∈ preorder t -> is_Some (children_at h b)) ->
  a ∈ preorder t -> a <> raddr t ->
  exists p cs k, p ∈ preorder t /\ parent_id_at h a = id_at h p
                 /\ children_at h p = Some cs /\ cs !! k = Some a.
Proof.
  induction t as [r ks IH] using rtree_ind'. intros Hs Hl Hc Ha Hne.
  rewrite preorder_unfold in Ha. apply elem_of_cons in Ha as [-> | Ha]; [contradiction |].
  apply elem_of_forest_nodes in Ha as (k & Hk & Ha).
  pose proof Hs as Hs0. apply shape_inv in Hs0 as (n & Hn & Hcn & Hks).
  apply linked_inv in Hl. rewrite Forall_forall in IH, Hks, Hl.
  destruct (Hl k Hk) as [Hpk Hlk].
  destruct (decide (a = raddr k)) as [-> | Hak].
  - destruct (Hc r (raddr_in_preorder (RT r ks))) as [cs Hcs].
    assert (cs = map raddr ks) as ->.
    { unfold children_at in Hcs. rewrite Hn in Hcs. rewrite Hcs in Hcn. exact Hcn. }
    apply list_elem_of_lookup in Hk as [j Hj].
    exists r, (map raddr ks), j. split; [apply (raddr_in_preorder (RT r ks)) |].
    split; [exact Hpk |]. split; [exact Hcs |].
    rewrite list_lookup_fmap, Hj. reflexivity.
  - destruct (IH k Hk (Hks k Hk) Hlk) as (p & cs & j & H1 & H2 & H3 & H4); auto.
    + intros b Hb. apply Hc. rewrite preorder_unfold.
      apply list_elem_of_further, elem_of_forest_nodes. eauto.
    + exists p, cs, j. split; [| auto]. rewrite preorder_unfold.
      apply list_elem_of_further, elem_of_forest_nodes. eauto.
Qed.

Lemma tree_ok_parent st t a :
  tree_ok st t -> a ∈ preorder t -> a <> raddr t ->
  exists p pid cs k,
    p ∈ preorder t /\ parent_id_at (heap st) a = Some pid
    /\ id_at (heap st) p = Some pid
    /\ dict_get (index_of (heap st) (preorder t)) pid = Some p
    /\ children_at (heap st) p = Some cs /\ cs !! k = Some a.
Proof.
  intros Hok Ha Hne. pose proof Hok as [_ Ht Hl _].
  destruct (shape_parent _ t a (ti_shape _ _ Ht) Hl) as (p & cs & k & Hp & Hpa & Hcs & Hk); auto.
  { intros b Hb. eapply tree_in_keys_children; eauto. }
  destruct (tree_index_lookup _ t p Ht Hp) as (pid & Hpid & Hg).
  exists p, pid, cs, k. rewrite Hpa. auto 10.
Qed.

(** The root is the only node of a well-formed tree without parent id. *)
Lemma tree_ok_root_iff st t a :
  tree_ok st t -> a ∈ preorder t ->
  (parent_id_at (heap st) a = None <-> a = raddr t).
Proof.
  intros Hok Ha. split.
  - intros Hp. destruct (decide (a = raddr t)) as [| Hne]; [assumption |].
    destruct (tree_ok_parent st t a Hok Ha Hne) as (p & pid & cs & k & _ & Hpa & _).
    congruence.
  - intros ->. apply (ti_root _ _ (ok_tree _ _ Hok)).
Qed.

Lemma read_parent_id st a n pid :
  heap st !! a = Some n -> parent_id_at (heap st) a = Some pid -> n_parent_id n = Some pid.
Proof. unfold parent_id_at. intros ->. auto. Qed.

Lemma children_at_get st p cs :
  children_at (heap st) p = Some cs -> get_children p st = (Ok cs, st).
Proof.
  unfold children_at. destruct (heap st !! p) as [n|] eqn:Hn; [| discriminate].
  intros Hc. eapply get_children_ok; eauto.
Qed.

(** ** Siblings are selected cyclically *)

(** C8: for a node [a] of a well-formed model that is not the root, with
    parent [p] whose children are [cs] and [a] at position [k] among them,
    [select_sibling offset] returns and selects the sibling at position
    [(k + offset) mod len(cs)]; when [offset] is a multiple of [len(cs)]
    that sibling is [a] itself. *)
Theorem select_sibling_wraps (st : TreeModel) (t : rtree) (node : option addr)
    (a : addr) (offset : Z) :
  tree_ok st t -> a ∈ preorder t -> a <> raddr t -> names st node a ->
  exists p cs k s r st',
    p ∈ preorder t /\ parent_id_at (heap st) a = id_at (heap st) p
    /\ children_at (heap st) p = Some cs /\ cs !! k = Some a
    /\ cs !! Z.to_nat ((Z.of_nat k + offset) mod Z.of_nat (length cs)) = Some s
    /\ select_sibling offset node st = (Ok r, st')
    /\ is_Some (selected_node_id st')
    /\ selected_node_id st' = id_at (heap st) s
    /\ (forall m, offset = m * Z.of_nat (length cs) -> s = a).
Proof.
  intros Hok Ha Hne Hnames. pose proof Hok as [_ Ht Hl Hidx].
  destruct (tree_ok_parent st t a Hok Ha Hne)
    as (p & pid & cs & k & Hp & Hpa & Hpid & Hg & Hcs & Hk).
  destruct (tree_children _ t p cs Ht Hp Hcs) as (Hnd & Hsub & _).
  pose proof (lookup_lt_Some _ _ _ Hk) as Hklt.
  set (j := (Z.of_nat k + offset) mod Z.of_nat (length cs)).
  assert (Hj : 0 <= j < Z.of_nat (length cs)) by (apply Z.mod_pos_bound; lia).
  destruct (lookup_lt_is_Some_2 cs (Z.to_nat j)) as [s Hs]; [lia |].
  assert (Hst : s ∈ preorder t) by (apply Hsub; eapply list_elem_of_lookup_2, Hs).
  destruct (tree_ok_node st t a Hok Ha) as (n & i & Hn & Hi & Htr & _).
  destruct (tree_ok_node st t s Hok Hst) as (sn & si & Hsn & Hsi & _ & Hsid).
  destruct (select_node_tree_ok st t s si true Hok Hst Hsid) as (r & st' & Hrun & Hsel & _ & _).
  exists p, cs, k, s, r, st'.
  split; [exact Hp |]. split; [congruence |]. split; [exact Hcs |]. split; [exact Hk |].
  split; [exact Hs |]. split; [| split; [| split]].
  - unfold select_sibling. mstep (or_selected_names st t node a Hok Ha Hnames).
    mstep (read_ok _ _ _ Hn). rewrite Htr.
    rewrite (read_parent_id _ _ _ _ Hn Hpa). mget.
    rewrite Hidx. unfold dict_lookup, key. rewrite Hg. mret.
    mstep (children_at_get _ _ _ Hcs).
    mstep (proj1 (tree_list_index _ t cs k a st Ht eq_refl Hnd Hsub Hk)).
    fold j. mstep (py_nth_ok cs j s st (proj1 Hj) Hs).
    mstep (get_id_ok _ _ _ _ Hsn Hsi). exact Hrun.
  - rewrite Hsel. eauto.
  - congruence.
  - intros m Hm. unfold j in Hs. rewrite Hm, Z.mod_add in Hs by lia.
    rewrite Z.mod_small in Hs by lia. rewrite Nat2Z.id in Hs. congruence.
Qed.

(** ** Traversal saturates *)

Lemma clip_num_bounds n lower upper :
  lower <= upper -> lower <= clip_num n lower upper <= upper.
Proof. unfold clip_num. lia. Qed.

Lemma index_nodes_tree_ok st t : tree_ok st t -> index_nodes st = preorder t.
Proof.
  intros Hok. unfold index_nodes. rewrite (ok_index _ _ Hok). simpl.
  apply dict_values_index_of.
Qed.

(** C7 (as the code has it): in a well-formed model whose selection is
    the node at position [k] of the index, [traverse_tree offset] returns
    and selects the node at position [clip_num (k + offset) 0 (n - 1)],
    which lies in [[0, n - 1]], for every integer [offset].  Without a
    selected node of the index the call raises [ValueError]. *)
Theorem traverse_tree_saturates (st : TreeModel) (t : rtree) (a : addr) (k : nat)
    (offset : Z) :
  tree_ok st t -> index_nodes st !! k = Some a ->
  selected_node_id st = id_at (heap st) a ->
  let n := Z.of_nat (length (index_nodes st)) in
  let j := clip_num (Z.of_nat k + offset) 0 (n - 1) in
  exists s r st',
    0 <= j <= n - 1
    /\ index_nodes st = preorder t
    /\ index_nodes st !! Z.to_nat j = Some s
    /\ traverse_tree offset st = (Ok r, st')
    /\ is_Some (selected_node_id st')
    /\ selected_node_id st' = id_at (heap st) s.
Proof.
  intros Hok Hk Hsel n j. pose proof Hok as [_ Ht Hl Hidx].
  pose proof (index_nodes_tree_ok st t Hok) as Hnodes.
  subst n j. rewrite Hnodes in *.
  set (j := clip_num (Z.of_nat k + offset) 0 (Z.of_nat (length (preorder t)) - 1)).
  pose proof (lookup_lt_Some _ _ _ Hk) as Hklt.
  assert (Hj : 0 <= j <= Z.of_nat (length (preorder t)) - 1)
    by (apply clip_num_bounds; lia).
  destruct (lookup_lt_is_Some_2 (preorder t) (Z.to_nat j)) as [s Hs]; [lia |].
  assert (Ha : a ∈ preorder t) by (eapply list_elem_of_lookup_2, Hk).
  assert (Hst : s ∈ preorder t) by (eapply list_elem_of_lookup_2, Hs).
  destruct (tree_ok_node st t a Hok Ha) as (an & ai & Han & Hai & _ & Haid).
  destruct (tree_ok_node st t s Hok Hst) as (sn & si & Hsn & Hsi & _ & Hsid).
  destruct (select_node_tree_ok st t s si true Hok Hst Hsid) as (r & st' & Hrun & Hsel' & _ & _).
  exists s, r, st'. split; [exact Hj |]. split; [reflexivity |]. split; [exact Hs |].
  split; [| split].
  - unfold traverse_tree. mget. rewrite Hidx, dict_truthy_index_of.
    unfold tree_traversal_idx, nodes. mget. rewrite Hidx, dict_truthy_index_of. mret.
    simpl option_map. rewrite dict_values_index_of.
    rewrite Haid in Hsel.
    mstep (selected_node_ok st _ ai Hidx Hsel).
    rewrite (dict_get_index_of _ _ a ai); auto.
    2:{ intros x Hx. eapply tree_in_keys_id; eauto. }
    2:{ apply (ti_ids _ _ Ht). }
    mstep (proj1 (tree_list_index _ t (preorder t) k a st Ht eq_refl
                    (tree_in_nodup _ _ Ht) (fun c H => H) Hk)).
    simpl default. rewrite length_index_of. fold j.
    mget. rewrite Hidx, dict_truthy_index_of. mret.
    simpl option_map. rewrite dict_values_index_of. unfold not_none. mret.
    mstep (py_nth_ok (preorder t) j s st (proj1 Hj) Hs).
    mstep (get_id_ok _ _ _ _ Hsn Hsi). exact Hrun.
  - rewrite Hsel'. eauto.
  - congruence.
Qed.

(** ** Replacing the subtrees under a node *)

Lemma raddr_replace_kids p new t : raddr (replace_kids p new t) = raddr t.
Proof. destruct t as [a ks]. simpl. destruct (Nat.eqb a p); reflexivity. Qed.

Lemma replace_kids_absent p new t : p ∉ preorder t -> replace_kids p new t = t.
Proof.
  induction t as [a ks IH] using rtree_ind'. intros Hp. simpl.
  destruct (Nat.eqb_spec a p) as [-> | Hne].
  - exfalso. apply Hp. apply (raddr_in_preorder (RT p ks)).
  - f_equal. rewrite <- (map_id ks) at 2. apply map_ext_elem. intros k Hk.
    rewrite Forall_forall in IH. apply IH; [exact Hk |].
    intros Hin. apply Hp. rewrite preorder_unfold.
    apply list_elem_of_further, elem_of_forest_nodes. eauto.
Qed.

Lemma forest_nodes_split ks p :
  p ∈ forest_nodes ks ->
  exists ks1 k ks2, ks = (ks1 ++ k :: ks2)%list /\ p ∈ preorder k.
Proof.
  intros Hp. apply elem_of_forest_nodes in Hp as (k & Hk & Hp).
  apply list_elem_of_split in Hk as (ks1 & ks2 & ->). eauto.
Qed.

(** Where the node [p] and the nodes under it stand in the traversal, and
    what the traversal becomes when the subtrees under [p] are replaced. *)
Lemma replace_kids_decomp t p :
  NoDup (preorder t) -> p ∈ preorder t ->
  exists ks pre post,
    preorder t = (pre ++ p :: forest_nodes ks ++ post)%list
    /\ (forall new,
          preorder (replace_kids p new t) = (pre ++ p :: forest_nodes new ++ post)%list)
    /\ (forall h, shape h t -> shape h (RT p ks)).
Proof.
  induction t as [a ks IH] using rtree_ind'. intros Hnd Hp.
  destruct (Nat.eqb_spec a p) as [-> | Hne].
  - exists ks, [], []. simpl. rewrite Nat.eqb_refl. simpl. rewrite !app_nil_r.
    split; [reflexivity |]. split; [| auto]. intros new. rewrite app_nil_r. reflexivity.
  - rewrite preorder_unfold in Hp. apply elem_of_cons in Hp as [-> | Hp]; [contradiction |].
    destruct (forest_nodes_split ks p Hp) as (ks1 & k & ks2 & -> & Hpk).
    rewrite preorder_unfold in Hnd. apply NoDup_cons in Hnd as [Ha Hnd].
    rewrite forest_nodes_app, forest_nodes_cons in Hnd.
    apply NoDup_app in Hnd as (Hnd1 & Hd1 & Hnd2).
    apply NoDup_app in Hnd2 as (Hndk & Hd2 & Hnd3).
    rewrite Forall_forall in IH.
    destruct (IH k) as (ks' & pre & post & Hpre & Hrep & Hsh); auto.
    { apply elem_of_app. right. apply list_elem_of_here. }
    assert (Hp1 : p ∉ forest_nodes ks1).
    { intros Hin. apply (Hd1 p Hin). apply elem_of_app. left. exact Hpk. }
    assert (Hp2 : p ∉ forest_nodes ks2).
    { intros Hin. apply (Hd2 p Hpk Hin). }
    exists ks', (a :: forest_nodes ks1 ++ pre)%list, (post ++ forest_nodes ks2)%list.
    split; [| split].
    + rewrite preorder_unfold, forest_nodes_app, forest_nodes_cons, Hpre.
      simpl. rewrite <- !app_assoc. simpl. rewrite <- !app_assoc. reflexivity.
    + intros new. simpl. destruct (Nat.eqb_spec a p) as [| _]; [contradiction |].
      rewrite preorder_unfold. rewrite map_app. simpl map.
      rewrite forest_nodes_app, forest_nodes_cons, Hrep.
      assert (Hid : forall l, p ∉ forest_nodes l -> map (replace_kids p new) l = l).
      { intros l Hl. rewrite <- (map_id l) at 2. apply map_ext_elem. intros x Hx.
        apply replace_kids_absent. intros Hin. apply Hl, elem_of_forest_nodes. eauto. }
      rewrite (Hid ks1 Hp1), (Hid ks2 Hp2).
      simpl. rewrite <- !app_assoc. simpl. rewrite <- !app_assoc. reflexivity.
    + intros h Hs. apply shape_inv in Hs as (n & _ & _ & Hks).
      apply Hsh. rewrite Forall_forall in Hks. apply Hks.
      apply elem_of_app. right. apply list_elem_of_here.
Qed.

Lemma shape_replace_kids h h' t p new :
  shape h t ->
  (forall b, b ∈ preorder (replace_kids p [] t) -> b <> p ->
     is_Some (h' !! b) /\ default [] (children_at h' b) = default [] (children_at h b)) ->
  is_Some (h' !! p) -> default [] (children_at h' p) = map raddr new ->
  Forall (shape h') new ->
  shape h' (replace_kids p new t).
Proof.
  induction t as [a ks IH] using rtree_ind'. intros Hs Hext Hp Hcp Hnew.
  simpl in Hext |- *.
  destruct (Nat.eqb_spec a p) as [-> | Hne].
  - destruct Hp as [n Hn]. apply shape_node with n; auto.
    unfold children_at in Hcp. rewrite Hn in Hcp. exact Hcp.
  - apply shape_inv in Hs as (n & Hn & Hc & Hks).
    destruct (Hext a) as [[n' Hn'] Hca]; [rewrite preorder_unfold; apply list_elem_of_here | exact Hne |].
    apply shape_node with n'; [exact Hn' | |].
    + unfold children_at in Hca. rewrite Hn, Hn' in Hca. rewrite Hca, Hc.
      rewrite map_map. apply map_ext_elem. intros k _.
      symmetry. apply raddr_replace_kids.
    + rewrite Forall_forall in IH, Hks. apply Forall_forall. intros k' Hk'.
      apply list_elem_of_fmap in Hk' as (k & -> & Hk).
      apply IH; auto. intros b Hb Hbp. apply Hext; [| exact Hbp].
      rewrite preorder_unfold. apply list_elem_of_further, elem_of_forest_nodes.
      exists (replace_kids p [] k). split; [| exact Hb].
      apply list_elem_of_fmap. eauto.
Qed.

Lemma NoDup_submseteq_inv {A : Type} (l k : list A) : l ⊆+ k -> NoDup k -> NoDup l.
Proof.
  intros Hsub Hnd. apply submseteq_Permutation in Hsub as [k' Hk'].
  rewrite Hk' in Hnd. apply NoDup_app in Hnd as (H & _ & _). exact H.
Qed.

(** A tree stays in the store when the subtrees under one of its nodes are
    replaced by trees of the store. *)
Lemma tree_in_surgery h h' t p ks pre post new :
  tree_in h t ->
  preorder t = (pre ++ p :: forest_nodes ks ++ post)%list ->
  (forall new', preorder (replace_kids p new' t)
                = (pre ++ p :: forest_nodes new' ++ post)%list) ->
  (forall b, b ∈ pre \/ b ∈ post ->
     is_Some (h' !! b) /\ default [] (children_at h' b) = default [] (children_at h b)) ->
  default [] (children_at h' p) = map raddr new ->
  Forall (shape h') new ->
  (forall b, b ∈ (pre ++ p :: forest_nodes new ++ post)%list -> has_keys h' b) ->
  NoDup (pre ++ p :: forest_nodes new ++ post) ->
  (forall x y, x ∈ (pre ++ p :: forest_nodes new ++ post)%list ->
     y ∈ (pre ++ p :: forest_nodes new ++ post)%list ->
     id_at h' x = id_at h' y -> x = y) ->
  parent_id_at h' (raddr t) = None ->
  tree_in h' (replace_kids p new t).
Proof.
  intros Ht Hpre Hpost Hext Hcp Hnew Hkeys Hnd Hinj Hroot. constructor.
  - apply shape_replace_kids with h; auto.
    + apply (ti_shape _ _ Ht).
    + intros b Hb Hbp. apply Hext. rewrite Hpost in Hb. simpl in Hb.
      apply elem_of_app in Hb as [Hb | Hb]; [auto |].
      apply elem_of_cons in Hb as [-> | Hb]; [contradiction | auto].
    + destruct (Hkeys p) as (n & Hn & _); [| eauto].
      apply elem_of_app. right. apply list_elem_of_here.
  - rewrite Hpost. exact Hkeys.
  - rewrite Hpost. apply NoDup_fmap_2_strong; auto.
  - rewrite raddr_replace_kids. exact Hroot.
Qed.

(** ** Grafting subtrees under a node *)

Lemma has_keys_frame h h' b :
  frame_at h' b = frame_at h b -> has_keys h b -> has_keys h' b.
Proof.
  intros Hf (n & Hn & Hi & Ht & Hc). unfold has_keys. unfold frame_at in Hf.
  rewrite Hn in Hf.
  destruct (h' !! b) as [n'|]; [| discriminate]. simpl in Hf.
  unfold frame_keys in Hf. injection Hf as H1 H2 H3.
  exists n'. split; [reflexivity |]. rewrite H1, H2. repeat split; auto.
  destruct Ht as [s Hs]. rewrite Hs in H3. simpl in H3.
  destruct (n_text n'); [eauto | discriminate].
Qed.

Lemma tree_in_has_keys h t b : tree_in h t -> b ∈ preorder t -> has_keys h b.
Proof. intros Ht Hb. apply (ti_keys _ _ Ht b Hb). Qed.

Lemma shape_frame h h' t :
  shape h t -> (forall b, b ∈ preorder t -> frame_at h' b = frame_at h b) -> shape h' t.
Proof.
  intros Hs Hf. eapply shape_ext; [exact Hs |]. intros b Hb. split.
  - eapply frame_at_is_Some; [apply Hf, Hb | eapply shape_lookup; eauto].
  - rewrite (frame_at_children _ _ _ (Hf b Hb)). reflexivity.
Qed.

Lemma NoDup_replace_middle {A : Type} (pre post old new : list A) (p : A) (S : A -> Prop) :
  NoDup (pre ++ p :: old ++ post) ->
  (forall x, x ∈ (pre ++ p :: old ++ post)%list -> S x) ->
  NoDup new ->
  (forall x, x ∈ new -> x ∈ old \/ ~ S x) ->
  NoDup (pre ++ p :: new ++ post).
Proof.
  intros Hnd HS Hnew Hcl.
  apply NoDup_app in Hnd as (Hpre & Hd1 & Hnd). apply NoDup_cons in Hnd as [Hp Hnd].
  apply NoDup_app in Hnd as (Hold & Hd2 & Hpost).
  assert (Hout : forall x, x ∈ new -> (x ∉ pre) /\ x <> p /\ (x ∉ post)).
  { intros x Hx. destruct (Hcl x Hx) as [Ho | Hn].
    - split; [| split].
      + intros Hin. apply (Hd1 x Hin). apply list_elem_of_further, elem_of_app. auto.
      + intros ->. apply Hp, elem_of_app. auto.
      + intros Hin. apply (Hd2 x Ho Hin).
    - split; [| split].
      + intros Hin. apply Hn, HS, elem_of_app. auto.
      + intros ->. apply Hn, HS, elem_of_app. right. apply list_elem_of_here.
      + intros Hin. apply Hn, HS, elem_of_app. right.
        apply list_elem_of_further, elem_of_app. auto. }
  apply NoDup_app. split; [exact Hpre |]. split.
  - intros x Hx Hin. apply elem_of_cons in Hin as [-> | Hin].
    + apply (Hd1 p Hx), list_elem_of_here.
    + apply elem_of_app in Hin as [Hin | Hin].
      * destruct (Hout x Hin) as (H1 & _). exact (H1 Hx).
      * apply (Hd1 x Hx). apply list_elem_of_further, elem_of_app. auto.
  - apply NoDup_cons. split.
    + intros Hin. apply elem_of_app in Hin as [Hin | Hin].
      * destruct (Hout p Hin) as (_ & H2 & _). congruence.
      * apply Hp, elem_of_app. auto.
    + apply NoDup_app. split; [exact Hnew |]. split; [| exact Hpost].
      intros x Hx Hin. destruct (Hout x Hx) as (_ & _ & H3). exact (H3 Hin).
Qed.

(** The general form of a structural edit: the subtrees under [p] are
    replaced by trees made of nodes that were under [p] or are not in the
    tree, the latter with ids that the tree does not use. *)
Lemma tree_in_graft h h' t p ks pre post new :
  tree_in h t ->
  preorder t = (pre ++ p :: forest_nodes ks ++ post)%list ->
  (forall new', preorder (replace_kids p new' t)
                = (pre ++ p :: forest_nodes new' ++ post)%list) ->
  (forall b, b ∈ preorder t -> b <> p -> b ∉ forest_nodes ks ->
     frame_at h' b = frame_at h b) ->
  id_at h' p = id_at h p -> is_Some (text_at h' p) ->
  children_at h' p = Some (map raddr new) ->
  parent_id_at h' (raddr t) = None ->
  Forall (shape h') new ->
  (forall b, b ∈ forest_nodes new -> has_keys h' b) ->
  NoDup (map (id_at h') (forest_nodes new)) ->
  (forall b, b ∈ forest_nodes new ->
     (b ∈ forest_nodes ks /\ id_at h' b = id_at h b)
     \/ ((b ∉ preorder t) /\ forall y, y ∈ preorder t -> id_at h' b <> id_at h y)) ->
  tree_in h' (replace_kids p new t).
Proof.
  intros Ht Hpre Hpost Hext Hidp Htp Hcp Hroot Hnew Hkeys Hndnew Hcl.
  pose proof (tree_in_nodup _ _ Ht) as Hnd. rewrite Hpre in Hnd.
  assert (Hinpre : forall b, b ∈ pre \/ b ∈ post -> b ∈ preorder t /\ b <> p
                                                   /\ b ∉ forest_nodes ks).
  { intros b Hb. pose proof Hnd as Hnd'.
    apply NoDup_app in Hnd' as (_ & Hd1 & Hnd'). apply NoDup_cons in Hnd' as [Hp Hnd'].
    apply NoDup_app in Hnd' as (_ & Hd2 & _). rewrite Hpre. destruct Hb as [Hb | Hb].
    - split; [apply elem_of_app; auto |]. split.
      + intros ->. apply (Hd1 p Hb), list_elem_of_here.
      + intros Hin. apply (Hd1 b Hb). apply list_elem_of_further, elem_of_app. auto.
    - split; [apply elem_of_app; right; apply list_elem_of_further, elem_of_app; auto |].
      split.
      + intros ->. apply Hp, elem_of_app. auto.
      + intros Hin. apply (Hd2 b Hin Hb). }
  assert (Hpin : p ∈ preorder t).
  { rewrite Hpre. apply elem_of_app. right. apply list_elem_of_here. }
  assert (Hidold : forall b, b ∈ pre \/ b = p \/ b ∈ post ->
                             b ∈ preorder t /\ id_at h' b = id_at h b).
  { intros b [Hb | [-> | Hb]].
    - destruct (Hinpre b (or_introl Hb)) as (H1 & H2 & H3). split; [exact H1 |].
      apply frame_at_id, Hext; auto.
    - auto.
    - destruct (Hinpre b (or_intror Hb)) as (H1 & H2 & H3). split; [exact H1 |].
      apply frame_at_id, Hext; auto. }
  assert (Hcases : forall x, x ∈ (pre ++ p :: forest_nodes new ++ post)%list ->
                             (x ∈ pre \/ x = p \/ x ∈ post) \/ x ∈ forest_nodes new).
  { intros x Hx. apply elem_of_app in Hx as [Hx | Hx]; [auto |].
    apply elem_of_cons in Hx as [-> | Hx]; [auto |].
    apply elem_of_app in Hx as [Hx | Hx]; auto. }
  eapply tree_in_surgery; eauto.
  - intros b Hb. destruct (Hinpre b Hb) as (H1 & H2 & H3).
    specialize (Hext b H1 H2 H3). split.
    + eapply frame_at_is_Some; [exact Hext |].
      eapply shape_lookup; [apply (ti_shape _ _ Ht) | exact H1].
    + rewrite (frame_at_children _ _ _ Hext). reflexivity.
  - rewrite Hcp. reflexivity.
  - intros b Hb. destruct (Hcases b Hb) as [Hold | Hn]; [| auto].
    destruct Hold as [Hb' | [-> | Hb']].
    + destruct (Hinpre b (or_introl Hb')) as (H1 & H2 & H3).
      eapply has_keys_frame; [apply Hext; auto | eapply tree_in_has_keys; eauto].
    + destruct (tree_in_has_keys h t p Ht Hpin) as (n & Hn & Hi & Htx & Hc).
      unfold id_at in Hidp. rewrite Hn in Hidp. unfold text_at in Htp.
      unfold children_at in Hcp. unfold has_keys.
      destruct (h' !! p) as [n'|]; [| discriminate].
      exists n'. split; [reflexivity |]. rewrite Hidp, Hcp. repeat split; eauto.
    + destruct (Hinpre b (or_intror Hb')) as (H1 & H2 & H3).
      eapply has_keys_frame; [apply Hext; auto | eapply tree_in_has_keys; eauto].
  - eapply (NoDup_replace_middle pre post (forest_nodes ks) (forest_nodes new) p
              (fun x => x ∈ preorder t)); auto.
    + intros x Hx. rewrite Hpre. exact Hx.
    + eapply NoDup_fmap_1. exact Hndnew.
    + intros x Hx. destruct (Hcl x Hx) as [[H1 _] | [H1 _]]; auto.
  - intros x y Hx Hy Heq.
    assert (Hold_eq : forall u v, u ∈ preorder t -> v ∈ preorder t ->
                                  id_at h u = id_at h v -> u = v).
    { intros u v Hu Hv. eapply NoDup_map_inj_on; eauto. apply (ti_ids _ _ Ht). }
    assert (Hfk : forall b, b ∈ forest_nodes ks -> b ∈ preorder t).
    { intros b Hb. rewrite Hpre. apply elem_of_app. right.
      apply list_elem_of_further, elem_of_app. auto. }
    destruct (Hcases x Hx) as [Hxo | Hxn]; destruct (Hcases y Hy) as [Hyo | Hyn].
    + destruct (Hidold x Hxo) as [Hx1 Hx2]. destruct (Hidold y Hyo) as [Hy1 Hy2].
      apply Hold_eq; congruence.
    + destruct (Hidold x Hxo) as [Hx1 Hx2].
      destruct (Hcl y Hyn) as [[H1 H2] | [H1 H2]].
      * apply Hold_eq; auto. congruence.
      * exfalso. apply (H2 x Hx1). congruence.
    + destruct (Hidold y Hyo) as [Hy1 Hy2].
      destruct (Hcl x Hxn) as [[H1 H2] | [H1 H2]].
      * apply Hold_eq; auto. congruence.
      * exfalso. apply (H2 y Hy1). congruence.
    + eapply NoDup_map_inj_on; eauto.
Qed.

(** ** The end of a structural edit *)

Section EditEnd.

Variable uuid1 : nat -> string.
Variable html2text_handle : string -> string.

Lemma kept_id h h' b : kept_at h' b = kept_at h b -> id_at h' b = id_at h b.
Proof.
  unfold kept_at, id_at, kept. destruct (h' !! b), (h !! b); simpl; congruence.
Qed.

Lemma kept_children h h' b :
  kept_at h' b = kept_at h b -> children_at h' b = children_at h b.
Proof.
  unfold kept_at, children_at, kept. destruct (h' !! b), (h !! b); simpl; congruence.
Qed.

(** [tree_updated] at the end of an edit that left the tree [t] in the
    store: the model is well formed again. *)
Lemma tree_updated_ok st t :
  option_map rd_root (tree_raw_data st) = Some (raddr t) ->
  tree_in (heap st) t ->
  exists st',
    tree_updated uuid1 html2text_handle true st = (Ok tt, st')
    /\ tree_ok st' t
    /\ refresh_post t (heap st) (heap st')
    /\ selected_node_id st' = selected_node_id st
    /\ tree_raw_data st' = tree_raw_data st
    /\ uuid_clock st' = uuid_clock st
    /\ fired st' = (fired st ++ [ev_tree_updated])%list
    /\ app_queue st' = app_queue st
    /\ started st' = started st.
Proof.
  intros Hraw Ht.
  destruct (tree_updated_spec uuid1 html2text_handle st t Hraw Ht)
    as (h' & Hrun & Ht' & Hl' & Hpost).
  eexists. split; [exact Hrun |]. stsimp.
  split; [constructor; stsimp; auto |].
  split; [exact Hpost |]. auto 10.
Qed.

Lemma uuid_fresh_same st st' :
  uuid_fresh uuid1 st ->
  (forall b, id_at (heap st') b = id_at (heap st) b) ->
  uuid_clock st' = uuid_clock st ->
  uuid_fresh uuid1 st'.
Proof.
  intros [Hinj Hf] Hid Hclk. split; [exact Hinj |].
  intros a k Hk. rewrite Hid. apply Hf. lia.
Qed.

End EditEnd.

(** ** Single writes, seen through the views *)

Lemma lookup_write (h : list node) x n n' b :
  h !! x = Some n ->
  <[x := n']> h !! b = if decide (x = b) then Some n' else h !! b.
Proof.
  intros Hx. destruct (decide (x = b)) as [-> | Hne].
  - apply (lookup_write_eq _ _ _ _ Hx).
  - apply lookup_write_ne, Hne.
Qed.

Lemma frame_at_write_ne (h : list node) x n' b :
  x <> b -> frame_at (<[x := n']> h) b = frame_at h b.
Proof. intros H. unfold frame_at. rewrite lookup_write_ne by exact H. reflexivity. Qed.

Lemma children_at_write_ne (h : list node) x n' b :
  x <> b -> children_at (<[x := n']> h) b = children_at h b.
Proof. intros H. unfold children_at. rewrite lookup_write_ne by exact H. reflexivity. Qed.

Lemma text_at_write_ne (h : list node) x n' b :
  x <> b -> text_at (<[x := n']> h) b = text_at h b.
Proof. intros H. unfold text_at. rewrite lookup_write_ne by exact H. reflexivity. Qed.

Lemma content_at_write_ne (h : list node) x n' b :
  x <> b -> content_at (<[x := n']> h) b = content_at h b.
Proof. intros H. unfold content_at. rewrite lookup_write_ne by exact H. reflexivity. Qed.

(** Writing the children of a node. *)
Lemma write_children_views (h : list node) p n cs :
  h !! p = Some n ->
  let h' := <[p := set_children (Some cs) n]> h in
  length h' = length h
  /\ (forall b, id_at h' b = id_at h b)
  /\ (forall b, parent_id_at h' b = parent_id_at h b)
  /\ (forall b, text_at h' b = text_at h b)
  /\ (forall b, b <> p -> h' !! b = h !! b)
  /\ children_at h' p = Some cs
  /\ h' !! p = Some (set_children (Some cs) n).
Proof.
  intros Hn h'. unfold h'. split; [apply length_insert |].
  split; [| split; [| split; [| split; [| split]]]].
  - intros b. unfold id_at. rewrite (lookup_write _ _ _ _ _ Hn).
    destruct (decide (p = b)) as [<- |]; [rewrite Hn |]; reflexivity.
  - intros b. unfold parent_id_at. rewrite (lookup_write _ _ _ _ _ Hn).
    destruct (decide (p = b)) as [<- |]; [rewrite Hn |]; reflexivity.
  - intros b. unfold text_at. rewrite (lookup_write _ _ _ _ _ Hn).
    destruct (decide (p = b)) as [<- |]; [rewrite Hn |]; reflexivity.
  - intros b Hb. apply lookup_write_ne. congruence.
  - unfold children_at. rewrite (lookup_write_eq _ _ _ _ Hn). reflexivity.
  - apply (lookup_write_eq _ _ _ _ Hn).
Qed.

(** ** Children lists as lists of subtrees *)

Lemma kids_at_position (ks : list rtree) (cs : list addr) k a :
  cs = map raddr ks -> cs !! k = Some a ->
  exists ka, ks !! k = Some ka /\ raddr ka = a
             /\ ks = (take k ks ++ ka :: drop (S k) ks)%list
             /\ take k cs = map raddr (take k ks)
             /\ drop (S k) cs = map raddr (drop (S k) ks).
Proof.
  intros -> Hk. rewrite list_lookup_fmap in Hk.
  destruct (ks !! k) as [ka|] eqn:Hka; [| discriminate]. simpl in Hk. injection Hk as Hr.
  exists ka. split; [reflexivity |]. split; [exact Hr |]. split.
  - symmetry. apply take_drop_middle, Hka.
  - split; [symmetry; apply fmap_take | symmetry; apply fmap_drop].
Qed.

Lemma shape_children h p ks cs :
  shape h (RT p ks) -> children_at h p = Some cs -> cs = map raddr ks.
Proof.
  intros Hs Hc. apply shape_inv in Hs as (n & Hn & Hcn & _).
  unfold children_at in Hc. rewrite Hn in Hc. rewrite Hc in Hcn. exact Hcn.
Qed.

Lemma forest_nodes_middle ks1 ka ks2 :
  forest_nodes (ks1 ++ ka :: ks2)
  = (forest_nodes ks1 ++ raddr ka :: forest_nodes (rkids ka) ++ forest_nodes ks2)%list.
Proof.
  rewrite forest_nodes_app, forest_nodes_cons. destruct ka as [a kks]. reflexivity.
Qed.

(** ** Selecting and refreshing at the end of an edit *)

Lemma settled_refl st : settled st st.
Proof. constructor; auto. Qed.

Lemma settled_trans st1 st2 st3 : settled st1 st2 -> settled st2 st3 -> settled st1 st3.
Proof.
  intros [] []. constructor; try congruence.
  - intros b s Hs Hm. eauto.
  - intros b Hs. eauto.
Qed.

Lemma selected_post_settled st st' : selected_post st st' -> settled st st'.
Proof.
  intros [Hl Hc Hd Hr Hs Hk Hq Hw]. constructor; auto.
  - intros b. apply content_id, Hc.
  - intros b. apply content_children, Hc.
  - intros b s Hs' _. rewrite (content_text _ _ _ (Hc b)). exact Hs'.
  - intros b Hs'. rewrite (content_text _ _ _ (Hc b)). exact Hs'.
Qed.

Lemma kept_text_Some h h' b :
  kept_at h' b = kept_at h b -> is_Some (text_at h b) -> is_Some (text_at h' b).
Proof.
  unfold kept_at, text_at, kept.
  destruct (h' !! b) as [n'|], (h !! b) as [n|]; simpl; try congruence.
  intros H [s Hs]. injection H as _ _ H _ _ _ _. rewrite Hs in H. simpl in H.
  destruct (n_text n'); [eauto | discriminate].
Qed.

Section Finish.

Variable uuid1 : nat -> string.
Variable html2text_handle : string -> string.

Lemma refresh_settled st t :
  option_map rd_root (tree_raw_data st) = Some (raddr t) ->
  tree_in (heap st) t ->
  exists st',
    tree_updated uuid1 html2text_handle true st = (Ok tt, st')
    /\ tree_ok st' t /\ settled st st'
    /\ selected_node_id st' = selected_node_id st
    /\ fired st' = (fired st ++ [ev_tree_updated])%list.
Proof.
  intros Hraw Ht.
  destruct (tree_updated_ok uuid1 html2text_handle st t Hraw Ht)
    as (st' & Hrun & Hok & [Hl Hf Hk Htx] & Hsel & Hrd & Hclk & Hfi & Hq & Hw).
  exists st'. split; [exact Hrun |]. split; [exact Hok |]. split; [| auto].
  constructor; auto; try congruence.
  - intros b. apply kept_id, Hk.
  - intros b. apply kept_children, Hk.
  - intros b. apply kept_text_Some, Hk.
Qed.

(** [select_node] on a node that the stale index still resolves, followed
    by [tree_updated], after an edit that left the tree [t'] in the store. *)
Lemma select_then_refresh stm idx x xi l t' fc :
  tree_node_dict stm = Some idx -> dict_get idx xi = Some x ->
  ancestry (heap stm) idx x l -> (length l <= 2 + length idx)%nat ->
  option_map rd_root (tree_raw_data stm) = Some (raddr t') ->
  tree_in (heap stm) t' ->
  exists st',
    (select_node xi fc ;;; tree_updated uuid1 html2text_handle true) stm = (Ok tt, st')
    /\ tree_ok st' t' /\ settled stm st' /\ selected_node_id st' = Some xi.
Proof.
  intros Hd Hg Hanc Hlen Hraw Ht.
  destruct (tree_raw_data stm) as [rd|] eqn:Hrd; [| discriminate].
  simpl in Hraw. injection Hraw as Hroot.
  destruct (select_node_spec stm idx x xi l rd fc Hd Hg Hanc Hlen Hrd)
    as (r & st2 & Hrun2 & Hsel2 & Hpost2).
  { rewrite Hroot. eapply shape_lookup; [apply (ti_shape _ _ Ht) | apply raddr_in_preorder]. }
  pose proof (selected_post_settled _ _ Hpost2) as Hset2.
  destruct (refresh_settled st2 t') as (st3 & Hrun3 & Hok3 & Hset3 & Hsel3 & _).
  { rewrite (sp_root _ _ Hpost2), Hrd. simpl. congruence. }
  { eapply tree_in_ext; [exact Ht | |].
    - intros b _. apply content_frame, (sp_content _ _ Hpost2).
    - apply content_parent_id, (sp_content _ _ Hpost2). }
  exists st3. split; [| split; [exact Hok3 | split]].
  - mstep Hrun2. exact Hrun3.
  - eapply settled_trans; eauto.
  - congruence.
Qed.

End Finish.

(** ** [delete_node] *)

Lemma set_children_twice cs1 cs2 n :
  set_children cs2 (set_children cs1 n) = set_children cs2 n.
Proof. reflexivity. Qed.

Lemma forest_sub_tree t p ks pre post b :
  preorder t = (pre ++ p :: forest_nodes ks ++ post)%list ->
  b ∈ forest_nodes ks -> b ∈ preorder t.
Proof.
  intros -> Hb. apply elem_of_app. right. apply list_elem_of_further, elem_of_app. auto.
Qed.

Lemma Forall_shape_sub h (ks l : list rtree) :
  Forall (shape h) ks -> (forall k, k ∈ l -> k ∈ ks) -> Forall (shape h) l.
Proof. rewrite !Forall_forall. auto. Qed.

(** The subtrees of a subtree of the store are in the store. *)
Lemma shape_kids h a ks : shape h (RT a ks) -> Forall (shape h) ks.
Proof. intros H. apply shape_inv in H as (n & _ & _ & H). exact H. Qed.

Lemma elem_of_take_drop {A : Type} (l : list A) k x :
  x ∈ (take k l ++ drop (S k) l)%list -> x ∈ l.
Proof.
  intros H. apply elem_of_app in H as [H | H].
  - eapply subseteq_take, H.
  - eapply subseteq_drop, H.
Qed.

Section Delete.

Variable uuid1 : nat -> string.
Variable html2text_handle : string -> string.

Lemma delete_node_spec st t node (a p : nat) pid (cs : list nat) (k : nat)
    (cas : list nat) (reassign : bool) :
  tree_ok st t -> a ∈ preorder t -> names st node a ->
  p ∈ preorder t -> parent_id_at (heap st) a = Some pid ->
  id_at (heap st) p = Some pid ->
  children_at (heap st) p = Some cs -> cs !! k = Some a ->
  children_at (heap st) a = Some cas ->
  let rest := (take k cs ++ drop (S k) cs)%list in
  let final := if reassign then (rest ++ cas)%list else rest in
  let x := if reassign then p
           else match final with
                | [] => p
                | _ :: _ =>
                    default p (final !! Z.to_nat (Z.of_nat k mod Z.of_nat (length final)))
                end in
  exists st' t',
    delete_node uuid1 html2text_handle node reassign st = (Ok tt, st')
    /\ tree_ok st' t'
    /\ children_at (heap st') p = Some final
    /\ selected_node_id st' = id_at (heap st) x
    /\ is_Some (id_at (heap st) x)
    /\ (forall b, id_at (heap st') b = id_at (heap st) b)
    /\ uuid_clock st' = uuid_clock st
    /\ (forall b s, text_at (heap st) b = Some s -> has_miro_markup s = false ->
          text_at (heap st') b = Some s)
    /\ (forall b, b <> p -> children_at (heap st') b = children_at (heap st) b)
    /\ raddr t' = raddr t
    /\ a :: preorder t' ⊆+ preorder t
    /\ (reassign = true -> preorder t ≡ₚ a :: preorder t').
Proof.
  intros Hok Ha Hnames Hp Hpa Hpid Hcs Hk Hcas rest final x.
  pose proof Hok as [Hraw Ht Hl Hidx].
  pose proof (tree_in_nodup _ _ Ht) as Hnd.
  destruct (tree_ok_node st t a Hok Ha) as (an & ai & Han & Hai & Hatr & Haid).
  destruct (tree_in_has_keys _ _ p Ht Hp) as (pn & Hpn & _ & [pt Hpt] & _).
  destruct (tree_children _ t p cs Ht Hp Hcs) as (Hndcs & Hsubcs & Hpcs).
  assert (Hap : a <> p).
  { intros ->. apply Hpcs. eapply list_elem_of_lookup_2, Hk. }
  destruct (replace_kids_decomp t p Hnd Hp) as (ks & pre & post & Hpre & Hrep & Hsh).
  pose proof (Hsh _ (ti_shape _ _ Ht)) as Hshp.
  pose proof (shape_children _ _ _ _ Hshp Hcs) as Hcsk.
  destruct (kids_at_position ks cs k a Hcsk Hk) as (ka & Hka & Hra & Hks & Htk & Hdk).
  pose proof (shape_kids _ _ _ Hshp) as Hshks.
  assert (Hshka : shape (heap st) ka).
  { rewrite Forall_forall in Hshks. apply Hshks. eapply list_elem_of_lookup_2, Hka. }
  destruct ka as [a' kks]. simpl in Hra. subst a'.
  pose proof (shape_children _ _ _ _ Hshka Hcas) as Hcask.
  set (new := (take k ks ++ drop (S k) ks ++ (if reassign then kks else []))%list).
  assert (Hfinal : final = map raddr new).
  { unfold final, rest, new. rewrite Htk, Hdk, Hcask.
    destruct reassign; rewrite ?map_app, ?app_nil_r, <- ?app_assoc; reflexivity. }
  set (hm := <[p := set_children (Some final) pn]> (heap st)).
  destruct (write_children_views (heap st) p pn final Hpn)
    as (Hlm & Hidm & Hpam & Htxm & Hfrm & Hchm & Hpm). fold hm in Hlm, Hidm, Hpam, Htxm, Hfrm, Hchm, Hpm.
  assert (Hnewsub : forall b, b ∈ forest_nodes new -> b ∈ forest_nodes ks /\ b <> p).
  { intros b Hb. assert (Hbk : b ∈ forest_nodes ks).
    { pose proof (f_equal forest_nodes Hks) as Hfk. rewrite forest_nodes_middle in Hfk.
      rewrite Hfk. simpl rkids. simpl raddr.
      unfold new in Hb. rewrite !forest_nodes_app in Hb.
      apply elem_of_app in Hb as [Hb | Hb]; [apply elem_of_app; auto |].
      apply elem_of_app. right. apply list_elem_of_further.
      apply elem_of_app in Hb as [Hb | Hb]; apply elem_of_app; [auto |].
      left. destruct reassign; [exact Hb | inversion Hb]. }
    split; [exact Hbk |]. intros ->.
    rewrite Hpre in Hnd. apply NoDup_app in Hnd as (_ & _ & Hnd').
    apply NoDup_cons in Hnd' as [Hnp _]. apply Hnp, elem_of_app. auto. }
  assert (Hnewnd : NoDup (forest_nodes new)).
  { apply (NoDup_submseteq_inv _ (forest_nodes ks)).
    - pose proof (f_equal forest_nodes Hks) as Hfk. rewrite forest_nodes_middle in Hfk.
      rewrite Hfk. unfold new.
      rewrite !forest_nodes_app. simpl rkids.
      destruct reassign; [| unfold forest_nodes at 3; simpl; rewrite app_nil_r];
        solve_submseteq.
    - rewrite Hpre in Hnd. apply NoDup_app in Hnd as (_ & _ & Hnd').
      apply NoDup_cons in Hnd' as [_ Hnd']. apply NoDup_app in Hnd' as (H & _). exact H. }
  assert (Htm : tree_in hm (replace_kids p new t)).
  { eapply (tree_in_graft (heap st) hm t p ks pre post new); eauto.
    - intros b _ Hbp _. unfold frame_at. rewrite Hfrm by exact Hbp. reflexivity.
    - rewrite Htxm. unfold text_at. rewrite Hpn, Hpt. eauto.
    - rewrite Hchm, Hfinal. reflexivity.
    - rewrite Hpam. apply (ti_root _ _ Ht).
    - apply Forall_forall. intros k' Hk'.
      assert (Hk'old : shape (heap st) k').
      { unfold new in Hk'. rewrite Forall_forall in Hshks.
        apply elem_of_app in Hk' as [Hk' | Hk'];
          [apply Hshks; eapply subseteq_take, Hk' |].
        apply elem_of_app in Hk' as [Hk' | Hk'];
          [apply Hshks; eapply subseteq_drop, Hk' |].
        destruct reassign; [| inversion Hk'].
        pose proof (shape_kids _ _ _ Hshka) as Hkk. rewrite Forall_forall in Hkk. auto. }
      eapply shape_frame; [exact Hk'old |]. intros b Hb. unfold frame_at.
      rewrite Hfrm; [reflexivity |].
      apply (Hnewsub b). apply elem_of_forest_nodes. eauto.
    - intros b Hb. destruct (Hnewsub b Hb) as [Hbk Hbp].
      eapply has_keys_frame; [| eapply tree_in_has_keys; [exact Ht |]].
      + unfold frame_at. rewrite Hfrm by exact Hbp. reflexivity.
      + eapply forest_sub_tree; eauto.
    - apply NoDup_fmap_2_strong; [| exact Hnewnd].
      intros u v Hu Hv. rewrite !Hidm. intros Heq.
      eapply (NoDup_map_inj_on (id_at (heap st)) (preorder t)); eauto.
      + apply (ti_ids _ _ Ht).
      + eapply forest_sub_tree; eauto. apply (Hnewsub u Hu).
      + eapply forest_sub_tree; eauto. apply (Hnewsub v Hv).
    - intros b Hb. left. split; [apply (Hnewsub b Hb) | apply Hidm]. }
  (* the node that is selected *)
  assert (Hfinsub : forall c, c ∈ final -> c ∈ preorder t).
  { intros c Hc. unfold final in Hc.
    assert (Hr : forall c, c ∈ rest -> c ∈ preorder t).
    { intros c' Hc'. apply Hsubcs. eapply elem_of_take_drop, Hc'. }
    destruct reassign; [| auto]. apply elem_of_app in Hc as [Hc | Hc]; [auto |].
    destruct (tree_children _ t a cas Ht Ha Hcas) as (_ & H & _). auto. }
  assert (Hx : x ∈ preorder t).
  { unfold x. destruct reassign; [exact Hp |]. destruct final as [|c0 final'] eqn:Hfin; [exact Hp |].
    destruct ((c0 :: final') !! Z.to_nat (Z.of_nat k mod Z.of_nat (length (c0 :: final'))))
      as [c|] eqn:Hc; [| exact Hp].
    simpl. apply Hfinsub. eapply list_elem_of_lookup_2, Hc. }
  destruct (tree_ok_node st t x Hok Hx) as (xn & xi & Hxn & Hxi & _ & Hxid).
  destruct (tree_ancestry _ t x Ht Hl Hx) as (l & Hanc & Hlen).
  set (stm := with_heap hm st).
  destruct (select_then_refresh uuid1 html2text_handle stm _ x xi l (replace_kids p new t) true Hidx)
    as (st' & Hrun & Hok' & Hset & Hsel); auto.
  { apply dict_get_index_of; auto.
    - intros y Hy. eapply tree_in_keys_id; eauto.
    - apply (ti_ids _ _ Ht). }
  { unfold stm. stsimp. eapply ancestry_ext; [exact Hanc |]. intros b Hb. split.
    - destruct (decide (b = p)) as [-> | Hbp]; [rewrite Hpm; eauto |].
      rewrite Hfrm by exact Hbp. eapply ancestry_exists; eauto.
    - apply Hpam. }
  { unfold stm. stsimp. rewrite raddr_replace_kids. exact Hraw. }
  exists st', (replace_kids p new t).
  split; [| split; [exact Hok' | split; [| split; [| split; [| split; [| split;
    [| split; [| split; [| split; [| split]]]]]]]]]].
  - unfold delete_node. mstep (or_selected_names st t node a Hok Ha Hnames).
    unfold not_none. mret. mstep (read_ok _ _ _ Han).
    rewrite (read_parent_id _ _ _ _ Han Hpa). mget. rewrite Hidx.
    unfold dict_lookup, key.
    rewrite (dict_get_index_of _ _ p pid); auto.
    2:{ intros y Hy. eapply tree_in_keys_id; eauto. }
    2:{ apply (ti_ids _ _ Ht). }
    mret. mstep (children_at_get _ _ _ Hcs).
    destruct (tree_list_index _ t cs k a st Ht eq_refl Hndcs Hsubcs Hk) as [Hli Hlr].
    mstep Hli. mstep Hlr. fold rest.
    mstep (update_ok st p pn (set_children (Some rest)) Hpn).
    set (h1 := <[p := set_children (Some rest) pn]> (heap st)).
    assert (Hh1p : h1 !! p = Some (set_children (Some rest) pn))
      by (apply (lookup_write_eq _ _ _ _ Hpn)).
    assert (Hgc : get_children p stm = (Ok final, stm)).
    { apply children_at_get. exact Hchm. }
    assert (Hgx : get_id x stm = (Ok xi, stm)).
    { apply id_at_get_id. unfold stm. stsimp. rewrite Hidm. exact Hxid. }
    destruct reassign; simpl when.
    + assert (Hgca : get_children a (with_heap h1 st) = (Ok cas, with_heap h1 st)).
      { apply children_at_get. stsimp. unfold h1.
        rewrite children_at_write_ne by congruence. exact Hcas. }
      mstep Hgca.
      mstep (get_children_ok (with_heap h1 st) p _ rest Hh1p eq_refl).
      mstep (update_ok (with_heap h1 st) p _ (set_children (Some (rest ++ cas)%list)) Hh1p).
      stsimp. rewrite set_children_twice. unfold h1. rewrite list_insert_insert_eq.
      fold final hm stm. mstep Hgc. simpl orb. cbv iota.
      unfold x in Hgx. mstep Hgx.
      exact Hrun.
    + mret. fold final h1 hm stm. mstep Hgc. simpl orb.
      unfold x in Hgx. destruct final as [|c0 final'] eqn:Hfin.
      * simpl. mstep Hgx. exact Hrun.
      * replace (Z.of_nat (length (c0 :: final')) =? 0) with false
          by (symmetry; apply Z.eqb_neq; simpl; lia).
        assert (Hmod : 0 <= Z.of_nat k mod Z.of_nat (length (c0 :: final'))
                       < Z.of_nat (length (c0 :: final')))
          by (apply Z.mod_pos_bound; simpl; lia).
        destruct (lookup_lt_is_Some_2 (c0 :: final')
                    (Z.to_nat (Z.of_nat k mod Z.of_nat (length (c0 :: final')))))
          as [c Hc]; [lia |].
        rewrite Hc in Hgx. simpl default in Hgx.
        mstep (py_nth_ok (c0 :: final') _ c stm (proj1 Hmod) Hc).
        mstep Hgx. exact Hrun.
  - rewrite (se_children _ _ Hset). unfold stm. stsimp. exact Hchm.
  - rewrite Hsel. congruence.
  - rewrite Hxid. eauto.
  - intros b. rewrite (se_ids _ _ Hset). unfold stm. stsimp. apply Hidm.
  - rewrite (se_clock _ _ Hset). reflexivity.
  - intros b s Hs Hm. apply (se_text _ _ Hset); [| exact Hm]. unfold stm. stsimp.
    rewrite Htxm. exact Hs.
  - intros b Hb. rewrite (se_children _ _ Hset). unfold stm. stsimp.
    unfold children_at. rewrite Hfrm by exact Hb. reflexivity.
  - apply raddr_replace_kids.
  - rewrite Hrep, Hpre. pose proof (f_equal forest_nodes Hks) as Hfk.
    rewrite forest_nodes_middle in Hfk. rewrite Hfk. unfold new.
    rewrite !forest_nodes_app. simpl rkids. simpl raddr.
    destruct reassign; [| unfold forest_nodes at 3; simpl; rewrite app_nil_r];
      solve_submseteq.
  - intros ->. symmetry. apply submseteq_length_Permutation.
    + rewrite Hrep, Hpre. pose proof (f_equal forest_nodes Hks) as Hfk.
      rewrite forest_nodes_middle in Hfk. rewrite Hfk. unfold new.
      rewrite !forest_nodes_app. simpl rkids. simpl raddr. solve_submseteq.
    + rewrite Hrep, Hpre. pose proof (f_equal forest_nodes Hks) as Hfk.
      rewrite forest_nodes_middle in Hfk. rewrite Hfk. unfold new.
      rewrite !forest_nodes_app. simpl rkids. simpl raddr.
      repeat (rewrite ?length_app, ?length_cons). lia.
Qed.

End Delete.

(** C4 (as the code has it): in a well-formed model, for a node [a] that is
    the [k]-th child of [p], [delete_node] returns and removes [a] from the
    children of [p].  Without [reassign_children] the parent is selected
    when no sibling is left, and otherwise the sibling at index
    [k mod (number of remaining siblings)] of the remaining list: the former
    index wraps around, so that deleting the last child selects the first
    sibling.  With [reassign_children] the children of [a] are appended in
    their order to the end of the children of [p] and [p] is selected. *)
Theorem delete_node_removes_and_selects
    (uuid1 : nat -> string) (html2text_handle : string -> string)
    st t node (a p : nat) pid (cs : list nat) (k : nat) (cas : list nat)
    (reassign : bool) :
  tree_ok st t -> a ∈ preorder t -> names st node a ->
  p ∈ preorder t -> parent_id_at (heap st) a = Some pid ->
  id_at (heap st) p = Some pid ->
  children_at (heap st) p = Some cs -> cs !! k = Some a ->
  children_at (heap st) a = Some cas ->
  let rest := (take k cs ++ drop (S k) cs)%list in
  exists st',
    delete_node uuid1 html2text_handle node reassign st = (Ok tt, st')
    /\ (exists t', tree_ok st' t')
    /\ (a ∉ rest)
    /\ children_at (heap st') p = Some (if reassign then (rest ++ cas)%list else rest)
    /\ selected_node_id st'
       = (if reassign then Some pid
          else match rest with
               | [] => Some pid
               | _ :: _ => id_at (heap st') (default p (rest !! (k mod length rest)%nat))
               end).
Proof.
  intros Hok Ha Hnames Hp Hpa Hpid Hcs Hk Hcas rest.
  destruct (delete_node_spec uuid1 html2text_handle st t node a p pid cs k cas reassign
              Hok Ha Hnames Hp Hpa Hpid Hcs Hk Hcas)
    as (st' & t' & Hrun & Hok' & Hch & Hsel & _ & Hids & _).
  exists st'. split; [exact Hrun |]. split; [eauto |]. split; [| split; [exact Hch |]].
  - destruct (tree_children _ t p cs (ok_tree _ _ Hok) Hp Hcs) as (Hnd & _ & _).
    rewrite <- (take_drop_middle cs k a Hk) in Hnd.
    apply NoDup_app in Hnd as (_ & Hl & Hr). apply NoDup_cons in Hr as [Hr _].
    unfold rest. intros H. apply elem_of_app in H as [H | H]; [| contradiction].
    apply (Hl a H). apply list_elem_of_here.
  - rewrite Hsel. fold rest. destruct reassign; [exact Hpid |].
    destruct rest as [|c0 rest'] eqn:Hrest; [exact Hpid |].
    rewrite Hids. rewrite <- Nat2Z.inj_mod, Nat2Z.id. reflexivity.
Qed.

(** ** Common steps of the structural edits *)

Lemma kept_frame h h' b : kept_at h' b = kept_at h b -> frame_at h' b = frame_at h b.
Proof.
  unfold kept_at, frame_at. destruct (h' !! b) as [n'|], (h !! b) as [n|]; simpl;
    try discriminate; [| reflexivity].
  unfold kept, frame_keys. intros H. injection H as -> -> -> _. reflexivity.
Qed.

Lemma kept_at_write (h : list node) x n n' :
  h !! x = Some n -> kept n' = kept n ->
  forall b, kept_at (<[x := n']> h) b = kept_at h b.
Proof.
  intros Hn Hk b. unfold kept_at. destruct (decide (x = b)) as [-> | Hne].
  - rewrite (lookup_write_eq _ _ _ _ Hn), Hn. simpl. rewrite Hk. reflexivity.
  - rewrite lookup_write_ne by exact Hne. reflexivity.
Qed.

Lemma kept_is_Some h h' b :
  kept_at h' b = kept_at h b -> is_Some (h !! b) -> is_Some (h' !! b).
Proof.
  unfold kept_at. intros H [n Hn]. rewrite Hn in H.
  destruct (h' !! b); [eauto | discriminate].
Qed.

Lemma frame_id h h' b : frame_at h' b = frame_at h b -> id_at h' b = id_at h b.
Proof.
  unfold frame_at, id_at. destruct (h' !! b) as [n'|], (h !! b) as [n|]; simpl;
    try discriminate; [| reflexivity].
  unfold frame_keys. intros H. injection H as -> _ _. reflexivity.
Qed.

(** A model that differs from a well-formed one only in keys that the form
    of the tree does not rest on is well formed. *)
Lemma tree_ok_frame st st' t :
  tree_ok st t ->
  option_map rd_root (tree_raw_data st') = option_map rd_root (tree_raw_data st) ->
  tree_node_dict st' = tree_node_dict st ->
  (forall b, b ∈ preorder t -> frame_at (heap st') b = frame_at (heap st) b) ->
  (forall b, b ∈ preorder t -> parent_id_at (heap st') b = parent_id_at (heap st) b) ->
  tree_ok st' t.
Proof.
  intros [Hraw Ht Hl Hidx] Hr Hd Hf Hp. split.
  - rewrite Hr. exact Hraw.
  - eapply tree_in_ext; eauto. apply Hp, raddr_in_preorder.
  - eapply linked_ext; eauto.
    + intros b Hb. apply frame_id, Hf, Hb.
    + eapply tree_in_nodup, Ht.
  - rewrite Hd, Hidx. f_equal. symmetry. apply index_of_ext.
    intros b Hb. apply frame_id, Hf, Hb.
Qed.

(** The children of a node of the tree are rearranged among themselves. *)
Lemma tree_in_rearrange h h' t p ks pre post new :
  tree_in h t ->
  preorder t = (pre ++ p :: forest_nodes ks ++ post)%list ->
  (forall new', preorder (replace_kids p new' t)
                = (pre ++ p :: forest_nodes new' ++ post)%list) ->
  (forall k', k' ∈ new -> shape h k') ->
  forest_nodes new ⊆+ forest_nodes ks ->
  (forall b, b <> p -> frame_at h' b = frame_at h b) ->
  id_at h' p = id_at h p -> is_Some (text_at h' p) ->
  children_at h' p = Some (map raddr new) ->
  parent_id_at h' (raddr t) = None ->
  tree_in h' (replace_kids p new t).
Proof.
  intros Ht Hpre Hrep Hsh Hsub Hfr Hid Htx Hch Hroot.
  pose proof (tree_in_nodup _ _ Ht) as Hnd.
  assert (Hndks : NoDup (forest_nodes ks) /\ p ∉ forest_nodes ks).
  { rewrite Hpre in Hnd. apply NoDup_app in Hnd as (_ & _ & Hnd).
    apply NoDup_cons in Hnd as [Hp Hnd]. apply NoDup_app in Hnd as (Hnd & _).
    split; [exact Hnd |]. intros H. apply Hp, elem_of_app. auto. }
  destruct Hndks as [Hndks Hpks].
  assert (Hin : forall b, b ∈ forest_nodes new -> b ∈ forest_nodes ks).
  { intros b Hb. eapply elem_of_submseteq; eauto. }
  assert (Hne : forall b, b ∈ forest_nodes new -> b <> p).
  { intros b Hb ->. apply Hpks, Hin, Hb. }
  eapply (tree_in_graft h h' t p ks pre post new); eauto.
  - apply Forall_forall. intros k' Hk'. eapply shape_frame; [apply Hsh, Hk' |].
    intros b Hb. apply Hfr, Hne, elem_of_forest_nodes. eauto.
  - intros b Hb. eapply has_keys_frame; [apply Hfr, Hne, Hb |].
    eapply tree_in_has_keys; [exact Ht |]. eapply forest_sub_tree; eauto.
  - apply NoDup_fmap_2_strong; [| eapply NoDup_submseteq_inv; eauto].
    intros u v Hu Hv Heq.
    rewrite (frame_id _ _ u (Hfr u (Hne u Hu))), (frame_id _ _ v (Hfr v (Hne v Hv))) in Heq.
    eapply (NoDup_map_inj_on (id_at h) (preorder t)); eauto.
    + apply (ti_ids _ _ Ht).
    + eapply forest_sub_tree; eauto.
    + eapply forest_sub_tree; eauto.
  - intros b Hb. left. split; [auto |]. apply frame_id, Hfr, Hne, Hb.
Qed.

(** A loop whose body keeps an invariant runs to its end and keeps it. *)
Lemma for_each_inv {A : Type} (I : TreeModel -> Prop) (l : list A)
    (body : A -> unit -> M unit) :
  (forall x st, x ∈ l -> I st -> exists st', body x tt st = (Ok tt, st') /\ I st') ->
  forall st, I st -> exists st', for_each l body tt st = (Ok tt, st') /\ I st'.
Proof.
  induction l as [|x l IH]; intros Hbody st HI.
  - exists st. split; [reflexivity | exact HI].
  - destruct (Hbody x st (list_elem_of_here _ _) HI) as (st1 & H1 & HI1).
    destruct (IH (fun y s Hy => Hbody y s (list_elem_of_further _ _ _ Hy)) st1 HI1)
      as (st2 & H2 & HI2).
    exists st2. split; [| exact HI2]. cbn [for_each]. mstep H1. exact H2.
Qed.

Section Steps.

Variable uuid1 : nat -> string.

(** The generator stays fresh when its next value is given to a new node. *)
Lemma uuid_fresh_alloc st st' c :
  uuid_fresh uuid1 st ->
  uuid_clock st' = S (uuid_clock st) ->
  id_at (heap st') c = Some (uuid1 (uuid_clock st)) ->
  (forall b, b <> c -> id_at (heap st') b = id_at (heap st) b) ->
  uuid_fresh uuid1 st'.
Proof.
  intros [Hinj Hfr] Hclk Hc Hids. split; [exact Hinj |].
  intros a k Hk. rewrite Hclk in Hk. destruct (decide (a = c)) as [-> | Hne].
  - rewrite Hc. intros H. injection H as H. apply Hinj in H. lia.
  - rewrite Hids by exact Hne. apply Hfr. lia.
Qed.

End Steps.

(** The first lines of an edit: the node it works on. *)
Lemma edit_start st t node a :
  tree_ok st t -> a ∈ preorder t -> names st node a ->
  or_selected node st = (Ok (Some a), st) /\ is_falsy (Some a) st = (Ok false, st).
Proof.
  intros Hok Ha Hn. split; [eapply or_selected_names; eauto |].
  destruct (tree_ok_node st t a Hok Ha) as (n & i & Hn' & _ & Htr & _).
  eapply is_falsy_some; eauto.
Qed.

Lemma parent_ok st t a p pid :
  tree_ok st t -> a ∈ preorder t -> p ∈ preorder t ->
  parent_id_at (heap st) a = Some pid -> id_at (heap st) p = Some pid ->
  parent a st = (Ok p, st).
Proof.
  intros Hok Ha Hp Hpa Hpid. pose proof Hok as [_ Ht _ Hidx].
  destruct (tree_ok_node st t a Hok Ha) as (n & i & Hn & _ & _ & _).
  unfold parent. mstep (read_ok _ _ _ Hn). rewrite (read_parent_id _ _ _ _ Hn Hpa).
  unfold key. mret. mget. rewrite Hidx. unfold dict_lookup, key.
  rewrite (dict_get_index_of _ _ p pid); auto.
  - intros y Hy. eapply tree_in_keys_id; eauto.
  - apply (ti_ids _ _ Ht).
Qed.

(** ** Edits that keep the model well formed: deleting and merging down *)

Lemma parent_id_at_read (h : list node) a n :
  h !! a = Some n -> parent_id_at h a = n_parent_id n.
Proof. intros H. unfold parent_id_at. rewrite H. reflexivity. Qed.

Lemma text_at_get st a s : text_at (heap st) a = Some s -> get_text a st = (Ok s, st).
Proof.
  unfold text_at. destruct (heap st !! a) as [n|] eqn:Hn; [| discriminate].
  simpl. intros H. eapply get_text_ok; eauto.
Qed.

Section DeleteMerge.

Variable uuid1 : nat -> string.
Variable html2text_handle : string -> string.

Lemma delete_node_ok st t node a reassign :
  tree_ok st t -> uuid_fresh uuid1 st -> a ∈ preorder t -> names st node a ->
  exists st',
    delete_node uuid1 html2text_handle node reassign st = (Ok tt, st')
    /\ (exists t', tree_ok st' t') /\ uuid_fresh uuid1 st'.
Proof.
  intros Hok Hfr Ha Hn.
  destruct (decide (a = raddr t)) as [Hr | Hr].
  - exists st. split; [| split; [eauto | exact Hfr]].
    destruct (tree_ok_node st t a Hok Ha) as (n & i & Hn' & _ & _ & _).
    unfold delete_node. mstep (or_selected_names st t node a Hok Ha Hn).
    unfold not_none. mret. mstep (read_ok _ _ _ Hn').
    rewrite <- (parent_id_at_read _ _ _ Hn').
    rewrite (proj2 (tree_ok_root_iff st t a Hok Ha) Hr). reflexivity.
  - destruct (tree_ok_parent st t a Hok Ha Hr) as (p & pid & cs & k & Hp & Hpa & Hpid & _ & Hcs & Hk).
    destruct (tree_in_keys_children _ _ a (ok_tree _ _ Hok) Ha) as [cas Hcas].
    destruct (delete_node_spec uuid1 html2text_handle st t node a p pid cs k cas reassign
                Hok Ha Hn Hp Hpa Hpid Hcs Hk Hcas)
      as (st' & t' & Hrun & Hok' & _ & _ & _ & Hids & Hclk & _).
    exists st'. split; [exact Hrun |]. split; [eauto |].
    eapply uuid_fresh_same; eauto.
Qed.

Lemma merge_with_children_ok st t node a :
  tree_ok st t -> uuid_fresh uuid1 st -> a ∈ preorder t -> names st node a ->
  exists st',
    merge_with_children uuid1 html2text_handle node st = (Ok tt, st')
    /\ (exists t', tree_ok st' t') /\ uuid_fresh uuid1 st'.
Proof.
  intros Hok Hfr Ha Hn.
  destruct (edit_start st t node a Hok Ha Hn) as [Hsel Hfalsy].
  destruct (tree_in_keys_children _ _ a (ok_tree _ _ Hok) Ha) as [cas Hcas].
  destruct (tree_children _ t a cas (ok_tree _ _ Hok) Ha Hcas) as (_ & Hsub & _).
  set (I := fun s : TreeModel => tree_ok s t /\ uuid_fresh uuid1 s).
  destruct (for_each_inv I cas
              (fun child _ =>
                 let* t := get_text a in
                 let* ct := get_text child in
                 update child (set_text (Some (t ++ ct)%string)))) with (st := st)
    as (s1 & Hloop & Hok1 & Hfr1).
  { intros x s Hx [Hoks Hfrs].
    destruct (tree_in_keys_text _ _ a (ok_tree _ _ Hoks) Ha) as [ta Hta].
    destruct (tree_in_keys_text _ _ x (ok_tree _ _ Hoks) (Hsub x Hx)) as [tx Htx].
    destruct (tree_ok_node s t x Hoks (Hsub x Hx)) as (n & i & Hn' & _ & _ & _).
    assert (Hnt : is_Some (n_text n)).
    { unfold text_at in Htx. rewrite Hn' in Htx. simpl in Htx. rewrite Htx. eauto. }
    eexists. split.
    - mstep (text_at_get _ _ _ Hta). mstep (text_at_get _ _ _ Htx).
      apply (update_ok s x n (set_text (Some (ta ++ tx)%string)) Hn').
    - pose proof (fun b => skeleton_write_text (heap s) x n (ta ++ tx)%string b Hn' Hnt) as Hsk.
      split.
      + eapply tree_ok_frame; [exact Hoks | reflexivity | reflexivity | |]; stsimp.
        * intros b _. apply kept_frame, skeleton_kept, Hsk.
        * intros b _. apply skeleton_parent_id, Hsk.
      + eapply uuid_fresh_same; [exact Hfrs | | reflexivity]. stsimp.
        intros b. apply kept_id, skeleton_kept, Hsk. }
  { split; assumption. }
  destruct (delete_node_ok s1 t (Some a) a true Hok1 Hfr1 Ha (or_introl eq_refl))
    as (st' & Hdel & Hok' & Hfr').
  exists st'. split; [| split; assumption].
  unfold merge_with_children. mstep Hsel. mstep Hfalsy.
  mstep (children_at_get _ _ _ Hcas). mstep Hloop. exact Hdel.
Qed.

End DeleteMerge.

(** ** Edits that add a node *)

(** The children of a node of the tree are rearranged and one new node [c]
    with an unused id is put among them. *)
Lemma tree_in_alloc h h' t p ks pre post new c u :
  tree_in h t ->
  preorder t = (pre ++ p :: forest_nodes ks ++ post)%list ->
  (forall new', preorder (replace_kids p new' t)
                = (pre ++ p :: forest_nodes new' ++ post)%list) ->
  forest_nodes new ⊆+ c :: forest_nodes ks ->
  c ∉ preorder t ->
  (forall y, y ∈ preorder t -> id_at h y <> Some u) ->
  id_at h' c = Some u -> has_keys h' c ->
  (forall b, b <> p -> b <> c -> frame_at h' b = frame_at h b) ->
  Forall (shape h') new ->
  id_at h' p = id_at h p -> is_Some (text_at h' p) ->
  children_at h' p = Some (map raddr new) ->
  parent_id_at h' (raddr t) = None ->
  tree_in h' (replace_kids p new t).
Proof.
  intros Ht Hpre Hrep Hsub Hc Hu Hidc Hkc Hfr Hsh Hid Htx Hch Hroot.
  pose proof (tree_in_nodup _ _ Ht) as Hnd.
  assert (Hndks : NoDup (forest_nodes ks) /\ p ∉ forest_nodes ks).
  { rewrite Hpre in Hnd. apply NoDup_app in Hnd as (_ & _ & Hnd).
    apply NoDup_cons in Hnd as [Hp Hnd]. apply NoDup_app in Hnd as (Hnd & _).
    split; [exact Hnd |]. intros H. apply Hp, elem_of_app. auto. }
  destruct Hndks as [Hndks Hpks].
  assert (Hp : p ∈ preorder t).
  { rewrite Hpre. apply elem_of_app. right. apply list_elem_of_here. }
  assert (Hin : forall b, b ∈ forest_nodes new -> b = c \/ b ∈ forest_nodes ks).
  { intros b Hb. apply (elem_of_submseteq _ _ _ Hb) in Hsub.
    apply elem_of_cons in Hsub. exact Hsub. }
  assert (Hcks : c ∉ forest_nodes ks).
  { intros H. apply Hc. eapply forest_sub_tree; eauto. }
  assert (Hold : forall b, b ∈ forest_nodes ks ->
                   b ∈ preorder t /\ id_at h' b = id_at h b /\ frame_at h' b = frame_at h b).
  { intros b Hb. assert (Hf : frame_at h' b = frame_at h b).
    { apply Hfr; intros ->; auto. }
    split; [eapply forest_sub_tree; eauto |]. split; [apply frame_id, Hf | exact Hf]. }
  eapply (tree_in_graft h h' t p ks pre post new); eauto.
  - intros b Hb Hbp _. apply Hfr; [exact Hbp |]. intros ->. auto.
  - intros b Hb. destruct (Hin b Hb) as [-> | Hb']; [exact Hkc |].
    destruct (Hold b Hb') as (Hbt & _ & Hf).
    eapply has_keys_frame; [exact Hf |]. eapply tree_in_has_keys; eauto.
  - apply NoDup_fmap_2_strong.
    + intros x y Hx Hy Heq.
      destruct (Hin x Hx) as [-> | Hx'], (Hin y Hy) as [-> | Hy']; [reflexivity | | |].
      * destruct (Hold y Hy') as (Hyt & Hyi & _). rewrite Hidc, Hyi in Heq.
        exfalso. apply (Hu y Hyt). congruence.
      * destruct (Hold x Hx') as (Hxt & Hxi & _). rewrite Hidc, Hxi in Heq.
        exfalso. apply (Hu x Hxt). congruence.
      * destruct (Hold x Hx') as (Hxt & Hxi & _). destruct (Hold y Hy') as (Hyt & Hyi & _).
        rewrite Hxi, Hyi in Heq.
        eapply (NoDup_map_inj_on (id_at h) (preorder t)); eauto. apply (ti_ids _ _ Ht).
    + eapply NoDup_submseteq_inv; [exact Hsub |]. apply NoDup_cons. auto.
  - intros b Hb. destruct (Hin b Hb) as [-> | Hb'].
    + right. split; [exact Hc |]. intros y Hy. rewrite Hidc. intros H. apply (Hu y Hy). congruence.
    + left. split; [exact Hb' | apply (Hold b Hb')].
Qed.

Lemma lookup_alloc_old (h : list node) n b : is_Some (h !! b) -> (h ++ [n])%list !! b = h !! b.
Proof. intros H. apply lookup_app_l. apply lookup_lt_is_Some_1, H. Qed.

Lemma lookup_alloc_new (h : list node) n : (h ++ [n])%list !! length h = Some n.
Proof. rewrite lookup_app_r by lia. rewrite Nat.sub_diag. reflexivity. Qed.

Lemma lookup_alloc_other (h : list node) n b : b <> length h -> (h ++ [n])%list !! b = h !! b.
Proof.
  intros Hne. destruct (decide (b < length h)%nat) as [Hlt | Hge].
  - apply lookup_app_l, Hlt.
  - rewrite (lookup_ge_None_2 h b) by lia. apply lookup_ge_None_2.
    rewrite length_app. simpl. lia.
Qed.

Lemma alloc_not_in_tree h t : tree_in h t -> length h ∉ preorder t.
Proof.
  intros Ht Hin. destruct (shape_lookup _ _ _ (ti_shape _ _ Ht) Hin) as [n Hn].
  apply lookup_lt_Some in Hn. lia.
Qed.

Section Create.

Variable uuid1 : nat -> string.
Variable html2text_handle : string -> string.

(** The last lines of [create_child], after the refresh. *)
Lemma create_child_tail_run st t c (update_selection expand : bool) :
  tree_ok st t -> uuid_fresh uuid1 st -> c ∈ preorder t ->
  exists st',
    (when update_selection (let* i := get_id c in select_node i true ;;; ret tt) ;;;
     when expand (update c (set_open (Some true))) ;;;
     ret (Some c)) st = (Ok (Some c), st')
    /\ tree_ok st' t /\ uuid_fresh uuid1 st'
    /\ (forall b, content_at (heap st') b = content_at (heap st) b)
    /\ selected_node_id st'
       = (if update_selection then id_at (heap st) c else selected_node_id st)
    /\ (expand = true -> exists n, heap st' !! c = Some n /\ n_open n = Some true)
    /\ uuid_clock st' = uuid_clock st
    /\ length (heap st') = length (heap st)
    /\ option_map rd_generation_settings (tree_raw_data st')
       = option_map rd_generation_settings (tree_raw_data st)
    /\ started st' = started st.
Proof.
  intros Hok Hfr Hc.
  assert (H1 : exists s1, when update_selection
                 (let* i := get_id c in select_node i true ;;; ret tt) st = (Ok tt, s1)
               /\ tree_ok s1 t /\ uuid_fresh uuid1 s1
               /\ (forall b, content_at (heap s1) b = content_at (heap st) b)
               /\ selected_node_id s1
                  = (if update_selection then id_at (heap st) c else selected_node_id st)
               /\ uuid_clock s1 = uuid_clock st
               /\ length (heap s1) = length (heap st)
               /\ option_map rd_generation_settings (tree_raw_data s1)
                  = option_map rd_generation_settings (tree_raw_data st)
               /\ started s1 = started st).
  { destruct update_selection; [| exists st; auto 12].
    destruct (tree_ok_node st t c Hok Hc) as (n & i & Hn & Hi & _ & Hid).
    destruct (select_node_tree_ok st t c i true Hok Hc Hid) as (r & s1 & Hrun & Hsel & Hpost & Hok1).
    exists s1. split; [| split; [exact Hok1 | split; [| split; [| split; [| split; [| split;
      [| split; [apply (sp_settings _ _ Hpost) | apply (sp_started _ _ Hpost)]]]]]]]].
    - simpl when. mstep (id_at_get_id _ _ _ Hid). mstep Hrun. reflexivity.
    - eapply uuid_fresh_same; [exact Hfr | | apply (sp_clock _ _ Hpost)].
      intros b. apply content_id, (sp_content _ _ Hpost).
    - apply (sp_content _ _ Hpost).
    - congruence.
    - apply (sp_clock _ _ Hpost).
    - apply (sp_length _ _ Hpost). }
  destruct H1 as (s1 & Hrun1 & Hok1 & Hfr1 & Hc1 & Hsel1 & Hclk1 & Hlen1 & Hgs1 & Hw1).
  assert (H2 : exists s2, when expand (update c (set_open (Some true))) s1 = (Ok tt, s2)
               /\ tree_ok s2 t /\ uuid_fresh uuid1 s2
               /\ (forall b, content_at (heap s2) b = content_at (heap s1) b)
               /\ selected_node_id s2 = selected_node_id s1
               /\ (expand = true -> exists n, heap s2 !! c = Some n /\ n_open n = Some true)
               /\ uuid_clock s2 = uuid_clock s1
               /\ length (heap s2) = length (heap s1)
               /\ tree_raw_data s2 = tree_raw_data s1
               /\ started s2 = started s1).
  { destruct expand; [| exists s1; split; [reflexivity |]; split; [exact Hok1 |];
                        split; [exact Hfr1 |]; split; [reflexivity |];
                        split; [reflexivity |]; split; [discriminate | repeat split]].
    destruct (tree_ok_node s1 t c Hok1 Hc) as (n & i & Hn & _).
    eexists. split; [apply (update_ok s1 c n (set_open (Some true)) Hn) |].
    pose proof (fun b => content_at_write (heap s1) c n (set_open (Some true) n) b Hn eq_refl)
      as Hct.
    split; [| split; [| split; [exact Hct | split; [reflexivity | split; [| split;
      [reflexivity | split; [stsimp; apply length_insert | split; reflexivity]]]]]]].
    - eapply tree_ok_frame; [exact Hok1 | reflexivity | reflexivity | |]; stsimp.
      + intros b _. apply content_frame, Hct.
      + intros b _. apply content_parent_id, Hct.
    - eapply uuid_fresh_same; [exact Hfr1 | | reflexivity]. stsimp.
      intros b. apply content_id, Hct.
    - intros _. stsimp. eexists. split; [apply (lookup_write_eq _ _ _ _ Hn) | reflexivity]. }
  destruct H2 as (s2 & Hrun2 & Hok2 & Hfr2 & Hc2 & Hsel2 & Hop2 & Hclk2 & Hlen2 & Hraw2 & Hw2).
  exists s2.
  split; [| split; [exact Hok2 | split; [exact Hfr2 | split; [| split; [| split; [| split;
    [| split; [| split]]]]]]]].
  - mstep Hrun1. mstep Hrun2. reflexivity.
  - intros b. rewrite Hc2. apply Hc1.
  - congruence.
  - exact Hop2.
  - congruence.
  - congruence.
  - rewrite Hraw2. exact Hgs1.
  - congruence.
Qed.

Lemma create_child_tail st t c (update_selection expand : bool) :
  tree_ok st t -> uuid_fresh uuid1 st -> c ∈ preorder t ->
  exists st',
    (when update_selection (let* i := get_id c in select_node i true ;;; ret tt) ;;;
     when expand (update c (set_open (Some true))) ;;;
     ret (Some c)) st = (Ok (Some c), st')
    /\ tree_ok st' t /\ uuid_fresh uuid1 st'.
Proof.
  intros Hok Hfr Hc.
  destruct (create_child_tail_run st t c update_selection expand Hok Hfr Hc)
    as (st' & H1 & H2 & H3 & _).
  exists st'. auto.
Qed.

End Create.

(** ** [create_child] and [create_sibling] *)

Lemma uuid_fresh_tree (uuid1 : nat -> string) st t :
  uuid_fresh uuid1 st ->
  forall y, y ∈ preorder t -> id_at (heap st) y <> Some (uuid1 (uuid_clock st)).
Proof. intros [_ H] y _. apply H. lia. Qed.

Section CreateChild.

Variable uuid1 : nat -> string.
Variable html2text_handle : string -> string.

(** [create_child] on a node [p] of the tree whose children are [cs]: the
    new node is the next address of the store and is put last among the
    children of [p]. *)
Lemma create_child_run st t node p cs (update_selection expand : bool) :
  tree_ok st t -> uuid_fresh uuid1 st -> p ∈ preorder t -> names st node p ->
  children_at (heap st) p = Some cs ->
  exists st' t',
    create_child uuid1 html2text_handle node update_selection expand st
    = (Ok (Some (length (heap st))), st')
    /\ tree_ok st' t' /\ uuid_fresh uuid1 st'
    /\ (forall b, b ∈ preorder t' <-> b = length (heap st) \/ b ∈ preorder t)
    /\ raddr t' = raddr t
    /\ children_at (heap st') p = Some (cs ++ [length (heap st)])%list
    /\ (forall b, b <> p -> b <> length (heap st) ->
          children_at (heap st') b = children_at (heap st) b)
    /\ (forall b, b <> length (heap st) -> id_at (heap st') b = id_at (heap st) b)
    /\ id_at (heap st') (length (heap st)) = Some (uuid1 (uuid_clock st))
    /\ text_at (heap st') (length (heap st)) = Some ""%string
    /\ children_at (heap st') (length (heap st)) = Some []
    /\ (forall b s, text_at (heap st) b = Some s -> has_miro_markup s = false ->
          text_at (heap st') b = Some s)
    /\ selected_node_id st'
       = (if update_selection then Some (uuid1 (uuid_clock st)) else selected_node_id st)
    /\ (expand = true ->
        exists n, heap st' !! length (heap st) = Some n /\ n_open n = Some true)
    /\ uuid_clock st' = S (uuid_clock st)
    /\ length (heap st') = S (length (heap st))
    /\ option_map rd_generation_settings (tree_raw_data st')
       = option_map rd_generation_settings (tree_raw_data st)
    /\ started st' = started st.
Proof.
  intros Hok Hfr Hp Hnames Hcs.
  destruct (edit_start st t node p Hok Hp Hnames) as [Hsel Hfalsy].
  pose proof Hok as [Hraw Ht Hl Hidx].
  pose proof (tree_in_nodup _ _ Ht) as Hnd.
  destruct (tree_in_has_keys _ _ p Ht Hp) as (pn & Hpn & _ & [pt Hpt] & _).
  assert (Hcs' : n_children pn = Some cs).
  { unfold children_at in Hcs. rewrite Hpn in Hcs. exact Hcs. }
  destruct (replace_kids_decomp t p Hnd Hp) as (ks & pre & post & Hpre & Hrep & Hsh).
  pose proof (Hsh _ (ti_shape _ _ Ht)) as Hshp.
  pose proof (shape_children _ _ _ _ Hshp Hcs) as Hcsk.
  pose proof (shape_kids _ _ _ Hshp) as Hshks.
  set (c := length (heap st)).
  set (u := uuid1 (uuid_clock st)).
  set (nn := mkNode (Some u) (Some ""%string) None (Some []) None None None None).
  set (h2 := (heap st ++ [nn])%list).
  set (hm := <[p := set_children (Some (cs ++ [c])%list) pn]> h2).
  set (new := (ks ++ [RT c []])%list).
  assert (Hcp : c <> p).
  { intros Heq. apply lookup_lt_Some in Hpn. unfold c in Heq. lia. }
  assert (Hh2p : h2 !! p = Some pn).
  { unfold h2. rewrite lookup_alloc_old; eauto. }
  assert (Hhmp : hm !! p = Some (set_children (Some (cs ++ [c])%list) pn)).
  { apply (lookup_write_eq _ _ _ _ Hh2p). }
  assert (Hhmc : hm !! c = Some nn).
  { unfold hm. rewrite lookup_write_ne by congruence. apply lookup_alloc_new. }
  assert (Hhmo : forall b, b <> p -> b <> c -> hm !! b = heap st !! b).
  { intros b Hbp Hbc. unfold hm. rewrite lookup_write_ne by congruence.
    apply lookup_alloc_other, Hbc. }
  assert (Hfro : forall b, b <> p -> b <> c -> frame_at hm b = frame_at (heap st) b).
  { intros b Hbp Hbc. unfold frame_at. rewrite Hhmo by assumption. reflexivity. }
  assert (Hidm : forall b, b <> c -> id_at hm b = id_at (heap st) b).
  { intros b Hbc. unfold id_at. destruct (decide (b = p)) as [-> | Hbp].
    - rewrite Hhmp, Hpn. reflexivity.
    - rewrite Hhmo by assumption. reflexivity. }
  assert (Hpam : forall b, b <> c -> parent_id_at hm b = parent_id_at (heap st) b).
  { intros b Hbc. unfold parent_id_at. destruct (decide (b = p)) as [-> | Hbp].
    - rewrite Hhmp, Hpn. reflexivity.
    - rewrite Hhmo by assumption. reflexivity. }
  pose proof (alloc_not_in_tree _ _ Ht) as Hct. fold c in Hct.
  assert (Hks_ne : forall b, b ∈ forest_nodes ks -> b <> p /\ b <> c).
  { intros b Hb. split; intros ->.
    - rewrite Hpre in Hnd. apply NoDup_app in Hnd as (_ & _ & Hnd').
      apply NoDup_cons in Hnd' as [Hnp _]. apply Hnp, elem_of_app. auto.
    - apply Hct. eapply forest_sub_tree; eauto. }
  assert (Htm : tree_in hm (replace_kids p new t)).
  { apply (tree_in_alloc (heap st) hm t p ks pre post new c u Ht Hpre Hrep).
    - unfold new. rewrite forest_nodes_app. unfold forest_nodes at 2. simpl.
      rewrite (Permutation_app_comm (forest_nodes ks) [c]). reflexivity.
    - exact Hct.
    - apply (uuid_fresh_tree uuid1 st t Hfr).
    - unfold id_at. rewrite Hhmc. reflexivity.
    - exists nn. split; [exact Hhmc |]. simpl. eauto.
    - exact Hfro.
    - unfold new. apply Forall_app. split.
      + rewrite Forall_forall in Hshks. apply Forall_forall. intros k' Hk'.
        eapply shape_frame; [apply Hshks, Hk' |]. intros b Hb.
        apply Hfro; apply (Hks_ne b); apply elem_of_forest_nodes; eauto.
      + apply Forall_singleton. econstructor; [exact Hhmc | reflexivity | constructor].
    - apply Hidm. congruence.
    - unfold text_at. rewrite Hhmp. simpl. rewrite Hpt. eauto.
    - unfold children_at. rewrite Hhmp. simpl. unfold new.
      rewrite map_app, Hcsk. reflexivity.
    - rewrite Hpam; [apply (ti_root _ _ Ht) |]. intros Heq. apply Hct. rewrite <- Heq.
      apply raddr_in_preorder. }
  set (stm := with_heap hm (with_clock (S (uuid_clock st)) st)).
  destruct (refresh_settled uuid1 html2text_handle stm (replace_kids p new t))
    as (s4 & Hrefresh & Hok4 & Hset & Hsel4 & _).
  { unfold stm. stsimp. rewrite raddr_replace_kids. exact Hraw. }
  { exact Htm. }
  assert (Hfr4 : uuid_fresh uuid1 s4).
  { apply (uuid_fresh_alloc uuid1 st s4 c Hfr).
    - rewrite (se_clock _ _ Hset). reflexivity.
    - rewrite (se_ids _ _ Hset). unfold stm. stsimp. unfold id_at. rewrite Hhmc. reflexivity.
    - intros b Hb. rewrite (se_ids _ _ Hset). unfold stm. stsimp. apply Hidm, Hb. }
  assert (Hc4 : c ∈ preorder (replace_kids p new t)).
  { rewrite Hrep. apply elem_of_app. right. apply list_elem_of_further, elem_of_app. left.
    unfold new. rewrite forest_nodes_app. apply elem_of_app. right.
    unfold forest_nodes. simpl. apply list_elem_of_here. }
  destruct (create_child_tail_run uuid1 s4 _ c update_selection expand Hok4 Hfr4 Hc4)
    as (st' & Htail & Hok' & Hfr' & Hct' & Hsel' & Hop' & Hclk' & Hlen' & Hgs' & Hw').
  assert (Hid4 : forall b, id_at (heap st') b = id_at hm b).
  { intros b. rewrite (content_id _ _ _ (Hct' b)), (se_ids _ _ Hset). reflexivity. }
  assert (Hch4 : forall b, children_at (heap st') b = children_at hm b).
  { intros b. rewrite (content_children _ _ _ (Hct' b)), (se_children _ _ Hset).
    reflexivity. }
  assert (Htx4 : forall b x, text_at hm b = Some x -> has_miro_markup x = false ->
                             text_at (heap st') b = Some x).
  { intros b x Hx Hm. rewrite (content_text _ _ _ (Hct' b)).
    apply (se_text _ _ Hset); assumption. }
  exists st', (replace_kids p new t).
  split; [| split; [exact Hok' | split; [exact Hfr' |]]].
  { unfold create_child. mstep Hsel. mstep Hfalsy.
    mstep (eq_refl (str_uuid1 uuid1 st)). fold u.
    mstep (eq_refl (alloc nn (with_clock (S (uuid_clock st)) st))). stsimp. fold c h2.
    assert (Hgc : get_children p (with_heap h2 (with_clock (S (uuid_clock st)) st))
                  = (Ok cs, with_heap h2 (with_clock (S (uuid_clock st)) st))).
    { apply children_at_get. stsimp. unfold children_at. rewrite Hh2p. exact Hcs'. }
    mstep Hgc.
    mstep (update_ok (with_heap h2 (with_clock (S (uuid_clock st)) st)) p pn
             (set_children (Some (cs ++ [c])%list)) Hh2p).
    stsimp. fold hm.
    change (with_heap hm (with_heap h2 (with_clock (S (uuid_clock st)) st))) with stm.
    mstep Hrefresh. exact Htail. }
  fold c u.
  split.
  { intros b. rewrite Hrep, Hpre. unfold new. rewrite forest_nodes_app.
    change (forest_nodes [RT c []]) with [c].
    rewrite !elem_of_app, !elem_of_cons, !elem_of_app, list_elem_of_singleton. tauto. }
  split; [apply raddr_replace_kids |].
  split; [rewrite Hch4; unfold children_at; rewrite Hhmp; reflexivity |].
  split.
  { intros b Hbp Hbc. rewrite Hch4. unfold children_at. rewrite Hhmo by assumption.
    reflexivity. }
  split; [intros b Hbc; rewrite Hid4; apply Hidm, Hbc |].
  split; [rewrite Hid4; unfold id_at; rewrite Hhmc; reflexivity |].
  split; [apply Htx4; [unfold text_at; rewrite Hhmc |]; reflexivity |].
  split; [rewrite Hch4; unfold children_at; rewrite Hhmc; reflexivity |].
  split.
  { intros b x Hx Hm. apply Htx4; [| exact Hm]. unfold text_at in *.
    destruct (heap st !! b) as [bn|] eqn:Hbn; [| discriminate].
    destruct (decide (b = p)) as [-> | Hbp].
    - rewrite Hhmp. rewrite Hpn in Hbn. injection Hbn as <-. exact Hx.
    - rewrite Hhmo, Hbn; [exact Hx | exact Hbp |].
      intros ->. apply lookup_lt_Some in Hbn. unfold c in Hbn. lia. }
  split.
  { rewrite Hsel'. destruct update_selection.
    - rewrite (se_ids _ _ Hset). unfold stm. stsimp. unfold id_at. rewrite Hhmc. reflexivity.
    - rewrite Hsel4. unfold stm. stsimp. reflexivity. }
  split; [exact Hop' |].
  split; [rewrite Hclk', (se_clock _ _ Hset); unfold stm; stsimp; reflexivity |].
  split.
  { rewrite Hlen', (se_length _ _ Hset). unfold stm. stsimp. unfold hm.
    rewrite length_insert. unfold h2. rewrite length_app. simpl. lia. }
  split; [rewrite Hgs', (se_settings _ _ Hset); unfold stm; stsimp; reflexivity |].
  rewrite Hw', (se_started _ _ Hset). unfold stm. stsimp. reflexivity.
Qed.

Lemma create_child_ok st t node p (update_selection expand : bool) :
  tree_ok st t -> uuid_fresh uuid1 st -> p ∈ preorder t -> names st node p ->
  exists c st',
    create_child uuid1 html2text_handle node update_selection expand st = (Ok (Some c), st')
    /\ (exists t', tree_ok st' t') /\ uuid_fresh uuid1 st'.
Proof.
  intros Hok Hfr Hp Hnames.
  destruct (tree_in_has_keys _ _ p (ok_tree _ _ Hok) Hp) as (pn & Hpn & _ & _ & [cs Hcs']).
  assert (Hcs : children_at (heap st) p = Some cs).
  { unfold children_at. rewrite Hpn. exact Hcs'. }
  destruct (create_child_run st t node p cs update_selection expand Hok Hfr Hp Hnames Hcs)
    as (st' & t' & Hrun & Hok' & Hfr' & _).
  exists (length (heap st)), st'. eauto.
Qed.

Lemma create_sibling_ok st t node a (update_selection : bool) :
  tree_ok st t -> uuid_fresh uuid1 st -> a ∈ preorder t -> names st node a ->
  a <> raddr t ->
  exists st',
    create_sibling uuid1 html2text_handle node update_selection st = (Ok tt, st')
    /\ (exists t', tree_ok st' t') /\ uuid_fresh uuid1 st'.
Proof.
  intros Hok Hfr Ha Hnames Hr.
  destruct (edit_start st t node a Hok Ha Hnames) as [Hsel Hfalsy].
  destruct (tree_ok_parent st t a Hok Ha Hr) as (p & pid & cs & k & Hp & Hpa & Hpid & _).
  destruct (create_child_ok st t (Some p) p update_selection true Hok Hfr Hp (or_introl eq_refl))
    as (c & st' & Hrun & Hok' & Hfr').
  exists st'. split; [| split; assumption].
  unfold create_sibling. mstep Hsel. mstep Hfalsy.
  mstep (parent_ok st t a p pid Hok Ha Hp Hpa Hpid). mstep Hrun. reflexivity.
Qed.

End CreateChild.

(** ** [create_parent] *)

(** A new node above the root. *)
Lemma tree_in_new_root h h' t c nc u :
  tree_in h t -> c ∉ preorder t ->
  (forall y, y ∈ preorder t -> id_at h y <> Some u) ->
  h' !! c = Some nc -> n_id nc = Some u -> is_Some (n_text nc) ->
  n_children nc = Some [raddr t] -> n_parent_id nc = None ->
  (forall b, b ∈ preorder t -> frame_at h' b = frame_at h b) ->
  tree_in h' (RT c [t]).
Proof.
  intros Ht Hc Hu Hnc Hid Htx Hch Hpa Hfr.
  assert (Hpo : preorder (RT c [t]) = c :: preorder t).
  { rewrite preorder_unfold, forest_nodes_cons. unfold forest_nodes. simpl.
    rewrite app_nil_r. reflexivity. }
  split.
  - econstructor; [exact Hnc | rewrite Hch; reflexivity |].
    apply Forall_singleton. eapply shape_frame; [apply (ti_shape _ _ Ht) | exact Hfr].
  - intros b Hb. rewrite Hpo in Hb. apply elem_of_cons in Hb as [-> | Hb].
    + exists nc. rewrite Hid, Hch. eauto.
    + eapply has_keys_frame; [apply Hfr, Hb |]. eapply tree_in_has_keys; eauto.
  - rewrite Hpo. cbn [map]. apply NoDup_cons. split.
    + unfold id_at at 1. rewrite Hnc, Hid. intros Hin.
      apply list_elem_of_fmap in Hin as (y & Hy & Hyt).
      rewrite (frame_id _ _ y (Hfr y Hyt)) in Hy. apply (Hu y Hyt). congruence.
    + rewrite (map_ext_elem (id_at h') (id_at h)).
      * apply (ti_ids _ _ Ht).
      * intros y Hy. apply frame_id, Hfr, Hy.
  - simpl. unfold parent_id_at. rewrite Hnc. exact Hpa.
Qed.

Lemma assert_eq_refl a st : assert_eq a a st = (Ok tt, st).
Proof.
  unfold assert_eq, lift_store, bind. rewrite node_eq_refl. reflexivity.
Qed.

Lemma raw_root_ok st t :
  option_map rd_root (tree_raw_data st) = Some (raddr t) -> raw_root st = (Ok (raddr t), st).
Proof.
  intros H. unfold raw_root. mget. destruct (tree_raw_data st) as [rd|]; [| discriminate].
  injection H as ->. reflexivity.
Qed.

Lemma insert_middle {A : Type} (l : list A) k x y :
  l !! k = Some y -> <[k := x]> l = (take k l ++ x :: drop (S k) l)%list.
Proof. intros H. apply insert_take_drop. eapply lookup_lt_Some, H. Qed.

Section CreateParent.

Variable uuid1 : nat -> string.
Variable html2text_handle : string -> string.

(** [create_parent] on a node [a] of the tree: the new node is the next
    address of the store; it becomes the root above the root, and takes
    the place of [a] among the children of its parent otherwise. *)
Lemma create_parent_run st t node a :
  tree_ok st t -> uuid_fresh uuid1 st -> a ∈ preorder t -> names st node a ->
  exists st' t',
    create_parent uuid1 html2text_handle node st = (Ok tt, st')
    /\ tree_ok st' t' /\ uuid_fresh uuid1 st'
    /\ (forall b, b ∈ preorder t' <-> b = length (heap st) \/ b ∈ preorder t)
    /\ id_at (heap st') (length (heap st)) = Some (uuid1 (uuid_clock st))
    /\ text_at (heap st') (length (heap st)) = Some ""%string
    /\ children_at (heap st') (length (heap st)) = Some [a]
    /\ (forall b, b <> length (heap st) -> id_at (heap st') b = id_at (heap st) b)
    /\ (forall b s, text_at (heap st) b = Some s -> has_miro_markup s = false ->
          text_at (heap st') b = Some s)
    /\ selected_node_id st' = selected_node_id st
    /\ (a = raddr t ->
        raddr t' = length (heap st)
        /\ forall b, b <> length (heap st) ->
                     children_at (heap st') b = children_at (heap st) b)
    /\ (a <> raddr t ->
        raddr t' = raddr t
        /\ exists p pid cs k,
            p ∈ preorder t /\ parent_id_at (heap st) a = Some pid
            /\ id_at (heap st) p = Some pid
            /\ children_at (heap st) p = Some cs /\ cs !! k = Some a
            /\ children_at (heap st') p = Some (<[k := length (heap st)]> cs)
            /\ forall b, b <> length (heap st) -> b <> p ->
                         children_at (heap st') b = children_at (heap st) b).
Proof.
  intros Hok Hfr Ha Hnames.
  destruct (edit_start st t node a Hok Ha Hnames) as [Hsel Hfalsy].
  pose proof Hok as [Hraw Ht Hl Hidx].
  pose proof (tree_in_nodup _ _ Ht) as Hnd.
  destruct (tree_ok_node st t a Hok Ha) as (an & ai & Han & Hai & _ & Haid).
  set (c := length (heap st)).
  set (u := uuid1 (uuid_clock st)).
  set (nn := mkNode (Some u) (Some ""%string) None (Some [a]) None None None None).
  set (h2 := (heap st ++ [nn])%list).
  set (s2 := with_heap h2 (with_clock (S (uuid_clock st)) st)).
  pose proof (alloc_not_in_tree _ _ Ht) as Hct. fold c in Hct.
  assert (Hca : c <> a) by (intros Heq; apply Hct; rewrite Heq; exact Ha).
  assert (Hh2o : forall b, b <> c -> h2 !! b = heap st !! b).
  { intros b Hb. apply lookup_alloc_other, Hb. }
  assert (Hh2c : h2 !! c = Some nn) by apply lookup_alloc_new.
  assert (Hh2a : h2 !! a = Some an) by (rewrite Hh2o by congruence; exact Han).
  destruct (decide (a = raddr t)) as [Hr | Hr].
  - (* the root gets a parent, which becomes the root *)
    assert (Hpa : n_parent_id an = None).
    { rewrite <- (parent_id_at_read _ _ _ Han).
      apply (proj2 (tree_ok_root_iff st t a Hok Ha) Hr). }
    destruct (tree_raw_data st) as [rd|] eqn:Hrd; [| discriminate].
    simpl in Hraw. injection Hraw as Hroot.
    set (h5 := <[a := set_parent_id (Some u) an]> h2).
    set (rd' := mkRaw c (rd_selected_node_id rd) (rd_chapters rd) (rd_generation_settings rd)).
    set (stm := with_heap h5 (with_raw (Some rd') s2)).
    assert (Hh5c : h5 !! c = Some nn).
    { unfold h5. rewrite lookup_write_ne by congruence. exact Hh2c. }
    assert (Hh5f : forall b, b <> c -> frame_at h5 b = frame_at (heap st) b).
    { intros b Hb. unfold frame_at, h5. destruct (decide (a = b)) as [<- | Hne].
      - rewrite (lookup_write_eq _ _ _ _ Hh2a), Han. reflexivity.
      - rewrite lookup_write_ne by exact Hne. rewrite Hh2o by exact Hb. reflexivity. }
    assert (Htm : tree_in h5 (RT c [t])).
    { apply (tree_in_new_root (heap st) h5 t c nn u Ht Hct); simpl; eauto.
      - apply (uuid_fresh_tree uuid1 st t Hfr).
      - rewrite Hr. reflexivity.
      - intros b Hb. apply Hh5f. intros ->. auto. }
    destruct (refresh_settled uuid1 html2text_handle stm (RT c [t]))
      as (st' & Hrefresh & Hok' & Hset & Hsel' & _).
    { unfold stm. stsimp. reflexivity. }
    { exact Htm. }
    assert (Htx5 : forall b, b <> c -> text_at h5 b = text_at (heap st) b).
    { intros b Hb. unfold text_at, h5. destruct (decide (a = b)) as [<- | Hne].
      - rewrite (lookup_write_eq _ _ _ _ Hh2a), Han. reflexivity.
      - rewrite lookup_write_ne by exact Hne. rewrite Hh2o by exact Hb. reflexivity. }
    exists st', (RT c [t]). split; [| split; [exact Hok' | split]].
    + unfold create_parent. mstep Hsel. mstep Hfalsy.
      mstep (eq_refl (str_uuid1 uuid1 st)). fold u.
      mstep (eq_refl (alloc nn (with_clock (S (uuid_clock st)) st))). fold c h2 s2.
      mstep (read_ok s2 a an Hh2a). rewrite Hpa.
      assert (Hrr : raw_root s2 = (Ok a, s2)).
      { rewrite Hr. apply raw_root_ok. unfold s2. stsimp. rewrite Hrd. simpl. congruence. }
      mstep Hrr. mstep (assert_eq_refl a s2).
      unfold set_raw_root. mget. unfold s2 at 1. stsimp. rewrite Hrd.
      mmod. fold rd'.
      assert (Hgi : get_id c (with_raw (Some rd') s2) = (Ok u, with_raw (Some rd') s2)).
      { apply id_at_get_id. unfold s2. stsimp. unfold id_at. rewrite Hh2c. reflexivity. }
      mstep Hgi.
      mstep (update_ok (with_raw (Some rd') s2) a an (set_parent_id (Some u)) Hh2a).
      exact Hrefresh.
    + apply (uuid_fresh_alloc uuid1 st st' c Hfr).
      * rewrite (se_clock _ _ Hset). reflexivity.
      * rewrite (se_ids _ _ Hset). unfold stm. stsimp. unfold id_at. rewrite Hh5c. reflexivity.
      * intros b Hb. rewrite (se_ids _ _ Hset). unfold stm. stsimp.
        apply frame_id, Hh5f, Hb.
    + split; [| split; [| split; [| split; [| split; [| split; [| split; [| split]]]]]]].
      * intros b. rewrite preorder_unfold, forest_nodes_cons. unfold forest_nodes. simpl.
        rewrite app_nil_r, elem_of_cons. reflexivity.
      * rewrite (se_ids _ _ Hset). unfold stm. stsimp. unfold id_at. rewrite Hh5c. reflexivity.
      * apply (se_text _ _ Hset); [| reflexivity]. unfold stm. stsimp. unfold text_at.
        rewrite Hh5c. reflexivity.
      * rewrite (se_children _ _ Hset). unfold stm. stsimp. unfold children_at.
        rewrite Hh5c. reflexivity.
      * intros b Hb. rewrite (se_ids _ _ Hset). unfold stm. stsimp. apply frame_id, Hh5f, Hb.
      * intros b x Hx Hm. apply (se_text _ _ Hset); [| exact Hm]. unfold stm. stsimp.
        rewrite Htx5; [exact Hx |]. intros ->. unfold text_at in Hx.
        rewrite (lookup_ge_None_2 (heap st) c) in Hx by (unfold c; lia). discriminate.
      * rewrite Hsel'. unfold stm. stsimp. reflexivity.
      * intros _. split; [reflexivity |]. intros b Hb.
        rewrite (se_children _ _ Hset). unfold stm. stsimp.
        apply frame_at_children, Hh5f, Hb.
      * intros Hne. contradiction.
  - (* the new node takes the place of [a] among the children of its parent *)
    destruct (tree_ok_parent st t a Hok Ha Hr)
      as (p & pid & cs & k & Hp & Hpa & Hpid & Hdict & Hcs & Hk).
    destruct (tree_in_has_keys _ _ p Ht Hp) as (pn & Hpn & _ & [pt Hpt] & _).
    destruct (tree_children _ t p cs Ht Hp Hcs) as (Hndcs & Hsubcs & Hpcs).
    assert (Hap : a <> p).
    { intros ->. apply Hpcs. eapply list_elem_of_lookup_2, Hk. }
    assert (Hcp : c <> p) by (intros Heq; apply Hct; rewrite Heq; exact Hp).
    destruct (replace_kids_decomp t p Hnd Hp) as (ks & pre & post & Hpre & Hrep & Hsh).
    pose proof (Hsh _ (ti_shape _ _ Ht)) as Hshp.
    pose proof (shape_children _ _ _ _ Hshp Hcs) as Hcsk.
    destruct (kids_at_position ks cs k a Hcsk Hk) as (ka & Hka & Hra & Hks & Htk & Hdk).
    pose proof (shape_kids _ _ _ Hshp) as Hshks.
    set (new := (take k ks ++ RT c [ka] :: drop (S k) ks)%list).
    set (cs' := <[k := c]> cs).
    set (h3 := <[p := set_children (Some cs') pn]> h2).
    set (h4 := <[c := set_parent_id (Some pid) nn]> h3).
    set (h5 := <[a := set_parent_id (Some u) an]> h4).
    set (stm := with_heap h5 s2).
    assert (Hh2p : h2 !! p = Some pn) by (rewrite Hh2o by congruence; exact Hpn).
    assert (Hh3c : h3 !! c = Some nn).
    { unfold h3. rewrite lookup_write_ne by congruence. exact Hh2c. }
    assert (Hh4a : h4 !! a = Some an).
    { unfold h4, h3. rewrite !lookup_write_ne by congruence. exact Hh2a. }
    assert (Hh5c : h5 !! c = Some (set_parent_id (Some pid) nn)).
    { unfold h5. rewrite lookup_write_ne by congruence. apply (lookup_write_eq _ _ _ _ Hh3c). }
    assert (Hh5p : h5 !! p = Some (set_children (Some cs') pn)).
    { unfold h5, h4. rewrite !lookup_write_ne by congruence.
      apply (lookup_write_eq _ _ _ _ Hh2p). }
    assert (Hh5a : h5 !! a = Some (set_parent_id (Some u) an)).
    { apply (lookup_write_eq _ _ _ _ Hh4a). }
    assert (Hh5o : forall b, b <> p -> b <> c -> b <> a -> h5 !! b = heap st !! b).
    { intros b Hbp Hbc Hba. unfold h5, h4, h3. rewrite !lookup_write_ne by congruence.
      apply Hh2o, Hbc. }
    assert (Hh5f : forall b, b <> p -> b <> c -> frame_at h5 b = frame_at (heap st) b).
    { intros b Hbp Hbc. unfold frame_at. destruct (decide (b = a)) as [-> | Hba].
      - rewrite Hh5a, Han. reflexivity.
      - rewrite Hh5o by assumption. reflexivity. }
    assert (Hks_ne : forall b, b ∈ forest_nodes ks -> b <> p /\ b <> c).
    { intros b Hb. split; intros ->.
      - rewrite Hpre in Hnd. apply NoDup_app in Hnd as (_ & _ & Hnd').
        apply NoDup_cons in Hnd' as [Hnp _]. apply Hnp, elem_of_app. auto.
      - apply Hct. eapply forest_sub_tree; eauto. }
    assert (Hshold : forall k', k' ∈ ks -> shape h5 k').
    { intros k' Hk'. rewrite Forall_forall in Hshks.
      eapply shape_frame; [apply Hshks, Hk' |]. intros b Hb.
      apply Hh5f; apply (Hks_ne b); apply elem_of_forest_nodes; eauto. }
    assert (Hcs'eq : cs' = map raddr new).
    { unfold cs', new. rewrite (insert_middle cs k c a Hk), Htk, Hdk.
      rewrite map_app. reflexivity. }
    assert (Htm : tree_in h5 (replace_kids p new t)).
    { apply (tree_in_alloc (heap st) h5 t p ks pre post new c u Ht Hpre Hrep).
      - pose proof (f_equal forest_nodes Hks) as Hfk. rewrite forest_nodes_middle in Hfk.
        rewrite Hfk. unfold new. rewrite forest_nodes_middle. simpl raddr. simpl rkids.
        rewrite forest_nodes_cons. unfold forest_nodes at 3. simpl concat.
        rewrite app_nil_r. destruct ka as [a' kks]. simpl in Hra. subst a'.
        rewrite preorder_unfold. simpl raddr. simpl rkids. solve_submseteq.
      - exact Hct.
      - apply (uuid_fresh_tree uuid1 st t Hfr).
      - unfold id_at. rewrite Hh5c. reflexivity.
      - eexists. split; [exact Hh5c |]. simpl. eauto.
      - exact Hh5f.
      - unfold new. apply Forall_app. split; [| apply Forall_cons; split].
        + apply Forall_forall. intros k' Hk'. apply Hshold. eapply subseteq_take, Hk'.
        + econstructor; [exact Hh5c | simpl; rewrite Hra; reflexivity |].
          apply Forall_singleton, Hshold. eapply list_elem_of_lookup_2, Hka.
        + apply Forall_forall. intros k' Hk'. apply Hshold. eapply subseteq_drop, Hk'.
      - unfold id_at. rewrite Hh5p, Hpn. reflexivity.
      - unfold text_at. rewrite Hh5p. simpl. rewrite Hpt. eauto.
      - unfold children_at. rewrite Hh5p. simpl. rewrite Hcs'eq. reflexivity.
      - assert (Hrc : raddr t <> c).
        { intros Heq. apply Hct. rewrite <- Heq. apply raddr_in_preorder. }
        rewrite <- (ti_root _ _ Ht). unfold parent_id_at.
        destruct (decide (raddr t = p)) as [-> | Hrp].
        + rewrite Hh5p, Hpn. reflexivity.
        + rewrite Hh5o by congruence. reflexivity. }
    destruct (refresh_settled uuid1 html2text_handle stm (replace_kids p new t))
      as (st' & Hrefresh & Hok' & Hset & Hsel' & _).
    { unfold stm, s2. stsimp. rewrite raddr_replace_kids. exact Hraw. }
    { exact Htm. }
    assert (Htx5 : forall b, b <> c -> text_at h5 b = text_at (heap st) b).
    { intros b Hb. unfold text_at. destruct (decide (b = a)) as [-> | Hba].
      - rewrite Hh5a, Han. reflexivity.
      - destruct (decide (b = p)) as [-> | Hbp].
        + rewrite Hh5p, Hpn. reflexivity.
        + rewrite Hh5o by assumption. reflexivity. }
    assert (Hid5 : forall b, b <> c -> id_at h5 b = id_at (heap st) b).
    { intros b Hb. destruct (decide (b = p)) as [-> | Hbp].
      - unfold id_at. rewrite Hh5p, Hpn. reflexivity.
      - apply frame_id, Hh5f; assumption. }
    exists st', (replace_kids p new t). split; [| split; [exact Hok' | split]].
    + unfold create_parent. mstep Hsel. mstep Hfalsy.
      mstep (eq_refl (str_uuid1 uuid1 st)). fold u.
      mstep (eq_refl (alloc nn (with_clock (S (uuid_clock st)) st))). fold c h2 s2.
      mstep (read_ok s2 a an Hh2a).
      rewrite (read_parent_id _ _ _ _ Han Hpa).
      mget. unfold s2 at 1. stsimp. rewrite Hidx. unfold dict_lookup, key. rewrite Hdict. mret.
      assert (Hgc : get_children p s2 = (Ok cs, s2)).
      { apply children_at_get. unfold s2. stsimp. unfold children_at. rewrite Hh2p.
        unfold children_at in Hcs. rewrite Hpn in Hcs. exact Hcs. }
      mstep Hgc.
      assert (Ht2 : tree_in h2 t).
      { eapply tree_in_ext; [exact Ht | |].
        - intros b Hb. unfold frame_at. rewrite Hh2o; [reflexivity |]. intros ->. auto.
        - unfold parent_id_at. rewrite Hh2o; [reflexivity |]. intros Heq. apply Hct.
          rewrite <- Heq. apply raddr_in_preorder. }
      destruct (tree_list_index h2 t cs k a s2 Ht2 eq_refl Hndcs Hsubcs Hk) as [Hli _].
      mstep Hli. fold cs'.
      mstep (update_ok s2 p pn (set_children (Some cs')) Hh2p). fold h3.
      mstep (update_ok (with_heap h3 s2) c nn (set_parent_id (Some pid)) Hh3c).
      stsimp. fold h4.
      assert (Hgi : get_id c (with_heap h4 (with_heap h3 s2))
                    = (Ok u, with_heap h4 (with_heap h3 s2))).
      { apply id_at_get_id. stsimp. unfold id_at, h4.
        rewrite (lookup_write_eq _ _ _ _ Hh3c). reflexivity. }
      mstep Hgi.
      mstep (update_ok (with_heap h4 (with_heap h3 s2)) a an (set_parent_id (Some u)) Hh4a).
      exact Hrefresh.
    + apply (uuid_fresh_alloc uuid1 st st' c Hfr).
      * rewrite (se_clock _ _ Hset). reflexivity.
      * rewrite (se_ids _ _ Hset). unfold stm. stsimp. unfold id_at. rewrite Hh5c. reflexivity.
      * intros b Hb. rewrite (se_ids _ _ Hset). unfold stm. stsimp.
        destruct (decide (b = p)) as [-> | Hbp].
        -- unfold id_at. rewrite Hh5p, Hpn. reflexivity.
        -- apply frame_id, Hh5f; assumption.
    + split; [| split; [| split; [| split; [| split; [| split; [| split; [| split]]]]]]].
      * intros b. rewrite Hrep, Hpre. unfold new.
        pose proof (f_equal forest_nodes Hks) as Hfk. rewrite forest_nodes_middle in Hfk.
        rewrite Hfk. rewrite forest_nodes_middle. simpl raddr. simpl rkids.
        rewrite forest_nodes_cons. unfold forest_nodes at 3. simpl concat.
        rewrite app_nil_r. destruct ka as [a' kks]. simpl in Hra. subst a'.
        rewrite preorder_unfold. simpl raddr. simpl rkids.
        repeat first [rewrite elem_of_app | rewrite elem_of_cons]. tauto.
      * rewrite (se_ids _ _ Hset). unfold stm. stsimp. unfold id_at. rewrite Hh5c. reflexivity.
      * apply (se_text _ _ Hset); [| reflexivity]. unfold stm. stsimp. unfold text_at.
        rewrite Hh5c. reflexivity.
      * rewrite (se_children _ _ Hset). unfold stm. stsimp. unfold children_at.
        rewrite Hh5c. reflexivity.
      * intros b Hb. rewrite (se_ids _ _ Hset). unfold stm. stsimp. apply Hid5, Hb.
      * intros b x Hx Hm. apply (se_text _ _ Hset); [| exact Hm]. unfold stm. stsimp.
        rewrite Htx5; [exact Hx |]. intros ->. unfold text_at in Hx.
        rewrite (lookup_ge_None_2 (heap st) c) in Hx by (unfold c; lia). discriminate.
      * rewrite Hsel'. unfold stm. stsimp. reflexivity.
      * intros He. contradiction.
      * intros _. split; [apply raddr_replace_kids |].
        exists p, pid, cs, k. split; [exact Hp |]. split; [exact Hpa |].
        split; [exact Hpid |]. split; [exact Hcs |]. split; [exact Hk |]. split.
        -- rewrite (se_children _ _ Hset). unfold stm. stsimp. unfold children_at.
           rewrite Hh5p. reflexivity.
        -- intros b Hbc Hbp. rewrite (se_children _ _ Hset). unfold stm. stsimp.
           apply frame_at_children, Hh5f; assumption.
Qed.

Lemma create_parent_ok st t node a :
  tree_ok st t -> uuid_fresh uuid1 st -> a ∈ preorder t -> names st node a ->
  exists st',
    create_parent uuid1 html2text_handle node st = (Ok tt, st')
    /\ (exists t', tree_ok st' t') /\ uuid_fresh uuid1 st'.
Proof.
  intros Hok Hfr Ha Hnames.
  destruct (create_parent_run st t node a Hok Hfr Ha Hnames)
    as (st' & t' & Hrun & Hok' & Hfr' & _).
  exists st'. eauto.
Qed.

End CreateParent.

(** ** Ancestors come first in the flattening *)

Lemma before_trans {A : Type} (l : list A) x y z :
  NoDup l -> before l x y -> before l y z -> before l x z.
Proof.
  intros Hnd (i & j & Hij & Hi & Hj) (j' & k & Hjk & Hj' & Hk).
  assert (j = j') by (eapply NoDup_lookup; eauto). subst j'.
  exists i, k. split; [lia | auto].
Qed.

Lemma before_irrefl {A : Type} (l : list A) x : NoDup l -> ~ before l x x.
Proof.
  intros Hnd (i & j & Hij & Hi & Hj).
  assert (i = j) by (eapply NoDup_lookup; eauto). lia.
Qed.

(** The nodes under [p] come after [p]. *)
Lemma below_after (pre post : list nat) p (ks : list rtree) b :
  b ∈ forest_nodes ks ->
  before (pre ++ p :: forest_nodes ks ++ post)%list p b.
Proof.
  intros Hb. apply list_elem_of_lookup in Hb as [j Hj].
  exists (length pre), (length pre + S j)%nat. split; [lia |]. split.
  - rewrite lookup_app_r by lia. rewrite Nat.sub_diag. reflexivity.
  - rewrite lookup_app_r by lia.
    replace (length pre + S j - length pre)%nat with (S j) by lia.
    simpl. apply lookup_app_l_Some, Hj.
Qed.

Lemma parent_before h t p cs a :
  tree_in h t -> p ∈ preorder t -> children_at h p = Some cs -> a ∈ cs ->
  before (preorder t) p a.
Proof.
  intros Ht Hp Hcs Ha. pose proof (tree_in_nodup _ _ Ht) as Hnd.
  destruct (replace_kids_decomp t p Hnd Hp) as (ks & pre & post & Hpre & _ & Hsh).
  pose proof (shape_children _ _ _ _ (Hsh _ (ti_shape _ _ Ht)) Hcs) as ->.
  apply list_elem_of_fmap in Ha as (ka & -> & Hka).
  rewrite Hpre. apply below_after, kid_root_in_forest, Hka.
Qed.

(** The path of [node_ancestry] to a node of a well-formed tree runs
    through nodes that the flattening lists before it. *)
Lemma ancestry_above st t a l :
  tree_ok st t -> a ∈ preorder t ->
  ancestry (heap st) (index_of (heap st) (preorder t)) a l ->
  forall x, x ∈ l -> x = a \/ before (preorder t) x a.
Proof.
  intros Hok Ha Hanc. pose proof Hok as [_ Ht Hl _].
  pose proof (tree_in_nodup _ _ Ht) as Hnd.
  induction Hanc as [a Hex Hroot | a pid p l Hpa Hd Hanc IH]; intros x Hx.
  - apply list_elem_of_singleton in Hx. auto.
  - apply elem_of_app in Hx as [Hx | Hx]; [| apply list_elem_of_singleton in Hx; auto].
    right.
    assert (Hr : a <> raddr t).
    { intros ->. rewrite (ti_root _ _ Ht) in Hpa. discriminate. }
    destruct (tree_ok_parent st t a Hok Ha Hr)
      as (p' & pid' & cs & k & Hp' & Hpa' & _ & Hd' & Hcs & Hk).
    assert (pid' = pid) by congruence. subst pid'.
    assert (p' = p) by congruence. subst p'.
    pose proof (parent_before _ t p cs a Ht Hp' Hcs (list_elem_of_lookup_2 _ _ _ Hk)) as Hb.
    destruct (IH Hp' x Hx) as [-> | Hxp]; [exact Hb |].
    eapply before_trans; eauto.
Qed.

(** ** [merge_with_parent] *)

Lemma same_but_heap st s : with_heap (heap st) s = st ->
  tree_node_dict s = tree_node_dict st /\ tree_raw_data s = tree_raw_data st
  /\ uuid_clock s = uuid_clock st /\ selected_node_id s = selected_node_id st.
Proof. intros <-. repeat split. Qed.

Lemma same_but_heap_write st s h : with_heap (heap st) s = st -> with_heap (heap st) (with_heap h s) = st.
Proof. intros H. exact H. Qed.

Section MergeUp.

Variable uuid1 : nat -> string.
Variable html2text_handle : string -> string.

(** [merge_with_parent] on a node [a] other than the root: the children of
    [a] take its place among the children of its parent, which gets the
    text of [a] after its own and becomes the selection. *)
Lemma merge_with_parent_run st t node a :
  tree_ok st t -> uuid_fresh uuid1 st -> a ∈ preorder t -> names st node a ->
  a <> raddr t ->
  exists p pid cs k pt ta cas st' t',
    p ∈ preorder t /\ id_at (heap st) p = Some pid
    /\ children_at (heap st) p = Some cs /\ cs !! k = Some a
    /\ text_at (heap st) p = Some pt /\ text_at (heap st) a = Some ta
    /\ children_at (heap st) a = Some cas
    /\ merge_with_parent uuid1 html2text_handle node st = (Ok tt, st')
    /\ tree_ok st' t' /\ uuid_fresh uuid1 st'
    /\ raddr t' = raddr t
    /\ preorder t ≡ₚ a :: preorder t'
    /\ children_at (heap st') p = Some (take k cs ++ cas ++ drop (S k) cs)%list
    /\ (has_miro_markup (pt ++ ta) = false -> text_at (heap st') p = Some (pt ++ ta)%string)
    /\ (forall b, b <> p -> children_at (heap st') b = children_at (heap st) b)
    /\ (forall b, id_at (heap st') b = id_at (heap st) b)
    /\ (forall b x, b <> p -> text_at (heap st) b = Some x -> has_miro_markup x = false ->
          text_at (heap st') b = Some x)
    /\ selected_node_id st' = Some pid.
Proof.
  intros Hok Hfr Ha Hnames Hr.
  destruct (edit_start st t node a Hok Ha Hnames) as [Hsel Hfalsy].
  pose proof Hok as [Hraw Ht Hl Hidx].
  pose proof (tree_in_nodup _ _ Ht) as Hnd.
  destruct (tree_ok_parent st t a Hok Ha Hr)
    as (p & pid & cs & k & Hp & Hpa & Hpid & Hdict & Hcs & Hk).
  destruct (tree_in_has_keys _ _ p Ht Hp) as (pn & Hpn & _ & [pt Hpt] & _).
  destruct (tree_in_keys_text _ _ a Ht Ha) as [ta Hta].
  destruct (tree_in_keys_children _ _ a Ht Ha) as [cas Hcas].
  destruct (tree_children _ t p cs Ht Hp Hcs) as (Hndcs & Hsubcs & Hpcs).
  assert (Hap : a <> p).
  { intros ->. apply Hpcs. eapply list_elem_of_lookup_2, Hk. }
  destruct (replace_kids_decomp t p Hnd Hp) as (ks & pre & post & Hpre & Hrep & Hsh).
  pose proof (Hsh _ (ti_shape _ _ Ht)) as Hshp.
  pose proof (shape_children _ _ _ _ Hshp Hcs) as Hcsk.
  destruct (kids_at_position ks cs k a Hcsk Hk) as (ka & Hka & Hra & Hks & Htk & Hdk).
  pose proof (shape_kids _ _ _ Hshp) as Hshks.
  assert (Hshka : shape (heap st) ka).
  { rewrite Forall_forall in Hshks. apply Hshks. eapply list_elem_of_lookup_2, Hka. }
  destruct ka as [a' kks]. simpl in Hra. subst a'.
  pose proof (shape_children _ _ _ _ Hshka Hcas) as Hcask.
  pose proof (f_equal forest_nodes Hks) as Hfk. rewrite forest_nodes_middle in Hfk.
  simpl raddr in Hfk. simpl rkids in Hfk.
  set (new := (take k ks ++ kks ++ drop (S k) ks)%list).
  set (final := (take k cs ++ cas ++ drop (S k) cs)%list).
  assert (Hfinal : final = map raddr new).
  { unfold final, new. rewrite Htk, Hdk, Hcask, !map_app. reflexivity. }
  set (pn1 := set_text (Some (pt ++ ta)%string) pn).
  set (h1 := <[p := pn1]> (heap st)).
  set (h2 := <[p := set_children (Some final) pn1]> h1).
  assert (Hh1p : h1 !! p = Some pn1) by apply (lookup_write_eq _ _ _ _ Hpn).
  assert (Hh2p : h2 !! p = Some (set_children (Some final) pn1))
    by apply (lookup_write_eq _ _ _ _ Hh1p).
  assert (Hh2o : forall b, b <> p -> h2 !! b = heap st !! b).
  { intros b Hb. unfold h2, h1. rewrite !lookup_write_ne by congruence. reflexivity. }
  assert (Hh2pa : forall b, parent_id_at h2 b = parent_id_at (heap st) b).
  { intros b. unfold parent_id_at. destruct (decide (b = p)) as [-> | Hb].
    - rewrite Hh2p, Hpn. reflexivity.
    - rewrite Hh2o by exact Hb. reflexivity. }
  assert (Hh2id : forall b, id_at h2 b = id_at (heap st) b).
  { intros b. unfold id_at. destruct (decide (b = p)) as [-> | Hb].
    - rewrite Hh2p, Hpn. reflexivity.
    - rewrite Hh2o by exact Hb. reflexivity. }
  assert (Hcas_sub : forall c, c ∈ cas -> c ∈ forest_nodes ks).
  { intros c Hc. rewrite Hfk. apply elem_of_app. right. apply list_elem_of_further.
    apply elem_of_app. left. rewrite Hcask in Hc.
    apply list_elem_of_fmap in Hc as (kc & -> & Hkc). apply kid_root_in_forest, Hkc. }
  assert (Hks_p : p ∉ forest_nodes ks).
  { intros H. rewrite Hpre in Hnd. apply NoDup_app in Hnd as (_ & _ & Hnd').
    apply NoDup_cons in Hnd' as [Hnp _]. apply Hnp, elem_of_app. auto. }
  (* the loop that stamps the children of [a] *)
  set (I := fun s : TreeModel =>
              with_heap (heap st) s = st
              /\ (forall b, kept_at (heap s) b = kept_at h2 b)
              /\ (forall b, b ∉ cas -> heap s !! b = h2 !! b)
              /\ (forall b, text_at (heap s) b = text_at h2 b)).
  destruct (for_each_inv I cas
              (fun c _ => let* i := get_id p in update c (set_parent_id (Some i))))
    with (st := with_heap h2 st) as (s3 & Hloop & Hsame & Hkept & Hout & Htx3).
  { intros c s Hc (Hs & Hk3 & Ho & Htxs).
    assert (Hgi : get_id p s = (Ok pid, s)).
    { apply id_at_get_id. rewrite (kept_id _ _ _ (Hk3 p)), Hh2id. exact Hpid. }
    destruct (kept_is_Some h2 (heap s) c (Hk3 c)) as [cn Hcn].
    { rewrite Hh2o by (intros ->; apply Hks_p, Hcas_sub, Hc).
      eapply shape_lookup; [apply (ti_shape _ _ Ht) |].
      eapply forest_sub_tree; eauto. }
    eexists. split.
    - mstep Hgi. apply (update_ok s c cn (set_parent_id (Some pid)) Hcn).
    - split; [exact Hs | split; [| split]]; stsimp.
      + intros b. rewrite <- Hk3. apply (kept_at_write _ _ _ _ Hcn). reflexivity.
      + intros b Hb. rewrite <- Ho by exact Hb. apply lookup_write_ne.
        intros ->. auto.
      + intros b. rewrite <- Htxs. unfold text_at.
        destruct (decide (c = b)) as [<- | Hne].
        * rewrite (lookup_write_eq _ _ _ _ Hcn), Hcn. reflexivity.
        * rewrite lookup_write_ne by exact Hne. reflexivity. }
  { split; [destruct st; reflexivity |]. split; [| split]; intros; reflexivity. }
  destruct (same_but_heap _ _ Hsame) as (Hd3 & Hraw3 & Hclk3 & _).
  assert (Hfr3 : forall b, b <> p -> frame_at (heap s3) b = frame_at (heap st) b).
  { intros b Hb. rewrite (kept_frame _ _ _ (Hkept b)). unfold frame_at.
    rewrite Hh2o by exact Hb. reflexivity. }
  assert (Hroot_cas : raddr t ∉ cas).
  { intros Hin. destruct (tree_children _ t a cas Ht Ha Hcas) as (_ & _ & _).
    pose proof (parent_before _ t a cas (raddr t) Ht Ha Hcas Hin) as (i & j & Hij & _ & Hj).
    assert (H0 : preorder t !! 0%nat = Some (raddr t)) by (destruct t; reflexivity).
    pose proof (NoDup_lookup _ _ _ _ Hnd Hj H0). lia. }
  assert (Htm : tree_in (heap s3) (replace_kids p new t)).
  { apply (tree_in_rearrange (heap st) (heap s3) t p ks pre post new Ht Hpre Hrep).
    - intros k' Hk'. rewrite Forall_forall in Hshks. unfold new in Hk'.
      apply elem_of_app in Hk' as [Hk' | Hk'];
        [apply Hshks; eapply subseteq_take, Hk' |].
      apply elem_of_app in Hk' as [Hk' | Hk'];
        [| apply Hshks; eapply subseteq_drop, Hk'].
      pose proof (shape_kids _ _ _ Hshka) as Hkk. rewrite Forall_forall in Hkk. auto.
    - rewrite Hfk. unfold new. rewrite !forest_nodes_app. solve_submseteq.
    - exact Hfr3.
    - rewrite (kept_id _ _ _ (Hkept p)). apply Hh2id.
    - apply (kept_text_Some h2); [apply Hkept |]. unfold text_at. rewrite Hh2p. simpl. eauto.
    - rewrite (kept_children _ _ _ (Hkept p)). unfold children_at. rewrite Hh2p. simpl.
      rewrite Hfinal. reflexivity.
    - unfold parent_id_at. rewrite Hout by exact Hroot_cas.
      fold (parent_id_at h2 (raddr t)). rewrite Hh2pa. apply (ti_root _ _ Ht). }
  destruct (tree_ancestry _ t p Ht Hl Hp) as (l & Hanc & Hlen).
  destruct (select_then_refresh uuid1 html2text_handle s3 _ p pid l (replace_kids p new t) true
              (eq_trans Hd3 Hidx) Hdict)
    as (st' & Hrun & Hok' & Hset & Hsel').
  { eapply ancestry_ext; [exact Hanc |]. intros b Hb.
    assert (Hbc : b ∉ cas).
    { intros Hin. pose proof (Hcas_sub b Hin) as Hbks.
      pose proof (below_after pre post p ks b Hbks) as Hpb. rewrite <- Hpre in Hpb.
      destruct (ancestry_above st t p l Hok Hp Hanc b Hb) as [-> | Hbp]; [auto |].
      eapply before_irrefl; [exact Hnd |]. eapply before_trans; eauto. }
    unfold parent_id_at at 1. rewrite Hout by exact Hbc.
    fold (parent_id_at h2 b). rewrite Hh2pa. split; [| reflexivity].
    destruct (decide (b = p)) as [-> | Hbp]; [rewrite Hh2p; eauto |].
    rewrite Hh2o by exact Hbp. eapply ancestry_exists; eauto. }
  { exact Hlen. }
  { rewrite raddr_replace_kids, Hraw3. exact Hraw. }
  { exact Htm. }
  exists p, pid, cs, k, pt, ta, cas, st', (replace_kids p new t).
  split; [exact Hp |]. split; [exact Hpid |]. split; [exact Hcs |]. split; [exact Hk |].
  split; [unfold text_at; rewrite Hpn; exact Hpt |]. split; [exact Hta |].
  split; [exact Hcas |].
  split; [| split; [exact Hok' | split]].
  - unfold merge_with_parent. mstep Hsel. mstep Hfalsy.
    mstep (parent_ok st t a p pid Hok Ha Hp Hpa Hpid).
    mstep (get_text_ok st p pn pt Hpn Hpt).
    mstep (text_at_get st a ta Hta).
    mstep (update_ok st p pn (set_text (Some (pt ++ ta)%string)) Hpn). fold pn1 h1.
    assert (Hgc : get_children p (with_heap h1 st) = (Ok cs, with_heap h1 st)).
    { apply children_at_get. stsimp. unfold children_at. rewrite Hh1p. simpl.
      unfold children_at in Hcs. rewrite Hpn in Hcs. exact Hcs. }
    mstep Hgc.
    assert (Ht1 : tree_in h1 t).
    { eapply tree_in_ext; [exact Ht | |].
      - intros b _. apply kept_frame, skeleton_kept.
        apply (skeleton_write_text (heap st) p pn _ b Hpn). rewrite Hpt. eauto.
      - apply skeleton_parent_id.
        apply (skeleton_write_text (heap st) p pn _ _ Hpn). rewrite Hpt. eauto. }
    destruct (tree_list_index h1 t cs k a (with_heap h1 st) Ht1 eq_refl Hndcs Hsubcs Hk)
      as [Hli _].
    mstep Hli.
    assert (Hgca : forall s, heap s !! a = heap st !! a -> get_children a s = (Ok cas, s)).
    { intros s Hs. apply children_at_get. unfold children_at. rewrite Hs. exact Hcas. }
    mstep (Hgca (with_heap h1 st) (lookup_write_ne _ _ _ _ (not_eq_sym Hap))).
    fold final.
    mstep (update_ok (with_heap h1 st) p pn1 (set_children (Some final)) Hh1p).
    stsimp. fold h2.
    change (with_heap h2 (with_heap h1 st)) with (with_heap h2 st).
    mstep (Hgca (with_heap h2 st) (Hh2o a Hap)).
    mstep Hloop.
    assert (Hgi : get_id p s3 = (Ok pid, s3)).
    { apply id_at_get_id. rewrite (kept_id _ _ _ (Hkept p)), Hh2id. exact Hpid. }
    mstep Hgi. exact Hrun.
  - eapply uuid_fresh_same; [exact Hfr | |].
    + intros b. rewrite (se_ids _ _ Hset), (kept_id _ _ _ (Hkept b)). apply Hh2id.
    + rewrite (se_clock _ _ Hset). exact Hclk3.
  - assert (Hpc : p ∉ cas) by (intros H; apply Hks_p, Hcas_sub, H).
    split; [apply raddr_replace_kids |].
    split.
    { rewrite Hpre, Hrep, Hfk. unfold new. rewrite !forest_nodes_app.
      set (A := forest_nodes (take k ks)).
      set (B := (forest_nodes kks ++ forest_nodes (drop (S k) ks))%list).
      transitivity ((pre ++ p :: A) ++ a :: (B ++ post))%list.
      - rewrite <- !app_assoc. reflexivity.
      - rewrite <- Permutation_middle. apply Permutation_skip.
        rewrite <- !app_assoc. reflexivity. }
    split.
    { rewrite (se_children _ _ Hset), (kept_children _ _ _ (Hkept p)).
      unfold children_at. rewrite Hh2p. reflexivity. }
    split.
    { intros Hm. apply (se_text _ _ Hset); [| exact Hm]. rewrite Htx3.
      unfold text_at. rewrite Hh2p. reflexivity. }
    split.
    { intros b Hb. rewrite (se_children _ _ Hset), (kept_children _ _ _ (Hkept b)).
      unfold children_at. rewrite Hh2o by exact Hb. reflexivity. }
    split.
    { intros b. rewrite (se_ids _ _ Hset), (kept_id _ _ _ (Hkept b)). apply Hh2id. }
    split; [| exact Hsel'].
    intros b x Hb Hx Hm. apply (se_text _ _ Hset); [| exact Hm]. rewrite Htx3.
    unfold text_at. rewrite Hh2o by exact Hb. exact Hx.
Qed.

Lemma merge_with_parent_ok st t node a :
  tree_ok st t -> uuid_fresh uuid1 st -> a ∈ preorder t -> names st node a ->
  a <> raddr t ->
  exists st',
    merge_with_parent uuid1 html2text_handle node st = (Ok tt, st')
    /\ (exists t', tree_ok st' t') /\ uuid_fresh uuid1 st'.
Proof.
  intros Hok Hfr Ha Hnames Hr.
  destruct (merge_with_parent_run st t node a Hok Hfr Ha Hnames Hr)
    as (p & pid & cs & k & pt & ta & cas & st' & t' & _ & _ & _ & _ & _ & _ & _ & Hrun
        & Hok' & Hfr' & _).
  exists st'. eauto.
Qed.

End MergeUp.

(** ** [change_parent] *)

(** As [tree_in_rearrange], for a store that may differ outside the new
    tree. *)
Lemma tree_in_rearrange_on h h' t p ks pre post new :
  tree_in h t ->
  preorder t = (pre ++ p :: forest_nodes ks ++ post)%list ->
  (forall new', preorder (replace_kids p new' t)
                = (pre ++ p :: forest_nodes new' ++ post)%list) ->
  (forall k', k' ∈ new -> shape h k') ->
  forest_nodes new ⊆+ forest_nodes ks ->
  (forall b, b ∈ preorder (replace_kids p new t) -> b <> p ->
             frame_at h' b = frame_at h b) ->
  id_at h' p = id_at h p -> is_Some (text_at h' p) ->
  children_at h' p = Some (map raddr new) ->
  parent_id_at h' (raddr t) = None ->
  tree_in h' (replace_kids p new t).
Proof.
  intros Ht Hpre Hrep Hsh Hsub Hfr Hid Htx Hch Hroot.
  pose proof (tree_in_nodup _ _ Ht) as Hnd.
  assert (Hndks : NoDup (forest_nodes ks) /\ p ∉ forest_nodes ks).
  { rewrite Hpre in Hnd. apply NoDup_app in Hnd as (_ & _ & Hnd).
    apply NoDup_cons in Hnd as [Hp Hnd]. apply NoDup_app in Hnd as (Hnd & _).
    split; [exact Hnd |]. intros H. apply Hp, elem_of_app. auto. }
  destruct Hndks as [Hndks Hpks].
  assert (Hin : forall b, b ∈ forest_nodes new -> b ∈ forest_nodes ks).
  { intros b Hb. eapply elem_of_submseteq; eauto. }
  assert (Hne : forall b, b ∈ forest_nodes new -> b <> p).
  { intros b Hb ->. apply Hpks, Hin, Hb. }
  assert (Hnew : forall b, b ∈ forest_nodes new -> frame_at h' b = frame_at h b).
  { intros b Hb. apply Hfr; [| apply Hne, Hb]. rewrite Hrep.
    apply elem_of_app. right. apply list_elem_of_further, elem_of_app. auto. }
  apply (tree_in_graft h h' t p ks pre post new Ht Hpre Hrep).
  - intros b Hb Hbp Hbks. apply Hfr; [| exact Hbp]. rewrite Hrep.
    rewrite Hpre in Hb. apply elem_of_app in Hb as [Hb | Hb]; [apply elem_of_app; auto |].
    apply elem_of_cons in Hb as [-> | Hb]; [contradiction |].
    apply elem_of_app in Hb as [Hb | Hb]; [contradiction |].
    apply elem_of_app. right. apply list_elem_of_further, elem_of_app. auto.
  - exact Hid.
  - exact Htx.
  - exact Hch.
  - exact Hroot.
  - apply Forall_forall. intros k' Hk'. eapply shape_frame; [apply Hsh, Hk' |].
    intros b Hb. apply Hnew, elem_of_forest_nodes. eauto.
  - intros b Hb. eapply has_keys_frame; [apply Hnew, Hb |].
    eapply tree_in_has_keys; [exact Ht |]. eapply forest_sub_tree; eauto.
  - apply NoDup_fmap_2_strong; [| eapply NoDup_submseteq_inv; eauto].
    intros u v Hu Hv Heq.
    rewrite (frame_id _ _ u (Hnew u Hu)), (frame_id _ _ v (Hnew v Hv)) in Heq.
    eapply (NoDup_map_inj_on (id_at h) (preorder t)); eauto.
    + apply (ti_ids _ _ Ht).
    + eapply forest_sub_tree; eauto.
    + eapply forest_sub_tree; eauto.
  - intros b Hb. left. split; [auto |]. apply frame_id, Hnew, Hb.
Qed.

(** A tree is its subtree under [a] and what is left without it. *)
Lemma prune_nodes t p ks pre post k ka :
  preorder t = (pre ++ p :: forest_nodes ks ++ post)%list ->
  (forall new', preorder (replace_kids p new' t)
                = (pre ++ p :: forest_nodes new' ++ post)%list) ->
  ks = (take k ks ++ ka :: drop (S k) ks)%list ->
  preorder t ≡ₚ (preorder ka
                 ++ preorder (replace_kids p (take k ks ++ drop (S k) ks) t))%list.
Proof.
  intros Hpre Hrep Hks. rewrite Hrep, Hpre.
  pose proof (f_equal forest_nodes Hks) as Hfk.
  rewrite forest_nodes_app, forest_nodes_cons in Hfk. rewrite Hfk.
  rewrite forest_nodes_app.
  apply (anti_symm submseteq); solve_submseteq.
Qed.

Lemma id_at_write (h : list node) x n n' :
  h !! x = Some n -> n_id n' = n_id n -> forall b, id_at (<[x := n']> h) b = id_at h b.
Proof.
  intros Hn Hid b. unfold id_at. rewrite (lookup_write _ _ _ n' b Hn).
  destruct (decide (x = b)) as [<- | _]; [rewrite Hn; exact Hid | reflexivity].
Qed.

Lemma parent_id_at_write (h : list node) x n n' :
  h !! x = Some n -> n_parent_id n' = n_parent_id n ->
  forall b, parent_id_at (<[x := n']> h) b = parent_id_at h b.
Proof.
  intros Hn Hid b. unfold parent_id_at. rewrite (lookup_write _ _ _ n' b Hn).
  destruct (decide (x = b)) as [<- | _]; [rewrite Hn; exact Hid | reflexivity].
Qed.

Lemma frame_at_write (h : list node) x n n' :
  h !! x = Some n -> frame_keys n' = frame_keys n ->
  forall b, frame_at (<[x := n']> h) b = frame_at h b.
Proof.
  intros Hn Hid b. unfold frame_at. rewrite (lookup_write _ _ _ n' b Hn).
  destruct (decide (x = b)) as [<- | _]; [rewrite Hn; simpl; rewrite Hid |]; reflexivity.
Qed.

Section ChangeParent.

Variable uuid1 : nat -> string.
Variable html2text_handle : string -> string.

(** The edit proper: [a], the [k]-th child of [p], moves under [q]. *)
Lemma change_parent_moves st t a an p pn pid cs k q qn qi qs :
  tree_ok st t -> a ∈ preorder t -> p ∈ preorder t -> q ∈ preorder t ->
  heap st !! a = Some an -> heap st !! p = Some pn -> heap st !! q = Some qn ->
  n_id pn = Some pid -> n_id qn = Some qi -> qi <> pid -> q <> a ->
  n_children pn = Some cs -> n_children qn = Some qs -> cs !! k = Some a ->
  let rest := (take k cs ++ drop (S k) cs)%list in
  let h1 := <[p := set_children (Some rest) pn]> (heap st) in
  let h2 := <[a := set_parent_id (Some qi) an]> h1 in
  let h3 := <[q := set_children (Some (qs ++ [a])%list) qn]> h2 in
  h1 !! a = Some an /\ h2 !! q = Some qn
  /\ (forall b, id_at h3 b = id_at (heap st) b)
  /\ exists t' ka,
      raddr t' = raddr t /\ tree_in h3 t'
      /\ raddr ka = a /\ shape (heap st) ka
      /\ (forall b, b ∈ preorder ka -> b ∈ preorder t)
      /\ (q ∉ preorder ka -> preorder t' ≡ₚ preorder t)
      /\ (q ∈ preorder ka -> preorder t ≡ₚ (preorder ka ++ preorder t')%list).
Proof.
  intros Hok Ha Hp Hq Han Hpn Hqn Hpid Hqi Hne Hqa Hcs Hqs Hk rest h1 h2 h3.
  pose proof Hok as [Hraw Ht Hl Hidx].
  pose proof (tree_in_nodup _ _ Ht) as Hnd.
  assert (Hcsat : children_at (heap st) p = Some cs).
  { unfold children_at. rewrite Hpn. exact Hcs. }
  destruct (tree_children _ t p cs Ht Hp Hcsat) as (Hndcs & Hsubcs & Hpcs).
  assert (Hap : a <> p).
  { intros ->. apply Hpcs. eapply list_elem_of_lookup_2, Hk. }
  assert (Hqp : q <> p).
  { intros ->. rewrite Hpn in Hqn. injection Hqn as <-. congruence. }
  assert (Hh1a : h1 !! a = Some an).
  { unfold h1. rewrite lookup_write_ne by congruence. exact Han. }
  assert (Hh1p : h1 !! p = Some (set_children (Some rest) pn))
    by apply (lookup_write_eq _ _ _ _ Hpn).
  assert (Hh2q : h2 !! q = Some qn).
  { unfold h2, h1. rewrite !lookup_write_ne by congruence. exact Hqn. }
  assert (Hid1 : forall b, id_at h1 b = id_at (heap st) b)
    by (apply (id_at_write _ _ _ _ Hpn); reflexivity).
  assert (Hid2 : forall b, id_at h2 b = id_at (heap st) b).
  { intros b. unfold h2. rewrite (id_at_write _ _ _ _ Hh1a) by reflexivity. apply Hid1. }
  assert (Hid3 : forall b, id_at h3 b = id_at (heap st) b).
  { intros b. unfold h3. rewrite (id_at_write _ _ _ _ Hh2q) by reflexivity. apply Hid2. }
  split; [exact Hh1a |]. split; [exact Hh2q |]. split; [exact Hid3 |].
  assert (Hfr2 : forall b, b <> p -> frame_at h2 b = frame_at (heap st) b).
  { intros b Hb. unfold h2. rewrite (frame_at_write _ _ _ _ Hh1a) by reflexivity.
    unfold h1. apply frame_at_write_ne. congruence. }
  assert (Hfr3 : forall b, b <> q -> frame_at h3 b = frame_at h2 b).
  { intros b Hb. unfold h3. apply frame_at_write_ne. congruence. }
  assert (Hh2p : h2 !! p = Some (set_children (Some rest) pn)).
  { unfold h2. rewrite lookup_write_ne by congruence. exact Hh1p. }
  assert (Hh3p : h3 !! p = Some (set_children (Some rest) pn)).
  { unfold h3. rewrite lookup_write_ne by congruence. exact Hh2p. }
  assert (Hh3q : h3 !! q = Some (set_children (Some (qs ++ [a])%list) qn))
    by apply (lookup_write_eq _ _ _ _ Hh2q).
  assert (Hpa2 : forall b, b <> a -> parent_id_at h2 b = parent_id_at (heap st) b).
  { intros b Hb. unfold parent_id_at, h2. rewrite lookup_write_ne by congruence.
    fold (parent_id_at h1 b). unfold h1.
    apply (parent_id_at_write _ _ _ _ Hpn). reflexivity. }
  assert (Hpa3 : forall b, parent_id_at h3 b = parent_id_at h2 b).
  { apply (parent_id_at_write _ _ _ _ Hh2q). reflexivity. }
  assert (Hra : raddr t <> a).
  { intros Heq. pose proof (parent_before _ t p cs a Ht Hp Hcsat
                              (list_elem_of_lookup_2 _ _ _ Hk)) as (i & j & Hij & _ & Hj).
    assert (H0 : preorder t !! 0%nat = Some (raddr t)) by (destruct t; reflexivity).
    rewrite Heq in H0. pose proof (NoDup_lookup _ _ _ _ Hnd Hj H0). lia. }
  destruct (replace_kids_decomp t p Hnd Hp) as (ks & pre & post & Hpre & Hrep & Hsh).
  pose proof (Hsh _ (ti_shape _ _ Ht)) as Hshp.
  pose proof (shape_children _ _ _ _ Hshp Hcsat) as Hcsk.
  destruct (kids_at_position ks cs k a Hcsk Hk) as (ka & Hka & Hrka & Hks & Htk & Hdk).
  pose proof (shape_kids _ _ _ Hshp) as Hshks.
  assert (Hshka : shape (heap st) ka).
  { rewrite Forall_forall in Hshks. apply Hshks. eapply list_elem_of_lookup_2, Hka. }
  set (new1 := (take k ks ++ drop (S k) ks)%list).
  set (t1 := replace_kids p new1 t).
  pose proof (prune_nodes t p ks pre post k ka Hpre Hrep Hks) as Hperm. fold new1 t1 in Hperm.
  assert (Hnd1 : NoDup (preorder ka ++ preorder t1)%list) by (rewrite <- Hperm; exact Hnd).
  apply NoDup_app in Hnd1 as (Hndka & Hdisj & Hndt1).
  assert (Hsub1 : forall b, b ∈ preorder t1 -> b ∈ preorder t).
  { intros b Hb. rewrite Hperm. apply elem_of_app. auto. }
  assert (Hsubka : forall b, b ∈ preorder ka -> b ∈ preorder t).
  { intros b Hb. rewrite Hperm. apply elem_of_app. auto. }
  assert (Hp1 : p ∈ preorder t1).
  { unfold t1. rewrite Hrep. apply elem_of_app. right. apply list_elem_of_here. }
  assert (Hrest : rest = map raddr new1).
  { unfold rest, new1. rewrite Htk, Hdk, map_app. reflexivity. }
  assert (Hnew1sh : forall k', k' ∈ new1 -> shape (heap st) k').
  { intros k' Hk'. rewrite Forall_forall in Hshks. apply Hshks.
    eapply elem_of_take_drop, Hk'. }
  assert (Hnew1sub : forest_nodes new1 ⊆+ forest_nodes ks).
  { pose proof (f_equal forest_nodes Hks) as Hfk.
    rewrite forest_nodes_app, forest_nodes_cons in Hfk. rewrite Hfk.
    unfold new1. rewrite forest_nodes_app. solve_submseteq. }
  assert (Hat1 : a ∉ preorder t1).
  { intros Hin. apply (Hdisj a); [| exact Hin]. rewrite <- Hrka. apply raddr_in_preorder. }
  destruct (decide (q ∈ preorder t1)) as [Hq1 | Hq1].
  - (* the new parent is still in the tree: [a] comes under it *)
    assert (Ht2 : tree_in h2 t1).
    { apply (tree_in_rearrange (heap st) h2 t p ks pre post new1 Ht Hpre Hrep Hnew1sh Hnew1sub Hfr2).
      - apply Hid2.
      - unfold text_at. rewrite Hh2p. simpl.
        destruct (tree_in_keys_text _ _ p Ht Hp) as [s Hs]. unfold text_at in Hs.
        rewrite Hpn in Hs. rewrite Hs. eauto.
      - unfold children_at. rewrite Hh2p. simpl. rewrite Hrest. reflexivity.
      - rewrite Hpa2 by exact Hra. apply (ti_root _ _ Ht). }
    destruct (replace_kids_decomp t1 q Hndt1 Hq1) as (kq & pre2 & post2 & Hpre2 & Hrep2 & Hsh2).
    pose proof (Hsh2 _ (ti_shape _ _ Ht2)) as Hshq.
    assert (Hqs2 : children_at h2 q = Some qs).
    { unfold children_at. rewrite Hh2q. exact Hqs. }
    pose proof (shape_children _ _ _ _ Hshq Hqs2) as Hqsk.
    pose proof (shape_kids _ _ _ Hshq) as Hshkq.
    assert (Hqkq : q ∉ forest_nodes kq).
    { intros H. rewrite Hpre2 in Hndt1. apply NoDup_app in Hndt1 as (_ & _ & Hnd').
      apply NoDup_cons in Hnd' as [Hnp _]. apply Hnp, elem_of_app. auto. }
    assert (Hkq1 : forall b, b ∈ forest_nodes kq -> b ∈ preorder t1).
    { intros b Hb. eapply forest_sub_tree; eauto. }
    set (new2 := (kq ++ [ka])%list).
    assert (Hf2 : forest_nodes new2 = (forest_nodes kq ++ preorder ka)%list).
    { unfold new2. rewrite forest_nodes_app. f_equal. unfold forest_nodes. simpl.
      apply app_nil_r. }
    assert (Hin2 : forall b, b ∈ forest_nodes new2 ->
              (b ∈ forest_nodes kq /\ b <> q) \/ (b ∈ preorder ka /\ b <> q /\ b <> p)).
    { intros b Hb. rewrite Hf2 in Hb. apply elem_of_app in Hb as [Hb | Hb].
      - left. split; [exact Hb |]. intros ->. auto.
      - right. split; [exact Hb |]. split; intros ->; eapply Hdisj; eauto. }
    exists (replace_kids q new2 t1), ka. split.
    { rewrite raddr_replace_kids. apply raddr_replace_kids. }
    split; [| split; [exact Hrka | split; [exact Hshka | split; [exact Hsubka | split]]]].
    2:{ intros _. rewrite Hperm, Hrep2, Hpre2, Hf2.
        rewrite (Permutation_app_comm (preorder ka)).
        rewrite <- !app_assoc, <- !app_comm_cons, <- !app_assoc.
        apply Permutation_app_head, Permutation_skip, Permutation_app_head.
        apply Permutation_app_comm. }
    2:{ intros Hqk. exfalso. eapply Hdisj; eauto. }
    apply (tree_in_graft h2 h3 t1 q kq pre2 post2 new2 Ht2 Hpre2 Hrep2).
    + intros b _ Hb _. apply Hfr3, Hb.
    + rewrite Hid3, Hid2. reflexivity.
    + unfold text_at. rewrite Hh3q. simpl.
      destruct (tree_in_keys_text _ _ q Ht Hq) as [s Hs]. unfold text_at in Hs.
      rewrite Hqn in Hs. rewrite Hs. eauto.
    + unfold children_at. rewrite Hh3q. simpl. unfold new2.
      rewrite map_app, <- Hqsk. simpl. rewrite Hrka. reflexivity.
    + rewrite Hpa3. apply (ti_root _ _ Ht2).
    + unfold new2. apply Forall_app. split.
      * rewrite Forall_forall in Hshkq. apply Forall_forall. intros k' Hk'.
        eapply shape_frame; [apply Hshkq, Hk' |]. intros b Hb. apply Hfr3.
        intros ->. apply Hqkq, elem_of_forest_nodes. eauto.
      * apply Forall_singleton. eapply shape_frame; [exact Hshka |]. intros b Hb.
        assert (b <> q /\ b <> p) as [Hbq Hbp] by (split; intros ->; eapply Hdisj; eauto).
        rewrite Hfr3 by exact Hbq. apply Hfr2, Hbp.
    + intros b Hb. destruct (Hin2 b Hb) as [[Hbk Hbq] | (Hbk & Hbq & Hbp)].
      * eapply has_keys_frame; [apply Hfr3, Hbq |].
        eapply tree_in_has_keys; [exact Ht2 | auto].
      * eapply has_keys_frame; [rewrite Hfr3 by exact Hbq; apply Hfr2, Hbp |].
        eapply tree_in_has_keys; [exact Ht | auto].
    + apply NoDup_fmap_2_strong.
      * intros x y Hx Hy. rewrite !Hid3. intros Heq.
        assert (Hall : forall b, b ∈ forest_nodes new2 -> b ∈ preorder t).
        { intros b Hb. destruct (Hin2 b Hb) as [[Hbk _] | (Hbk & _)]; auto. }
        eapply (NoDup_map_inj_on (id_at (heap st)) (preorder t)); eauto.
        apply (ti_ids _ _ Ht).
      * rewrite Hf2. apply NoDup_app. split; [| split; [| exact Hndka]].
        -- rewrite Hpre2 in Hndt1. apply NoDup_app in Hndt1 as (_ & _ & Hnd').
           apply NoDup_cons in Hnd' as [_ Hnd']. apply NoDup_app in Hnd' as (H & _). exact H.
        -- intros b Hb Hb'. eapply Hdisj; eauto.
    + intros b Hb. destruct (Hin2 b Hb) as [[Hbk Hbq] | (Hbk & Hbq & Hbp)].
      * left. split; [exact Hbk |]. rewrite Hid3, Hid2. reflexivity.
      * right. split; [intros H; eapply Hdisj; eauto |].
        intros y Hy. rewrite Hid3, Hid2. intros Heq.
        assert (b = y).
        { eapply (NoDup_map_inj_on (id_at (heap st)) (preorder t)); eauto.
          apply (ti_ids _ _ Ht). }
        subst y. eapply Hdisj; eauto.
  - (* the new parent is under [a]: the subtree of [a] leaves the tree *)
    exists t1, ka. split; [apply raddr_replace_kids |].
    split; [| split; [exact Hrka | split; [exact Hshka | split; [exact Hsubka | split]]]].
    2:{ intros Hqk. exfalso. rewrite Hperm in Hq. apply elem_of_app in Hq as [Hq | Hq]; auto. }
    2:{ intros _. exact Hperm. }
    assert (Hfr13 : forall b, b ∈ preorder t1 -> b <> p -> frame_at h3 b = frame_at (heap st) b).
    { intros b Hb Hbp. rewrite Hfr3 by (intros ->; auto). apply Hfr2, Hbp. }
    apply (tree_in_rearrange_on (heap st) h3 t p ks pre post new1 Ht Hpre Hrep Hnew1sh
             Hnew1sub Hfr13).
    + apply Hid3.
    + unfold text_at. rewrite Hh3p. simpl.
      destruct (tree_in_keys_text _ _ p Ht Hp) as [s Hs]. unfold text_at in Hs.
      rewrite Hpn in Hs. rewrite Hs. eauto.
    + unfold children_at. rewrite Hh3p. simpl. rewrite Hrest. reflexivity.
    + rewrite Hpa3, Hpa2 by exact Hra. apply (ti_root _ _ Ht).
Qed.

End ChangeParent.

Section ChangeParentRun.

Variable uuid1 : nat -> string.
Variable html2text_handle : string -> string.

(** [change_parent] where it moves the node: [a], the [k]-th child of [p],
    is taken out of the children of [p] and put last among those of [q]. *)
Lemma change_parent_run st t node a q qi p pid cs k :
  tree_ok st t -> uuid_fresh uuid1 st -> a ∈ preorder t -> names st node a ->
  q ∈ preorder t -> id_at (heap st) q = Some qi ->
  p ∈ preorder t -> parent_id_at (heap st) a = Some pid -> id_at (heap st) p = Some pid ->
  children_at (heap st) p = Some cs -> cs !! k = Some a ->
  q <> a -> qi <> pid ->
  exists qs ka st' t',
    children_at (heap st) q = Some qs /\ raddr ka = a /\ shape (heap st) ka
    /\ (forall b, b ∈ preorder ka -> b ∈ preorder t)
    /\ change_parent uuid1 html2text_handle node qi st = (Ok tt, st')
    /\ tree_ok st' t' /\ uuid_fresh uuid1 st' /\ raddr t' = raddr t
    /\ (q ∉ preorder ka -> preorder t' ≡ₚ preorder t)
    /\ (q ∈ preorder ka -> preorder t ≡ₚ (preorder ka ++ preorder t')%list)
    /\ children_at (heap st') p = Some (take k cs ++ drop (S k) cs)%list
    /\ children_at (heap st') q = Some (qs ++ [a])%list
    /\ (forall b, b <> p -> b <> q -> children_at (heap st') b = children_at (heap st) b)
    /\ (forall b, id_at (heap st') b = id_at (heap st) b)
    /\ (forall b x, text_at (heap st) b = Some x -> has_miro_markup x = false ->
          text_at (heap st') b = Some x)
    /\ selected_node_id st' = selected_node_id st.
Proof.
  intros Hok Hfr Ha Hnames Hq Hqid Hp Hpa Hpid Hcs Hk Hqa Hnq.
  destruct (edit_start st t node a Hok Ha Hnames) as [Hsel Hfalsy].
  pose proof Hok as [Hraw Ht Hl Hidx].
  destruct (tree_ok_node st t a Hok Ha) as (an & ai & Han & Hai & _ & Haid).
  assert (Hne : ai <> qi).
  { intros ->. apply Hqa.
    eapply (NoDup_map_inj_on (id_at (heap st)) (preorder t)); eauto.
    - apply (ti_ids _ _ Ht).
    - congruence. }
  assert (Hdict : dict_get (index_of (heap st) (preorder t)) pid = Some p).
  { apply dict_get_index_of; auto.
    - intros y Hy. eapply tree_in_keys_id; eauto.
    - apply (ti_ids _ _ Ht). }
  destruct (tree_in_has_keys _ _ p Ht Hp) as (pn & Hpn & _ & _ & _).
  destruct (tree_in_has_keys _ _ q Ht Hq) as (qn & Hqn & _ & _ & [qs Hqs]).
  assert (Hpn_id : n_id pn = Some pid) by (unfold id_at in Hpid; rewrite Hpn in Hpid; exact Hpid).
  assert (Hqn_id : n_id qn = Some qi) by (unfold id_at in Hqid; rewrite Hqn in Hqid; exact Hqid).
  assert (Hpn_cs : n_children pn = Some cs)
    by (unfold children_at in Hcs; rewrite Hpn in Hcs; exact Hcs).
  assert (Hqp : q <> p).
  { intros ->. rewrite Hpn in Hqn. injection Hqn as <-. congruence. }
  destruct (change_parent_moves st t a an p pn pid cs k q qn qi qs
              Hok Ha Hp Hq Han Hpn Hqn Hpn_id Hqn_id Hnq Hqa Hpn_cs Hqs Hk)
    as (Hh1a & Hh2q & Hid3 & t' & ka & Hroot' & Ht' & Hrka & Hshka & Hsubka & Hkeep & Hdrop).
  set (rest := (take k cs ++ drop (S k) cs)%list) in *.
  set (h1 := <[p := set_children (Some rest) pn]> (heap st)) in *.
  set (h2 := <[a := set_parent_id (Some qi) an]> h1) in *.
  set (h3 := <[q := set_children (Some (qs ++ [a])%list) qn]> h2) in *.
  destruct (refresh_settled uuid1 html2text_handle (with_heap h3 st) t')
    as (st' & Hrefresh & Hok' & Hset & Hsel' & _).
  { stsimp. rewrite Hroot'. exact Hraw. }
  { exact Ht'. }
  assert (Hap : a <> p).
  { intros ->. destruct (tree_children _ t p cs Ht Hp Hcs) as (_ & _ & Hpcs).
    apply Hpcs. eapply list_elem_of_lookup_2, Hk. }
  assert (Hh3q : h3 !! q = Some (set_children (Some (qs ++ [a])%list) qn))
    by apply (lookup_write_eq _ _ _ _ Hh2q).
  assert (Hh3p : h3 !! p = Some (set_children (Some rest) pn)).
  { unfold h3, h2. rewrite !lookup_write_ne by congruence.
    apply (lookup_write_eq _ _ _ _ Hpn). }
  assert (Hh3a : h3 !! a = Some (set_parent_id (Some qi) an)).
  { unfold h3. rewrite lookup_write_ne by congruence.
    apply (lookup_write_eq _ _ _ _ Hh1a). }
  assert (Hh3o : forall b, b <> p -> b <> q -> b <> a -> h3 !! b = heap st !! b).
  { intros b Hbp Hbq Hba. unfold h3, h2, h1. rewrite !lookup_write_ne by congruence.
    reflexivity. }
  assert (Hch3 : forall b, b <> p -> b <> q -> children_at h3 b = children_at (heap st) b).
  { intros b Hbp Hbq. unfold children_at. destruct (decide (b = a)) as [-> | Hba].
    - rewrite Hh3a, Han. reflexivity.
    - rewrite Hh3o by assumption. reflexivity. }
  assert (Htx3 : forall b, text_at h3 b = text_at (heap st) b).
  { intros b. unfold text_at. destruct (decide (b = p)) as [-> | Hbp].
    { rewrite Hh3p, Hpn. reflexivity. }
    destruct (decide (b = q)) as [-> | Hbq].
    { rewrite Hh3q, Hqn. reflexivity. }
    destruct (decide (b = a)) as [-> | Hba].
    { rewrite Hh3a, Han. reflexivity. }
    rewrite Hh3o by assumption. reflexivity. }
  exists qs, ka, st', t'.
  split; [unfold children_at; rewrite Hqn; exact Hqs |].
  split; [exact Hrka |]. split; [exact Hshka |]. split; [exact Hsubka |].
  split; [| split; [exact Hok' | split; [| split; [exact Hroot' | split; [exact Hkeep |
    split; [exact Hdrop |]]]]]].
  - unfold change_parent. mstep Hsel. mstep Hfalsy. mstep (id_at_get_id _ _ _ Haid).
    rewrite bool_decide_eq_false_2 by exact Hne. mstep (read_ok _ _ _ Han).
    rewrite (read_parent_id _ _ _ _ Han Hpa).
    rewrite bool_decide_eq_false_2 by exact Hnq.
    mget. rewrite Hidx. unfold dict_lookup at 1. unfold key. rewrite Hdict. mret.
    mstep (children_at_get _ _ _ Hcs).
    destruct (tree_children _ t p cs Ht Hp Hcs) as (Hndcs & Hsubcs & _).
    destruct (tree_list_index _ t cs k a st Ht eq_refl Hndcs Hsubcs Hk) as [_ Hlr].
    mstep Hlr. fold rest.
    mstep (update_ok st p pn (set_children (Some rest)) Hpn). fold h1.
    mstep (update_ok (with_heap h1 st) a an (set_parent_id (Some qi)) Hh1a).
    stsimp. fold h2.
    unfold dict_lookup, key.
    rewrite (dict_get_index_of _ _ q qi); auto.
    2:{ intros y Hy. eapply tree_in_keys_id; eauto. }
    2:{ apply (ti_ids _ _ Ht). }
    mret.
    mstep (get_children_ok (with_heap h2 (with_heap h1 st)) q qn qs Hh2q Hqs).
    mstep (update_ok (with_heap h2 (with_heap h1 st)) q qn
             (set_children (Some (qs ++ [a])%list)) Hh2q).
    exact Hrefresh.
  - eapply uuid_fresh_same; [exact Hfr | |].
    + intros b. rewrite (se_ids _ _ Hset). stsimp. apply Hid3.
    + rewrite (se_clock _ _ Hset). reflexivity.
  - split; [rewrite (se_children _ _ Hset); stsimp; unfold children_at; rewrite Hh3p;
            reflexivity |].
    split; [rewrite (se_children _ _ Hset); stsimp; unfold children_at; rewrite Hh3q;
            reflexivity |].
    split; [intros b Hbp Hbq; rewrite (se_children _ _ Hset); stsimp; apply Hch3;
            assumption |].
    split; [intros b; rewrite (se_ids _ _ Hset); stsimp; apply Hid3 |].
    split; [| rewrite Hsel'; reflexivity].
    intros b x Hx Hm. apply (se_text _ _ Hset); [| exact Hm]. stsimp.
    rewrite Htx3. exact Hx.
Qed.

Lemma change_parent_ok st t node a q qi :
  tree_ok st t -> uuid_fresh uuid1 st -> a ∈ preorder t -> names st node a ->
  q ∈ preorder t -> id_at (heap st) q = Some qi ->
  exists st',
    change_parent uuid1 html2text_handle node qi st = (Ok tt, st')
    /\ (exists t', tree_ok st' t') /\ uuid_fresh uuid1 st'.
Proof.
  intros Hok Hfr Ha Hnames Hq Hqid.
  destruct (edit_start st t node a Hok Ha Hnames) as [Hsel Hfalsy].
  pose proof Hok as [Hraw Ht Hl Hidx].
  destruct (tree_ok_node st t a Hok Ha) as (an & ai & Han & Hai & _ & Haid).
  assert (Hstay : forall r, r = (Ok tt, st) ->
            exists st', r = (Ok tt, st') /\ (exists t', tree_ok st' t') /\ uuid_fresh uuid1 st').
  { intros r ->. exists st. eauto. }
  destruct (decide (ai = qi)) as [Heq | Hne].
  { unfold change_parent. mstep Hsel. mstep Hfalsy. mstep (id_at_get_id _ _ _ Haid).
    rewrite bool_decide_eq_true_2 by exact Heq. apply Hstay. reflexivity. }
  destruct (decide (a = raddr t)) as [Hr | Hr].
  { unfold change_parent. mstep Hsel. mstep Hfalsy. mstep (id_at_get_id _ _ _ Haid).
    rewrite bool_decide_eq_false_2 by exact Hne. mstep (read_ok _ _ _ Han).
    rewrite <- (parent_id_at_read _ _ _ Han).
    rewrite (proj2 (tree_ok_root_iff st t a Hok Ha) Hr).
    apply Hstay. mstep (raw_root_ok st t Hraw). rewrite <- Hr. apply assert_eq_refl. }
  destruct (tree_ok_parent st t a Hok Ha Hr)
    as (p & pid & cs & k & Hp & Hpa & Hpid & Hdict & Hcs & Hk).
  destruct (decide (qi = pid)) as [Heq | Hnq].
  { unfold change_parent. mstep Hsel. mstep Hfalsy. mstep (id_at_get_id _ _ _ Haid).
    rewrite bool_decide_eq_false_2 by exact Hne. mstep (read_ok _ _ _ Han).
    rewrite (read_parent_id _ _ _ _ Han Hpa).
    rewrite bool_decide_eq_true_2 by exact Heq. apply Hstay. reflexivity. }
  assert (Hqa : q <> a) by (intros ->; congruence).
  destruct (change_parent_run st t node a q qi p pid cs k
              Hok Hfr Ha Hnames Hq Hqid Hp Hpa Hpid Hcs Hk Hqa Hnq)
    as (qs & ka & st' & t' & _ & _ & _ & _ & Hrun & Hok' & Hfr' & _).
  exists st'. eauto.
Qed.

End ChangeParentRun.

(** ** The structural invariants along a sequence of edits *)

Lemma filter_eqb_once (a : nat) (l : list nat) :
  NoDup l -> a ∈ l -> length (List.filter (Nat.eqb a) l) = 1%nat.
Proof.
  induction l as [|x l IH]; intros Hnd Ha; [inversion Ha |].
  apply NoDup_cons in Hnd as [Hx Hnd]. simpl.
  destruct (Nat.eqb_spec a x) as [-> | Hne].
  - simpl. f_equal. clear IH Hnd Ha. induction l as [|y l IH]; [reflexivity |].
    simpl. destruct (Nat.eqb_spec x y) as [-> | _].
    + exfalso. apply Hx, list_elem_of_here.
    + apply IH. intros H. apply Hx, list_elem_of_further, H.
  - apply IH; [exact Hnd |]. apply elem_of_cons in Ha as [-> | Ha]; [congruence | exact Ha].
Qed.

(** A well-formed model satisfies the three structural invariants. *)
Lemma tree_ok_invariants st t : tree_ok st t -> structural_invariants st.
Proof.
  intros Hok. pose proof Hok as [Hraw Ht Hl Hidx].
  pose proof (index_nodes_tree_ok st t Hok) as Hnodes.
  split.
  - exists (raddr t). split; [exact Hraw |]. rewrite Hnodes.
    split; [apply raddr_in_preorder |]. intros a Ha. apply tree_ok_root_iff; assumption.
  - intros a pid Ha Hpa. rewrite Hnodes in *.
    assert (Hr : a <> raddr t).
    { intros ->. rewrite (ti_root _ _ Ht) in Hpa. discriminate. }
    destruct (tree_ok_parent st t a Hok Ha Hr)
      as (p & pid' & cs & k & Hp & Hpa' & _ & Hd & Hcs & Hk).
    assert (pid' = pid) by congruence. subst pid'.
    exists p, cs. rewrite Hidx. simpl. split; [exact Hd |]. split; [exact Hp |].
    split; [exact Hcs |].
    destruct (tree_children _ t p cs Ht Hp Hcs) as (Hnd & _ & _).
    apply filter_eqb_once; [exact Hnd |]. eapply list_elem_of_lookup_2, Hk.
  - rewrite Hnodes. split; [| apply (ti_ids _ _ Ht)].
    intros a Ha. eapply tree_in_keys_id; eauto.
Qed.

Section Sequences.

Variable uuid1 : nat -> string.
Variable html2text_handle : string -> string.

(** The two edits that read the parent of their target raise [KeyError] on
    the root, before they change anything. *)
Lemma reads_parent_of_root_raises st t e :
  tree_ok st t -> reads_parent_of_root st e ->
  run_edit uuid1 html2text_handle e st = (Raise KeyError, st).
Proof.
  intros Hok Hroot. pose proof (index_nodes_tree_ok st t Hok) as Hnodes.
  destruct e as [node us ex | node us | node | node | node | node qi | node re];
    cbn [reads_parent_of_root run_edit] in *; try contradiction;
    destruct Hroot as (a & (Hn & Ha) & Hp); rewrite Hnodes in Ha;
    destruct (edit_start st t node a Hok Ha Hn) as [Hsel Hfalsy];
    destruct (tree_ok_node st t a Hok Ha) as (n & i & Hn' & _ & _ & _);
    rewrite (parent_id_at_read _ _ _ Hn') in Hp.
  - unfold create_sibling. mstep Hsel. mstep Hfalsy.
    apply bind_raise. apply (parent_root_raises st a n Hn' Hp).
  - unfold merge_with_parent. mstep Hsel. mstep Hfalsy.
    apply bind_raise. apply (parent_root_raises st a n Hn' Hp).
Qed.

(** Each of the seven edits returns and leaves a well-formed model, but
    for the two that raise on the root and leave the model as it was. *)
Lemma run_edit_ok st t e :
  tree_ok st t -> uuid_fresh uuid1 st -> edit_pre st e ->
  exists o st',
    run_edit uuid1 html2text_handle e st = (o, st')
    /\ (o = Ok tt \/ (reads_parent_of_root st e /\ o = Raise KeyError /\ st' = st))
    /\ (exists t', tree_ok st' t') /\ uuid_fresh uuid1 st'.
Proof.
  intros Hok Hfr Hpre. pose proof (index_nodes_tree_ok st t Hok) as Hnodes.
  assert (Hnr : forall a, is_Some (parent_id_at (heap st) a) -> a <> raddr t).
  { intros a [i Hi] ->. rewrite (ti_root _ _ (ok_tree _ _ Hok)) in Hi. discriminate. }
  assert (Hgood : forall st',
            run_edit uuid1 html2text_handle e st = (Ok tt, st') ->
            (exists t', tree_ok st' t') -> uuid_fresh uuid1 st' ->
            exists o st'',
              run_edit uuid1 html2text_handle e st = (o, st'')
              /\ (o = Ok tt \/ (reads_parent_of_root st e /\ o = Raise KeyError /\ st'' = st))
              /\ (exists t', tree_ok st'' t') /\ uuid_fresh uuid1 st'').
  { intros st' Hrun Hok' Hfr'. exists (Ok tt), st'. auto. }
  assert (Hbad : reads_parent_of_root st e ->
            exists o st'',
              run_edit uuid1 html2text_handle e st = (o, st'')
              /\ (o = Ok tt \/ (reads_parent_of_root st e /\ o = Raise KeyError /\ st'' = st))
              /\ (exists t', tree_ok st'' t') /\ uuid_fresh uuid1 st'').
  { intros Hroot. exists (Raise KeyError), st.
    split; [eapply reads_parent_of_root_raises; eauto |]. eauto 10. }
  destruct e as [node us ex | node us | node | node | node | node qi | node re];
    cbn [edit_pre] in Hpre; unfold target in Hpre; rewrite Hnodes in Hpre.
  - destruct Hpre as (a & Hn & Ha).
    destruct (create_child_ok uuid1 html2text_handle st t node a us ex Hok Hfr Ha Hn)
      as (c & st' & Hrun & Hok' & Hfr').
    apply (Hgood st'); auto. cbn [run_edit]. mstep Hrun. reflexivity.
  - destruct Hpre as (a & Hn & Ha).
    destruct (parent_id_at (heap st) a) as [pid|] eqn:Hp.
    + destruct (create_sibling_ok uuid1 html2text_handle st t node a us Hok Hfr Ha Hn)
        as (st' & Hrun & Hok' & Hfr'); [apply Hnr; rewrite Hp; eauto |].
      apply (Hgood st'); auto.
    + apply Hbad. exists a. unfold target. rewrite Hnodes. auto.
  - destruct Hpre as (a & Hn & Ha).
    destruct (create_parent_ok uuid1 html2text_handle st t node a Hok Hfr Ha Hn)
      as (st' & Hrun & Hok' & Hfr').
    apply (Hgood st'); auto.
  - destruct Hpre as (a & Hn & Ha).
    destruct (parent_id_at (heap st) a) as [pid|] eqn:Hp.
    + destruct (merge_with_parent_ok uuid1 html2text_handle st t node a Hok Hfr Ha Hn)
        as (st' & Hrun & Hok' & Hfr'); [apply Hnr; rewrite Hp; eauto |].
      apply (Hgood st'); auto.
    + apply Hbad. exists a. unfold target. rewrite Hnodes. auto.
  - destruct Hpre as (a & Hn & Ha).
    destruct (merge_with_children_ok uuid1 html2text_handle st t node a Hok Hfr Ha Hn)
      as (st' & Hrun & Hok' & Hfr').
    apply (Hgood st'); auto.
  - destruct Hpre as (a & q & (Hn & Ha) & Hq & Hqi).
    destruct (change_parent_ok uuid1 html2text_handle st t node a q qi Hok Hfr Ha Hn Hq Hqi)
      as (st' & Hrun & Hok' & Hfr').
    apply (Hgood st'); auto.
  - destruct Hpre as (a & Hn & Ha).
    destruct (delete_node_ok uuid1 html2text_handle st t node a re Hok Hfr Ha Hn)
      as (st' & Hrun & Hok' & Hfr').
    apply (Hgood st'); auto.
Qed.

End Sequences.

(** C1 (as the code has it): from a well-formed model (the index lists
    the tree of the document, every node of which carries an id, a text
    and a list of children, and parent ids are stamped; such a model
    satisfies the structural invariants) and with an id generator that
    never repeats an id, take any sequence of [create_child],
    [create_sibling], [create_parent], [merge_with_parent],
    [merge_with_children], [change_parent] and [delete_node] whose targets
    exist.  After each edit the tree of the index has exactly one root
    without [parent_id], the [parent_id] of every other node resolves to a
    node whose children contain it exactly once, and all ids are different.
    Every edit returns without raising, but for [create_sibling] and
    [merge_with_parent] on the root, which raise [KeyError] and leave the
    model as it was. *)
Theorem edits_preserve_invariants
    (uuid1 : nat -> string) (html2text_handle : string -> string)
    (es : list edit) (st : TreeModel) (t : rtree) :
  tree_ok st t -> uuid_fresh uuid1 st -> edits_pre uuid1 html2text_handle es st ->
  Forall (fun '(st0, e, r) =>
            structural_invariants (snd r)
            /\ (fst r = Ok tt
                \/ (reads_parent_of_root st0 e /\ r = (Raise KeyError, st0))))
         (run_edits uuid1 html2text_handle es st).
Proof.
  revert st t. induction es as [|e es IH]; intros st t Hok Hfr Hpre; [constructor |].
  destruct Hpre as [Hpre Hrest]. cbn [run_edits]. cbv zeta.
  destruct (run_edit_ok uuid1 html2text_handle st t e Hok Hfr Hpre)
    as (o & st' & Hrun & Hout & [t' Hok'] & Hfr').
  rewrite Hrun in *. cbn [snd] in *. constructor.
  - split; [eapply tree_ok_invariants, Hok' |].
    destruct Hout as [-> | (Hroot & -> & ->)]; [left; reflexivity | right; auto].
  - eapply IH; eauto.
Qed.

(** ** Ids that are all different after flattening *)

Lemma elem_of_ids_from uuid1 h l : forall clk i,
  i ∈ ids_from uuid1 h clk l ->
  (exists a, a ∈ l /\ id_at h a = Some i) \/ (exists k, (clk <= k)%nat /\ i = uuid1 k).
Proof.
  induction l as [|a l IH]; intros clk i Hi; [inversion Hi |].
  simpl in Hi. destruct (id_at h a) as [j|] eqn:Hj.
  - apply elem_of_cons in Hi as [-> | Hi].
    + left. exists a. split; [apply list_elem_of_here | exact Hj].
    + destruct (IH _ _ Hi) as [(b & Hb & Hbi) | Hk]; [left | right; exact Hk].
      exists b. split; [apply list_elem_of_further, Hb | exact Hbi].
  - apply elem_of_cons in Hi as [-> | Hi].
    + right. exists clk. split; [lia | reflexivity].
    + destruct (IH _ _ Hi) as [(b & Hb & Hbi) | (k & Hk & ->)].
      * left. exists b. split; [apply list_elem_of_further, Hb | exact Hbi].
      * right. exists k. split; [lia | reflexivity].
Qed.

(** With ids that are different where they are there, and a generator that
    is fresh, flattening leaves ids that are all different. *)
Lemma ids_from_NoDup uuid1 h l : forall clk,
  (forall i j, uuid1 i = uuid1 j -> i = j) ->
  (forall a k, (clk <= k)%nat -> id_at h a <> Some (uuid1 k)) ->
  NoDup (omap (id_at h) l) ->
  NoDup (ids_from uuid1 h clk l).
Proof.
  induction l as [|a l IH]; intros clk Hinj Hfr Hnd; [constructor |].
  simpl in *. destruct (id_at h a) as [j|] eqn:Hj.
  - apply NoDup_cons in Hnd as [Hjl Hnd]. apply NoDup_cons. split; [| apply IH; auto].
    intros Hin. apply elem_of_ids_from in Hin as [(b & Hb & Hbi) | (k & Hk & ->)].
    + apply Hjl. apply list_elem_of_omap. exists b. auto.
    + apply (Hfr a k Hk). exact Hj.
  - apply NoDup_cons. split.
    + intros Hin. apply elem_of_ids_from in Hin as [(b & Hb & Hbi) | (k & Hk & Heq)].
      * apply (Hfr b clk); [lia | exact Hbi].
      * apply Hinj in Heq. lia.
    + apply IH; auto. intros b k Hk. apply Hfr. lia.
Qed.

Lemma ids_from_lookup uuid1 h l : forall clk j a,
  l !! j = Some a ->
  ids_from uuid1 h clk l !! j
  = Some (default (uuid1 (clk + missing h (take j l))%nat) (id_at h a)).
Proof.
  induction l as [|x l IH]; intros clk j a Hj; [discriminate |].
  destruct j as [|j].
  - injection Hj as ->. simpl. rewrite Nat.add_0_r.
    destruct (id_at h a); reflexivity.
  - simpl in Hj. simpl. destruct (id_at h x) as [i|] eqn:Hx; simpl.
    + rewrite (IH clk j a Hj). reflexivity.
    + rewrite (IH (S clk) j a Hj). do 3 f_equal. lia.
Qed.

Lemma missing_take_le h l j : (missing h (take j l) <= missing h l)%nat.
Proof.
  rewrite <- (take_drop j l) at 2. rewrite missing_app. lia.
Qed.

Lemma missing_take_lt h l j a :
  l !! j = Some a -> id_at h a = None -> (missing h (take j l) < missing h l)%nat.
Proof.
  intros Hj Ha. rewrite <- (take_drop_middle l j a Hj) at 2.
  rewrite missing_app. simpl. rewrite Ha. simpl. lia.
Qed.

(** ** Subtrees *)

Lemma subtree_inv s a ks :
  subtree s (RT a ks) -> s = RT a ks \/ exists k, k ∈ ks /\ subtree s k.
Proof.
  intros H. inversion H; subst; [left; reflexivity | right; eauto].
Qed.

Lemma subtree_nodes s t : subtree s t -> forall b, b ∈ preorder s -> b ∈ preorder t.
Proof.
  induction 1 as [| a ks k Hk Hs IH]; intros b Hb; [exact Hb |].
  rewrite preorder_unfold. apply list_elem_of_further, elem_of_forest_nodes. eauto.
Qed.

Lemma subtree_linked h s t : subtree s t -> linked h t -> linked h s.
Proof.
  induction 1 as [| a ks k Hk Hs IH]; intros Hl; [exact Hl |].
  apply IH. apply linked_inv in Hl. rewrite Forall_forall in Hl. apply (Hl k Hk).
Qed.

Lemma subtree_height s t : subtree s t -> (height s <= height t)%nat.
Proof.
  induction 1 as [| a ks k Hk Hs IH]; [lia |].
  pose proof (height_kid k a ks Hk). lia.
Qed.

Lemma subtree_trans s k t : subtree s k -> subtree k t -> subtree s t.
Proof.
  intros Hs Hk. induction Hk as [| a ks k' Hk' Hk IH]; [exact Hs |].
  eapply subtree_kid; eauto.
Qed.

(** Every node of a tree is the root of a subtree. *)
Lemma subtree_of_node t : forall b, b ∈ preorder t -> exists ks, subtree (RT b ks) t.
Proof.
  induction t as [a ks IH] using rtree_ind'. intros b Hb.
  rewrite preorder_unfold in Hb. apply elem_of_cons in Hb as [-> | Hb].
  - exists ks. constructor.
  - apply elem_of_forest_nodes in Hb as (k & Hk & Hbk).
    rewrite Forall_forall in IH. destruct (IH k Hk b Hbk) as [ks' Hs].
    exists ks'. eapply subtree_kid; eauto.
Qed.

(** Every node but the root is a child of a node of the tree. *)
Lemma subtree_parent t : forall c, c ∈ preorder t -> c <> raddr t ->
  exists p ks, subtree (RT p ks) t /\ c ∈ map raddr ks.
Proof.
  induction t as [a ks IH] using rtree_ind'. intros c Hc Hne.
  rewrite preorder_unfold in Hc. apply elem_of_cons in Hc as [-> | Hc]; [contradiction |].
  apply elem_of_forest_nodes in Hc as (k & Hk & Hck).
  destruct (decide (c = raddr k)) as [-> | Hck'].
  - exists a, ks. split; [constructor |]. apply list_elem_of_fmap. eauto.
  - rewrite Forall_forall in IH. destruct (IH k Hk c Hck Hck') as (p & ks' & Hs & Hin).
    exists p, ks'. split; [eapply subtree_kid; eauto | exact Hin].
Qed.

Lemma forest_kid_unique ks : forall k1 k2 b,
  NoDup (forest_nodes ks) -> k1 ∈ ks -> k2 ∈ ks ->
  b ∈ preorder k1 -> b ∈ preorder k2 -> k1 = k2.
Proof.
  induction ks as [|k ks IH]; intros k1 k2 b Hnd H1 H2 Hb1 Hb2; [inversion H1 |].
  rewrite forest_nodes_cons in Hnd. apply NoDup_app in Hnd as (_ & Hdis & Hnd).
  apply elem_of_cons in H1 as [-> | H1]; apply elem_of_cons in H2 as [-> | H2].
  - reflexivity.
  - exfalso. apply (Hdis b Hb1). apply elem_of_forest_nodes. eauto.
  - exfalso. apply (Hdis b Hb2). apply elem_of_forest_nodes. eauto.
  - eapply IH; eauto.
Qed.

(** In a tree without repeated nodes a node is the root of one subtree. *)
Lemma subtree_unique t : forall s1 s2,
  NoDup (preorder t) -> subtree s1 t -> subtree s2 t -> raddr s1 = raddr s2 -> s1 = s2.
Proof.
  induction t as [a ks IH] using rtree_ind'. intros s1 s2 Hnd H1 H2 Heq.
  rewrite preorder_unfold in Hnd. apply NoDup_cons in Hnd as [Ha Hnd].
  assert (Hin : forall s k, k ∈ ks -> subtree s k -> raddr s ∈ forest_nodes ks).
  { intros s k Hk Hs. apply elem_of_forest_nodes. exists k. split; [exact Hk |].
    eapply subtree_nodes; [exact Hs | apply raddr_in_preorder]. }
  apply subtree_inv in H1 as [-> | (k1 & Hk1 & H1)];
    apply subtree_inv in H2 as [-> | (k2 & Hk2 & H2)].
  - reflexivity.
  - exfalso. apply Ha. simpl in Heq. rewrite Heq. eapply Hin; eauto.
  - exfalso. apply Ha. simpl in Heq. rewrite <- Heq. eapply Hin; eauto.
  - assert (k1 = k2).
    { apply (forest_kid_unique ks k1 k2 (raddr s1) Hnd Hk1 Hk2).
      - eapply subtree_nodes; [exact H1 | apply raddr_in_preorder].
      - rewrite Heq. eapply subtree_nodes; [exact H2 | apply raddr_in_preorder]. }
    subst k2. rewrite Forall_forall in IH. apply (IH k1 Hk1); auto.
    eapply NoDup_forest_kid; eauto.
Qed.

Lemma kids_sublist ks : map raddr ks `sublist_of` forest_nodes ks.
Proof.
  induction ks as [|[a kks] ks IH]; [constructor |].
  rewrite forest_nodes_cons, preorder_unfold. simpl. apply sublist_skip.
  apply sublist_inserts_l. exact IH.
Qed.

Lemma subtree_sublist s t : subtree s t -> preorder s `sublist_of` preorder t.
Proof.
  induction 1 as [| a ks k Hk Hs IH]; [reflexivity |].
  rewrite preorder_unfold. apply sublist_cons. etransitivity; [exact IH |].
  clear -Hk. induction ks as [|k' ks IHks]; [inversion Hk |].
  rewrite forest_nodes_cons. apply elem_of_cons in Hk as [-> | Hk].
  - apply sublist_inserts_r. reflexivity.
  - apply sublist_inserts_l. apply IHks, Hk.
Qed.

(** Filtering a list without repetitions by membership in one of its
    sublists gives that sublist. *)
Lemma filter_sublist {A : Type} (P : A -> bool) (m l : list A) :
  m `sublist_of` l -> NoDup l ->
  (forall c, c ∈ l -> P c = true <-> c ∈ m) ->
  List.filter P l = m.
Proof.
  induction 1 as [| x m l Hs IH | x m l Hs IH]; intros Hnd HP.
  - reflexivity.
  - apply NoDup_cons in Hnd as [Hx Hnd]. simpl.
    rewrite (proj2 (HP x (list_elem_of_here _ _)) (list_elem_of_here _ _)). f_equal.
    apply IH; [exact Hnd |]. intros c Hc. rewrite (HP c (list_elem_of_further _ _ _ Hc)).
    split; [| apply list_elem_of_further].
    intros H. apply elem_of_cons in H as [-> | H]; [contradiction | exact H].
  - apply NoDup_cons in Hnd as [Hx Hnd]. simpl.
    destruct (P x) eqn:HPx.
    + exfalso. apply Hx. eapply elem_of_sublist; [| exact Hs].
      apply (HP x (list_elem_of_here _ _)). exact HPx.
    + apply IH; [exact Hnd |]. intros c Hc. apply HP, list_elem_of_further, Hc.
Qed.

(** ** Rebuilding the nested tree from the flat nodes *)

Lemma preorder_head t : preorder t = raddr t :: forest_nodes (rkids t).
Proof. destruct t. reflexivity. Qed.

Section Rebuild.

Variable h : list node.
Variable t : rtree.
Hypothesis Hlinked : linked h t.
Hypothesis Hids : NoDup (map (id_at h) (preorder t)).
Hypothesis Hhas : forall a, a ∈ preorder t -> is_Some (id_at h a).
Hypothesis Hroot : parent_id_at h (raddr t) = None.

Lemma rebuild_nodup : NoDup (preorder t).
Proof. eapply NoDup_fmap_1, Hids. Qed.

Lemma linked_kid x ks k :
  subtree (RT x ks) t -> k ∈ ks -> parent_id_at h (raddr k) = id_at h x.
Proof.
  intros Hs Hk. pose proof (subtree_linked h _ _ Hs Hlinked) as Hl.
  apply linked_inv in Hl. rewrite Forall_forall in Hl. apply (Hl k Hk).
Qed.

Lemma is_child_of_iff x ks c :
  subtree (RT x ks) t -> c ∈ preorder t ->
  is_child_of h x c = true <-> c ∈ map raddr ks.
Proof.
  intros Hs Hc.
  assert (Hx : x ∈ preorder t).
  { apply (subtree_nodes _ _ Hs). apply (raddr_in_preorder (RT x ks)). }
  destruct (Hhas x Hx) as [i Hi]. unfold is_child_of. rewrite Hi. split.
  - destruct (parent_id_at h c) as [pid|] eqn:Hpid; [| discriminate].
    intros Heq. apply String.eqb_eq in Heq. subst pid.
    assert (Hne : c <> raddr t) by (intros ->; congruence).
    destruct (subtree_parent t c Hc Hne) as (p & ks' & Hs' & Hin).
    apply list_elem_of_fmap in Hin as (k & -> & Hk).
    pose proof (linked_kid p ks' k Hs' Hk) as Hp. rewrite Hpid in Hp.
    assert (Hpt : p ∈ preorder t).
    { apply (subtree_nodes _ _ Hs'). apply (raddr_in_preorder (RT p ks')). }
    assert (p = x).
    { eapply (NoDup_map_inj_on (id_at h) (preorder t)); eauto. congruence. }
    subst p.
    assert (Heq : RT x ks' = RT x ks)
      by (apply (subtree_unique t); auto using rebuild_nodup).
    injection Heq as <-. apply list_elem_of_fmap. eauto.
  - intros Hin. apply list_elem_of_fmap in Hin as (k & -> & Hk).
    rewrite (linked_kid x ks k Hs Hk), Hi. apply String.eqb_refl.
Qed.

(** The nodes whose [parent_id] is the id of [x] are the children of [x],
    in their order. *)
Lemma children_of_spec x ks :
  subtree (RT x ks) t -> children_of h (preorder t) x = map raddr ks.
Proof.
  intros Hs. apply filter_sublist.
  - etransitivity; [apply kids_sublist |].
    etransitivity; [| apply (subtree_sublist _ _ Hs)].
    rewrite preorder_unfold. apply sublist_cons. reflexivity.
  - apply rebuild_nodup.
  - intros c Hc. apply is_child_of_iff; assumption.
Qed.

Lemma rebuild_from_spec : forall fuel s,
  subtree s t -> (height s <= fuel)%nat ->
  rebuild_from fuel h (preorder t) (raddr s) = s.
Proof.
  induction fuel as [|fuel IH]; intros [x ks] Hs Hh; [simpl in Hh; lia |].
  simpl raddr. cbn [rebuild_from]. rewrite (children_of_spec x ks Hs). f_equal.
  rewrite map_map. rewrite <- (map_id ks) at 2. apply map_ext_elem.
  intros k Hk. apply IH.
  - eapply subtree_trans; [| exact Hs]. eapply subtree_kid; [exact Hk | constructor].
  - pose proof (height_kid k x ks Hk). lia.
Qed.

Lemma rebuild_spec : rebuild h (preorder t) = Some t.
Proof.
  assert (Hgen : forall l r l', l = r :: l' ->
            rebuild h l = Some (rebuild_from (length l) h l r))
    by (intros l r l' ->; reflexivity).
  rewrite (Hgen _ _ _ (preorder_head t)). f_equal. apply rebuild_from_spec; [constructor | apply height_le_nodes].
Qed.

End Rebuild.

(** What flattening leaves in a tree whose ids, where they are there, are
    different, with a generator that is fresh. *)
Lemma flat_post_ids uuid1 h clk t h' :
  flat_post uuid1 h clk t h' ->
  (forall i j, uuid1 i = uuid1 j -> i = j) ->
  (forall a k, (clk <= k)%nat -> id_at h a <> Some (uuid1 k)) ->
  NoDup (omap (id_at h) (preorder t)) ->
  NoDup (map (id_at h') (preorder t))
  /\ (forall j a, preorder t !! j = Some a ->
        id_at h' a
        = Some (default (uuid1 (clk + missing h (take j (preorder t)))%nat) (id_at h a))).
Proof.
  intros Hpost Hinj Hfr Hnd. split.
  - rewrite (fp_ids _ _ _ _ _ Hpost). apply NoDup_fmap_2; [intros x y; congruence |].
    apply ids_from_NoDup; assumption.
  - intros j a Hj. pose proof (f_equal (fun l => l !! j) (fp_ids _ _ _ _ _ Hpost)) as H.
    cbv beta in H. rewrite !list_lookup_fmap, Hj in H.
    rewrite (ids_from_lookup uuid1 h (preorder t) clk j a Hj) in H. simpl in H.
    congruence.
Qed.

(** C6: [flatten_tree] on a nested tree of the store (no node twice, no
    [parent_id] on the root, ids different where they are there, a fresh id
    generator) returns the nodes in pre-order: every parent before its
    children, siblings in their order.  It leaves the ids that are there,
    gives every node without one the next unused id, so that all ids are
    different, stamps every child with the id of its parent and keeps the
    rest of every node.  Rebuilding a nested tree from the flat nodes, the
    children of a node being the nodes that carry its id as [parent_id] in
    flat order, gives the tree back. *)
Theorem flatten_tree_roundtrip (uuid1 : nat -> string) (st : TreeModel) (t : rtree) :
  shape (heap st) t -> NoDup (preorder t) ->
  parent_id_at (heap st) (raddr t) = None ->
  NoDup (omap (id_at (heap st)) (preorder t)) ->
  uuid_fresh uuid1 st ->
  exists h',
    let clk' := (uuid_clock st + missing (heap st) (preorder t))%nat in
    flatten_tree uuid1 (raddr t) st = (Ok (preorder t), with_clock clk' (with_heap h' st))
    /\ (forall a i, a ∈ preorder t -> id_at (heap st) a = Some i -> id_at h' a = Some i)
    /\ (forall a, a ∈ preorder t -> id_at (heap st) a = None ->
          exists k, (uuid_clock st <= k < clk')%nat /\ id_at h' a = Some (uuid1 k))
    /\ NoDup (map (id_at h') (preorder t))
    /\ linked h' t
    /\ (forall b, payload_at h' b = payload_at (heap st) b)
    /\ shape h' t
    /\ rebuild h' (preorder t) = Some t.
Proof.
  intros Hsh Hnd Hroot Hids [Hinj Hfr].
  destruct (flatten_tree_spec uuid1 t st Hsh Hnd) as (h' & Hrun & Hpost).
  destruct (flat_post_ids uuid1 _ _ t h' Hpost Hinj Hfr Hids) as [Hnd' Hlook].
  exists h'. cbv zeta. split; [exact Hrun |].
  assert (Hold : forall a i, a ∈ preorder t -> id_at (heap st) a = Some i -> id_at h' a = Some i).
  { intros a i Ha Hi. apply list_elem_of_lookup in Ha as [j Hj].
    rewrite (Hlook j a Hj), Hi. reflexivity. }
  assert (Hnew : forall a, a ∈ preorder t -> id_at (heap st) a = None ->
            exists k, (uuid_clock st <= k < uuid_clock st + missing (heap st) (preorder t))%nat
                      /\ id_at h' a = Some (uuid1 k)).
  { intros a Ha Hi. apply list_elem_of_lookup in Ha as [j Hj].
    exists (uuid_clock st + missing (heap st) (take j (preorder t)))%nat. split.
    - pose proof (missing_take_lt _ _ _ _ Hj Hi). lia.
    - rewrite (Hlook j a Hj), Hi. reflexivity. }
  split; [exact Hold |]. split; [exact Hnew |]. split; [exact Hnd' |].
  split; [apply (fp_linked _ _ _ _ _ Hpost) |].
  split; [apply (fp_payload _ _ _ _ _ Hpost) |].
  split; [eapply shape_payload; [exact Hsh | apply (fp_payload _ _ _ _ _ Hpost)] |].
  apply rebuild_spec.
  - apply (fp_linked _ _ _ _ _ Hpost).
  - exact Hnd'.
  - intros a Ha. destruct (id_at (heap st) a) as [i|] eqn:Hi.
    + rewrite (Hold a i Ha Hi). eauto.
    + destruct (Hnew a Ha Hi) as (k & _ & Hk). rewrite Hk. eauto.
  - rewrite (fp_root _ _ _ _ _ Hpost). exact Hroot.
Qed.

(** ** [update_text] *)

(** *** Trailing spaces *)

Lemma append_cons c (s1 s2 : string) : (String c s1 ++ s2 = String c (s1 ++ s2))%string.
Proof. reflexivity. Qed.

Lemma append_nil_l (s : string) : (EmptyString ++ s)%string = s.
Proof. reflexivity. Qed.

Lemma list_ascii_app (s1 s2 : string) :
  list_ascii_of_string (s1 ++ s2)%string
  = (list_ascii_of_string s1 ++ list_ascii_of_string s2)%list.
Proof.
  induction s1 as [|c s1 IH]; [reflexivity |].
  rewrite append_cons. simpl. rewrite IH. reflexivity.
Qed.

Lemma spaces_snoc k : spaces (S k) = (spaces k ++ " "%string)%string.
Proof.
  induction k as [|k IH]; [reflexivity |].
  change (String space (spaces (S k))
          = String space (spaces k ++ String space EmptyString)%string).
  f_equal. exact IH.
Qed.

Lemma append_assoc (s1 s2 s3 : string) : ((s1 ++ s2) ++ s3 = s1 ++ (s2 ++ s3))%string.
Proof.
  induction s1 as [|c s1 IH]; [reflexivity |].
  rewrite !append_cons, IH. reflexivity.
Qed.

Lemma append_nil_r (s : string) : (s ++ EmptyString)%string = s.
Proof.
  induction s as [|c s IH]; [reflexivity |]. rewrite append_cons, IH. reflexivity.
Qed.

Lemma drop_last_snoc (s : string) c : drop_last (s ++ String c EmptyString) = s.
Proof.
  unfold drop_last. rewrite list_ascii_app. simpl.
  rewrite removelast_last. apply string_of_list_ascii_of_string.
Qed.

Lemma endswith_space_snoc (s : string) :
  endswith (s ++ " "%string) (" "%string) = true.
Proof.
  unfold endswith, str_rev. rewrite list_ascii_app. simpl list_ascii_of_string.
  rewrite rev_app_distr. simpl.
  destruct (string_of_list_ascii (rev (list_ascii_of_string s))); reflexivity.
Qed.

Lemma length_spaces k : String.length (spaces k) = k.
Proof. induction k as [|k IH]; simpl; [reflexivity | rewrite IH; reflexivity]. Qed.

Lemma length_append (s1 s2 : string) :
  String.length (s1 ++ s2) = (String.length s1 + String.length s2)%nat.
Proof.
  induction s1 as [|c s1 IH]; [reflexivity |].
  rewrite append_cons. simpl. rewrite IH. reflexivity.
Qed.

Lemma trim_loop_spaces body : endswith body (" "%string) = false ->
  forall k fuel n, (k <= fuel)%nat ->
    trim_loop fuel (body ++ spaces k) n = (body, (n + k)%nat).
Proof.
  intros Hb. induction k as [|k IH]; intros fuel n Hk.
  - simpl spaces. rewrite append_nil_r, Nat.add_0_r.
    destruct fuel as [|fuel]; cbn [trim_loop]; [reflexivity |]. rewrite Hb. reflexivity.
  - destruct fuel as [|fuel]; [lia |]. rewrite spaces_snoc, <- append_assoc.
    cbn [trim_loop]. rewrite endswith_space_snoc, (drop_last_snoc _ " "%char).
    rewrite IH by lia. f_equal. lia.
Qed.

(** The loop of [update_text] takes the [k] trailing spaces off. *)
Lemma trim_trailing_spaces_spec body k :
  endswith body (" "%string) = false ->
  trim_trailing_spaces (body ++ spaces k) = (body, k).
Proof.
  intros Hb. unfold trim_trailing_spaces. rewrite (trim_loop_spaces body Hb k); [reflexivity |].
  rewrite length_append, length_spaces. lia.
Qed.

(** Leading spaces bring no paragraph markup. *)
Lemma has_miro_markup_spaces k s : has_miro_markup (spaces k ++ s) = has_miro_markup s.
Proof.
  induction k as [|k IH]; [reflexivity |]. rewrite <- IH. reflexivity.
Qed.

(** *** The loop over the children *)

Lemma text_at_write_eq (h : list node) a n s :
  h !! a = Some n -> text_at (<[a := set_text (Some s) n]> h) a = Some s.
Proof. intros H. unfold text_at. rewrite (lookup_write_eq _ _ _ _ H). reflexivity. Qed.

Lemma prepend_loop k (cs : list addr) : forall st,
  NoDup cs -> (forall c, c ∈ cs -> is_Some (text_at (heap st) c)) ->
  exists h',
    for_each cs (fun child _ =>
                   let* ct := get_text child in
                   update child (set_text (Some (spaces k ++ ct)%string))) tt st
    = (Ok tt, with_heap h' st)
    /\ (forall b, skeleton_at h' b = skeleton_at (heap st) b)
    /\ (forall b, b ∉ cs -> h' !! b = heap st !! b)
    /\ (forall c ct, c ∈ cs -> text_at (heap st) c = Some ct ->
          text_at h' c = Some (spaces k ++ ct)%string).
Proof.
  induction cs as [|c cs IH]; intros st Hnd Htx.
  - exists (heap st). rewrite with_heap_same. split; [reflexivity |].
    split; [reflexivity |]. split; [reflexivity |]. intros c ct Hc. inversion Hc.
  - apply NoDup_cons in Hnd as [Hc Hnd].
    destruct (Htx c (list_elem_of_here _ _)) as [ct Hct].
    pose proof Hct as Hct'. unfold text_at in Hct'.
    destruct (heap st !! c) as [n|] eqn:Hn; [| discriminate].
    set (h1 := <[c := set_text (Some (spaces k ++ ct)%string) n]> (heap st)).
    assert (Hsk1 : forall b, skeleton_at h1 b = skeleton_at (heap st) b).
    { intros b. apply (skeleton_write_text _ _ _ _ _ Hn). rewrite Hct'. eauto. }
    destruct (IH (with_heap h1 st) Hnd) as (h2 & Hrun & Hsk & Hout & Hin).
    { stsimp. intros x Hx. eapply skeleton_text_Some; [apply Hsk1 |].
      apply Htx, list_elem_of_further, Hx. }
    stsimp. exists h2. split; [| split; [| split]].
    + cbn [for_each]. mstep (text_at_get _ _ _ Hct).
      mstep (update_ok st c n (set_text (Some (spaces k ++ ct)%string)) Hn). fold h1.
      exact Hrun.
    + intros b. rewrite Hsk. apply Hsk1.
    + intros b Hb. apply not_elem_of_cons in Hb as [Hbc Hb].
      rewrite Hout by exact Hb. unfold h1. apply lookup_write_ne. congruence.
    + intros x xt Hx Hxt. apply elem_of_cons in Hx as [-> | Hx].
      * unfold text_at. rewrite Hout by exact Hc. fold (text_at h1 c).
        assert (xt = ct) by congruence. subst xt. apply (text_at_write_eq _ _ _ _ Hn).
      * apply Hin; [exact Hx |]. unfold text_at, h1.
        rewrite lookup_write_ne by (intros ->; contradiction). exact Hxt.
Qed.

(** C3 (as the code has it): for a node of a well-formed model and a text
    that is [body] followed by exactly [k] spaces, [update_text] does
    nothing at all when the stored text of the node is [body] already: no
    child receives the spaces.  When the stored text differs, the node's
    text becomes [body] and every direct child's text gets exactly [k]
    leading spaces, for texts without paragraph markup (the refresh that
    follows rewrites texts that carry it). *)
Theorem update_text_splits
    (uuid1 : nat -> string) (html2text_handle : string -> string)
    st t (a : nat) (body : string) (k : nat) (old : string) (cs : list nat) :
  tree_ok st t -> a ∈ preorder t ->
  endswith body " " = false ->
  text_at (heap st) a = Some old ->
  children_at (heap st) a = Some cs ->
  (old = body ->
   update_text uuid1 html2text_handle a (body ++ spaces k) None st = (Ok tt, st))
  /\ (old <> body -> has_miro_markup body = false ->
      exists st',
        update_text uuid1 html2text_handle a (body ++ spaces k) None st = (Ok tt, st')
        /\ tree_ok st' t
        /\ text_at (heap st') a = Some body
        /\ (forall c ct, c ∈ cs -> text_at (heap st) c = Some ct ->
              has_miro_markup ct = false ->
              text_at (heap st') c = Some (spaces k ++ ct)%string)).
Proof.
  intros Hok Ha Hbody Hold Hcs. pose proof Hok as [Hraw Ht Hl Hidx].
  destruct (tree_ok_node st t a Hok Ha) as (an & ai & Han & Hai & _ & Haid).
  assert (Hstart : forall m : M unit,
            update_text uuid1 html2text_handle a (body ++ spaces k) None st
            = (let* edited1 :=
                 if bool_decide (old <> body) then
                   let* cs := get_children a in
                   for_each cs (fun child _ =>
                                  let* ct := get_text child in
                                  update child (set_text (Some (spaces k ++ ct)%string))) tt ;;;
                   update a (set_text (Some body)) ;;;
                   ret true
                 else ret false in
               let* edited2 := ret false in
               when (edited1 || edited2) (tree_updated uuid1 html2text_handle true)) st).
  { intros _. unfold update_text. mstep (id_at_get_id _ _ _ Haid). mget. rewrite Hidx.
    rewrite (dict_get_index_of _ _ a ai); auto.
    2:{ intros y Hy. eapply tree_in_keys_id; eauto. }
    2:{ apply (ti_ids _ _ Ht). }
    cbn [has_key]. cbv iota. mret. rewrite (trim_trailing_spaces_spec body k Hbody).
    mstep (text_at_get _ _ _ Hold). reflexivity. }
  split.
  - intros Heq. rewrite (Hstart (ret tt)).
    rewrite bool_decide_eq_false_2 by (intros H; apply H, Heq). reflexivity.
  - intros Hne Hmark. rewrite (Hstart (ret tt)).
    rewrite bool_decide_eq_true_2 by exact Hne.
    destruct (tree_children _ t a cs Ht Ha Hcs) as (Hndcs & Hsubcs & Hacs).
    destruct (prepend_loop k cs st Hndcs) as (h1 & Hloop & Hsk1 & Hout1 & Hin1).
    { intros c Hc. eapply tree_in_keys_text; eauto. }
    assert (Hh1a : h1 !! a = Some an) by (rewrite Hout1 by exact Hacs; exact Han).
    set (h2 := <[a := set_text (Some body) an]> h1).
    assert (Hant : is_Some (n_text an)).
    { unfold text_at in Hold. rewrite Han in Hold. rewrite Hold. eauto. }
    assert (Hsk2 : forall b, skeleton_at h2 b = skeleton_at (heap st) b).
    { intros b. unfold h2. rewrite (skeleton_write_text _ _ _ _ _ Hh1a Hant). apply Hsk1. }
    destruct (refresh_settled uuid1 html2text_handle (with_heap h2 st) t)
      as (st' & Hrefresh & Hok' & Hset & _).
    { exact Hraw. }
    { stsimp. eapply tree_in_ext; [exact Ht | |].
      - intros b _. apply kept_frame, skeleton_kept, Hsk2.
      - apply skeleton_parent_id, Hsk2. }
    exists st'. split; [| split; [exact Hok' | split]].
    + mstep (children_at_get _ _ _ Hcs). mstep Hloop.
      mstep (update_ok (with_heap h1 st) a an (set_text (Some body)) Hh1a).
      stsimp. fold h2. mret. mret. simpl orb. simpl when. exact Hrefresh.
    + apply (se_text _ _ Hset); [| exact Hmark]. stsimp.
      apply (text_at_write_eq _ _ _ _ Hh1a).
    + intros c ct Hc Hct Hm. apply (se_text _ _ Hset).
      * stsimp. unfold text_at, h2. rewrite lookup_write_ne by (intros ->; contradiction).
        apply (Hin1 c ct Hc Hct).
      * rewrite has_miro_markup_spaces. exact Hm.
Qed.

(** ** [generate_for_nodes] on a reported error *)

Lemma subtree_shape h s t : subtree s t -> shape h t -> shape h s.
Proof.
  induction 1 as [| a ks k Hk Hs IH]; intros Hsh; [exact Hsh |].
  apply IH. apply shape_inv in Hsh as (n & _ & _ & Hks).
  rewrite Forall_forall in Hks. apply (Hks k Hk).
Qed.

(** The children of a node of a well-formed model carry its id. *)
Lemma tree_ok_child st t p cs c :
  tree_ok st t -> p ∈ preorder t -> children_at (heap st) p = Some cs -> c ∈ cs ->
  parent_id_at (heap st) c = id_at (heap st) p.
Proof.
  intros Hok Hp Hcs Hc. pose proof Hok as [_ Ht Hl _].
  destruct (subtree_of_node t p Hp) as [ks Hs].
  pose proof (subtree_shape _ _ _ Hs (ti_shape _ _ Ht)) as Hsh.
  pose proof (shape_children _ _ _ _ Hsh Hcs) as ->.
  apply list_elem_of_fmap in Hc as (k & -> & Hk).
  pose proof (subtree_linked _ _ _ Hs Hl) as Hlk. apply linked_inv in Hlk.
  rewrite Forall_forall in Hlk. apply (Hlk k Hk).
Qed.

Lemma dispatch_error b gs nodes e st :
  reports_error b gs nodes e -> e <> ""%string ->
  exists r, dispatch b gs nodes st = (Ok (r, Some e), st)
            /\ forall s, choices_of r s = (Raise AttributeError, s).
Proof.
  intros [(Hj & [rl Hrl] & [tp Htp] & [pp Hpp] & [m Hm] & Hapi)
         | (Hj & Hne & Hall)] He; unfold dispatch; rewrite Hj; simpl key; mret.
  - exists RNone. rewrite Hrl, Htp, Hpp, Hm, Hapi. simpl. split; reflexivity.
  - exists RTuple. destruct nodes as [|n nodes]; [contradiction |].
    simpl. rewrite Hall. simpl. unfold error_truthy at 1.
    rewrite bool_decide_eq_false_2 by exact He. split; reflexivity.
Qed.

(** The rollback loop: every node of [nodes] gets the error text and is
    taken out of the children of [p]. *)
Lemma rollback_loop (idx : pydict) (p : addr) (pid e : string) (nodes : list addr) :
  forall (cs0 : list addr) st,
    tree_node_dict st = Some idx -> dict_get idx pid = Some p ->
    children_at (heap st) p = Some (cs0 ++ nodes)%list ->
    NoDup (cs0 ++ nodes)%list -> p ∉ (cs0 ++ nodes)%list ->
    (forall c, c ∈ (cs0 ++ nodes)%list -> is_Some (heap st !! c)) ->
    (forall x y, x ∈ (cs0 ++ nodes)%list -> y ∈ (cs0 ++ nodes)%list -> x <> y ->
                 id_at (heap st) x <> id_at (heap st) y) ->
    (forall c, c ∈ nodes -> parent_id_at (heap st) c = Some pid) ->
    exists h',
      for_each nodes
        (fun node _ =>
           let* e' := not_none (Some e) in
           update node (set_text (Some ("ERROR: " ++ e')%string)) ;;;
           let* p := parent node in
           let* cs := get_children p in
           let* rest := list_remove cs node in
           update p (set_children (Some rest))) tt st
      = (Ok tt, with_heap h' st)
      /\ children_at h' p = Some cs0
      /\ (forall c, c ∈ nodes -> text_at h' c = Some ("ERROR: " ++ e)%string)
      /\ (forall b, b <> p -> b ∉ nodes -> h' !! b = heap st !! b)
      /\ (forall b, id_at h' b = id_at (heap st) b).
Proof.
  induction nodes as [|c nodes IH]; intros cs0 st Hd Hg Hcs Hnd Hp Hex Hinj Hpa.
  - exists (heap st). rewrite with_heap_same. rewrite app_nil_r in Hcs.
    split; [reflexivity |]. split; [exact Hcs |]. split; [| split; reflexivity].
    intros c Hc. inversion Hc.
  - assert (Hcin : c ∈ (cs0 ++ c :: nodes)%list).
    { apply elem_of_app. right. apply list_elem_of_here. }
    destruct (Hex c Hcin) as [cn Hcn].
    assert (Hcp : c <> p) by (intros ->; contradiction).
    destruct (heap st !! p) as [pn|] eqn:Hpn;
      [| unfold children_at in Hcs; rewrite Hpn in Hcs; discriminate].
    set (h1 := <[c := set_text (Some ("ERROR: " ++ e)%string) cn]> (heap st)).
    set (h2 := <[p := set_children (Some (cs0 ++ nodes)%list) pn]> h1).
    assert (Hh1c : h1 !! c = Some (set_text (Some ("ERROR: " ++ e)%string) cn))
      by apply (lookup_write_eq _ _ _ _ Hcn).
    assert (Hh1p : h1 !! p = Some pn).
    { unfold h1. rewrite lookup_write_ne by exact Hcp. exact Hpn. }
    assert (Hid1 : forall b, id_at h1 b = id_at (heap st) b)
      by (apply (id_at_write _ _ _ _ Hcn); reflexivity).
    assert (Hid2 : forall b, id_at h2 b = id_at (heap st) b).
    { intros b. unfold h2. rewrite (id_at_write _ _ _ _ Hh1p) by reflexivity. apply Hid1. }
    assert (Hh2o : forall b, b <> p -> b <> c -> h2 !! b = heap st !! b).
    { intros b Hbp Hbc. unfold h2, h1. rewrite !lookup_write_ne by congruence. reflexivity. }
    assert (Hh2c : h2 !! c = Some (set_text (Some ("ERROR: " ++ e)%string) cn)).
    { unfold h2. rewrite lookup_write_ne by congruence. exact Hh1c. }
    assert (Hsub : forall x, x ∈ (cs0 ++ nodes)%list -> x ∈ (cs0 ++ c :: nodes)%list).
    { intros x Hx. apply elem_of_app in Hx as [Hx | Hx]; apply elem_of_app; [auto |].
      right. apply list_elem_of_further, Hx. }
    assert (Hnd' : NoDup (cs0 ++ nodes)%list /\ c ∉ (cs0 ++ nodes)%list).
    { apply NoDup_app in Hnd as (H0 & Hdis & Hn). apply NoDup_cons in Hn as [Hc Hn].
      split.
      - apply NoDup_app. split; [exact H0 |]. split; [| exact Hn].
        intros x Hx Hx'. apply (Hdis x Hx), list_elem_of_further, Hx'.
      - intros H. apply elem_of_app in H as [H | H]; [| contradiction].
        apply (Hdis c H), list_elem_of_here. }
    destruct Hnd' as [Hnd' Hcn'].
    destruct (IH cs0 (with_heap h2 st)) as (h3 & Hrun & Hch3 & Htx3 & Hout3 & Hid3).
    { exact Hd. }
    { exact Hg. }
    { stsimp. unfold children_at, h2. rewrite (lookup_write_eq _ _ _ _ Hh1p). reflexivity. }
    { exact Hnd'. }
    { intros H. apply Hp, Hsub, H. }
    { stsimp. intros x Hx. destruct (decide (x = c)) as [-> | Hxc]; [contradiction |].
      rewrite Hh2o; [apply Hex, Hsub, Hx | | exact Hxc]. intros ->. apply Hp, Hsub, Hx. }
    { stsimp. intros x y Hx Hy Hxy. rewrite !Hid2. apply Hinj; auto. }
    { stsimp. intros x Hx. unfold parent_id_at.
      rewrite Hh2o; [apply Hpa, list_elem_of_further, Hx | |].
      - intros ->. apply Hp. apply elem_of_app. right. apply list_elem_of_further, Hx.
      - intros ->. apply Hcn'. apply elem_of_app. auto. }
    stsimp. exists h3. split; [| split; [exact Hch3 | split; [| split]]].
    + cbn [for_each]. unfold not_none at 1. mret.
      mstep (update_ok st c cn (set_text (Some ("ERROR: " ++ e)%string)) Hcn). fold h1.
      assert (Hpar : parent c (with_heap h1 st) = (Ok p, with_heap h1 st)).
      { unfold parent. mstep (read_ok (with_heap h1 st) c _ Hh1c).
        assert (Hcpa : n_parent_id cn = Some pid).
        { rewrite <- (parent_id_at_read _ _ _ Hcn). apply Hpa, list_elem_of_here. }
        cbn [n_parent_id set_text]. rewrite Hcpa. unfold key. mret. mget. stsimp.
        rewrite Hd. unfold dict_lookup, key. rewrite Hg. reflexivity. }
      mstep Hpar.
      assert (Hgc : get_children p (with_heap h1 st) = (Ok (cs0 ++ c :: nodes)%list, with_heap h1 st)).
      { apply children_at_get. stsimp. unfold children_at. rewrite Hh1p.
        unfold children_at in Hcs. rewrite Hpn in Hcs. exact Hcs. }
      mstep Hgc.
      assert (Hrm : list_remove (cs0 ++ c :: nodes)%list c (with_heap h1 st)
                    = (Ok (cs0 ++ nodes)%list, with_heap h1 st)).
      { unfold list_remove, lift_store. stsimp. rewrite remove_in_spec; [reflexivity |].
        intros y Hy. assert (Hyin : y ∈ (cs0 ++ c :: nodes)%list) by (apply elem_of_app; auto).
        assert (Hyc : y <> c).
        { intros ->. apply Hcn'. apply elem_of_app. auto. }
        apply node_eq_diff.
        - unfold h1. rewrite lookup_write_ne by congruence. apply Hex, Hyin.
        - rewrite Hh1c. eauto.
        - rewrite !Hid1. apply Hinj; auto. }
      mstep Hrm.
      mstep (update_ok (with_heap h1 st) p pn (set_children (Some (cs0 ++ nodes)%list)) Hh1p).
      stsimp. fold h2. exact Hrun.
    + intros x Hx. apply elem_of_cons in Hx as [-> | Hx]; [| apply Htx3, Hx].
      unfold text_at. rewrite Hout3; [rewrite Hh2c; reflexivity | exact Hcp |].
      intros H. apply Hcn'. apply elem_of_app. auto.
    + intros b Hbp Hb. apply not_elem_of_cons in Hb as [Hbc Hb].
      rewrite Hout3 by assumption. apply Hh2o; assumption.
    + intros b. rewrite Hid3. apply Hid2.
Qed.

(** C2 (as the code has it): in a well-formed model whose node [p] lists
    the placeholders [nodes] after its children [cs0], when the backend
    reports the error [e] and [e] is not the empty string,
    [generate_for_nodes] gives every placeholder the text ["ERROR: " ++ e]
    and takes it out of the children of [p], which are [cs0] again, as
    before the request.  It then raises [AttributeError] at
    [results.choices], the results being [None], and queues no
    [<<TreeUpdated>>] event.  (An empty error string counts as no error:
    nothing is rolled back.) *)
Theorem generate_for_nodes_rolls_back
    (b : backend) (prompt : string) (nodes grandchildren : list nat)
    st t (p : nat) (cs0 : list nat) (e : string) (gs : gen_settings) :
  tree_ok st t -> p ∈ preorder t ->
  children_at (heap st) p = Some (cs0 ++ nodes)%list ->
  generation_settings st = (Ok gs, st) ->
  reports_error b gs nodes e -> e <> ""%string ->
  exists st',
    generate_for_nodes b prompt nodes grandchildren st = (Raise AttributeError, st')
    /\ children_at (heap st') p = Some cs0
    /\ (forall c, c ∈ nodes ->
          text_at (heap st') c = Some ("ERROR: " ++ e)%string /\ c ∉ cs0)
    /\ (forall a, a <> p -> a ∉ nodes -> heap st' !! a = heap st !! a)
    /\ app_queue st' = app_queue st.
Proof.
  intros Hok Hp Hcs Hgs Herr He. pose proof Hok as [_ Ht _ Hidx].
  destruct (tree_children _ t p _ Ht Hp Hcs) as (Hnd & Hsub & Hpn).
  destruct (tree_index_lookup _ t p Ht Hp) as (pid & Hpid & Hg).
  destruct (dispatch_error b gs nodes e st Herr He) as (r & Hdisp & Hch).
  destruct (rollback_loop _ p pid e nodes cs0 st Hidx Hg Hcs Hnd Hpn) as (h' & Hloop & Hch' & Htx & Hout & _).
  { intros c Hc. eapply shape_lookup; [apply (ti_shape _ _ Ht) | auto]. }
  { intros x y Hx Hy Hxy Heq. apply Hxy.
    eapply (NoDup_map_inj_on (id_at (heap st)) (preorder t)); eauto. apply (ti_ids _ _ Ht). }
  { intros c Hc. rewrite <- Hpid. eapply tree_ok_child; eauto.
    apply elem_of_app. auto. }
  exists (with_heap h' st). split; [| split; [exact Hch' | split; [| split]]].
  - unfold generate_for_nodes. mstep Hgs. mstep Hdisp.
    unfold error_truthy. rewrite bool_decide_eq_false_2 by exact He. cbn [negb].
    cbv iota. mstep Hloop. apply bind_raise. apply Hch.
  - intros c Hc. split; [apply Htx, Hc |]. intros Hc0.
    apply NoDup_app in Hnd as (_ & Hdis & _). apply (Hdis c Hc0 Hc).
  - exact Hout.
  - reflexivity.
Qed.

(** ** Loading a document *)

Lemma frame_text_Some h h' b :
  frame_at h' b = frame_at h b -> is_Some (text_at h b) -> is_Some (text_at h' b).
Proof.
  unfold frame_at, text_at, frame_keys.
  destruct (h' !! b) as [n'|], (h !! b) as [n|]; simpl; try congruence.
  intros H [s Hs]. injection H as _ _ H. rewrite Hs in H. simpl in H.
  destruct (n_text n'); [eauto | discriminate].
Qed.

Lemma flat_in_nodup h t : flat_in h t -> NoDup (preorder t).
Proof. intros H. eapply NoDup_fmap_1, (fi_ids _ _ H). Qed.

Lemma flat_in_ext h h' t :
  flat_in h t ->
  (forall b, b ∈ preorder t -> frame_at h' b = frame_at h b) ->
  (forall b, b ∈ preorder t -> parent_id_at h' b = parent_id_at h b) ->
  flat_in h' t.
Proof.
  intros Hf Hfr Hpa. pose proof (flat_in_nodup _ _ Hf) as Hnd.
  destruct Hf as [Hs Hi Ht Hids Hr Hl]. split.
  - eapply shape_frame; eauto.
  - intros a Ha. rewrite (frame_id _ _ a (Hfr a Ha)). auto.
  - intros a Ha. eapply frame_text_Some; [apply Hfr, Ha | auto].
  - rewrite (map_ext_elem (id_at h') (id_at h)); [exact Hids |].
    intros b Hb. apply frame_id, Hfr, Hb.
  - rewrite Hpa by apply raddr_in_preorder. exact Hr.
  - eapply linked_ext; eauto. intros b Hb. apply frame_id, Hfr, Hb.
Qed.

Lemma flat_in_lookup h t p :
  flat_in h t -> p ∈ preorder t ->
  exists i, id_at h p = Some i /\ dict_get (index_of h (preorder t)) i = Some p.
Proof.
  intros Hf Hp. destruct (fi_has_ids _ _ Hf p Hp) as [i Hi].
  exists i. split; [exact Hi |]. apply dict_get_index_of; auto.
  - apply (fi_has_ids _ _ Hf).
  - apply (fi_ids _ _ Hf).
Qed.

Lemma flat_in_ancestry h t b :
  flat_in h t -> b ∈ preorder t ->
  exists l, ancestry h (index_of h (preorder t)) b l
            /\ (length l <= 2 + length (index_of h (preorder t)))%nat.
Proof.
  intros Hf Hb.
  destruct (ancestry_in_subtree h (index_of h (preorder t)) t (fi_linked _ _ Hf))
    with (lr := [raddr t]) (b := b) as (l & Hl1 & Hl2); auto.
  - intros p Hp. eapply flat_in_lookup; eauto.
  - apply anc_root; [| apply (fi_root _ _ Hf)].
    eapply shape_lookup; [apply (fi_shape _ _ Hf) | apply raddr_in_preorder].
  - exists l. split; [exact Hl1 |]. rewrite length_index_of.
    pose proof (height_le_nodes t). simpl in Hl2. lia.
Qed.

Lemma flat_in_parent_lookup h t b pid :
  flat_in h t -> b ∈ preorder t -> parent_id_at h b = Some pid ->
  exists p, dict_get (index_of h (preorder t)) pid = Some p /\ is_Some (text_at h p).
Proof.
  intros Hf Hb Hp. destruct (linked_parent h t b (fi_linked _ _ Hf) Hb) as [-> | (p & Hpt & Hpp)].
  - rewrite (fi_root _ _ Hf) in Hp. discriminate.
  - exists p. rewrite Hp in Hpp. split; [| apply (fi_text _ _ Hf p Hpt)].
    apply dict_get_index_of; auto.
    + apply (fi_has_ids _ _ Hf).
    + apply (fi_ids _ _ Hf).
Qed.

Section Load.

Variable uuid1 : nat -> string.
Variable html2text_handle : string -> string.

(** The first flattening of a document gives every node its id. *)
Lemma flatten_doc t st :
  doc_in (heap st) t -> uuid_fresh uuid1 st ->
  exists h',
    flatten_tree uuid1 (raddr t) st
    = (Ok (preorder t),
       with_clock (uuid_clock st + missing (heap st) (preorder t)) (with_heap h' st))
    /\ flat_in h' t.
Proof.
  intros [Hs Hnd Htx Hids Hr] [Hinj Hfr].
  destruct (flatten_tree_spec uuid1 t st Hs Hnd) as (h' & Hrun & Hpost).
  destruct (flat_post_ids uuid1 _ _ t h' Hpost Hinj Hfr Hids) as [Hnd' Hlook].
  exists h'. split; [exact Hrun |]. split.
  - eapply shape_payload; [exact Hs | apply (fp_payload _ _ _ _ _ Hpost)].
  - intros a Ha. apply list_elem_of_lookup in Ha as [j Hj]. rewrite (Hlook j a Hj). eauto.
  - intros a Ha. rewrite (payload_text _ _ _ (fp_payload _ _ _ _ _ Hpost a)). auto.
  - exact Hnd'.
  - rewrite (fp_root _ _ _ _ _ Hpost). exact Hr.
  - apply (fp_linked _ _ _ _ _ Hpost).
Qed.

(** Flattening a flattened tree changes no id. *)
Lemma flatten_flat t st :
  flat_in (heap st) t ->
  exists h',
    flatten_tree uuid1 (raddr t) st = (Ok (preorder t), with_heap h' st)
    /\ flat_in h' t
    /\ (forall b, id_at h' b = id_at (heap st) b)
    /\ (forall b, payload_at h' b = payload_at (heap st) b).
Proof.
  intros Hf. pose proof (flat_in_nodup _ _ Hf) as Hnd.
  destruct (flatten_tree_spec uuid1 t st (fi_shape _ _ Hf) Hnd) as (h' & Hrun & Hpost).
  destruct Hpost as [Hl Hfr Hp Hids Hr Hlk].
  destruct (ids_from_present uuid1 (heap st) (preorder t) (uuid_clock st)) as [Hpres Hmiss].
  { apply (fi_has_ids _ _ Hf). }
  rewrite Hpres in Hids. rewrite Hmiss in Hrun.
  assert (Hid : forall b, id_at h' b = id_at (heap st) b).
  { intros b. destruct (decide (b ∈ preorder t)) as [Hb | Hb].
    - apply list_elem_of_lookup in Hb as [i Hi].
      apply (f_equal (fun l => l !! i)) in Hids.
      rewrite !list_lookup_fmap, Hi in Hids. simpl in Hids. congruence.
    - unfold id_at. rewrite Hfr by exact Hb. reflexivity. }
  exists h'. split; [| split; [| split; [exact Hid | exact Hp]]].
  - rewrite Hrun. f_equal. destruct st; stnorm. rewrite Nat.add_0_r. reflexivity.
  - split.
    + eapply shape_payload; [apply (fi_shape _ _ Hf) | exact Hp].
    + intros a Ha. rewrite Hid. apply (fi_has_ids _ _ Hf a Ha).
    + intros a Ha. rewrite (payload_text _ _ _ (Hp a)). apply (fi_text _ _ Hf a Ha).
    + rewrite (map_ext_elem (id_at h') (id_at (heap st))); [apply (fi_ids _ _ Hf) |].
      intros b _. apply Hid.
    + rewrite Hr. apply (fi_root _ _ Hf).
    + exact Hlk.
Qed.

(** [tree_updated] on a flattened tree. *)
Lemma tree_updated_flat st t :
  option_map rd_root (tree_raw_data st) = Some (raddr t) ->
  flat_in (heap st) t ->
  exists h',
    tree_updated uuid1 html2text_handle true st
    = (Ok tt, with_fired (fired st ++ [ev_tree_updated])
                (with_dict (Some (index_of h' (preorder t))) (with_heap h' st)))
    /\ flat_in h' t /\ (forall b, id_at h' b = id_at (heap st) b).
Proof.
  intros Hraw Hf.
  destruct (tree_raw_data st) as [rd|] eqn:Hrd; [| discriminate].
  simpl in Hraw. injection Hraw as Hroot.
  destruct (flatten_flat t st Hf) as (h1 & Hrun1 & Hf1 & Hid1 & Hp1).
  set (l := preorder t).
  pose proof (fi_has_ids _ _ Hf1) as Hids1. fold l in Hids1.
  pose proof (fi_ids _ _ Hf1) as Hnd1. fold l in Hnd1.
  set (d := index_of h1 l).
  set (st2 := with_dict (Some d) (with_heap h1 st)).
  destruct (fix_miro_loop html2text_handle d l st2) as (h2 & Hrun2 & Hl2 & Hsk2 & Hf2 & Htx2).
  { eapply flat_in_nodup; eauto. }
  { intros b Hb. eapply shape_lookup; [apply (fi_shape _ _ Hf1) | exact Hb]. }
  { unfold st2. stsimp. intros b pid Hb Hp. eapply flat_in_parent_lookup; eauto. }
  unfold st2 in *. stsimp.
  assert (Hid2 : forall b, id_at h2 b = id_at h1 b).
  { intros b. apply kept_id, skeleton_kept, Hsk2. }
  exists h2. split; [| split].
  - unfold tree_updated. mget. rewrite Hrd. cbv iota.
    rewrite Hroot. mstep Hrun1.
    mstep (build_dict_spec l (with_heap h1 st) Hids1 Hnd1). stsimp. fold d.
    mmod. unfold nodes. mget. stsimp.
    unfold d at 1. unfold l at 1. rewrite dict_truthy_index_of. mret.
    unfold fix_miro_tree. simpl option_map. unfold not_none. mret.
    unfold d. rewrite dict_values_index_of. fold d.
    mstep (build_dict_spec l (with_dict (Some d) (with_heap h1 st)) Hids1 Hnd1).
    stsimp. fold d. mstep Hrun2.
    unfold fire, modify. f_equal. unfold d.
    rewrite (index_of_ext h1 h2 l (fun b _ => Hid2 b)).
    destruct st; reflexivity.
  - eapply flat_in_ext; [exact Hf1 | |].
    + intros b _. apply kept_frame, skeleton_kept, Hsk2.
    + intros b _. apply skeleton_parent_id, Hsk2.
  - intros b. rewrite Hid2. apply Hid1.
Qed.

(** The loop of [load_tree_data] that gives every node an [open] flag. *)
Lemma open_defaults_spec (l : list addr) : forall st,
  (forall x, x ∈ l -> is_Some (heap st !! x)) ->
  exists h',
    for_each l (fun node _ =>
                  let* n := read node in
                  update node (set_open (Some (default false (n_open n))))) tt st
    = (Ok tt, with_heap h' st)
    /\ (forall b, content_at h' b = content_at (heap st) b).
Proof.
  induction l as [|x l IH]; intros st Hex.
  - exists (heap st). rewrite with_heap_same. simpl. unfold ret. auto.
  - destruct (Hex x (list_elem_of_here _ _)) as [n Hn].
    set (h1 := <[x := set_open (Some (default false (n_open n))) n]> (heap st)).
    assert (Hc1 : forall b, content_at h1 b = content_at (heap st) b).
    { intros b. eapply content_at_write; eauto. }
    destruct (IH (with_heap h1 st)) as (h2 & Hrun & Hc2).
    { stsimp. intros y Hy. eapply content_is_Some; [apply Hc1 |].
      apply Hex, list_elem_of_further, Hy. }
    stsimp. exists h2. split.
    + cbn [for_each]. mstep (read_ok _ _ _ Hn).
      mstep (update_ok _ _ _ (set_open (Some (default false (n_open n)))) Hn). fold h1.
      rewrite Hrun. reflexivity.
    + intros b. rewrite Hc2. apply Hc1.
Qed.

End Load.

Section LoadRun.

Variable uuid1 : nat -> string.
Variable html2text_handle : string -> string.

(** The run of [load_tree_data] on a document, up to the selection that
    its last line makes. *)
Lemma load_tree_data_run (data : loaded_data) st t :
  doc_root data = raddr t -> doc_in (heap st) t -> uuid_fresh uuid1 st ->
  exists st' rid,
    load_tree_data uuid1 html2text_handle data st = (Ok tt, st')
    /\ option_map rd_root (tree_raw_data st') = Some (raddr t)
    /\ tree_node_dict st' = Some (index_of (heap st') (preorder t))
    /\ flat_in (heap st') t
    /\ id_at (heap st') (raddr t) = Some rid
    /\ let i := default rid (doc_selection data) in
       match dict_get (index_of (heap st') (preorder t)) i with
       | Some _ => selected_node_id st' = Some i
       | None => selected_node_id st' = selected_node_id st
       end.
Proof.
  intros Hroot Hdoc Hfresh.
  set (rd0 := match data with
              | Document doc => doc
              | BareRecord r => mkRaw r None None None
              end).
  assert (Hrd0 : rd_root rd0 = raddr t /\ rd_selected_node_id rd0 = doc_selection data).
  { unfold rd0. destruct data; simpl in *; auto. }
  destruct Hrd0 as [Hrd0r Hrd0s].
  set (s0 := with_raw (Some rd0) st).
  assert (Hfirst : forall k : M unit,
            (match data with
             | Document doc => modify (with_raw (Some doc))
             | BareRecord r =>
                 let* n := read r in
                 if has_key (n_text n) then modify (with_raw (Some (mkRaw r None None None)))
                 else raise AssertionError
             end ;;; k) st = k s0).
  { intros k. destruct data as [doc | r]; [reflexivity |].
    simpl in Hroot. subst r.
    destruct (di_text _ _ Hdoc (raddr t) (raddr_in_preorder t)) as [s Hs].
    unfold text_at in Hs. destruct (heap st !! raddr t) as [n|] eqn:Hn; [| discriminate].
    mstep (read_ok _ _ _ Hn). rewrite Hs. reflexivity. }
  set (l := preorder t).
  destruct (flatten_doc uuid1 t s0 Hdoc Hfresh) as (h1 & Hrun1 & Hf1).
  set (s1 := with_clock (uuid_clock s0 + missing (heap s0) (preorder t)) (with_heap h1 s0)).
  fold s1 in Hrun1.
  set (d1 := index_of h1 l).
  set (s2 := with_dict (Some d1) s1).
  destruct (open_defaults_spec l s2) as (h2 & Hrun2 & Hc2).
  { intros x Hx. eapply shape_lookup; [apply (fi_shape _ _ Hf1) | exact Hx]. }
  assert (Hf2 : flat_in h2 t).
  { eapply flat_in_ext; [exact Hf1 | |].
    - intros b _. apply content_frame, Hc2.
    - intros b _. apply content_parent_id, Hc2. }
  set (rd1 := mkRaw (rd_root rd0) (rd_selected_node_id rd0)
                (Some (default [] (rd_chapters rd0)))
                (Some (merge_gen_settings DEFAULT_GENERATION_SETTINGS
                         (default no_settings (rd_generation_settings rd0))))).
  set (s4 := with_raw (Some rd1) (with_heap h2 s2)).
  destruct (tree_updated_flat uuid1 html2text_handle s4 t) as (h3 & Hrun3 & Hf3 & Hid3).
  { unfold s4. stsimp. simpl. f_equal. exact Hrd0r. }
  { exact Hf2. }
  set (d3 := index_of h3 l).
  set (s5 := with_fired (fired s4 ++ [ev_tree_updated])
               (with_dict (Some d3) (with_heap h3 s4))).
  fold l d3 s5 in Hrun3.
  destruct (fi_has_ids _ _ Hf3 (raddr t) (raddr_in_preorder t)) as [rid Hrid].
  set (i := default rid (doc_selection data)).
  assert (Hsel : exists r st',
            select_node i true s5 = (Ok r, st') /\
            selected_post s5 st' /\
            match dict_get d3 i with
            | Some _ => selected_node_id st' = Some i
            | None => selected_node_id st' = selected_node_id st
            end).
  { destruct (dict_get d3 i) as [a|] eqn:Hg.
    - destruct (dict_get_index_of_inv h3 l a i (fi_has_ids _ _ Hf3) Hg) as [Ha Hai].
      destruct (flat_in_ancestry h3 t a Hf3 Ha) as (la & Hanc & Hlen).
      destruct (select_node_spec s5 d3 a i la rd1 true) as (r & st' & Hrun & Hs & Hpost);
        try reflexivity; auto.
      { unfold rd1. simpl. rewrite Hrd0r.
        eapply shape_lookup; [apply (fi_shape _ _ Hf3) | apply raddr_in_preorder]. }
      exists r, st'. auto.
    - exists None, s5. split; [| split; [apply selected_post_refl | reflexivity]].
      unfold select_node. mget.
      replace (dict_has (tree_node_dict s5) i) with false
        by (unfold s5; stsimp; unfold dict_has; rewrite Hg; reflexivity).
      rewrite andb_false_r. reflexivity. }
  destruct Hsel as (r & st' & Hrunsel & Hpost & Hselected).
  assert (Hids' : forall b, id_at (heap st') b = id_at h3 b).
  { intros b. apply content_id, (sp_content _ _ Hpost). }
  assert (Hidx' : index_of (heap st') l = d3).
  { unfold d3. apply index_of_ext. intros b _. apply Hids'. }
  exists st', rid. split; [| split; [| split; [| split; [| split]]]].
  - unfold load_tree_data. rewrite Hfirst.
    assert (Hrr : raw_root s0 = (Ok (raddr t), s0)).
    { apply raw_root_ok. unfold s0. stsimp. simpl. f_equal. exact Hrd0r. }
    mstep Hrr. mstep Hrun1.
    mstep (build_dict_spec l s1 (fi_has_ids _ _ Hf1) (fi_ids _ _ Hf1)).
    change (index_of (heap s1) l) with d1.
    mmod. change (with_dict (Some d1) s1) with s2.
    unfold d1 at 1. rewrite dict_values_index_of.
    mstep Hrun2.
    unfold _init_global_objects. mget.
    change (tree_raw_data (with_heap h2 s2)) with (Some rd0). cbv iota.
    mmod. change (with_raw _ (with_heap h2 s2)) with s4.
    mstep Hrun3.
    unfold nodes. mget. change (tree_node_dict s5) with (Some d3).
    unfold d3 at 1. unfold l at 1.
    rewrite dict_truthy_index_of. mret. simpl option_map. unfold not_none at 1. mret.
    unfold d3 at 1. rewrite dict_values_index_of.
    assert (Hn0 : py_nth l 0 s5 = (Ok (raddr t), s5)).
    { apply py_nth_ok; [lia |]. unfold l. rewrite preorder_head. reflexivity. }
    mstep Hn0.
    assert (Hgi : get_id (raddr t) s5 = (Ok rid, s5)).
    { apply id_at_get_id. unfold s5. stsimp. exact Hrid. }
    mstep Hgi. mget. change (tree_raw_data s5) with (Some rd1). unfold not_none. mret.
    change (rd_selected_node_id rd1) with (rd_selected_node_id rd0). rewrite Hrd0s. fold i.
    mstep Hrunsel. reflexivity.
  - rewrite (sp_root _ _ Hpost). unfold s5, s4. stsimp. simpl. f_equal. exact Hrd0r.
  - rewrite (sp_dict _ _ Hpost). unfold s5. stsimp. fold l. rewrite Hidx'. reflexivity.
  - eapply flat_in_ext; [exact Hf3 | |].
    + intros b _. apply content_frame, (sp_content _ _ Hpost).
    + intros b _. apply content_parent_id, (sp_content _ _ Hpost).
  - rewrite Hids'. exact Hrid.
  - cbv zeta. fold l i. rewrite Hidx'. exact Hselected.
Qed.

End LoadRun.

(** C9 (as the code has it): loading a document whose nested tree has a
    text on every node returns without raising; a bare record, which has
    no ["root"] key, becomes the root of the tree.  The index then lists
    the nodes of the tree in flatten order, each with an id of its own.
    When the document stores no selection the root, the first node in
    flatten order, is selected.  A stored [selected_node_id] becomes the
    selection when it is the id of a node of the tree; when it names no
    node the selection is left as it was before the load. *)
Theorem load_tree_data_selects
    (uuid1 : nat -> string) (html2text_handle : string -> string)
    (data : loaded_data) (st : TreeModel) (t : rtree) :
  doc_root data = raddr t -> doc_in (heap st) t -> uuid_fresh uuid1 st ->
  exists st',
    load_tree_data uuid1 html2text_handle data st = (Ok tt, st')
    /\ option_map rd_root (tree_raw_data st') = Some (doc_root data)
    /\ index_nodes st' = preorder t
    /\ flat_in (heap st') t
    /\ (doc_selection data = None ->
        selected_node_id st' = id_at (heap st') (raddr t)
        /\ is_Some (selected_node_id st'))
    /\ (forall i a, doc_selection data = Some i ->
          a ∈ preorder t -> id_at (heap st') a = Some i ->
          selected_node_id st' = Some i)
    /\ (forall i, doc_selection data = Some i ->
          (forall a, a ∈ preorder t -> id_at (heap st') a <> Some i) ->
          selected_node_id st' = selected_node_id st).
Proof.
  intros Hroot Hdoc Hfresh.
  destruct (load_tree_data_run uuid1 html2text_handle data st t Hroot Hdoc Hfresh)
    as (st' & rid & Hrun & Hraw & Hidx & Hf & Hrid & Hsel).
  cbv zeta in Hsel.
  assert (Hget : forall a i, a ∈ preorder t -> id_at (heap st') a = Some i ->
            dict_get (index_of (heap st') (preorder t)) i = Some a).
  { intros a i Ha Hi. apply dict_get_index_of; auto.
    - apply (fi_has_ids _ _ Hf).
    - apply (fi_ids _ _ Hf). }
  exists st'. split; [exact Hrun |]. split; [rewrite Hroot; exact Hraw |].
  split; [| split; [exact Hf | split; [| split]]].
  - unfold index_nodes. rewrite Hidx. simpl. apply dict_values_index_of.
  - intros Hnone. rewrite Hnone in Hsel. simpl in Hsel.
    rewrite (Hget (raddr t) rid (raddr_in_preorder t) Hrid) in Hsel.
    rewrite Hsel, Hrid. eauto.
  - intros i a Hsome Ha Hi. rewrite Hsome in Hsel. simpl in Hsel.
    rewrite (Hget a i Ha Hi) in Hsel. exact Hsel.
  - intros i Hsome Hnone. rewrite Hsome in Hsel. simpl in Hsel.
    destruct (dict_get (index_of (heap st') (preorder t)) i) as [a|] eqn:Hg; [| exact Hsel].
    destruct (dict_get_index_of_inv _ _ a i (fi_has_ids _ _ Hf) Hg) as [Ha Hai].
    exfalso. apply (Hnone a Ha Hai).
Qed.

(** * Examples on the small document *)

Local Open Scope string_scope.

Lemma elem_of_ex_tree a : a ∈ preorder ex_tree -> a = 0%nat \/ a = 1%nat \/ a = 2%nat \/ a = 3%nat.
Proof.
  simpl. intros H. repeat (apply elem_of_cons in H as [-> | H]; auto). inversion H.
Qed.

Lemma ex_tree_in : tree_in ex_heap ex_tree.
Proof.
  constructor.
  - repeat econstructor.
  - intros a Ha. apply elem_of_ex_tree in Ha as [-> | [-> | [-> | ->]]];
      eexists; (split; [reflexivity |]); simpl; eauto.
  - refine (bool_decide_unpack _ _). vm_compute. exact I.
  - reflexivity.
Qed.

Lemma ex_state_ok : tree_ok ex_state ex_tree.
Proof.
  constructor.
  - reflexivity.
  - exact ex_tree_in.
  - repeat constructor.
  - reflexivity.
Qed.

Lemma ex_uuid_unfold k : ex_uuid (S k) = String "u" (ex_uuid k).
Proof. reflexivity. Qed.

Lemma ex_uuid_length k : String.length (ex_uuid k) = S k.
Proof.
  induction k as [|k IH]; [reflexivity |].
  rewrite ex_uuid_unfold. simpl String.length. rewrite IH. reflexivity.
Qed.

Lemma ex_uuid_head k : exists s, ex_uuid k = String "u" s.
Proof. destruct k; [exists EmptyString | exists (ex_uuid k)]; reflexivity. Qed.

(** The generator of the examples is fresh for the example document. *)
Lemma ex_uuid_fresh : uuid_fresh ex_uuid ex_state.
Proof.
  split.
  - intros i j H. apply (f_equal String.length) in H. rewrite !ex_uuid_length in H. lia.
  - intros a k _ H. destruct (ex_uuid_head k) as [s Hs]. rewrite Hs in H.
    destruct a as [|[|[|[|a]]]]; discriminate H.
Qed.

(** C1, on a sequence that uses each of the seven edits. *)
Lemma edits_preserve_invariants_witness :
  Forall (fun '(st0, e, r) =>
            structural_invariants (snd r)
            /\ (fst r = Ok tt
                \/ (reads_parent_of_root st0 e /\ r = (Raise KeyError, st0))))
         (run_edits ex_uuid ex_html ex_edits ex_state).
Proof.
  apply (edits_preserve_invariants ex_uuid ex_html ex_edits ex_state ex_tree
           ex_state_ok ex_uuid_fresh).
  vm_compute.
  split; [exists 1%nat; split; [left; reflexivity | repeat constructor] |].
  split; [exists 1%nat, 2%nat; split; [split; [left; reflexivity | repeat constructor] |];
          split; [repeat constructor | reflexivity] |].
  split; [exists 4%nat; split; [right; split; reflexivity | repeat constructor] |].
  split; [exists 0%nat; split; [left; reflexivity | repeat constructor] |].
  split; [exists 3%nat; split; [left; reflexivity | repeat constructor] |].
  split; [exists 2%nat; split; [left; reflexivity | repeat constructor] |].
  split; [exists 1%nat; split; [left; reflexivity | repeat constructor] |].
  split; [exists 6%nat; split; [left; reflexivity | repeat constructor] |].
  exact I.
Defined.

(** C4, on the second of the three children. *)
Lemma delete_node_removes_and_selects_witness :
  exists st',
    delete_node ex_uuid ex_html (Some 2%nat) false ex_state = (Ok tt, st')
    /\ (exists t', tree_ok st' t')
    /\ (2%nat ∉ [1; 3]%nat)
    /\ children_at (heap st') 0%nat = Some [1; 3]%nat
    /\ selected_node_id st' = id_at (heap st') 3%nat.
Proof.
  apply (delete_node_removes_and_selects ex_uuid ex_html ex_state ex_tree (Some 2%nat)
           2%nat 0%nat "r" [1; 2; 3]%nat 1%nat [] false ex_state_ok).
  - simpl. repeat (first [apply list_elem_of_here | apply list_elem_of_further]).
  - left. reflexivity.
  - simpl. repeat (first [apply list_elem_of_here | apply list_elem_of_further]).
  - reflexivity.
  - reflexivity.
  - reflexivity.
  - reflexivity.
  - reflexivity.
Defined.

(** C8, on the second of the three children, five steps forward. *)
Lemma select_sibling_wraps_witness :
  exists p cs k s r st',
    p ∈ preorder ex_tree /\ parent_id_at (heap ex_state) 2%nat = id_at (heap ex_state) p
    /\ children_at (heap ex_state) p = Some cs /\ cs !! k = Some 2%nat
    /\ cs !! Z.to_nat ((Z.of_nat k + 5) mod Z.of_nat (length cs)) = Some s
    /\ select_sibling 5 (Some 2%nat) ex_state = (Ok r, st')
    /\ is_Some (selected_node_id st')
    /\ selected_node_id st' = id_at (heap ex_state) s
    /\ (forall m, 5 = m * Z.of_nat (length cs) -> s = 2%nat).
Proof.
  apply (select_sibling_wraps ex_state ex_tree (Some 2%nat) 2%nat 5 ex_state_ok).
  - simpl. repeat (first [apply list_elem_of_here | apply list_elem_of_further]).
  - discriminate.
  - left. reflexivity.
Defined.

(** C7, from the root and forty steps forward. *)
Lemma traverse_tree_saturates_witness :
  let n := Z.of_nat (length (index_nodes ex_state)) in
  let j := clip_num (Z.of_nat 0 + 40) 0 (n - 1) in
  exists s r st',
    0 <= j <= n - 1
    /\ index_nodes ex_state = preorder ex_tree
    /\ index_nodes ex_state !! Z.to_nat j = Some s
    /\ traverse_tree 40 ex_state = (Ok r, st')
    /\ is_Some (selected_node_id st')
    /\ selected_node_id st' = id_at (heap ex_state) s.
Proof.
  apply (traverse_tree_saturates ex_state ex_tree 0%nat 0%nat 40 ex_state_ok);
    reflexivity.
Defined.

(** C10, at the root of the example document. *)
Lemma delete_node_root_is_noop_witness :
  delete_node ex_uuid ex_html (Some 0%nat) false ex_state = (Ok tt, ex_state)
  /\ (selected_node ex_state = (Ok (Some 0%nat), ex_state) ->
      delete_node ex_uuid ex_html None false ex_state = (Ok tt, ex_state)).
Proof.
  apply (delete_node_root_is_noop ex_uuid ex_html ex_state 0%nat
           (ex_node "r" "root" None [1; 2; 3]%nat) false); reflexivity.
Defined.

(** C5, on the root of the example document. *)
Lemma merge_with_parent_root_raises_witness :
  merge_with_parent ex_uuid ex_html (Some 0%nat) ex_state = (Raise KeyError, ex_state).
Proof.
  apply (merge_with_parent_root_raises ex_uuid ex_html ex_state 0%nat
           (ex_node "r" "root" None [1; 2; 3]%nat)); reflexivity.
Defined.

(** C4: deleting the last of three siblings selects the first one, where
    clipping the former index to the remaining range selects the second. *)
Lemma delete_last_sibling_wraps :
  let st' := snd (delete_node ex_uuid ex_html (Some 3%nat) false ex_state) in
  children_at (heap ex_state) 0%nat = Some [1; 2; 3]%nat
  /\ children_at (heap st') 0%nat = Some [1; 2]%nat
  /\ clip_num 2 0 (2 - 1) = 1%Z
  /\ selected_node_id st' = id_at (heap st') 1%nat
  /\ selected_node_id st' <> id_at (heap st') 2%nat.
Proof. vm_compute. repeat split; try reflexivity. discriminate. Qed.

(** C3: the text of the root is ["root"]; updating it to ["root"] followed
    by two spaces changes nothing, and no child receives the two spaces. *)
Lemma update_text_same_text_keeps_children :
  let st' := snd (update_text ex_uuid ex_html 0%nat ("root" ++ spaces 2) None ex_state) in
  trim_trailing_spaces ("root" ++ spaces 2) = ("root", 2%nat)
  /\ children_at (heap ex_state) 0%nat = Some [1; 2; 3]%nat
  /\ text_at (heap ex_state) 1%nat = Some "one"
  /\ text_at (heap st') 1%nat = Some "one"
  /\ text_at (heap st') 1%nat <> Some (spaces 2 ++ "one").
Proof. vm_compute. repeat split; try reflexivity. discriminate. Qed.

(** C2: four placeholders are created under the root; the backend then
    answers [(None, "")].  The empty error is false, the success branch is
    taken and fails on [results.choices], and the placeholders stay. *)
Lemma empty_error_keeps_placeholders :
  let st1 := snd (generate_continuation ex_uuid ex_html (Some 0%nat) false ex_state) in
  let st2 := snd (generate_for_nodes ex_backend_empty_error "root" [4; 5; 6; 7]%nat [] st1) in
  started st1 = [mkWorker "root" [4; 5; 6; 7]%nat []]
  /\ children_at (heap ex_state) 0%nat = Some [1; 2; 3]%nat
  /\ children_at (heap st2) 0%nat = Some [1; 2; 3; 4; 5; 6; 7]%nat
  /\ text_at (heap st2) 4%nat <> Some "ERROR: ".
Proof. vm_compute. repeat split; try reflexivity. discriminate. Qed.

(** C9: the load succeeds, the document stores the selection ["zzz"],
    which is no node of the tree, and the model selects nothing. *)
Lemma load_dangling_selection :
  let r := load_tree_data ex_uuid ex_html (Document ex_doc_dangling) ex_unloaded in
  fst r = Ok tt
  /\ option_map rd_selected_node_id (tree_raw_data (snd r)) = Some (Some "zzz")
  /\ selected_node_id (snd r) = None
  /\ selected_node_id (snd r) <> Some "zzz".
Proof. vm_compute. repeat split; try reflexivity. discriminate. Qed.

(** C1: the document of the spec's scenario is loaded; its leaf has no
    list of children.  The loaded model satisfies the structural
    invariants and the leaf is a node of the index, but [delete_node] with
    [reassign_children] raises [KeyError] at [node["children"]] after it
    has taken the leaf from the children of the root: the index still
    holds the leaf, which its parent no longer lists. *)
Lemma delete_leaf_without_children_breaks_invariants :
  load_tree_data ex_uuid ex_html (Document (mkRaw 0%nat None None None)) ex_raw_state
  = (Ok tt, ex_raw_loaded)
  /\ structural_invariants ex_raw_loaded
  /\ edits_pre ex_uuid ex_html [Delete_node (Some 1%nat) true] ex_raw_loaded
  /\ parent_id_at (heap ex_raw_loaded) 1%nat = Some "u"
  /\ children_at (heap ex_raw_loaded) 1%nat = None
  /\ Forall (fun '(st0, e, r) => fst r = Raise KeyError /\ ~ structural_invariants (snd r))
       (run_edits ex_uuid ex_html [Delete_node (Some 1%nat) true] ex_raw_loaded).
Proof.
  assert (Hin : forall a, a ∈ index_nodes ex_raw_loaded -> a = 0%nat \/ a = 1%nat).
  { intros a Ha. change (index_nodes ex_raw_loaded) with [0%nat; 1%nat] in Ha.
    apply elem_of_cons in Ha as [-> | Ha]; [auto |].
    apply elem_of_cons in Ha as [-> | Ha]; [auto | inversion Ha]. }
  split; [vm_compute; reflexivity |]. split; [| split; [| split; [| split]]].
  - constructor.
    + exists 0%nat. split; [reflexivity |]. split; [apply list_elem_of_here |].
      intros a Ha. destruct (Hin a Ha) as [-> | ->].
      * split; reflexivity.
      * split; [discriminate | discriminate].
    + intros a pid Ha Hp. destruct (Hin a Ha) as [-> | ->]; [discriminate Hp |].
      vm_compute in Hp. injection Hp as <-.
      exists 0%nat, [1%nat]. split; [reflexivity |]. split; [apply list_elem_of_here |].
      split; reflexivity.
    + split.
      * intros a Ha. destruct (Hin a Ha) as [-> | ->]; vm_compute; eauto.
      * refine (bool_decide_unpack _ _). vm_compute. exact I.
  - split; [| exact I]. exists 1%nat. split; [left; reflexivity |].
    apply list_elem_of_further, list_elem_of_here.
  - reflexivity.
  - reflexivity.
  - constructor; [| constructor]. split; [vm_compute; reflexivity |].
    intros [_ Hlists _].
    destruct (Hlists 1%nat "u") as (p & cs & Hget & _ & Hcs & Hlen).
    + apply list_elem_of_further, list_elem_of_here.
    + reflexivity.
    + vm_compute in Hget. injection Hget as <-.
      vm_compute in Hcs. injection Hcs as <-. discriminate Hlen.
Qed.

(** The leaf of the loaded document has no list of children: [update_text]
    with a new text raises [KeyError] at [node["children"]] before it
    stores the text. *)
Lemma update_text_without_children_raises :
  update_text ex_uuid ex_html 1%nat "x" None ex_raw_loaded = (Raise KeyError, ex_raw_loaded).
Proof. vm_compute. reflexivity. Qed.

(** C7: after the load of [load_dangling_selection] no node is selected,
    and [traverse_tree] raises [ValueError] at
    [self.nodes.index(self.selected_node)]. *)
Lemma traverse_tree_without_selection_raises :
  let r := load_tree_data ex_uuid ex_html (Document ex_doc_dangling) ex_unloaded in
  fst r = Ok tt
  /\ length (index_nodes (snd r)) = 4%nat
  /\ selected_node (snd r) = (Ok None, snd r)
  /\ traverse_tree 1 (snd r) = (Raise ValueError, snd r).
Proof. vm_compute. repeat split; reflexivity. Qed.

(** *** The document of the spec's scenario *)

Lemma ex_raw_doc : doc_in (heap ex_raw_state) ex_raw_tree.
Proof.
  constructor.
  - repeat econstructor.
  - refine (bool_decide_unpack _ _). vm_compute. exact I.
  - intros a Ha. simpl in Ha.
    repeat (apply elem_of_cons in Ha as [-> | Ha]; [simpl; eauto |]). inversion Ha.
  - constructor.
  - reflexivity.
Qed.

Lemma ex_raw_fresh : uuid_fresh ex_uuid ex_raw_state.
Proof.
  split.
  - intros i j H. apply (f_equal String.length) in H. rewrite !ex_uuid_length in H. lia.
  - intros a k _ H. destruct a as [|[|a]]; discriminate H.
Qed.

(** C6, on the document of the spec's scenario. *)
Lemma flatten_tree_roundtrip_witness :
  exists h',
    let clk' := (uuid_clock ex_raw_state
                 + missing (heap ex_raw_state) (preorder ex_raw_tree))%nat in
    flatten_tree ex_uuid (raddr ex_raw_tree) ex_raw_state
    = (Ok (preorder ex_raw_tree), with_clock clk' (with_heap h' ex_raw_state))
    /\ (forall a i, a ∈ preorder ex_raw_tree -> id_at (heap ex_raw_state) a = Some i ->
          id_at h' a = Some i)
    /\ (forall a, a ∈ preorder ex_raw_tree -> id_at (heap ex_raw_state) a = None ->
          exists k, (uuid_clock ex_raw_state <= k < clk')%nat
                    /\ id_at h' a = Some (ex_uuid k))
    /\ NoDup (map (id_at h') (preorder ex_raw_tree))
    /\ linked h' ex_raw_tree
    /\ (forall b, payload_at h' b = payload_at (heap ex_raw_state) b)
    /\ shape h' ex_raw_tree
    /\ rebuild h' (preorder ex_raw_tree) = Some ex_raw_tree.
Proof.
  apply (flatten_tree_roundtrip ex_uuid ex_raw_state ex_raw_tree).
  - apply (di_shape _ _ ex_raw_doc).
  - apply (di_nodup _ _ ex_raw_doc).
  - reflexivity.
  - constructor.
  - exact ex_raw_fresh.
Defined.

(** C9, on the root of the spec's scenario taken as a bare record. *)
Lemma load_tree_data_selects_witness :
  exists st',
    load_tree_data ex_uuid ex_html (BareRecord 0%nat) ex_raw_state = (Ok tt, st')
    /\ option_map rd_root (tree_raw_data st') = Some 0%nat
    /\ index_nodes st' = preorder ex_raw_tree
    /\ flat_in (heap st') ex_raw_tree
    /\ (doc_selection (BareRecord 0%nat) = None ->
        selected_node_id st' = id_at (heap st') (raddr ex_raw_tree)
        /\ is_Some (selected_node_id st'))
    /\ (forall i a, doc_selection (BareRecord 0%nat) = Some i ->
          a ∈ preorder ex_raw_tree -> id_at (heap st') a = Some i ->
          selected_node_id st' = Some i)
    /\ (forall i, doc_selection (BareRecord 0%nat) = Some i ->
          (forall a, a ∈ preorder ex_raw_tree -> id_at (heap st') a <> Some i) ->
          selected_node_id st' = selected_node_id ex_raw_state).
Proof.
  apply (load_tree_data_selects ex_uuid ex_html (BareRecord 0%nat) ex_raw_state ex_raw_tree).
  - reflexivity.
  - exact ex_raw_doc.
  - exact ex_raw_fresh.
Defined.

(** C3, on the root of the example document: the new text ["Root"] with
    two trailing spaces. *)
Lemma update_text_splits_witness :
  ("root" = "Root" ->
   update_text ex_uuid ex_html 0%nat ("Root" ++ spaces 2) None ex_state = (Ok tt, ex_state))
  /\ ("root" <> "Root" -> has_miro_markup "Root" = false ->
      exists st',
        update_text ex_uuid ex_html 0%nat ("Root" ++ spaces 2) None ex_state = (Ok tt, st')
        /\ tree_ok st' ex_tree
        /\ text_at (heap st') 0%nat = Some "Root"
        /\ (forall c ct, c ∈ [1; 2; 3]%nat -> text_at (heap ex_state) c = Some ct ->
              has_miro_markup ct = false ->
              text_at (heap st') c = Some (spaces 2 ++ ct))).
Proof.
  apply (update_text_splits ex_uuid ex_html ex_state ex_tree 0%nat "Root" 2%nat "root"
           [1; 2; 3]%nat ex_state_ok).
  - simpl. apply list_elem_of_here.
  - reflexivity.
  - reflexivity.
  - reflexivity.
Defined.

(** *** The example document with four placeholders *)

Lemma ex_gen_state_eq :
  snd (generate_continuation ex_uuid ex_html (Some 0%nat) false ex_state) = ex_gen_state.
Proof. vm_compute. reflexivity. Qed.

Lemma ex_gen_state_ok : tree_ok ex_gen_state ex_gen_tree.
Proof.
  constructor.
  - reflexivity.
  - constructor.
    + repeat econstructor.
    + intros a Ha. simpl in Ha.
      repeat (apply elem_of_cons in Ha as [-> | Ha];
              [eexists; (split; [reflexivity |]); simpl; eauto |]).
      inversion Ha.
    + refine (bool_decide_unpack _ _). vm_compute. exact I.
    + reflexivity.
  - repeat constructor.
  - reflexivity.
Qed.

(** C2, on the four placeholders of the example and the error
    ["rate limited"]. *)
Lemma generate_for_nodes_rolls_back_witness :
  exists st',
    generate_for_nodes ex_backend_rate_limited "root" [4; 5; 6; 7]%nat [] ex_gen_state
    = (Raise AttributeError, st')
    /\ children_at (heap st') 0%nat = Some [1; 2; 3]%nat
    /\ (forall c, c ∈ [4; 5; 6; 7]%nat ->
          text_at (heap st') c = Some ("ERROR: " ++ "rate limited")
          /\ c ∉ [1; 2; 3]%nat)
    /\ (forall a, a <> 0%nat -> a ∉ [4; 5; 6; 7]%nat ->
          heap st' !! a = heap ex_gen_state !! a)
    /\ app_queue st' = app_queue ex_gen_state.
Proof.
  apply (generate_for_nodes_rolls_back ex_backend_rate_limited "root" [4; 5; 6; 7]%nat []
           ex_gen_state ex_gen_tree 0%nat [1; 2; 3]%nat "rate limited"
           DEFAULT_GENERATION_SETTINGS ex_gen_state_ok).
  - simpl. apply list_elem_of_here.
  - reflexivity.
  - reflexivity.
  - left. repeat split; simpl; eauto.
  - discriminate.
Defined.

(** * The measures of a tree *)

(** ** Counting nodes *)

Lemma count_loop (fuel : nat) (ks : list rtree) : forall st acc,
  Forall (fun k => forall st, shape (heap st) k ->
            util_tree.num_descendents_rec fuel (raddr k) st
            = (Ok (length (preorder k)), st)) ks ->
  Forall (shape (heap st)) ks ->
  for_each (map raddr ks)
    (fun child descendents =>
       let* k := util_tree.num_descendents_rec fuel child in
       ret (descendents + k)%nat) acc st
  = (Ok (acc + length (forest_nodes ks))%nat, st).
Proof.
  induction ks as [|k ks IH]; intros st acc Hrec Hsh.
  - simpl. unfold ret. rewrite Nat.add_0_r. reflexivity.
  - apply Forall_cons in Hrec as [Hk Hrec]. apply Forall_cons in Hsh as [Hsk Hsh].
    cbn [map for_each]. mstep (Hk st Hsk). mret.
    rewrite (IH st _ Hrec Hsh). rewrite forest_nodes_cons, length_app.
    do 2 f_equal. lia.
Qed.

Lemma num_descendents_rec_spec t : forall fuel st,
  (height t <= fuel)%nat -> shape (heap st) t ->
  util_tree.num_descendents_rec fuel (raddr t) st = (Ok (length (preorder t)), st).
Proof.
  induction t as [a ks IH] using rtree_ind'. intros fuel st Hf Hs.
  destruct fuel as [|fuel]; [simpl in Hf; lia |].
  apply shape_inv in Hs as (n & Hn & Hc & Hks).
  cbn [util_tree.num_descendents_rec raddr]. mstep (read_ok _ _ _ Hn).
  rewrite preorder_unfold. cbn [length].
  destruct (n_children n) as [cs|] eqn:Hcs; simpl in Hc.
  - subst cs. rewrite (count_loop fuel ks st 1); [reflexivity | | exact Hks].
    rewrite Forall_forall in IH. apply Forall_forall. intros k Hk st' Hs'.
    apply IH; [exact Hk | | exact Hs'].
    pose proof (height_kid k a ks Hk). lia.
  - destruct ks; [reflexivity | discriminate].
Qed.

Lemma num_descendents_spec t st :
  shape (heap st) t -> NoDup (preorder t) ->
  util_tree.num_descendents (raddr t) st = (Ok (length (preorder t)), st).
Proof.
  intros Hs Hnd. unfold util_tree.num_descendents. mget.
  apply num_descendents_rec_spec; [| exact Hs].
  pose proof (height_le_store _ _ Hs Hnd). lia.
Qed.

(** X1: [num_descendents] of the root of a tree returns the number of
    nodes that [flatten_tree] lists for it, before and after the
    flattening, and leaves the store as it is. *)
Theorem num_descendents_counts_flat (uuid1 : nat -> string) (st : TreeModel) (t : rtree) :
  shape (heap st) t -> NoDup (preorder t) ->
  exists l st',
    flatten_tree uuid1 (raddr t) st = (Ok l, st')
    /\ util_tree.num_descendents (raddr t) st = (Ok (length l), st)
    /\ util_tree.num_descendents (raddr t) st' = (Ok (length l), st').
Proof.
  intros Hs Hnd.
  destruct (flatten_tree_spec uuid1 t st Hs Hnd) as (h' & Hrun & Hpost).
  eexists _, _. split; [exact Hrun |]. split.
  - apply num_descendents_spec; assumption.
  - apply num_descendents_spec; [| exact Hnd]. stsimp.
    eapply shape_payload; [exact Hs |]. intros b. apply (fp_payload _ _ _ _ _ Hpost).
Qed.

(** The loop of [num_leaves]. *)
Lemma leaves_loop (ks : list rtree) : forall st acc,
  Forall (shape (heap st)) ks -> NoDup (forest_nodes ks) ->
  for_each (map raddr ks)
    (fun child leaves =>
       let* k := util_tree.num_descendents child in
       ret (leaves + k)%nat) acc st
  = (Ok (acc + length (forest_nodes ks))%nat, st).
Proof.
  induction ks as [|k ks IH]; intros st acc Hsh Hnd.
  - simpl. unfold ret. rewrite Nat.add_0_r. reflexivity.
  - apply Forall_cons in Hsh as [Hsk Hsh].
    rewrite forest_nodes_cons in Hnd. apply NoDup_app in Hnd as (Hndk & _ & Hnd).
    cbn [map for_each]. mstep (num_descendents_spec k st Hsk Hndk). mret.
    rewrite (IH st _ Hsh Hnd). rewrite forest_nodes_cons, length_app.
    do 2 f_equal. lia.
Qed.

(** X2: [num_leaves] of a node without children is 1; of a node with
    children it is the number of all nodes below it, which is
    [num_descendents] less one, whether those nodes are leaves or not. *)
Theorem num_leaves_counts_all_below (st : TreeModel) (t : rtree) :
  shape (heap st) t -> NoDup (preorder t) ->
  exists n,
    util_tree.num_descendents (raddr t) st = (Ok n, st)
    /\ n = length (preorder t)
    /\ util_tree.num_leaves (raddr t) st
       = (Ok (match rkids t with [] => 1 | _ :: _ => n - 1 end)%nat, st).
Proof.
  intros Hs Hnd. exists (length (preorder t)).
  split; [apply num_descendents_spec; assumption |]. split; [reflexivity |].
  destruct t as [a ks]. pose proof Hs as Hs0.
  apply shape_inv in Hs0 as (n & Hn & Hc & Hks).
  unfold util_tree.num_leaves. cbn [raddr rkids]. mstep (read_ok _ _ _ Hn).
  rewrite preorder_unfold in *. apply NoDup_cons in Hnd as [_ Hnd].
  destruct (n_children n) as [cs|] eqn:Hcs; simpl in Hc.
  - subst cs. destruct ks as [|k ks]; [reflexivity |].
    cbn [map]. change (raddr k :: map raddr ks) with (map raddr (k :: ks)).
    rewrite (leaves_loop (k :: ks) st 0%nat Hks Hnd). cbn [length].
    do 2 f_equal. lia.
  - destruct ks; [reflexivity | discriminate].
Qed.

(** ** Height and depth *)

Lemma height_loop (fuel : nat) (ks : list rtree) : forall st acc,
  Forall (fun k => forall st, shape (heap st) k ->
            util_tree.height_rec fuel (raddr k) st
            = (if all_have_children (heap st) (preorder k)
               then Ok (height k) else Raise KeyError, st)) ks ->
  Forall (shape (heap st)) ks ->
  for_each (map raddr ks)
    (fun c acc => let* x := util_tree.height_rec fuel c in ret (acc ++ [x])%list) acc st
  = (if all_have_children (heap st) (forest_nodes ks)
     then Ok (acc ++ map height ks)%list else Raise KeyError, st).
Proof.
  induction ks as [|k ks IH]; intros st acc Hrec Hsh.
  - simpl. unfold ret. rewrite app_nil_r. reflexivity.
  - apply Forall_cons in Hrec as [Hk Hrec]. apply Forall_cons in Hsh as [Hsk Hsh].
    cbn [map for_each]. rewrite forest_nodes_cons. unfold all_have_children.
    rewrite forallb_app. fold (all_have_children (heap st) (preorder k)).
    fold (all_have_children (heap st) (forest_nodes ks)).
    destruct (all_have_children (heap st) (preorder k)) eqn:Hall.
    + assert (Hrun : util_tree.height_rec fuel (raddr k) st = (Ok (height k), st)).
      { rewrite (Hk st Hsk), Hall. reflexivity. }
      mstep Hrun. mret. rewrite (IH st _ Hrec Hsh). simpl.
      rewrite <- app_assoc. reflexivity.
    + assert (Hrun : util_tree.height_rec fuel (raddr k) st = (Raise KeyError, st)).
      { rewrite (Hk st Hsk), Hall. reflexivity. }
      rewrite ?bind_assoc. rewrite (bind_raise _ _ _ _ _ Hrun). reflexivity.
Qed.

Lemma height_rec_spec t : forall fuel st,
  (height t <= fuel)%nat -> shape (heap st) t ->
  util_tree.height_rec fuel (raddr t) st
  = (if all_have_children (heap st) (preorder t) then Ok (height t) else Raise KeyError, st).
Proof.
  induction t as [a ks IH] using rtree_ind'. intros fuel st Hf Hs.
  destruct fuel as [|fuel]; [simpl in Hf; lia |].
  apply shape_inv in Hs as (n & Hn & Hc & Hks).
  cbn [util_tree.height_rec raddr]. rewrite preorder_unfold.
  unfold all_have_children. cbn [forallb]. fold (all_have_children (heap st) (forest_nodes ks)).
  unfold children_at at 1. rewrite Hn. unfold get_children. rewrite ?bind_assoc.
  rewrite (bind_ok _ _ _ _ _ (read_ok _ _ _ Hn)). cbv beta.
  destruct (n_children n) as [cs|] eqn:Hcs; simpl in Hc.
  - subst cs. unfold key. mret. cbn [has_key andb].
    unfold bind at 1. rewrite (height_loop fuel ks st []).
    + destruct (all_have_children (heap st) (forest_nodes ks)); reflexivity.
    + rewrite Forall_forall in IH. apply Forall_forall. intros k Hk st' Hs'.
      apply IH; [exact Hk | | exact Hs'].
      pose proof (height_kid k a ks Hk). lia.
    + exact Hks.
  - reflexivity.
Qed.

(** ** Depth and the path to the root *)

(** [depth] follows the same parents as the loop of [node_ancestry]. *)
Lemma depth_loop (node_dict : option pydict) (fuel : nat) : forall node acc st,
  match node_ancestry_loop fuel node_dict node acc st with
  | (Ok l, _) =>
      exists pre, l = (pre ++ acc)%list
                  /\ util_tree.depth_rec fuel node node_dict st = (Ok (length pre), st)
  | (Raise e, _) => util_tree.depth_rec fuel node node_dict st = (Raise e, st)
  | (Diverge, _) => util_tree.depth_rec fuel node node_dict st = (Raise RecursionError, st)
  end.
Proof.
  induction fuel as [|fuel IH]; intros node acc st; [reflexivity |].
  cbn [node_ancestry_loop util_tree.depth_rec]. unfold bind, read.
  destruct (heap st !! node) as [n|]; [| reflexivity].
  destruct (n_parent_id n) as [pid|]; [| exists []; split; reflexivity].
  assert (Hd : dict_lookup node_dict pid st = (Raise TypeError, st)
               \/ dict_lookup node_dict pid st = (Raise KeyError, st)
               \/ exists p, dict_lookup node_dict pid st = (Ok p, st)).
  { unfold dict_lookup, key, ret, raise.
    destruct node_dict as [d|]; [destruct (dict_get d pid) |]; eauto. }
  destruct Hd as [Hd | [Hd | [p Hd]]]; rewrite Hd; [reflexivity | reflexivity |].
  specialize (IH p (p :: acc) st).
  destruct (node_ancestry_loop fuel node_dict p (p :: acc) st) as [[l | e |] st2].
  - destruct IH as (pre & -> & Hrun). exists (pre ++ [p])%list. split.
    + rewrite <- app_assoc. reflexivity.
    + rewrite Hrun. unfold ret. rewrite length_app. simpl. do 2 f_equal. lia.
  - rewrite IH. reflexivity.
  - rewrite IH. reflexivity.
Qed.

Lemma depth_of_ancestry st d a l :
  ancestry (heap st) d a l -> (length l <= 2 + length d)%nat ->
  util_tree.depth a (Some d) st = (Ok (length l - 1)%nat, st).
Proof.
  intros Hanc Hlen. unfold util_tree.depth. simpl default.
  pose proof (depth_loop (Some d) (2 + length d) a [a] st) as H.
  rewrite (node_ancestry_loop_spec _ _ _ _ Hanc _ [] st eq_refl Hlen) in H.
  destruct H as (pre & Hl & Hrun). rewrite app_nil_r in Hl. subst l.
  rewrite Hrun, length_app. simpl. do 2 f_equal. lia.
Qed.

(** The path to a node and the tree under it fit into the height of the
    whole tree. *)
Lemma ancestry_height h d t :
  linked h t ->
  (forall p, p ∈ preorder t -> exists i, id_at h p = Some i /\ dict_get d i = Some p) ->
  forall lr, ancestry h d (raddr t) lr ->
  forall b, b ∈ preorder t ->
    exists l s, ancestry h d b l /\ subtree s t /\ raddr s = b
                /\ (length l + height s <= length lr + height t)%nat.
Proof.
  induction t as [a ks IH] using rtree_ind'. intros Hl Hidx lr Hr b Hb.
  rewrite preorder_unfold in Hb. apply elem_of_cons in Hb as [-> | Hb].
  - exists lr, (RT a ks). split; [exact Hr |]. split; [constructor |]. split; [reflexivity | lia].
  - apply linked_inv in Hl. apply elem_of_forest_nodes in Hb as (k & Hk & Hb).
    rewrite Forall_forall in IH, Hl. destruct (Hl k Hk) as [Hpk Hlk].
    destruct (Hidx a (raddr_in_preorder (RT a ks))) as (i & Hi & Hg).
    assert (Hrk : ancestry h d (raddr k) (lr ++ [raddr k])).
    { eapply anc_step; [rewrite Hpk; exact Hi | exact Hg | exact Hr]. }
    destruct (IH k Hk Hlk) with (lr := (lr ++ [raddr k])%list) (b := b)
      as (l & s & Hl1 & Hs1 & Hs2 & Hl2); auto.
    + intros p Hp. apply Hidx. rewrite preorder_unfold.
      apply list_elem_of_further, elem_of_forest_nodes. eauto.
    + exists l, s. split; [exact Hl1 |]. split; [eapply subtree_kid; eauto |].
      split; [exact Hs2 |]. rewrite length_app in Hl2. simpl length in Hl2.
      pose proof (height_kid k a ks Hk). lia.
Qed.

Lemma all_have_children_tree h t s :
  tree_in h t -> subtree s t -> all_have_children h (preorder s) = true.
Proof.
  intros Ht Hs. apply forallb_forall. intros b Hb.
  apply list_elem_of_In in Hb.
  destruct (tree_in_keys_children h t b Ht (subtree_nodes s t Hs b Hb)) as [cs Hcs].
  rewrite Hcs. reflexivity.
Qed.

Lemma height_of_subtree st t s :
  tree_in (heap st) t -> subtree s t ->
  util_tree.height (raddr s) st = (Ok (height s), st).
Proof.
  intros Ht Hs. unfold util_tree.height. mget.
  rewrite height_rec_spec.
  - rewrite (all_have_children_tree _ t s Ht Hs). reflexivity.
  - pose proof (subtree_height s t Hs).
    pose proof (height_le_store _ _ (ti_shape _ _ Ht) (tree_in_nodup _ _ Ht)). lia.
  - eapply subtree_shape; [exact Hs | apply (ti_shape _ _ Ht)].
Qed.

(** X4: in a well-formed model the depth of a node and the height of the
    tree under it add up to no more than the height of the whole tree;
    every height is at least 1, and the root is the node of depth 0. *)
Theorem depth_plus_height_bounded (st : TreeModel) (t : rtree) (a : addr) :
  tree_ok st t -> a ∈ preorder t ->
  exists d ha hr,
    util_tree.depth a (tree_node_dict st) st = (Ok d, st)
    /\ util_tree.height a st = (Ok ha, st)
    /\ util_tree.height (raddr t) st = (Ok hr, st)
    /\ (1 <= ha)%nat /\ (d + ha <= hr)%nat
    /\ (d = 0%nat <-> a = raddr t).
Proof.
  intros Hok Ha. pose proof Hok as [Hraw Ht Hl Hidx].
  destruct (ancestry_height (heap st) (index_of (heap st) (preorder t)) t Hl)
    with (lr := [raddr t]) (b := a) as (l & s & Hanc & Hs & Hsa & Hle); auto.
  { intros p Hp. eapply tree_index_lookup; eauto. }
  { apply anc_root; [| apply (ti_root _ _ Ht)].
    eapply shape_lookup; [apply (ti_shape _ _ Ht) | apply raddr_in_preorder]. }
  simpl length in Hle.
  assert (Hlen : (length l <= 2 + length (index_of (heap st) (preorder t)))%nat).
  { rewrite length_index_of. pose proof (height_le_nodes t).
    assert (1 <= height s)%nat by (destruct s; simpl; lia). lia. }
  exists (length l - 1)%nat, (height s), (height t).
  split; [rewrite Hidx; apply depth_of_ancestry; assumption |].
  split; [rewrite <- Hsa; eapply height_of_subtree; eauto |].
  split; [apply (height_of_subtree st t t Ht); constructor |].
  assert (H1 : (1 <= height s)%nat) by (destruct s; simpl; lia).
  assert (H2 : (1 <= length l)%nat).
  { destruct (ancestry_last _ _ _ _ Hanc) as [l' ->]. rewrite length_app. simpl. lia. }
  split; [exact H1 |]. split; [lia |].
  rewrite <- (tree_ok_root_iff st t a Hok Ha). split.
  - intros Hd. inversion Hanc as [a' Hex Hp | a' pid p l' Hp Hg Hanc']; subst; [exact Hp |].
    destruct (ancestry_last _ _ _ _ Hanc') as [l'' ->].
    rewrite !length_app in Hd. simpl in Hd. lia.
  - intros Hp. inversion Hanc as [a' Hex Hp' | a' pid p l' Hp' Hg Hanc']; subst;
      [reflexivity | congruence].
Qed.

(** X5: [height] returns the number of levels of a tree when every node
    of it has a list of children, and raises [KeyError] when some node has
    none; [num_descendents] counts such a tree all the same. *)
Theorem height_needs_children_key (st : TreeModel) (t : rtree) :
  shape (heap st) t -> NoDup (preorder t) ->
  util_tree.height (raddr t) st
  = (if all_have_children (heap st) (preorder t) then Ok (height t) else Raise KeyError, st)
  /\ util_tree.num_descendents (raddr t) st = (Ok (length (preorder t)), st).
Proof.
  intros Hs Hnd. split; [| apply num_descendents_spec; assumption].
  unfold util_tree.height. mget. apply height_rec_spec; [| exact Hs].
  pose proof (height_le_store _ _ Hs Hnd). lia.
Qed.

(** ** The path of [node_ancestry] in a well-formed model *)

Lemma ancestry_path st t a l :
  tree_ok st t -> a ∈ preorder t ->
  ancestry (heap st) (index_of (heap st) (preorder t)) a l ->
  head l = Some (raddr t) /\ last l = Some a
  /\ (forall i x y, l !! i = Some x -> l !! S i = Some y ->
        exists cs, children_at (heap st) x = Some cs /\ y ∈ cs)
  /\ (forall x, x ∈ l -> x ∈ preorder t).
Proof.
  intros Hok Ha Hanc. pose proof Hok as [_ Ht Hl _].
  induction Hanc as [a Hex Hroot | a pid p l Hpa Hd Hanc IH].
  - apply (tree_ok_root_iff st t a Hok Ha) in Hroot. subst a.
    split; [reflexivity |]. split; [reflexivity |]. split.
    + intros i x y Hi Hj. destruct i; discriminate.
    + intros x Hx. apply list_elem_of_singleton in Hx. subst. exact Ha.
  - assert (Hr : a <> raddr t).
    { intros ->. rewrite (ti_root _ _ Ht) in Hpa. discriminate. }
    destruct (tree_ok_parent st t a Hok Ha Hr)
      as (p' & pid' & cs & k & Hp' & Hpa' & _ & Hd' & Hcs & Hk).
    assert (pid' = pid) by congruence. subst pid'.
    assert (p' = p) by congruence. subst p'.
    destruct (IH Hp') as (Hhd & Hlast & Hstep & Hin).
    destruct (ancestry_last _ _ _ _ Hanc) as [l0 Hl0].
    split; [| split; [| split]].
    + rewrite Hl0 in *. destruct l0; simpl in *; exact Hhd.
    + apply last_snoc.
    + intros i x y Hi Hj.
      destruct (decide (S i < length l)%nat) as [Hlt | Hge].
      * rewrite lookup_app_l in Hi by lia. rewrite lookup_app_l in Hj by lia. eauto.
      * pose proof (lookup_lt_Some _ _ _ Hj) as Hb. rewrite length_app in Hb. simpl in Hb.
        assert (S i = length l) as Hi' by lia.
        rewrite Hi', lookup_app_r, Nat.sub_diag in Hj by lia. simpl in Hj.
        injection Hj as <-.
        rewrite lookup_app_l in Hi by lia.
        assert (x = p) as ->.
        { rewrite Hl0 in Hi, Hi'. rewrite length_app in Hi'. simpl in Hi'.
          assert (i = length l0) as -> by lia.
          rewrite lookup_app_r, Nat.sub_diag in Hi by lia. simpl in Hi. congruence. }
        exists cs. split; [exact Hcs | eapply list_elem_of_lookup_2; eauto].
    + intros x Hx. apply elem_of_app in Hx as [Hx | Hx]; [auto |].
      apply list_elem_of_singleton in Hx. subst. exact Ha.
Qed.

Lemma ancestry_nodup st t a l :
  tree_ok st t -> a ∈ preorder t ->
  ancestry (heap st) (index_of (heap st) (preorder t)) a l -> NoDup l.
Proof.
  intros Hok Ha Hanc. pose proof Hok as [_ Ht Hl _].
  pose proof (tree_in_nodup _ _ Ht) as Hnd.
  induction Hanc as [a Hex Hroot | a pid p l Hpa Hd Hanc IH].
  - apply NoDup_singleton.
  - assert (Hr : a <> raddr t).
    { intros ->. rewrite (ti_root _ _ Ht) in Hpa. discriminate. }
    destruct (tree_ok_parent st t a Hok Ha Hr)
      as (p' & pid' & cs & k & Hp' & Hpa' & _ & Hd' & Hcs & Hk).
    assert (pid' = pid) by congruence. subst pid'.
    assert (p' = p) by congruence. subst p'.
    apply NoDup_app. split; [apply IH, Hp' |]. split; [| apply NoDup_singleton].
    intros x Hx Hxa. apply list_elem_of_singleton in Hxa. subst x.
    pose proof (parent_before _ t p cs a Ht Hp' Hcs (list_elem_of_lookup_2 _ _ _ Hk)) as Hb.
    destruct (ancestry_above st t p l Hok Hp' Hanc a Hx) as [-> | Hap].
    + eapply before_irrefl; eauto.
    + eapply before_irrefl; [exact Hnd |]. eapply before_trans; eauto.
Qed.

(** X6: in a well-formed model [node_ancestry] of a node returns the path
    from the root to it: the list begins with the root and ends with the
    node, each of its nodes lists the next among its children, and no
    node stands in it twice.  The store is left as it is. *)
Theorem node_ancestry_is_root_path (st : TreeModel) (t : rtree) (a : addr) :
  tree_ok st t -> a ∈ preorder t ->
  exists l,
    node_ancestry a (tree_node_dict st) st = (Ok l, st)
    /\ head l = Some (raddr t) /\ last l = Some a
    /\ (forall i x y, l !! i = Some x -> l !! S i = Some y ->
          exists cs, children_at (heap st) x = Some cs /\ y ∈ cs)
    /\ NoDup l.
Proof.
  intros Hok Ha. pose proof Hok as [_ Ht Hl Hidx].
  destruct (tree_ancestry _ _ a Ht Hl Ha) as (l & Hanc & Hlen).
  destruct (ancestry_path st t a l Hok Ha Hanc) as (H1 & H2 & H3 & _).
  exists l. split; [rewrite Hidx; apply node_ancestry_spec; assumption |].
  split; [exact H1 |]. split; [exact H2 |]. split; [exact H3 |].
  eapply ancestry_nodup; eauto.
Qed.

Close Scope string_scope.
(** * The worker of a generation request *)

(** ** Slices of a string *)

Lemma string_of_list_ascii_app (l1 l2 : list ascii) :
  string_of_list_ascii (l1 ++ l2)
  = (string_of_list_ascii l1 ++ string_of_list_ascii l2)%string.
Proof.
  induction l1 as [|c l1 IH]; [reflexivity |].
  simpl. rewrite IH, append_cons. reflexivity.
Qed.

(** [s[:i] + s[i:] == s] for every integer [i]. *)
Lemma py_slice_concat (s : string) (i : Z) :
  (py_slice_to s i ++ py_slice_from s i)%string = s.
Proof.
  unfold py_slice_to, py_slice_from, str_take, str_drop.
  rewrite <- string_of_list_ascii_app, take_drop.
  apply string_of_list_ascii_of_string.
Qed.

(** ** Writing a text *)

Lemma but_text_at_write (h : list node) a n s b :
  h !! a = Some n -> but_text_at (<[a := set_text (Some s) n]> h) b = but_text_at h b.
Proof.
  intros Ha. unfold but_text_at. destruct (decide (a = b)) as [-> | Hne].
  - rewrite (lookup_write_eq _ _ _ _ Ha), Ha. reflexivity.
  - rewrite lookup_write_ne by exact Hne. reflexivity.
Qed.

Lemma but_text_is_Some h h' b :
  but_text_at h' b = but_text_at h b -> is_Some (h !! b) -> is_Some (h' !! b).
Proof.
  unfold but_text_at. intros H [n Hn]. rewrite Hn in H.
  destruct (h' !! b); [eauto | discriminate].
Qed.

(** ** Completions without error, one text for each placeholder *)

Lemma fill_loop (cs : list completion) (nodes : list addr) : forall (k : nat) st,
  NoDup nodes -> (forall n, n ∈ nodes -> is_Some (heap st !! n)) ->
  (k <= length cs)%nat ->
  exists h',
    for_each (combine (seq k (length nodes)) nodes)
      (fun '(index, node) _ =>
         let* cs' := choices_of (RResponse cs) in
         let* c := py_nth cs' (Z.of_nat index) in
         update node (set_text (Some (c_text c)))) tt st
    = (if decide (k + length nodes <= length cs)%nat then Ok tt else Raise IndexError,
       with_heap h' st)
    /\ (forall j n c, nodes !! j = Some n -> cs !! (k + j)%nat = Some c ->
          text_at h' n = Some (c_text c))
    /\ (forall b, but_text_at h' b = but_text_at (heap st) b)
    /\ (forall b, b ∉ nodes -> h' !! b = heap st !! b)
    /\ (forall j n, nodes !! j = Some n -> (length cs <= k + j)%nat ->
          h' !! n = heap st !! n).
Proof.
  induction nodes as [|x nodes IH]; intros k st Hnd Hex Hk.
  - exists (heap st). rewrite with_heap_same. simpl.
    rewrite decide_True by lia. split; [reflexivity |].
    split; [intros j n c H; destruct j; discriminate |].
    split; [reflexivity |]. split; [reflexivity |].
    intros j n H; destruct j; discriminate.
  - apply NoDup_cons in Hnd as [Hx Hnd].
    destruct (Hex x (list_elem_of_here _ _)) as [xn Hxn].
    cbn [length seq combine for_each]. unfold choices_of at 1. mret.
    destruct (decide (k < length cs)%nat) as [Hlt | Hge].
    + destruct (lookup_lt_is_Some_2 cs k Hlt) as [c Hc].
      assert (Hnth : py_nth cs (Z.of_nat k) st = (Ok c, st)).
      { apply py_nth_ok; [lia | rewrite Nat2Z.id; exact Hc]. }
      mstep Hnth. mstep (update_ok st x xn (set_text (Some (c_text c))) Hxn).
      set (h1 := <[x := set_text (Some (c_text c)) xn]> (heap st)).
      destruct (IH (S k) (with_heap h1 st) Hnd) as (h2 & Hrun & Htx & Hbt & Hout & Hrest).
      { stsimp. intros n Hn. eapply but_text_is_Some.
        - apply (but_text_at_write _ _ _ _ _ Hxn).
        - apply Hex, list_elem_of_further, Hn. }
      { lia. }
      stsimp. exists h2. split; [| split; [| split; [| split]]].
      * rewrite Hrun. f_equal. simpl length.
        destruct (decide (S k + length nodes <= length cs)%nat),
                 (decide (k + S (length nodes) <= length cs)%nat); try reflexivity; lia.
      * intros j n c' Hj Hc'. destruct j as [|j].
        -- simpl in Hj. injection Hj as <-. rewrite Nat.add_0_r in Hc'.
           assert (c' = c) by congruence. subst c'.
           unfold text_at. rewrite Hout by exact Hx. fold (text_at h1 x).
           apply (text_at_write_eq _ _ _ _ Hxn).
        -- simpl in Hj. apply (Htx j n c' Hj).
           replace (S k + j)%nat with (k + S j)%nat by lia. exact Hc'.
      * intros b. rewrite Hbt. apply (but_text_at_write _ _ _ _ _ Hxn).
      * intros b Hb. apply not_elem_of_cons in Hb as [Hbx Hb].
        rewrite Hout by exact Hb. unfold h1. apply lookup_write_ne. congruence.
      * intros j n Hj Hle. destruct j as [|j]; [lia |]. simpl in Hj.
        rewrite (Hrest j n Hj) by lia. unfold h1. apply lookup_write_ne.
        intros ->. apply Hx. eapply list_elem_of_lookup_2; eauto.
    + assert (Hnth : py_nth cs (Z.of_nat k) st = (Raise IndexError, st)).
      { unfold py_nth.
        rewrite (proj2 (Z.leb_le 0 (Z.of_nat k))) by lia.
        rewrite (proj2 (Z.ltb_ge (Z.of_nat k) (Z.of_nat (length cs)))) by lia.
        rewrite (proj2 (Z.ltb_ge (Z.of_nat k) 0)) by lia. reflexivity. }
      exists (heap st). rewrite with_heap_same.
      rewrite ?bind_assoc. rewrite (bind_raise _ _ _ _ _ Hnth).
      rewrite decide_False by (simpl; lia).
      split; [reflexivity |].
      split; [intros j n c Hj Hc; apply lookup_lt_Some in Hc; lia |].
      split; [reflexivity |]. split; reflexivity.
Qed.

Lemma dispatch_api b gs nodes cs e st :
  janus gs = Some false ->
  is_Some (response_length gs) -> is_Some (temperature gs) ->
  is_Some (top_p gs) -> is_Some (model gs) ->
  api_generate b = (Some cs, e) ->
  dispatch b gs nodes st = (Ok (RResponse cs, e), st).
Proof.
  intros Hj [rl Hrl] [tp Htp] [pp Hpp] [m Hm] Hapi.
  unfold dispatch. rewrite Hj. simpl key. mret.
  rewrite Hrl, Htp, Hpp, Hm, Hapi. reflexivity.
Qed.

(** X7: when the backend answers without error and the request is not
    adaptive, [generate_for_nodes] gives placeholder [i] the text of
    completion [i] and queues one [<<TreeUpdated>>] event; nothing but
    texts is written, the index is not rebuilt.  When the answer holds
    fewer completions than there are placeholders, the first ones are
    filled, the others keep what they had, [IndexError] is raised and no
    event is queued. *)
Theorem generate_for_nodes_fills_placeholders
    (b : backend) (prompt : string) (nodes grandchildren : list addr)
    (st : TreeModel) (gs : gen_settings) (cs : list completion) (e : option string) :
  generation_settings st = (Ok gs, st) ->
  janus gs = Some false -> adaptive gs = Some false ->
  is_Some (response_length gs) -> is_Some (temperature gs) ->
  is_Some (top_p gs) -> is_Some (model gs) ->
  api_generate b = (Some cs, e) -> error_truthy e = false ->
  NoDup nodes -> (forall n, n ∈ nodes -> is_Some (heap st !! n)) ->
  exists st',
    generate_for_nodes b prompt nodes grandchildren st
    = (if decide (length nodes <= length cs)%nat then Ok tt else Raise IndexError, st')
    /\ (forall j n c, nodes !! j = Some n -> cs !! j = Some c ->
          text_at (heap st') n = Some (c_text c))
    /\ (forall j n, nodes !! j = Some n -> (length cs <= j)%nat ->
          heap st' !! n = heap st !! n)
    /\ (forall x, but_text_at (heap st') x = but_text_at (heap st) x)
    /\ (forall x, x ∉ nodes -> heap st' !! x = heap st !! x)
    /\ tree_node_dict st' = tree_node_dict st
    /\ app_queue st'
       = (if decide (length nodes <= length cs)%nat
          then app_queue st ++ ["<<TreeUpdated>>"%string] else app_queue st)%list.
Proof.
  intros Hgs Hj Had Hrl Htp Hpp Hm Hapi He Hnd Hex.
  destruct (fill_loop cs nodes 0%nat st Hnd Hex ltac:(lia))
    as (h' & Hloop & Htx & Hbt & Hout & Hrest).
  simpl in Hloop.
  unfold generate_for_nodes. mstep Hgs.
  mstep (dispatch_api b gs nodes cs e st Hj Hrl Htp Hpp Hm Hapi).
  rewrite He. cbn [negb]. cbv iota. mstep Hgs. rewrite Had. simpl key. mret.
  unfold enumerate.
  destruct (decide (length nodes <= length cs)%nat) as [Hle | Hgt].
  - mstep Hloop. unfold choices_of. mret.
    eexists. split; [reflexivity |]. stsimp. auto 10.
  - rewrite ?bind_assoc. rewrite (bind_raise _ _ _ _ _ Hloop).
    eexists. split; [reflexivity |]. stsimp. auto 10.
Qed.

(** ** Adaptive requests: a completion is split in two *)

Lemma argmin_from_bound (l : list Q) : forall best besti i,
  (besti < i)%nat ->
  (argmin_from best besti i l < i + length l)%nat.
Proof.
  induction l as [|x l IH]; intros best besti i Hlt; simpl; [lia |].
  destruct (Qle_bool best x).
  - specialize (IH best besti (S i)). lia.
  - specialize (IH x i (S i)). lia.
Qed.

(** The scan of [np.argmin] keeps the first position of the least value. *)
Lemma argmin_from_first_least (l : list Q) : forall (pre : list Q) best besti,
  pre !! besti = Some best ->
  (forall j x, pre !! j = Some x -> (best <= x)%Q) ->
  (forall j x, (j < besti)%nat -> pre !! j = Some x -> ~ (x <= best)%Q) ->
  exists q,
    (pre ++ l) !! argmin_from best besti (length pre) l = Some q
    /\ (forall j x, (pre ++ l) !! j = Some x -> (q <= x)%Q)
    /\ (forall j x, (j < argmin_from best besti (length pre) l)%nat ->
          (pre ++ l) !! j = Some x -> ~ (x <= q)%Q).
Proof.
  induction l as [|x l IH]; intros pre best besti Hb Hle Hlt.
  - simpl. rewrite app_nil_r. exists best. auto.
  - cbn [argmin_from].
    replace (pre ++ x :: l)%list with ((pre ++ [x]) ++ l)%list
      by (rewrite <- app_assoc; reflexivity).
    replace (S (length pre)) with (length (pre ++ [x])%list)
      by (rewrite length_app; simpl; lia).
    destruct (Qle_bool best x) eqn:Hbx.
    + apply Qle_bool_iff in Hbx. apply IH.
      * apply lookup_app_l_Some, Hb.
      * intros j y Hj. apply lookup_app_Some in Hj as [Hj | [_ Hj]]; [eauto |].
        destruct (j - length pre)%nat; [| discriminate].
        simpl in Hj. injection Hj as <-. exact Hbx.
      * intros j y Hjb Hj. apply (Hlt j y Hjb).
        rewrite lookup_app_l in Hj; [exact Hj |].
        apply lookup_lt_Some in Hb. lia.
    + assert (Hxb : (x < best)%Q).
      { apply Qnot_le_lt. intros H. apply Qle_bool_iff in H. congruence. }
      apply IH.
      * rewrite lookup_app_r by lia. rewrite Nat.sub_diag. reflexivity.
      * intros j y Hj. apply lookup_app_Some in Hj as [Hj | [_ Hj]].
        -- apply Qlt_le_weak. eapply Qlt_le_trans; [exact Hxb | eauto].
        -- destruct (j - length pre)%nat; [| discriminate].
           simpl in Hj. injection Hj as <-. apply Qle_refl.
      * intros j y Hjb Hj. rewrite lookup_app_l in Hj by exact Hjb.
        intros Hyx. apply (Qlt_not_le _ _ Hxb). eapply Qle_trans; [| exact Hyx]. eauto.
Qed.

(** [np.argmin] returns the first position of the least value. *)
Lemma np_argmin_ok (l : list Q) st :
  l <> [] ->
  exists m q,
    np_argmin l st = (Ok m, st) /\ (m < length l)%nat
    /\ l !! m = Some q
    /\ (forall j x, l !! j = Some x -> (q <= x)%Q)
    /\ (forall j x, (j < m)%nat -> l !! j = Some x -> ~ (x <= q)%Q).
Proof.
  destruct l as [|x l]; [contradiction |]. intros _.
  destruct (argmin_from_first_least l [x] x 0%nat) as (q & Hq & Hle & Hlt).
  - reflexivity.
  - intros [|j] y Hj; [| discriminate]. injection Hj as <-. apply Qle_refl.
  - intros j y Hj. lia.
  - exists (argmin_from x 0%nat 1%nat l), q. split; [reflexivity |].
    split; [| auto]. pose proof (argmin_from_bound l x 0%nat 1%nat). simpl. lia.
Qed.

Lemma split_loop (prompt : string) (nodes grandchildren : list addr)
    (cs : list completion) : forall (k : nat) st,
  NoDup (drop k nodes ++ drop k grandchildren) ->
  (forall n, n ∈ nodes ++ grandchildren -> is_Some (heap st !! n)) ->
  (k + length cs <= length nodes)%nat -> (k + length cs <= length grandchildren)%nat ->
  Forall (fun c => c_token_logprobs c <> []
                   /\ (length (c_token_logprobs c) <= length (c_text_offset c))%nat) cs ->
  exists h',
    for_each (combine (seq k (length cs)) cs)
      (fun '(i, result) _ =>
         let* min_logprob := np_argmin (c_token_logprobs result) in
         let* off := py_nth (c_text_offset result) (Z.of_nat min_logprob) in
         let split_position := off - Z.of_nat (String.length prompt) in
         let childtext := py_slice_to (c_text result) split_position in
         let grandchild_text := py_slice_from (c_text result) split_position in
         let* n := py_nth nodes (Z.of_nat i) in
         update n (set_text (Some childtext)) ;;;
         let* g := py_nth grandchildren (Z.of_nat i) in
         update g (set_text (Some grandchild_text))) tt st
    = (Ok tt, with_heap h' st)
    /\ (forall j n g c, nodes !! (k + j)%nat = Some n ->
          grandchildren !! (k + j)%nat = Some g -> cs !! j = Some c ->
          exists m q off,
            c_token_logprobs c !! m = Some q
            /\ (forall i x, c_token_logprobs c !! i = Some x -> (q <= x)%Q)
            /\ (forall i x, (i < m)%nat -> c_token_logprobs c !! i = Some x ->
                  ~ (x <= q)%Q)
            /\ c_text_offset c !! m = Some off
            /\ text_at h' n
               = Some (py_slice_to (c_text c) (off - Z.of_nat (String.length prompt)))
            /\ text_at h' g
               = Some (py_slice_from (c_text c) (off - Z.of_nat (String.length prompt))))
    /\ (forall b, but_text_at h' b = but_text_at (heap st) b)
    /\ (forall b, b ∉ drop k nodes ++ drop k grandchildren -> h' !! b = heap st !! b)
    /\ (forall b, b ∉ take (length cs) (drop k nodes)
                  ++ take (length cs) (drop k grandchildren) ->
          h' !! b = heap st !! b).
Proof.
  induction cs as [|c cs IH]; intros k st Hnd Hex Hln Hlg Hcs.
  - exists (heap st). rewrite with_heap_same. simpl. split; [reflexivity |].
    split; [intros j n g c H1 H2 H3; destruct j; discriminate |].
    split; [reflexivity |]. split; reflexivity.
  - apply Forall_cons in Hcs as [[Hlp Hoff] Hcs]. simpl length in Hln, Hlg.
    destruct (lookup_lt_is_Some_2 nodes k) as [n Hn]; [lia |].
    destruct (lookup_lt_is_Some_2 grandchildren k) as [g Hg]; [lia |].
    rewrite (drop_S _ _ _ Hn), (drop_S _ _ _ Hg) in Hnd.
    assert (Hng : n <> g).
    { intros ->. simpl in Hnd. apply NoDup_cons in Hnd as [Hbad _].
      apply Hbad. apply elem_of_app. right. apply list_elem_of_here. }
    assert (Hnd' : NoDup (drop (S k) nodes ++ drop (S k) grandchildren)).
    { simpl in Hnd. apply NoDup_cons in Hnd as [_ Hnd].
      apply NoDup_app in Hnd as (H1 & H2 & H3). apply NoDup_cons in H3 as [_ H3].
      apply NoDup_app. split; [exact H1 |]. split; [| exact H3].
      intros x Hx Hx'. apply (H2 x Hx). apply list_elem_of_further, Hx'. }
    assert (Hn_later : n ∉ drop (S k) nodes ++ drop (S k) grandchildren).
    { simpl in Hnd. apply NoDup_cons in Hnd as [Hbad _]. intros Hx. apply Hbad.
      apply elem_of_app in Hx as [Hx | Hx]; apply elem_of_app; [left; exact Hx |].
      right. apply list_elem_of_further, Hx. }
    assert (Hg_later : g ∉ drop (S k) nodes ++ drop (S k) grandchildren).
    { simpl in Hnd. apply NoDup_cons in Hnd as [_ Hnd].
      apply NoDup_app in Hnd as (H1 & H2 & H3). apply NoDup_cons in H3 as [Hg3 H3].
      intros Hx. apply elem_of_app in Hx as [Hx | Hx]; [| contradiction].
      apply (H2 g Hx). apply list_elem_of_here. }
    destruct (Hex n) as [nn Hnn].
    { apply elem_of_app. left. eapply list_elem_of_lookup_2; eauto. }
    destruct (Hex g) as [gn Hgn].
    { apply elem_of_app. right. eapply list_elem_of_lookup_2; eauto. }
    destruct (np_argmin_ok (c_token_logprobs c) st Hlp)
      as (m & q & Hm & Hmlt & Hmq & Hmle & Hmfirst).
    destruct (lookup_lt_is_Some_2 (c_text_offset c) m) as [off Hoff']; [lia |].
    set (sp := off - Z.of_nat (String.length prompt)).
    set (h1 := <[n := set_text (Some (py_slice_to (c_text c) sp)) nn]> (heap st)).
    assert (Hg1 : h1 !! g = Some gn).
    { unfold h1. rewrite lookup_write_ne by exact Hng. exact Hgn. }
    set (h2 := <[g := set_text (Some (py_slice_from (c_text c) sp)) gn]> h1).
    assert (Hbt2 : forall x, but_text_at h2 x = but_text_at (heap st) x).
    { intros x. unfold h2. rewrite (but_text_at_write _ _ _ _ _ Hg1).
      apply (but_text_at_write _ _ _ _ _ Hnn). }
    destruct (IH (S k) (with_heap h2 st) Hnd') as (h3 & Hrun & Htx & Hbt & Hout & Hout').
    { stsimp. intros x Hx. eapply but_text_is_Some; [apply Hbt2 | apply Hex, Hx]. }
    { lia. } { lia. } { exact Hcs. }
    stsimp. exists h3. split; [| split; [| split; [| split]]].
    + cbn [length seq combine for_each]. mstep Hm.
      mstep (py_nth_ok (c_text_offset c) (Z.of_nat m) off st ltac:(lia)
               ltac:(rewrite Nat2Z.id; exact Hoff')).
      cbv zeta. fold sp.
      mstep (py_nth_ok nodes (Z.of_nat k) n st ltac:(lia) ltac:(rewrite Nat2Z.id; exact Hn)).
      mstep (update_ok st n nn (set_text (Some (py_slice_to (c_text c) sp))) Hnn). fold h1.
      mstep (py_nth_ok grandchildren (Z.of_nat k) g (with_heap h1 st) ltac:(lia)
               ltac:(rewrite Nat2Z.id; exact Hg)).
      mstep (update_ok (with_heap h1 st) g gn
               (set_text (Some (py_slice_from (c_text c) sp))) Hg1).
      stsimp. fold h2. exact Hrun.
    + intros j n' g' c' Hn' Hg' Hc'. destruct j as [|j].
      * rewrite Nat.add_0_r in Hn', Hg'. simpl in Hc'.
        assert (n' = n) by congruence. assert (g' = g) by congruence.
        assert (c' = c) by congruence. subst n' g' c'.
        exists m, q, off. split; [exact Hmq |]. split; [exact Hmle |].
        split; [exact Hmfirst |]. split; [exact Hoff' |]. fold sp. split.
        -- unfold text_at. rewrite Hout by exact Hn_later.
           unfold h2. rewrite lookup_write_ne by congruence.
           fold (text_at h1 n). apply (text_at_write_eq _ _ _ _ Hnn).
        -- unfold text_at. rewrite Hout by exact Hg_later.
           fold (text_at h2 g). apply (text_at_write_eq _ _ _ _ Hg1).
      * simpl in Hc'. apply (Htx j n' g' c'); [| | exact Hc'].
        -- replace (S k + j)%nat with (k + S j)%nat by lia. exact Hn'.
        -- replace (S k + j)%nat with (k + S j)%nat by lia. exact Hg'.
    + intros x. rewrite Hbt. apply Hbt2.
    + intros x Hx. rewrite (drop_S _ _ _ Hn), (drop_S _ _ _ Hg) in Hx.
      rewrite Hout.
      * unfold h2, h1. rewrite !lookup_write_ne; [reflexivity | |].
        -- intros ->. apply Hx. apply list_elem_of_here.
        -- intros ->. apply Hx. apply elem_of_app. right. apply list_elem_of_here.
      * intros Hx'. apply Hx. apply elem_of_app in Hx' as [Hx' | Hx'].
        -- apply list_elem_of_further, elem_of_app. left. exact Hx'.
        -- apply elem_of_app. right. apply list_elem_of_further, Hx'.
    + intros x Hx. rewrite (drop_S _ _ _ Hn), (drop_S _ _ _ Hg) in Hx.
      simpl length in Hx. cbn [take] in Hx.
      rewrite Hout'.
      * unfold h2, h1. rewrite !lookup_write_ne; [reflexivity | |].
        -- intros ->. apply Hx. apply list_elem_of_here.
        -- intros ->. apply Hx. apply elem_of_app. right. apply list_elem_of_here.
      * intros Hx'. apply Hx. apply elem_of_app in Hx' as [Hx' | Hx'].
        -- apply list_elem_of_further, elem_of_app. left. exact Hx'.
        -- apply elem_of_app. right. apply list_elem_of_further, Hx'.
Qed.

(** X8: when the backend answers an adaptive request without error,
    [generate_for_nodes] splits completion [i] in two at the text offset
    of its least likely token, the first one of them, less the length of
    the prompt: placeholder [i] gets the slice of the text up to that
    position and its grandchild the slice from it, as Python slices: the
    two parts joined are the completion again, wherever the position
    falls.  Placeholders beyond the number of completions keep their
    text; one [<<TreeUpdated>>] event is queued. *)
Theorem generate_for_nodes_splits_completions
    (b : backend) (prompt : string) (nodes grandchildren : list addr)
    (st : TreeModel) (gs : gen_settings) (cs : list completion) (e : option string) :
  generation_settings st = (Ok gs, st) ->
  janus gs = Some false -> adaptive gs = Some true ->
  is_Some (response_length gs) -> is_Some (temperature gs) ->
  is_Some (top_p gs) -> is_Some (model gs) ->
  api_generate b = (Some cs, e) -> error_truthy e = false ->
  NoDup (nodes ++ grandchildren) ->
  (forall n, n ∈ nodes ++ grandchildren -> is_Some (heap st !! n)) ->
  (length cs <= length nodes)%nat -> (length cs <= length grandchildren)%nat ->
  Forall (fun c => c_token_logprobs c <> []
                   /\ (length (c_token_logprobs c) <= length (c_text_offset c))%nat) cs ->
  exists st',
    generate_for_nodes b prompt nodes grandchildren st = (Ok tt, st')
    /\ (forall j n g c, nodes !! j = Some n -> grandchildren !! j = Some g ->
          cs !! j = Some c ->
          exists m q off,
            c_token_logprobs c !! m = Some q
            /\ (forall i x, c_token_logprobs c !! i = Some x -> (q <= x)%Q)
            /\ (forall i x, (i < m)%nat -> c_token_logprobs c !! i = Some x ->
                  ~ (x <= q)%Q)
            /\ c_text_offset c !! m = Some off
            /\ text_at (heap st') n
               = Some (py_slice_to (c_text c) (off - Z.of_nat (String.length prompt)))
            /\ text_at (heap st') g
               = Some (py_slice_from (c_text c) (off - Z.of_nat (String.length prompt)))
            /\ (py_slice_to (c_text c) (off - Z.of_nat (String.length prompt))
                ++ py_slice_from (c_text c) (off - Z.of_nat (String.length prompt)))%string
               = c_text c)
    /\ (forall x, but_text_at (heap st') x = but_text_at (heap st) x)
    /\ (forall x, x ∉ take (length cs) nodes ++ take (length cs) grandchildren ->
          heap st' !! x = heap st !! x)
    /\ tree_node_dict st' = tree_node_dict st
    /\ app_queue st' = (app_queue st ++ ["<<TreeUpdated>>"%string])%list.
Proof.
  intros Hgs Hj Had Hrl Htp Hpp Hm Hapi He Hnd Hex Hln Hlg Hcs.
  destruct (split_loop prompt nodes grandchildren cs 0%nat st)
    as (h' & Hloop & Htx & Hbt & _ & Hout); auto.
  unfold generate_for_nodes. mstep Hgs.
  mstep (dispatch_api b gs nodes cs e st Hj Hrl Htp Hpp Hm Hapi).
  rewrite He. cbn [negb]. cbv iota. mstep Hgs. rewrite Had. simpl key. mret.
  unfold choices_of at 1. mret. unfold enumerate. mstep Hloop.
  unfold choices_of. mret.
  eexists. split; [reflexivity |]. stsimp.
  split; [| split; [exact Hbt |]; split; [exact Hout |]; auto].
  intros j n g c Hn Hg Hc.
  destruct (Htx j n g c Hn Hg Hc) as (m & q & off & H1 & H2 & H3 & H4 & H5 & H6).
  exists m, q, off. repeat (split; [assumption |]). apply py_slice_concat.
Qed.

(** ** The parallel mode *)

Lemma remove_in_total h (l : list addr) x :
  (exists r, remove_in h l x = Ok r) \/ (exists e, remove_in h l x = Raise e).
Proof.
  induction l as [|y l IH]; simpl; [right; eauto |].
  destruct (node_eq h y x) as [[|]|]; [left; eauto | | right; eauto].
  destruct IH as [[r ->] | [e ->]]; [left | right]; eauto.
Qed.

(** A step of the rollback loop returns or raises, and leaves the queue. *)
Lemma rollback_step_total (error : option string) (node : addr) st :
  exists o st',
    (let* e := not_none error in
     update node (set_text (Some ("ERROR: " ++ e)%string)) ;;;
     let* p := parent node in
     let* cs := get_children p in
     let* rest := list_remove cs node in
     update p (set_children (Some rest))) st = (o, st')
    /\ o <> Diverge /\ app_queue st' = app_queue st
    /\ tree_raw_data st' = tree_raw_data st.
Proof.
  unfold not_none, update, parent, get_children, list_remove, lift_store, dict_lookup,
    key, read, modify, bind, ret, raise, get.
  destruct error as [e|]; [| eexists _, _; split; [reflexivity | split; [discriminate | auto]]].
  destruct (heap st !! node) as [n|] eqn:Hn;
    [| eexists _, _; split; [reflexivity | split; [discriminate | auto]]].
  cbn [heap with_heap].
  set (h1 := <[node := set_text (Some ("ERROR: " ++ e)%string) n]> (heap st)).
  destruct (h1 !! node) as [n1|];
    [| eexists _, _; split; [reflexivity | split; [discriminate | auto]]].
  destruct (n_parent_id n1) as [pid|];
    [| eexists _, _; split; [reflexivity | split; [discriminate | auto]]].
  cbn [tree_node_dict with_heap].
  destruct (tree_node_dict st) as [d|];
    [| eexists _, _; split; [reflexivity | split; [discriminate | auto]]].
  destruct (dict_get d pid) as [p|];
    [| eexists _, _; split; [reflexivity | split; [discriminate | auto]]].
  cbn [heap with_heap].
  destruct (h1 !! p) as [pn|];
    [| eexists _, _; split; [reflexivity | split; [discriminate | auto]]].
  destruct (n_children pn) as [cs|];
    [| eexists _, _; split; [reflexivity | split; [discriminate | auto]]].
  cbn [heap with_heap].
  destruct (remove_in_total h1 cs node) as [[r Hr] | [x Hr]]; rewrite Hr;
    [| eexists _, _; split; [reflexivity | split; [discriminate | auto]]].
  cbn [heap with_heap]. destruct (h1 !! p);
    eexists _, _; (split; [reflexivity | split; [discriminate | auto]]).
Qed.

Lemma rollback_loop_total (error : option string) (nodes : list addr) : forall st,
  exists o st',
    for_each nodes
      (fun node _ =>
         let* e := not_none error in
         update node (set_text (Some ("ERROR: " ++ e)%string)) ;;;
         let* p := parent node in
         let* cs := get_children p in
         let* rest := list_remove cs node in
         update p (set_children (Some rest))) tt st = (o, st')
    /\ o <> Diverge /\ app_queue st' = app_queue st
    /\ tree_raw_data st' = tree_raw_data st.
Proof.
  induction nodes as [|x nodes IH]; intros st.
  - exists (Ok tt), st. split; [reflexivity |]. split; [discriminate | auto].
  - destruct (rollback_step_total error x st) as (o & s1 & Hrun & Hnd & Hq & Hrd).
    cbn [for_each]. unfold bind at 1. rewrite Hrun.
    destruct o as [[] | e |]; [| | contradiction].
    + destruct (IH s1) as (o2 & s2 & Hrun2 & Hnd2 & Hq2 & Hrd2).
      exists o2, s2. split; [exact Hrun2 |]. split; [exact Hnd2 |]. split; congruence.
    + exists (Raise e), s1. split; [reflexivity |]. split; [discriminate | auto].
Qed.

(** X9: with the setting [janus] on, [generate_for_nodes] never returns
    normally and never queues the [<<TreeUpdated>>] event, whatever the
    backend answers: [results] is then the tuple built by [zip], which has
    no [choices], so that every path ends in an exception ([ValueError]
    for an empty list of nodes). *)
Theorem generate_for_nodes_janus_always_raises
    (b : backend) (prompt : string) (nodes grandchildren : list addr)
    (st : TreeModel) (gs : gen_settings) :
  generation_settings st = (Ok gs, st) -> janus gs = Some true ->
  exists e st',
    generate_for_nodes b prompt nodes grandchildren st = (Raise e, st')
    /\ app_queue st' = app_queue st
    /\ (nodes = [] -> e = ValueError).
Proof.
  intros Hgs Hj. unfold generate_for_nodes. mstep Hgs.
  unfold dispatch. rewrite Hj. simpl key. mret.
  destruct nodes as [|n nodes].
  { exists ValueError, st. split; [reflexivity | auto]. }
  cbn [length Nat.eqb]. mret.
  set (error := match List.filter error_truthy _ with e :: _ => e | [] => None end).
  destruct (error_truthy error) eqn:He; cbn [negb]; cbv iota.
  - destruct (rollback_loop_total error (n :: nodes) st) as (o & s1 & Hrun & Hnd & Hq & _).
    unfold bind at 1. rewrite Hrun. destruct o as [[] | e |]; [| | contradiction].
    + exists AttributeError, s1. split; [reflexivity |]. split; [exact Hq | discriminate].
    + exists e, s1. split; [reflexivity |]. split; [exact Hq | discriminate].
  - mstep Hgs. destruct (adaptive gs) as [[|]|]; simpl key.
    + mret. exists AttributeError, st. split; [reflexivity |]. split; [reflexivity | discriminate].
    + mret. exists AttributeError, st. split; [reflexivity |]. split; [reflexivity | discriminate].
    + exists KeyError, st. split; [reflexivity |]. split; [reflexivity | discriminate].
Qed.

(** * The selection *)

(** ** What [select_node] writes *)

Lemma open_at_write_eq (h : list node) a n :
  h !! a = Some n -> open_at (<[a := set_open (Some true) n]> h) a = Some true.
Proof. intros H. unfold open_at. rewrite (lookup_write_eq _ _ _ _ H). reflexivity. Qed.

Lemma visited_at_open (h : list node) a n b :
  h !! a = Some n ->
  visited_at (<[a := set_open (Some true) n]> h) b = visited_at h b.
Proof.
  intros H. unfold visited_at. destruct (decide (a = b)) as [-> | Hne].
  - rewrite (lookup_write_eq _ _ _ _ H), H. reflexivity.
  - rewrite lookup_write_ne by exact Hne. reflexivity.
Qed.

Lemma open_at_visited (h : list node) a n b :
  h !! a = Some n ->
  open_at (<[a := set_visited (Some true) n]> h) b = open_at h b.
Proof.
  intros H. unfold open_at. destruct (decide (a = b)) as [-> | Hne].
  - rewrite (lookup_write_eq _ _ _ _ H), H. reflexivity.
  - rewrite lookup_write_ne by exact Hne. reflexivity.
Qed.

(** The loop that opens the ancestors. *)
Lemma open_all_flags (l : list addr) : forall st,
  (forall x, x ∈ l -> is_Some (heap st !! x)) ->
  exists h',
    for_each l (fun ancestor _ => update ancestor (set_open (Some true))) tt st
    = (Ok tt, with_heap h' st)
    /\ (forall b, content_at h' b = content_at (heap st) b)
    /\ (forall b, visited_at h' b = visited_at (heap st) b)
    /\ (forall b, b ∈ l -> open_at h' b = Some true)
    /\ (forall b, b ∉ l -> h' !! b = heap st !! b).
Proof.
  induction l as [|x l IH]; intros st Hex.
  - exists (heap st). rewrite with_heap_same. split; [reflexivity |].
    split; [reflexivity |]. split; [reflexivity |].
    split; [intros b Hb; inversion Hb | reflexivity].
  - destruct (Hex x (list_elem_of_here _ _)) as [n Hn].
    set (h1 := <[x := set_open (Some true) n]> (heap st)).
    assert (Hc1 : forall b, content_at h1 b = content_at (heap st) b).
    { intros b. eapply content_at_write; eauto. }
    destruct (IH (with_heap h1 st)) as (h2 & Hrun & Hc2 & Hv2 & Hin2 & Hout2).
    { stsimp. intros y Hy. eapply content_is_Some; [apply Hc1 |].
      apply Hex, list_elem_of_further, Hy. }
    stsimp. exists h2. split; [| split; [| split; [| split]]].
    + cbn [for_each]. mstep (update_ok _ _ _ (set_open (Some true)) Hn). fold h1.
      rewrite Hrun. reflexivity.
    + intros b. rewrite Hc2. apply Hc1.
    + intros b. rewrite Hv2. apply (visited_at_open _ _ _ _ Hn).
    + intros b Hb. destruct (decide (b ∈ l)) as [Hbl | Hbl]; [apply Hin2, Hbl |].
      apply elem_of_cons in Hb as [-> | Hb]; [| contradiction].
      unfold open_at. rewrite Hout2 by exact Hbl. apply (open_at_write_eq _ _ _ Hn).
    + intros b Hb. apply not_elem_of_cons in Hb as [Hbx Hb].
      rewrite Hout2 by exact Hb. unfold h1. apply lookup_write_ne. congruence.
Qed.

Lemma select_node_flags st d a i l rd fc :
  tree_node_dict st = Some d -> dict_get d i = Some a ->
  ancestry (heap st) d a l -> (length l <= 2 + length d)%nat -> NoDup l ->
  tree_raw_data st = Some rd -> rd_root rd ∈ l ->
  selected_node_id st <> Some i ->
  exists st',
    select_node i fc st = (Ok (Some a), st')
    /\ selected_node_id st' = Some i
    /\ option_map rd_selected_node_id (tree_raw_data st') = Some (Some i)
    /\ visited_at (heap st') a = Some true
    /\ (forall x, x ∈ l -> x <> a -> open_at (heap st') x = Some true)
    /\ open_at (heap st') (rd_root rd) = Some true
    /\ (a <> rd_root rd -> open_at (heap st') a = open_at (heap st) a)
    /\ (forall x, x ∉ l -> heap st' !! x = heap st !! x)
    /\ (forall x, content_at (heap st') x = content_at (heap st) x)
    /\ fired st'
       = (fired st ++ ev_pre_selection_updated
            :: (if fc then [ev_selection_updated] else []))%list.
Proof.
  intros Hd Hg Hanc Hlen Hnd Hrd Hroot Hsel.
  pose proof (ancestry_exists _ _ _ _ Hanc) as Hex.
  destruct (ancestry_last _ _ _ _ Hanc) as [l0 Hl0].
  assert (Hal : a ∈ l).
  { rewrite Hl0. apply elem_of_app. right. apply list_elem_of_here. }
  assert (Hal0 : a ∉ l0).
  { rewrite Hl0 in Hnd. apply NoDup_app in Hnd as (_ & Hdis & _).
    intros H. apply (Hdis a H). apply list_elem_of_here. }
  destruct (Hex a Hal) as [n Hn].
  set (st1 := with_selected (Some i) (with_fired (fired st ++ [ev_pre_selection_updated]) st)).
  set (h1 := <[a := set_visited (Some true) n]> (heap st)).
  assert (Hc1 : forall b, content_at h1 b = content_at (heap st) b).
  { intros b. unfold h1. eapply content_at_write; eauto. }
  set (st2 := with_raw (Some (mkRaw (rd_root rd) (Some i) (rd_chapters rd)
                                    (rd_generation_settings rd)))
                (with_heap h1 st1)).
  assert (Hanc2 : ancestry (heap st2) d a l).
  { unfold st2. stsimp. eapply ancestry_ext; [exact Hanc |]. intros b Hb. split.
    - eapply content_is_Some; [apply Hc1 | apply Hex, Hb].
    - apply content_parent_id, Hc1. }
  destruct (open_all_flags l0 st2) as (h2 & Hrun2 & Hc2 & Hv2 & Hin2 & Hout2).
  { intros x Hx. unfold st2. stsimp. eapply content_is_Some; [apply Hc1 |].
    apply Hex. rewrite Hl0. apply elem_of_app. left. exact Hx. }
  assert (Hheap2 : heap st2 = h1) by reflexivity.
  assert (Hr2 : is_Some (h2 !! rd_root rd)).
  { eapply content_is_Some; [apply Hc2 |]. rewrite Hheap2.
    eapply content_is_Some; [apply Hc1 | apply Hex, Hroot]. }
  destruct Hr2 as [rn Hrn].
  set (h3 := <[rd_root rd := set_open (Some true) rn]> h2).
  assert (Hc3 : forall b, content_at h3 b = content_at (heap st) b).
  { intros b. unfold h3. erewrite content_at_write; eauto.
    rewrite Hc2, Hheap2. apply Hc1. }
  set (st3 := with_heap h3 (with_heap h2 st2)).
  set (ev := if fc then [ev_selection_updated] else []).
  set (st4 := with_fired (fired st3 ++ ev) st3).
  exists st4.
  assert (Hrun : select_node i fc st = (Ok (Some a), st4)).
  { unfold select_node. mget.
    rewrite (bool_decide_eq_true_2 _ Hsel).
    rewrite Hd, (dict_get_truthy _ _ _ Hg). unfold dict_has. rewrite Hg. simpl.
    unfold pre_selection_updated, fire. mmod. mmod. fold st1.
    rewrite (bind_ok _ _ _ _ _ (selected_node_ok st1 d i Hd eq_refl)). cbv beta.
    rewrite Hg. unfold not_none. mret.
    mstep (update_ok st1 a n (set_visited (Some true)) Hn).
    change (<[a := set_visited (Some true) n]> (heap st1)) with h1.
    unfold set_raw_selected. mget. unfold st1 at 1. stsimp. rewrite Hrd. mmod.
    fold st2.
    mstep (node_ancestry_spec st2 d a l Hanc2 Hlen).
    rewrite Hl0 at 1. rewrite removelast_last. mstep Hrun2.
    unfold raw_root. mget. unfold st2 at 1. stsimp. mret.
    mstep (update_ok (with_heap h2 st2) (rd_root rd) rn (set_open (Some true)) Hrn).
    change (<[rd_root rd := set_open (Some true) rn]> (heap (with_heap h2 st2))) with h3.
    fold st3.
    assert (Hfin : forall s, tree_node_dict s = Some d -> selected_node_id s = Some i ->
              selected_node s = (Ok (Some a), s)).
    { intros s H1 H2. rewrite (selected_node_ok s d i H1 H2), Hg. reflexivity. }
    destruct fc; simpl when.
    - unfold selection_updated, fire. mmod. apply Hfin; reflexivity || exact Hd.
    - mret. assert (st4 = st3) as ->.
      { unfold st4, ev. rewrite app_nil_r. destruct st3; reflexivity. }
      apply Hfin; reflexivity || exact Hd. }
  split; [exact Hrun |].
  assert (Hheap4 : heap st4 = h3) by reflexivity.
  assert (Ha2 : h2 !! a = h1 !! a).
  { rewrite Hout2 by exact Hal0. reflexivity. }
  split; [reflexivity |]. split; [reflexivity |]. rewrite Hheap4.
  split; [| split; [| split; [| split; [| split; [| split]]]]].
  - unfold visited_at, h3. destruct (decide (rd_root rd = a)) as [Hra | Hra].
    + rewrite Hra in *. rewrite (lookup_write_eq _ _ _ _ Hrn). simpl.
      rewrite Ha2 in Hrn. unfold h1 in Hrn.
      rewrite (lookup_write_eq _ _ _ _ Hn) in Hrn. injection Hrn as <-. reflexivity.
    + rewrite lookup_write_ne by exact Hra. rewrite Ha2. unfold h1.
      rewrite (lookup_write_eq _ _ _ _ Hn). reflexivity.
  - intros x Hx Hxa. assert (Hx0 : x ∈ l0).
    { rewrite Hl0 in Hx. apply elem_of_app in Hx as [Hx | Hx]; [exact Hx |].
      apply list_elem_of_singleton in Hx. contradiction. }
    unfold h3. destruct (decide (rd_root rd = x)) as [<- | Hrx].
    + apply (open_at_write_eq _ _ _ Hrn).
    + unfold open_at. rewrite lookup_write_ne by exact Hrx. apply Hin2, Hx0.
  - apply (open_at_write_eq _ _ _ Hrn).
  - intros Har. unfold open_at, h3. rewrite lookup_write_ne by congruence.
    rewrite Ha2. fold (open_at h1 a). unfold h1. apply (open_at_visited _ _ _ _ Hn).
  - intros x Hx. unfold h3. rewrite lookup_write_ne by (intros <-; contradiction).
    rewrite Hout2.
    + rewrite Hheap2. unfold h1. apply lookup_write_ne. intros <-. contradiction.
    + intros Hx0. apply Hx. rewrite Hl0. apply elem_of_app. left. exact Hx0.
  - exact Hc3.
  - unfold st4, st3, st2, st1, ev. stsimp. rewrite <- app_assoc. reflexivity.
Qed.

(** X10: in a well-formed model [select_node] on the id of a node that is
    not selected makes it the selection, in the model and in the stored
    document, marks it visited, opens every node on the path from the
    root above it (the root always, the node itself not) and returns it;
    no other node and no text, id or list of children is written.  The
    callbacks of [pre_selection_updated] run, and those of
    [selection_updated] when they are asked for.  On the id that is
    selected already, or on an id that the index does not hold, it
    returns [None] and does nothing. *)
Theorem select_node_opens_path (st : TreeModel) (t : rtree) (a : addr) (i : string)
    (fc : bool) :
  tree_ok st t -> a ∈ preorder t -> id_at (heap st) a = Some i ->
  (selected_node_id st = Some i -> select_node i fc st = (Ok None, st))
  /\ (forall j, dict_has (tree_node_dict st) j = false ->
        select_node j fc st = (Ok None, st))
  /\ (selected_node_id st <> Some i ->
      exists l st',
        node_ancestry a (tree_node_dict st) st = (Ok l, st)
        /\ select_node i fc st = (Ok (Some a), st')
        /\ selected_node_id st' = Some i
        /\ option_map rd_selected_node_id (tree_raw_data st') = Some (Some i)
        /\ visited_at (heap st') a = Some true
        /\ (forall x, x ∈ l -> x <> a -> open_at (heap st') x = Some true)
        /\ open_at (heap st') (raddr t) = Some true
        /\ (a <> raddr t -> open_at (heap st') a = open_at (heap st) a)
        /\ (forall x, x ∉ l -> heap st' !! x = heap st !! x)
        /\ (forall x, content_at (heap st') x = content_at (heap st) x)
        /\ fired st'
           = (fired st ++ ev_pre_selection_updated
                :: (if fc then [ev_selection_updated] else []))%list).
Proof.
  intros Hok Ha Hi. pose proof Hok as [Hraw Ht Hlk Hidx].
  split; [| split].
  - intros Hsel. unfold select_node. mget.
    rewrite bool_decide_eq_false_2 by (intros H; apply H, Hsel). reflexivity.
  - intros j Hj. unfold select_node. mget. rewrite Hj.
    rewrite andb_false_r. reflexivity.
  - intros Hsel.
    destruct (tree_ok_root_exists st t Hok) as (rd & Hrd & Hroot & _).
    destruct (tree_ancestry _ _ a Ht Hlk Ha) as (l & Hanc & Hlen).
    destruct (ancestry_path st t a l Hok Ha Hanc) as (Hhd & _ & _ & _).
    assert (Hrl : rd_root rd ∈ l).
    { rewrite Hroot. destruct l as [|x l]; [discriminate |].
      injection Hhd as ->. apply list_elem_of_here. }
    destruct (select_node_flags st _ a i l rd fc Hidx) as (st' & H); auto.
    + apply dict_get_index_of; auto.
      * intros x Hx. eapply tree_in_keys_id; eauto.
      * apply (ti_ids _ _ Ht).
    + eapply ancestry_nodup; eauto.
    + exists l, st'. rewrite <- Hroot.
      split; [rewrite Hidx; apply node_ancestry_spec; assumption | exact H].
Qed.

(** ** [select_parent] *)

(** X11: in a well-formed model [select_parent] on the root returns
    [None] and does nothing; on any other node it selects the node's
    parent, and the model stays well formed with the same tree. *)
Theorem select_parent_stops_at_root (st : TreeModel) (t : rtree) (node : option addr)
    (a : addr) :
  tree_ok st t -> a ∈ preorder t -> names st node a ->
  (a = raddr t -> select_parent node st = (Ok None, st))
  /\ (a <> raddr t ->
      exists p cs r st',
        p ∈ preorder t /\ children_at (heap st) p = Some cs /\ a ∈ cs
        /\ select_parent node st = (Ok r, st')
        /\ selected_node_id st' = id_at (heap st) p
        /\ is_Some (selected_node_id st')
        /\ (forall x, content_at (heap st') x = content_at (heap st) x)
        /\ tree_ok st' t).
Proof.
  intros Hok Ha Hnames.
  destruct (tree_ok_node st t a Hok Ha) as (n & i & Hn & _ & Htr & _).
  assert (Hstart : select_parent node st
            = match n_parent_id n with
              | Some pid => select_node pid true st
              | None => (Ok None, st)
              end).
  { unfold select_parent. mstep (or_selected_names st t node a Hok Ha Hnames).
    mstep (read_ok _ _ _ Hn). rewrite Htr. destruct (n_parent_id n); reflexivity. }
  rewrite Hstart. split.
  - intros ->. pose proof (ti_root _ _ (ok_tree _ _ Hok)) as Hr.
    unfold parent_id_at in Hr. rewrite Hn in Hr. rewrite Hr. reflexivity.
  - intros Hne.
    destruct (tree_ok_parent st t a Hok Ha Hne) as (p & pid & cs & k & Hp & Hpa & Hpid & _ & Hcs & Hk).
    rewrite (read_parent_id _ _ _ _ Hn Hpa).
    destruct (select_node_tree_ok st t p pid true Hok Hp Hpid)
      as (r & st' & Hrun & Hsel & Hpost & Hok').
    exists p, cs, r, st'. split; [exact Hp |]. split; [exact Hcs |].
    split; [eapply list_elem_of_lookup_2; eauto |].
    split; [exact Hrun |]. split; [congruence |]. split; [rewrite Hsel; eauto |].
    split; [apply (sp_content _ _ Hpost) | exact Hok'].
Qed.

(** * What the refresh and the selection never write *)

(** ** Frames of computations *)

Lemma bind_ok_inv {A B : Type} (m : M A) (k : A -> M B) st r st' :
  bind m k st = (Ok r, st') -> exists a s, m st = (Ok a, s) /\ k a s = (Ok r, st').
Proof.
  unfold bind. destruct (m st) as [[a | e |] s]; intros H; [eauto | discriminate..].
Qed.

Lemma frame_bind {A B : Type} (R : TreeModel -> TreeModel -> Prop)
    (m : M A) (k : A -> M B) st :
  (forall x y z, R x y -> R y z -> R x z) ->
  R st (snd (m st)) ->
  (forall a s, m st = (Ok a, s) -> R s (snd (k a s))) ->
  R st (snd (bind m k st)).
Proof.
  intros Htr Hm Hk. unfold bind. destruct (m st) as [[a | e |] s] eqn:E; simpl in *;
    [eapply Htr; [exact Hm | apply Hk; reflexivity] | exact Hm..].
Qed.

Lemma frame_for_each {A B : Type} (R : TreeModel -> TreeModel -> Prop)
    (l : list A) (body : A -> B -> M B) :
  (forall x, R x x) -> (forall x y z, R x y -> R y z -> R x z) ->
  (forall x acc st, R st (snd (body x acc st))) ->
  forall acc st, R st (snd (for_each l body acc st)).
Proof.
  intros Hrefl Htr Hbody. induction l as [|x l IH]; intros acc st.
  - apply Hrefl.
  - cbn [for_each]. apply frame_bind; [exact Htr | apply Hbody |]. intros a s _. apply IH.
Qed.

Lemma reads_only_frame {A : Type} (R : TreeModel -> TreeModel -> Prop) (m : M A) st :
  (forall x, R x x) -> reads_only m -> R st (snd (m st)).
Proof. intros Hrefl Hm. rewrite Hm. apply Hrefl. Qed.

Lemma reads_only_bind {A B : Type} (m : M A) (k : A -> M B) :
  reads_only m -> (forall a, reads_only (k a)) -> reads_only (bind m k).
Proof.
  intros Hm Hk st. unfold bind. specialize (Hm st).
  destruct (m st) as [[a | e |] s]; simpl in *; subst; [apply Hk | reflexivity..].
Qed.

Lemma reads_only_ret {A : Type} (a : A) : reads_only (ret a).
Proof. intros st. reflexivity. Qed.

Lemma reads_only_raise {A : Type} (e : exn) : reads_only (@raise A e).
Proof. intros st. reflexivity. Qed.

Lemma reads_only_read a : reads_only (read a).
Proof. intros st. unfold read. destruct (heap st !! a); reflexivity. Qed.

Lemma reads_only_key {A : Type} (o : option A) : reads_only (key o).
Proof. destruct o; intros st; reflexivity. Qed.

Lemma reads_only_not_none {A : Type} (o : option A) : reads_only (not_none o).
Proof. destruct o; intros st; reflexivity. Qed.

Lemma reads_only_get_id a : reads_only (get_id a).
Proof.
  apply reads_only_bind; [apply reads_only_read | intros n; apply reads_only_key].
Qed.

Lemma reads_only_get_text a : reads_only (get_text a).
Proof.
  apply reads_only_bind; [apply reads_only_read | intros n; apply reads_only_key].
Qed.

Lemma reads_only_get_children a : reads_only (get_children a).
Proof.
  apply reads_only_bind; [apply reads_only_read | intros n; apply reads_only_key].
Qed.

Lemma reads_only_dict_lookup d k : reads_only (dict_lookup d k).
Proof. destruct d; [apply reads_only_key | apply reads_only_raise]. Qed.

Lemma reads_only_get : reads_only get.
Proof. intros st. reflexivity. Qed.

Lemma reads_only_for_each {A B : Type} (l : list A) (body : A -> B -> M B) :
  (forall x acc, reads_only (body x acc)) -> forall acc, reads_only (for_each l body acc).
Proof.
  intros Hbody. induction l as [|x l IH]; intros acc; [apply reads_only_ret |].
  cbn [for_each]. apply reads_only_bind; [apply Hbody | intros a; apply IH].
Qed.

Lemma reads_only_build_dict flat : reads_only (build_dict flat).
Proof.
  apply reads_only_for_each. intros x acc.
  apply reads_only_bind; [apply reads_only_get_id | intros i; apply reads_only_ret].
Qed.

Lemma reads_only_selected_node : reads_only selected_node.
Proof.
  intros st. unfold selected_node, bind, get.
  destruct (tree_node_dict st), (selected_node_id st); reflexivity.
Qed.

Lemma reads_only_nodes : reads_only nodes.
Proof. intros st. reflexivity. Qed.

Lemma reads_only_raw_root : reads_only raw_root.
Proof. intros st. unfold raw_root, bind, get. destruct (tree_raw_data st); reflexivity. Qed.

Lemma reads_only_ancestry_loop nd fuel : forall node acc,
  reads_only (node_ancestry_loop fuel nd node acc).
Proof.
  induction fuel as [|fuel IH]; intros node acc; [intros st; reflexivity |].
  cbn [node_ancestry_loop]. apply reads_only_bind; [apply reads_only_read |].
  intros n. destruct (n_parent_id n); [| apply reads_only_ret].
  apply reads_only_bind; [apply reads_only_dict_lookup | intros p; apply IH].
Qed.

Lemma reads_only_node_ancestry node nd : reads_only (node_ancestry node nd).
Proof. apply reads_only_ancestry_loop. Qed.

Lemma read_inv a st n s : read a st = (Ok n, s) -> s = st /\ heap st !! a = Some n.
Proof. unfold read. destruct (heap st !! a); intros H; inversion H; auto. Qed.

(** ** The refresh *)

Lemma refreshed_refl st : refreshed st st.
Proof. constructor; auto. exists []. rewrite app_nil_r. reflexivity. Qed.

Lemma refreshed_trans st1 st2 st3 :
  refreshed st1 st2 -> refreshed st2 st3 -> refreshed st1 st3.
Proof.
  intros [A1 A2 A3 A4 A5 A6 A7 A8 [l1 H1] A10 A11] [B1 B2 B3 B4 B5 B6 B7 B8 [l2 H2] B10 B11].
  constructor; try congruence; auto; try lia.
  exists (l1 ++ l2)%list. rewrite H2, H1, app_assoc. reflexivity.
Qed.

Lemma refreshed_write st a n n' :
  heap st !! a = Some n -> steady n' = steady n ->
  (forall i, n_id n = Some i -> n_id n' = Some i) ->
  (forall s, n_text n = Some s -> has_miro_markup s = false -> n_text n' = Some s) ->
  (n_text n = None -> n_text n' = None) ->
  refreshed st (with_heap (<[a := n']> (heap st)) st).
Proof.
  intros Hn Hst Hid Htx Hno. constructor; stsimp; auto.
  - apply length_insert.
  - intros b. unfold steady_at. destruct (decide (a = b)) as [-> | Hne].
    + rewrite (lookup_write_eq _ _ _ _ Hn), Hn. simpl. congruence.
    + rewrite lookup_write_ne by exact Hne. reflexivity.
  - intros b i. unfold id_at. destruct (decide (a = b)) as [-> | Hne].
    + rewrite (lookup_write_eq _ _ _ _ Hn), Hn. apply Hid.
    + rewrite lookup_write_ne by exact Hne. auto.
  - intros b s. unfold text_at. destruct (decide (a = b)) as [-> | Hne].
    + rewrite (lookup_write_eq _ _ _ _ Hn), Hn. apply Htx.
    + rewrite lookup_write_ne by exact Hne. auto.
  - intros b. unfold text_at. destruct (decide (a = b)) as [-> | Hne].
    + rewrite (lookup_write_eq _ _ _ _ Hn), Hn. apply Hno.
    + rewrite lookup_write_ne by exact Hne. auto.
  - exists []. rewrite app_nil_r. reflexivity.
Qed.

Lemma refreshed_update a f st :
  (forall n, steady (f n) = steady n /\ n_id (f n) = n_id n /\ n_text (f n) = n_text n) ->
  refreshed st (snd (update a f st)).
Proof.
  intros Hf. unfold update, bind, read, modify.
  destruct (heap st !! a) as [n|] eqn:Hn; simpl; [| apply refreshed_refl].
  destruct (Hf n) as (H1 & H2 & H3).
  apply (refreshed_write st a n (f n) Hn H1); intros; congruence.
Qed.

Lemma refreshed_clock st c :
  (uuid_clock st <= c)%nat -> refreshed st (with_clock c st).
Proof.
  intros Hc. constructor; stsimp; auto. exists []. rewrite app_nil_r. reflexivity.
Qed.

Lemma refreshed_dict st d : refreshed st (with_dict d st).
Proof. constructor; stsimp; auto. exists []. rewrite app_nil_r. reflexivity. Qed.

Lemma refreshed_fired st l : refreshed st (with_fired (fired st ++ l)%list st).
Proof. constructor; stsimp; auto. exists l. reflexivity. Qed.

Section RefreshFrame.

Variable uuid1 : nat -> string.
Variable html2text_handle : string -> string.

Lemma stamp_id_refreshed d n st :
  heap st !! d = Some n ->
  refreshed st
    (snd ((match n_id n with
           | Some i => ret i
           | None => let* u := str_uuid1 uuid1 in update d (set_id (Some u)) ;;; ret u
           end) st)).
Proof.
  intros Hn. destruct (n_id n) as [i|] eqn:Hid; [apply refreshed_refl |].
  mstep (eq_refl (str_uuid1 uuid1 st)).
  mstep (update_ok (with_clock (S (uuid_clock st)) st) d n
           (set_id (Some (uuid1 (uuid_clock st)))) Hn).
  unfold ret. cbn [snd]. stsimp.
  eapply refreshed_trans; [apply (refreshed_clock st (S (uuid_clock st))); lia |].
  apply (refreshed_write (with_clock (S (uuid_clock st)) st) d n); auto.
  rewrite Hid. discriminate.
Qed.

Lemma flatten_rec_refreshed (depth : nat) : forall d st,
  refreshed st (snd (flatten_tree_rec uuid1 depth d st)).
Proof.
  induction depth as [|depth IH]; intros d st; [apply refreshed_refl |].
  cbn [flatten_tree_rec].
  apply frame_bind; [exact refreshed_trans | |].
  { apply reads_only_frame; [exact refreshed_refl | apply reads_only_read]. }
  intros n s Hread. apply read_inv in Hread as [-> Hn].
  apply frame_bind; [exact refreshed_trans | apply stamp_id_refreshed, Hn |].
  intros id s _. cbv zeta.
  apply frame_bind; [exact refreshed_trans | | intros; apply refreshed_refl].
  apply frame_for_each; [exact refreshed_refl | exact refreshed_trans |].
  intros child flat s'.
  apply frame_bind; [exact refreshed_trans | |].
  { apply refreshed_update. intros m. auto. }
  intros _ s1 _.
  apply frame_bind; [exact refreshed_trans | apply IH | intros; apply refreshed_refl].
Qed.

Lemma flatten_tree_refreshed d st : refreshed st (snd (flatten_tree uuid1 d st)).
Proof. unfold flatten_tree. rewrite bind_get. apply flatten_rec_refreshed. Qed.

(** The sanitizer rewrites a text only where it carries paragraph markup. *)
Lemma fix_miro_node_refreshed (idx : pydict) (d : addr) st :
  refreshed st (snd (fix_miro_node html2text_handle idx d st)).
Proof.
  unfold fix_miro_node. unfold bind at 1. unfold read.
  destruct (heap st !! d) as [n|] eqn:Hn; [| apply refreshed_refl].
  destruct (n_text n) as [s|] eqn:Hs; [| apply refreshed_refl].
  destruct (has_miro_markup s) eqn:Hm; cbn [negb]; [| apply refreshed_refl].
  set (t' := rstrip_spaces (strip_newline_pair (replace_nlnl (html2text_handle s)))).
  set (n1 := set_text (Some t') n).
  set (h1 := <[d := n1]> (heap st)).
  assert (Hn1 : h1 !! d = Some n1) by (apply (lookup_write_eq _ _ _ _ Hn)).
  assert (Hw : forall x, refreshed st (with_heap (<[d := set_text (Some x) n]> (heap st)) st)).
  { intros x. apply (refreshed_write st d n); auto.
    - intros s0 Hs0 Hm0. congruence.
    - congruence. }
  rewrite (bind_ok _ _ _ _ _ (update_ok st d n (set_text (Some t')) Hn)).
  fold n1 h1. cbv beta.
  destruct (startswith t' nl); [apply Hw |].
  assert (Hfinal : forall b : bool,
            refreshed st (snd (when b (update d (set_text (Some (String space t'))))
                                 (with_heap h1 st)))).
  { intros [|]; simpl when; [| apply Hw].
    rewrite (update_ok (with_heap h1 st) d n1 _ Hn1). stsimp. unfold h1.
    rewrite list_insert_insert_eq. apply Hw. }
  unfold bind at 1.
  destruct (n_parent_id n) as [pid|].
  - unfold bind at 1. unfold key at 1. destruct (dict_get idx pid) as [p|]; [| apply Hw].
    unfold ret at 1. cbv beta iota. unfold bind at 1.
    pose proof (reads_only_get_text p (with_heap h1 st)) as Hpure.
    destruct (get_text p (with_heap h1 st)) as [[pt | e |] s1]; simpl in Hpure; subst s1;
      [| apply Hw | apply Hw].
    unfold ret at 1. cbv beta iota. apply Hfinal.
  - unfold ret at 1. cbv beta iota. apply Hfinal.
Qed.

Lemma fix_miro_tree_refreshed flat st :
  refreshed st (snd (fix_miro_tree html2text_handle flat st)).
Proof.
  unfold fix_miro_tree.
  apply frame_bind; [exact refreshed_trans | |].
  { apply reads_only_frame; [exact refreshed_refl | apply reads_only_not_none]. }
  intros l s _.
  apply frame_bind; [exact refreshed_trans | |].
  { apply reads_only_frame; [exact refreshed_refl | apply reads_only_build_dict]. }
  intros idx s1 _.
  apply frame_for_each; [exact refreshed_refl | exact refreshed_trans |].
  intros x acc s2. apply fix_miro_node_refreshed.
Qed.

Lemma tree_updated_refreshed (rebuild_dict : bool) st :
  refreshed st (snd (tree_updated uuid1 html2text_handle rebuild_dict st)).
Proof.
  unfold tree_updated. rewrite bind_get.
  apply frame_bind; [exact refreshed_trans | |].
  - destruct (tree_raw_data st) as [rd|]; [| apply refreshed_refl].
    destruct rebuild_dict; [| apply refreshed_refl].
    apply frame_bind; [exact refreshed_trans | apply flatten_tree_refreshed |].
    intros flat s1 _.
    apply frame_bind; [exact refreshed_trans | |].
    { apply reads_only_frame; [exact refreshed_refl | apply reads_only_build_dict]. }
    intros d s2 _.
    apply frame_bind; [exact refreshed_trans | apply refreshed_dict |].
    intros _ s3 _.
    apply frame_bind; [exact refreshed_trans | |].
    { apply reads_only_frame; [exact refreshed_refl | apply reads_only_nodes]. }
    intros ns s4 _. apply fix_miro_tree_refreshed.
  - intros _ s _. unfold fire, modify. simpl. apply refreshed_fired.
Qed.

End RefreshFrame.

(** X12: whatever the store holds and whether it returns or raises,
    [tree_updated] never writes a list of children, a flag [open] or
    [visited], an [active_text] or a chapter id, never replaces an id that
    is there, never adds or removes a node, and changes a text only where
    it carries paragraph markup; the selection, the document dictionary,
    the queue and the workers stay as they are. *)
Theorem tree_updated_writes_stamps_only
    (uuid1 : nat -> string) (html2text_handle : string -> string)
    (rebuild_dict : bool) (st : TreeModel) :
  refreshed st (snd (tree_updated uuid1 html2text_handle rebuild_dict st)).
Proof. apply tree_updated_refreshed. Qed.

(** ** The selection *)

Lemma selected_post_update a f st :
  (forall n, content (f n) = content n) -> selected_post st (snd (update a f st)).
Proof.
  intros Hf. unfold update, bind, read, modify.
  destruct (heap st !! a) as [n|] eqn:Hn; simpl; [| apply selected_post_refl].
  constructor; stsimp; auto.
  - apply length_insert.
  - intros b. eapply content_at_write; eauto.
Qed.

Lemma select_node_selected_post (node_id : string) (fire_callbacks : bool) st :
  selected_post st (snd (select_node node_id fire_callbacks st)).
Proof.
  unfold select_node. rewrite bind_get.
  destruct (bool_decide (selected_node_id st <> Some node_id)
            && dict_truthy (tree_node_dict st) && dict_has (tree_node_dict st) node_id);
    [| apply selected_post_refl].
  assert (Hfire : forall e s, selected_post s (snd (fire e s))).
  { intros e s. unfold fire, modify. simpl. constructor; stsimp; auto. }
  apply frame_bind; [exact selected_post_trans | apply Hfire |]. intros _ s1 _.
  apply frame_bind; [exact selected_post_trans | |].
  { unfold modify. simpl. constructor; stsimp; auto. }
  intros _ s2 _.
  apply frame_bind; [exact selected_post_trans | |].
  { apply reads_only_frame; [exact selected_post_refl | apply reads_only_selected_node]. }
  intros sel s3 _.
  apply frame_bind; [exact selected_post_trans | |].
  { apply reads_only_frame; [exact selected_post_refl | apply reads_only_not_none]. }
  intros a s4 _.
  apply frame_bind; [exact selected_post_trans | |].
  { apply selected_post_update. intros n. reflexivity. }
  intros _ s5 _.
  apply frame_bind; [exact selected_post_trans | |].
  { unfold set_raw_selected. rewrite bind_get.
    destruct (tree_raw_data s5) as [rd|] eqn:Hrd; [| apply selected_post_refl].
    unfold modify. simpl. constructor; stsimp; auto; rewrite Hrd; reflexivity. }
  intros _ s6 _.
  apply frame_bind; [exact selected_post_trans | |].
  { apply reads_only_frame; [exact selected_post_refl | apply reads_only_node_ancestry]. }
  intros anc s7 _.
  apply frame_bind; [exact selected_post_trans | |].
  { apply frame_for_each; [exact selected_post_refl | exact selected_post_trans |].
    intros x acc s. apply selected_post_update. intros n. reflexivity. }
  intros _ s8 _.
  apply frame_bind; [exact selected_post_trans | |].
  { apply reads_only_frame; [exact selected_post_refl | apply reads_only_raw_root]. }
  intros r s9 _.
  apply frame_bind; [exact selected_post_trans | |].
  { apply selected_post_update. intros n. reflexivity. }
  intros _ s10 _.
  apply frame_bind; [exact selected_post_trans | |].
  { destruct fire_callbacks; simpl when; [apply Hfire | apply selected_post_refl]. }
  intros _ s11 _.
  apply reads_only_frame; [exact selected_post_refl | apply reads_only_selected_node].
Qed.

(** ** Depth and ancestry *)

(** X3: [depth] is the length of the path of [node_ancestry] less one, and
    neither of the two changes the store.  Where [node_ancestry] raises,
    on a parent id that the index does not resolve, [depth] raises the
    same exception; where the loop of [node_ancestry] runs for ever, on
    parents that form a cycle, the recursion of [depth] ends in
    [RecursionError].  The recursion of [depth] is given the depth that
    the index has entries: a chain of parents without a cycle is never
    cut short. *)
Theorem depth_follows_ancestry (node : addr) (node_dict : option pydict) (st : TreeModel) :
  match node_ancestry node node_dict st with
  | (Ok l, s) => s = st /\ util_tree.depth node node_dict st = (Ok (length l - 1)%nat, st)
  | (Raise e, s) => s = st /\ util_tree.depth node node_dict st = (Raise e, st)
  | (Diverge, s) =>
      s = st /\ util_tree.depth node node_dict st = (Raise RecursionError, st)
  end.
Proof.
  pose proof (reads_only_node_ancestry node node_dict st) as Hst.
  unfold node_ancestry, util_tree.depth in *.
  pose proof (depth_loop node_dict (2 + length (default [] node_dict)) node [node] st) as H.
  destruct (node_ancestry_loop _ node_dict node [node] st) as [[l | e |] st1];
    simpl in Hst; (split; [exact Hst |]); [| exact H..].
  destruct H as (pre & -> & Hrun). rewrite Hrun, length_app. simpl.
  do 2 f_equal. lia.
Qed.

(** * What the edits do to the tree *)

(** ** Looking a node up by its id *)

Lemma get_node_of_id st t a i :
  tree_ok st t -> a ∈ preorder t -> id_at (heap st) a = Some i ->
  get_node (Some i) st = (Ok (Some a), st).
Proof.
  intros Hok Ha Hi. pose proof Hok as [_ Ht _ Hidx].
  destruct (tree_index_lookup _ _ a Ht Ha) as (i' & Hi' & Hget).
  assert (i' = i) as -> by congruence.
  unfold get_node. mget. rewrite Hidx. cbn [dict_has].
  rewrite (dict_get_truthy _ _ _ Hget), Hget. cbn [has_key andb].
  unfold dict_lookup, key. rewrite Hget. reflexivity.
Qed.

Lemma get_node_inv st t i a st' :
  tree_ok st t -> get_node (Some i) st = (Ok (Some a), st') ->
  a ∈ preorder t /\ id_at (heap st) a = Some i.
Proof.
  intros Hok. pose proof Hok as [_ Ht _ Hidx].
  unfold get_node. mget. rewrite Hidx. cbn [dict_has].
  destruct (dict_get (index_of (heap st) (preorder t)) i) as [b|] eqn:Hget.
  - rewrite (dict_get_truthy _ _ _ Hget). cbn [has_key andb].
    unfold dict_lookup, key. rewrite Hget. intros H. inversion H; subst.
    apply dict_get_index_of_inv in Hget; [exact Hget |].
    intros x Hx. eapply tree_in_keys_id; eauto.
  - rewrite andb_false_r. intros H. inversion H.
Qed.

Lemma get_node_unknown st t i :
  tree_ok st t -> (forall b, b ∈ preorder t -> id_at (heap st) b <> Some i) ->
  get_node (Some i) st = (Ok None, st).
Proof.
  intros Hok Hno. pose proof Hok as [_ Ht _ Hidx].
  unfold get_node. mget. rewrite Hidx. cbn [dict_has].
  destruct (dict_get (index_of (heap st) (preorder t)) i) as [b|] eqn:Hget.
  - apply dict_get_index_of_inv in Hget as [Hb Hi].
    + exfalso. apply (Hno b Hb Hi).
    + intros x Hx. eapply tree_in_keys_id; eauto.
  - rewrite andb_false_r. reflexivity.
Qed.

(** The nodes of a tree have different ids. *)
Lemma tree_ok_id_inj st t a b i :
  tree_ok st t -> a ∈ preorder t -> b ∈ preorder t ->
  id_at (heap st) a = Some i -> id_at (heap st) b = Some i -> a = b.
Proof.
  intros Hok Ha Hb Hia Hib.
  eapply (NoDup_map_inj_on (id_at (heap st)) (preorder t)); eauto.
  - apply (ti_ids _ _ (ok_tree _ _ Hok)).
  - congruence.
Qed.

Section AddNodes.

Variable uuid1 : nat -> string.
Variable html2text_handle : string -> string.

(** ** [create_child] and [create_sibling] *)

(** X13: in a well-formed model [create_child] on a node [p] of the tree
    (the argument, or the selection when the argument is left out) returns
    a new node that it puts last among the children of [p]: the node has
    the next generated id, an empty text, no children and the id of [p] as
    parent id, and the index resolves its id to it.  The other nodes keep
    their ids and their children, the tree is the old one with the new
    leaf, the selection moves to the new node when it is asked for and
    stays otherwise, and the new node is opened when [expand] is set. *)
Theorem create_child_appends_leaf (st : TreeModel) (t : rtree) (node : option addr)
    (p : addr) (update_selection expand : bool) :
  tree_ok st t -> uuid_fresh uuid1 st -> p ∈ preorder t -> names st node p ->
  exists cs c st' t',
    children_at (heap st) p = Some cs
    /\ create_child uuid1 html2text_handle node update_selection expand st
       = (Ok (Some c), st')
    /\ (c ∉ preorder t)
    /\ tree_ok st' t' /\ raddr t' = raddr t
    /\ (forall b, b ∈ preorder t' <-> b = c \/ b ∈ preorder t)
    /\ children_at (heap st') p = Some (cs ++ [c])%list
    /\ id_at (heap st') c = Some (uuid1 (uuid_clock st))
    /\ text_at (heap st') c = Some ""%string
    /\ children_at (heap st') c = Some []
    /\ parent_id_at (heap st') c = id_at (heap st) p
    /\ get_node (Some (uuid1 (uuid_clock st))) st' = (Ok (Some c), st')
    /\ (forall b, b <> c -> id_at (heap st') b = id_at (heap st) b)
    /\ (forall b, b <> p -> b <> c -> children_at (heap st') b = children_at (heap st) b)
    /\ selected_node_id st'
       = (if update_selection then Some (uuid1 (uuid_clock st)) else selected_node_id st)
    /\ (expand = true -> open_at (heap st') c = Some true).
Proof.
  intros Hok Hfr Hp Hnames.
  destruct (tree_in_has_keys _ _ p (ok_tree _ _ Hok) Hp) as (pn & Hpn & _ & _ & [cs Hcs']).
  assert (Hcs : children_at (heap st) p = Some cs).
  { unfold children_at. rewrite Hpn. exact Hcs'. }
  destruct (create_child_run uuid1 html2text_handle st t node p cs update_selection expand
              Hok Hfr Hp Hnames Hcs)
    as (st' & t' & Hrun & Hok' & _ & Hin & Hroot & Hchp & Hcho & Hido & Hidc & Htxc & Hchc
        & _ & Hsel & Hop & _ & _).
  assert (Hc' : length (heap st) ∈ preorder t') by (apply Hin; auto).
  assert (Hp' : p ∈ preorder t') by (apply Hin; auto).
  assert (Hcp : length (heap st) <> p).
  { intros Heq. apply lookup_lt_Some in Hpn. lia. }
  exists cs, (length (heap st)), st', t'.
  split; [exact Hcs |]. split; [exact Hrun |].
  split; [apply alloc_not_in_tree, (ok_tree _ _ Hok) |].
  split; [exact Hok' |]. split; [exact Hroot |]. split; [exact Hin |].
  split; [exact Hchp |]. split; [exact Hidc |]. split; [exact Htxc |].
  split; [exact Hchc |].
  split.
  { rewrite (tree_ok_child st' t' p _ (length (heap st)) Hok' Hp' Hchp).
    - apply Hido. congruence.
    - apply elem_of_app. right. apply list_elem_of_here. }
  split; [apply (get_node_of_id st' t' _ _ Hok' Hc' Hidc) |].
  split; [exact Hido |]. split; [exact Hcho |]. split; [exact Hsel |].
  intros He. destruct (Hop He) as (n & Hn & Hopen). unfold open_at. rewrite Hn. exact Hopen.
Qed.

(** X14: in a well-formed model [create_sibling] on a node other than the
    root adds the new node at the end of the children of the node's
    parent, wherever the node stands among them, and opens it; on the
    root it raises [KeyError] and leaves the model as it is. *)
Theorem create_sibling_appends_last (st : TreeModel) (t : rtree) (node : option addr)
    (a : addr) (update_selection : bool) :
  tree_ok st t -> uuid_fresh uuid1 st -> a ∈ preorder t -> names st node a ->
  (a = raddr t ->
   create_sibling uuid1 html2text_handle node update_selection st = (Raise KeyError, st))
  /\ (a <> raddr t ->
      exists p cs c st' t',
        p ∈ preorder t /\ children_at (heap st) p = Some cs /\ a ∈ cs
        /\ create_sibling uuid1 html2text_handle node update_selection st = (Ok tt, st')
        /\ (c ∉ preorder t)
        /\ tree_ok st' t'
        /\ (forall b, b ∈ preorder t' <-> b = c \/ b ∈ preorder t)
        /\ children_at (heap st') p = Some (cs ++ [c])%list
        /\ id_at (heap st') c = Some (uuid1 (uuid_clock st))
        /\ text_at (heap st') c = Some ""%string
        /\ children_at (heap st') c = Some []
        /\ parent_id_at (heap st') c = parent_id_at (heap st) a
        /\ open_at (heap st') c = Some true
        /\ selected_node_id st'
           = (if update_selection then Some (uuid1 (uuid_clock st))
              else selected_node_id st)).
Proof.
  intros Hok Hfr Ha Hnames.
  destruct (edit_start st t node a Hok Ha Hnames) as [Hsel Hfalsy].
  split.
  - intros ->. destruct (tree_ok_node st t _ Hok Ha) as (n & i & Hn & _ & _ & _).
    pose proof (ti_root _ _ (ok_tree _ _ Hok)) as Hr.
    rewrite (parent_id_at_read _ _ _ Hn) in Hr.
    unfold create_sibling. mstep Hsel. mstep Hfalsy.
    apply bind_raise. apply (parent_root_raises st _ n Hn Hr).
  - intros Hr.
    destruct (tree_ok_parent st t a Hok Ha Hr) as (p & pid & cs0 & k & Hp & Hpa & Hpid & _ & Hcs0 & Hk).
    destruct (create_child_run uuid1 html2text_handle st t (Some p) p cs0 update_selection
                true Hok Hfr Hp (or_introl eq_refl) Hcs0)
      as (st' & t' & Hrun & Hok' & _ & Hin & _ & Hchp & _ & Hido & Hidc & Htxc & Hchc
          & _ & Hsel' & Hop & _ & _).
    assert (Hp' : p ∈ preorder t') by (apply Hin; auto).
    assert (Hcp : length (heap st) <> p).
    { intros Heq. destruct (tree_ok_node st t p Hok Hp) as (pn & i & Hpn & _).
      apply lookup_lt_Some in Hpn. lia. }
    exists p, cs0, (length (heap st)), st', t'.
    split; [exact Hp |]. split; [exact Hcs0 |].
    split; [eapply list_elem_of_lookup_2; eauto |].
    split.
    { unfold create_sibling. mstep Hsel. mstep Hfalsy.
      mstep (parent_ok st t a p pid Hok Ha Hp Hpa Hpid). mstep Hrun. reflexivity. }
    split; [apply alloc_not_in_tree, (ok_tree _ _ Hok) |].
    split; [exact Hok' |]. split; [exact Hin |].
    split; [exact Hchp |]. split; [exact Hidc |]. split; [exact Htxc |].
    split; [exact Hchc |].
    split.
    { rewrite (tree_ok_child st' t' p _ (length (heap st)) Hok' Hp' Hchp).
      - rewrite Hido by congruence. congruence.
      - apply elem_of_app. right. apply list_elem_of_here. }
    split; [| exact Hsel'].
    destruct (Hop eq_refl) as (n & Hn & Hopen). unfold open_at. rewrite Hn. exact Hopen.
Qed.

End AddNodes.

(** ** [create_parent] and [merge_with_parent] *)

Section Insert.

Variable uuid1 : nat -> string.
Variable html2text_handle : string -> string.

(** X15: in a well-formed model [create_parent] on a node [a] puts a new
    node, with the next generated id and an empty text, between [a] and
    its parent: [a] is its only child and carries its id as parent id; the
    new node stands where [a] stood among the children of the former
    parent and has the former parent id of [a].  Above the root the new
    node becomes the root of the document.  The selection stays, and no
    other list of children changes. *)
Theorem create_parent_inserts_above (st : TreeModel) (t : rtree) (node : option addr)
    (a : addr) :
  tree_ok st t -> uuid_fresh uuid1 st -> a ∈ preorder t -> names st node a ->
  exists c st' t',
    create_parent uuid1 html2text_handle node st = (Ok tt, st')
    /\ (c ∉ preorder t) /\ tree_ok st' t'
    /\ (forall b, b ∈ preorder t' <-> b = c \/ b ∈ preorder t)
    /\ id_at (heap st') c = Some (uuid1 (uuid_clock st))
    /\ text_at (heap st') c = Some ""%string
    /\ children_at (heap st') c = Some [a]
    /\ parent_id_at (heap st') a = Some (uuid1 (uuid_clock st))
    /\ parent_id_at (heap st') c = parent_id_at (heap st) a
    /\ (forall b, b <> c -> id_at (heap st') b = id_at (heap st) b)
    /\ selected_node_id st' = selected_node_id st
    /\ (a = raddr t ->
        option_map rd_root (tree_raw_data st') = Some c
        /\ forall b, b <> c -> children_at (heap st') b = children_at (heap st) b)
    /\ (a <> raddr t ->
        option_map rd_root (tree_raw_data st') = option_map rd_root (tree_raw_data st)
        /\ exists p cs k,
            p ∈ preorder t /\ children_at (heap st) p = Some cs /\ cs !! k = Some a
            /\ children_at (heap st') p = Some (<[k := c]> cs)
            /\ forall b, b <> c -> b <> p ->
                         children_at (heap st') b = children_at (heap st) b).
Proof.
  intros Hok Hfr Ha Hnames.
  destruct (create_parent_run uuid1 html2text_handle st t node a Hok Hfr Ha Hnames)
    as (st' & t' & Hrun & Hok' & _ & Hin & Hidc & Htxc & Hchc & Hido & _ & Hsel
        & Hroot & Hinner).
  set (c := length (heap st)) in *.
  assert (Hc' : c ∈ preorder t') by (apply Hin; auto).
  assert (Hct : c ∉ preorder t) by apply alloc_not_in_tree, (ok_tree _ _ Hok).
  assert (Hpa : parent_id_at (heap st') a = Some (uuid1 (uuid_clock st))).
  { rewrite (tree_ok_child st' t' c [a] a Hok' Hc' Hchc); [exact Hidc |].
    apply list_elem_of_here. }
  exists c, st', t'.
  split; [exact Hrun |]. split; [exact Hct |]. split; [exact Hok' |].
  split; [exact Hin |]. split; [exact Hidc |]. split; [exact Htxc |].
  split; [exact Hchc |]. split; [exact Hpa |].
  split.
  { destruct (decide (a = raddr t)) as [Hr | Hr].
    - destruct (Hroot Hr) as [Hrt' _].
      rewrite <- Hrt'. rewrite (ti_root _ _ (ok_tree _ _ Hok')).
      rewrite Hr. symmetry. apply (ti_root _ _ (ok_tree _ _ Hok)).
    - destruct (Hinner Hr) as (_ & p & pid & cs & k & Hp & Hpa0 & Hpid & Hcs & Hk & Hch' & _).
      assert (Hp' : p ∈ preorder t') by (apply Hin; auto).
      rewrite (tree_ok_child st' t' p _ c Hok' Hp' Hch').
      + rewrite Hido; [congruence |]. intros ->. auto.
      + apply list_elem_of_lookup. exists k. apply list_lookup_insert_eq.
        eapply lookup_lt_Some, Hk. }
  split; [exact Hido |]. split; [exact Hsel |].
  split.
  - intros Hr. destruct (Hroot Hr) as [Hrt' Hch]. split; [| exact Hch].
    rewrite (ok_raw _ _ Hok'), Hrt'. reflexivity.
  - intros Hr. destruct (Hinner Hr) as (Hrt' & p & pid & cs & k & Hp & _ & _ & Hcs & Hk & Hch' & Hcho).
    split; [rewrite (ok_raw _ _ Hok'), (ok_raw _ _ Hok), Hrt'; reflexivity |].
    exists p, cs, k. auto 10.
Qed.

(** X16: in a well-formed model [merge_with_parent] on a node [a] other
    than the root puts the children of [a] where [a] stood among the
    children of its parent, gives them the parent's id as parent id, adds
    the text of [a] to the end of the parent's text and selects the
    parent.  The node leaves the tree and the index; no other node does,
    and no other list of children changes. *)
Theorem merge_with_parent_splices (st : TreeModel) (t : rtree) (node : option addr)
    (a : addr) (ai : string) :
  tree_ok st t -> uuid_fresh uuid1 st -> a ∈ preorder t -> names st node a ->
  a <> raddr t -> id_at (heap st) a = Some ai ->
  exists p pid cs k pt ta cas st' t',
    p ∈ preorder t /\ id_at (heap st) p = Some pid
    /\ children_at (heap st) p = Some cs /\ cs !! k = Some a
    /\ text_at (heap st) p = Some pt /\ text_at (heap st) a = Some ta
    /\ children_at (heap st) a = Some cas
    /\ merge_with_parent uuid1 html2text_handle node st = (Ok tt, st')
    /\ tree_ok st' t'
    /\ (forall b, b ∈ preorder t' <-> b ∈ preorder t /\ b <> a)
    /\ children_at (heap st') p = Some (take k cs ++ cas ++ drop (S k) cs)%list
    /\ (has_miro_markup (pt ++ ta) = false -> text_at (heap st') p = Some (pt ++ ta)%string)
    /\ (forall c, c ∈ cas -> parent_id_at (heap st') c = Some pid)
    /\ selected_node_id st' = Some pid
    /\ get_node (Some ai) st' = (Ok None, st')
    /\ (forall b, b <> p -> children_at (heap st') b = children_at (heap st) b)
    /\ (forall b, id_at (heap st') b = id_at (heap st) b).
Proof.
  intros Hok Hfr Ha Hnames Hr Hai.
  destruct (merge_with_parent_run uuid1 html2text_handle st t node a Hok Hfr Ha Hnames Hr)
    as (p & pid & cs & k & pt & ta & cas & st' & t' & Hp & Hpid & Hcs & Hk & Hpt & Hta & Hcas
        & Hrun & Hok' & _ & _ & Hperm & Hchp & Htxp & Hcho & Hids & _ & Hsel).
  pose proof (tree_in_nodup _ _ (ok_tree _ _ Hok)) as Hnd.
  assert (Hin : forall b, b ∈ preorder t' <-> b ∈ preorder t /\ b <> a).
  { intros b. rewrite Hperm in Hnd. apply NoDup_cons in Hnd as [Hat' _].
    rewrite Hperm, elem_of_cons. split.
    - intros Hb. split; [auto |]. intros ->. auto.
    - intros [[-> | Hb] Hne]; [contradiction | exact Hb]. }
  assert (Hp' : p ∈ preorder t').
  { apply Hin. split; [exact Hp |]. intros ->.
    destruct (tree_children _ t a cs (ok_tree _ _ Hok) Ha Hcs) as (_ & _ & Hn).
    apply Hn. eapply list_elem_of_lookup_2, Hk. }
  exists p, pid, cs, k, pt, ta, cas, st', t'.
  split; [exact Hp |]. split; [exact Hpid |]. split; [exact Hcs |]. split; [exact Hk |].
  split; [exact Hpt |]. split; [exact Hta |]. split; [exact Hcas |].
  split; [exact Hrun |]. split; [exact Hok' |]. split; [exact Hin |].
  split; [exact Hchp |]. split; [exact Htxp |].
  split.
  { intros c Hc. rewrite (tree_ok_child st' t' p _ c Hok' Hp' Hchp).
    - rewrite Hids. exact Hpid.
    - apply elem_of_app. right. apply elem_of_app. left. exact Hc. }
  split; [exact Hsel |].
  split; [| split; [exact Hcho | exact Hids]].
  apply (get_node_unknown st' t' ai Hok'). intros b Hb. rewrite Hids. intros Hbi.
  apply Hin in Hb as [Hb Hne]. apply Hne.
  apply (tree_ok_id_inj st t b a ai Hok Hb Ha Hbi Hai).
Qed.

End Insert.

(** ** [merge_with_children] *)

Lemma with_heap_back (s s1 s' : TreeModel) h1 :
  s1 = with_heap h1 s -> with_heap (heap s1) s' = s1 -> with_heap (heap s) s' = s.
Proof. intros -> H. destruct s, s'. unfold with_heap in *. simpl in *. congruence. Qed.

(** The loop of [merge_with_children]: every child gets the text of the
    node before its own. *)
Lemma prefix_loop (a : addr) (ta : string) : forall (l : list addr) (s : TreeModel),
  NoDup l -> a ∉ l -> text_at (heap s) a = Some ta ->
  (forall x, x ∈ l -> is_Some (text_at (heap s) x)) ->
  exists s',
    for_each l
      (fun child _ =>
         let* t := get_text a in
         let* ct := get_text child in
         update child (set_text (Some (t ++ ct)%string))) tt s = (Ok tt, s')
    /\ with_heap (heap s) s' = s
    /\ (forall b, b ∉ l -> heap s' !! b = heap s !! b)
    /\ (forall x tx, x ∈ l -> text_at (heap s) x = Some tx ->
          text_at (heap s') x = Some (ta ++ tx)%string)
    /\ (forall b, skeleton_at (heap s') b = skeleton_at (heap s) b).
Proof.
  induction l as [|x l IH]; intros s Hnd Ha Hta Htx.
  - exists s. split; [reflexivity |]. split; [destruct s; reflexivity |].
    split; [reflexivity |]. split; [| reflexivity]. intros x tx Hx. inversion Hx.
  - apply NoDup_cons in Hnd as [Hxl Hnd].
    apply not_elem_of_cons in Ha as [Hax Ha].
    destruct (Htx x (list_elem_of_here _ _)) as [tx Hx].
    assert (Hn : exists n, heap s !! x = Some n /\ n_text n = Some tx).
    { unfold text_at in Hx. destruct (heap s !! x) as [n|]; [eauto | discriminate]. }
    destruct Hn as (n & Hn & Hnt).
    set (s1 := with_heap (<[x := set_text (Some (ta ++ tx)%string) n]> (heap s)) s).
    assert (Htxo : forall b, b <> x -> text_at (heap s1) b = text_at (heap s) b).
    { intros b Hb. unfold s1. stsimp. apply text_at_write_ne. congruence. }
    destruct (IH s1 Hnd Ha) as (s' & Hrun & Hsame & Hout & Hin & Hsk).
    { rewrite Htxo by exact Hax. exact Hta. }
    { intros y Hy. rewrite Htxo by (intros ->; auto). apply Htx, list_elem_of_further, Hy. }
    exists s'. split; [| split; [| split; [| split]]].
    + cbn [for_each]. mstep (text_at_get _ _ _ Hta). mstep (text_at_get _ _ _ Hx).
      mstep (update_ok s x n (set_text (Some (ta ++ tx)%string)) Hn). exact Hrun.
    + eapply with_heap_back; [reflexivity | exact Hsame].
    + intros b Hb. apply not_elem_of_cons in Hb as [Hbx Hb]. rewrite Hout by exact Hb.
      unfold s1. stsimp. apply lookup_write_ne. congruence.
    + intros y ty Hy Hty. apply elem_of_cons in Hy as [-> | Hy].
      * unfold text_at. rewrite Hout by exact Hxl. unfold s1. stsimp.
        rewrite (lookup_write_eq _ _ _ _ Hn). simpl. congruence.
      * apply Hin; [exact Hy |]. rewrite Htxo by (intros ->; auto). exact Hty.
    + intros b. rewrite Hsk. unfold s1. stsimp.
      apply (skeleton_write_text _ _ _ _ _ Hn). rewrite Hnt. eauto.
Qed.

Lemma skeleton_children h h' b :
  skeleton_at h' b = skeleton_at h b -> children_at h' b = children_at h b.
Proof. intros H. apply kept_children, skeleton_kept, H. Qed.

Lemma skeleton_id h h' b : skeleton_at h' b = skeleton_at h b -> id_at h' b = id_at h b.
Proof. intros H. apply kept_id, skeleton_kept, H. Qed.

Section MergeDown.

Variable uuid1 : nat -> string.
Variable html2text_handle : string -> string.

(** X17: in a well-formed model [merge_with_children] on a node [a] puts
    the text of [a] before the text of each of its children.  When [a] is
    not the root it then leaves the tree: its children are added to the
    end of the children of its parent, with the parent's id as parent id,
    and the parent is selected.  On the root the texts of the children
    are changed all the same, but the root stays with its children, no
    refresh runs and the selection stays. *)
Theorem merge_with_children_prefixes (st : TreeModel) (t : rtree) (node : option addr)
    (a : addr) :
  tree_ok st t -> a ∈ preorder t -> names st node a ->
  exists ta cas,
    text_at (heap st) a = Some ta /\ children_at (heap st) a = Some cas
    /\ (a = raddr t ->
        exists st',
          merge_with_children uuid1 html2text_handle node st = (Ok tt, st')
          /\ tree_ok st' t
          /\ (forall c tc, c ∈ cas -> text_at (heap st) c = Some tc ->
                text_at (heap st') c = Some (ta ++ tc)%string)
          /\ (forall b, b ∉ cas -> heap st' !! b = heap st !! b)
          /\ children_at (heap st') a = Some cas
          /\ selected_node_id st' = selected_node_id st
          /\ fired st' = fired st)
    /\ (a <> raddr t ->
        exists p pid cs k st' t',
          p ∈ preorder t /\ id_at (heap st) p = Some pid
          /\ children_at (heap st) p = Some cs /\ cs !! k = Some a
          /\ merge_with_children uuid1 html2text_handle node st = (Ok tt, st')
          /\ tree_ok st' t'
          /\ (forall b, b ∈ preorder t' <-> b ∈ preorder t /\ b <> a)
          /\ children_at (heap st') p = Some ((take k cs ++ drop (S k) cs) ++ cas)%list
          /\ (forall c tc, c ∈ cas -> text_at (heap st) c = Some tc ->
                has_miro_markup (ta ++ tc) = false ->
                text_at (heap st') c = Some (ta ++ tc)%string)
          /\ (forall c, c ∈ cas -> parent_id_at (heap st') c = Some pid)
          /\ selected_node_id st' = Some pid
          /\ (forall b, b <> p -> children_at (heap st') b = children_at (heap st) b)).
Proof.
  intros Hok Ha Hn.
  destruct (edit_start st t node a Hok Ha Hn) as [Hsel Hfalsy].
  pose proof Hok as [Hraw Ht Hl Hidx].
  destruct (tree_in_keys_text _ _ a Ht Ha) as [ta Hta].
  destruct (tree_in_keys_children _ _ a Ht Ha) as [cas Hcas].
  destruct (tree_children _ t a cas Ht Ha Hcas) as (Hndc & Hsub & Hac).
  destruct (prefix_loop a ta cas st Hndc Hac Hta) as (s1 & Hloop & Hsame & Hout & Hin & Hsk).
  { intros x Hx. eapply tree_in_keys_text; eauto. }
  destruct (same_but_heap _ _ Hsame) as (Hd1 & Hraw1 & Hclk1 & Hsel1).
  assert (Hok1 : tree_ok s1 t).
  { eapply tree_ok_frame; [exact Hok | rewrite Hraw1; reflexivity | exact Hd1 | |].
    - intros b _. apply kept_frame, skeleton_kept, Hsk.
    - intros b _. apply skeleton_parent_id, Hsk. }
  assert (Hstart : forall r, delete_node uuid1 html2text_handle (Some a) true s1 = r ->
                             merge_with_children uuid1 html2text_handle node st = r).
  { intros r Hr. unfold merge_with_children. mstep Hsel. mstep Hfalsy.
    mstep (children_at_get _ _ _ Hcas). mstep Hloop. exact Hr. }
  exists ta, cas. split; [exact Hta |]. split; [exact Hcas |]. split.
  - intros Hr. exists s1.
    split; [| split; [exact Hok1 | split; [exact Hin | split; [exact Hout | split;
      [| split]]]]].
    + apply Hstart.
      destruct (tree_ok_node s1 t a Hok1 Ha) as (n & i & Hn' & _ & _ & _).
      unfold delete_node. mstep (or_selected_names s1 t (Some a) a Hok1 Ha (or_introl eq_refl)).
      unfold not_none. mret. mstep (read_ok _ _ _ Hn').
      rewrite <- (parent_id_at_read _ _ _ Hn').
      rewrite (proj2 (tree_ok_root_iff s1 t a Hok1 Ha) Hr). reflexivity.
    + rewrite (skeleton_children _ _ _ (Hsk a)). exact Hcas.
    + exact Hsel1.
    + rewrite <- Hsame. reflexivity.
  - intros Hr.
    destruct (tree_ok_parent st t a Hok Ha Hr) as (p & pid & cs & k & Hp & Hpa & Hpid & _ & Hcs & Hk).
    destruct (delete_node_spec uuid1 html2text_handle s1 t (Some a) a p pid cs k cas true
                Hok1 Ha (or_introl eq_refl) Hp)
      as (st' & t' & Hrun & Hok' & Hch & Hsel' & _ & Hids & _ & Htx & Hcho & _ & _ & Hperm).
    { rewrite (skeleton_parent_id _ _ _ (Hsk a)). exact Hpa. }
    { rewrite (skeleton_id _ _ _ (Hsk p)). exact Hpid. }
    { rewrite (skeleton_children _ _ _ (Hsk p)). exact Hcs. }
    { exact Hk. }
    { rewrite (skeleton_children _ _ _ (Hsk a)). exact Hcas. }
    specialize (Hperm eq_refl).
    pose proof (tree_in_nodup _ _ Ht) as Hnd.
    assert (Hint : forall b, b ∈ preorder t' <-> b ∈ preorder t /\ b <> a).
    { intros b. rewrite Hperm in Hnd. apply NoDup_cons in Hnd as [Hat' _].
      rewrite Hperm, elem_of_cons. split.
      - intros Hb. split; [auto |]. intros ->. auto.
      - intros [[-> | Hb] Hne]; [contradiction | exact Hb]. }
    assert (Hp' : p ∈ preorder t').
    { apply Hint. split; [exact Hp |]. intros ->.
      destruct (tree_children _ t a cs Ht Ha Hcs) as (_ & _ & Hnn).
      apply Hnn. eapply list_elem_of_lookup_2, Hk. }
    exists p, pid, cs, k, st', t'.
    split; [exact Hp |]. split; [exact Hpid |]. split; [exact Hcs |]. split; [exact Hk |].
    split; [apply Hstart, Hrun |]. split; [exact Hok' |]. split; [exact Hint |].
    split; [exact Hch |].
    split; [intros c tc Hc Htc Hm; apply Htx; [apply Hin; assumption | exact Hm] |].
    split.
    { intros c Hc. rewrite (tree_ok_child st' t' p _ c Hok' Hp' Hch).
      - rewrite Hids, (skeleton_id _ _ _ (Hsk p)). exact Hpid.
      - apply elem_of_app. right. exact Hc. }
    split.
    { rewrite Hsel', (skeleton_id _ _ _ (Hsk p)). exact Hpid. }
    intros b Hb. rewrite (Hcho b Hb). apply skeleton_children, Hsk.
Qed.

End MergeDown.

(** ** [change_parent] *)

(** *** The nodes under a node and the paths to the root *)

(** The parent of a node of a path to the root is on the path. *)
Lemma ancestry_parent_in h d b l :
  ancestry h d b l ->
  forall c pid p, c ∈ l -> parent_id_at h c = Some pid -> dict_get d pid = Some p -> p ∈ l.
Proof.
  induction 1 as [a Ha Hroot | a pid0 p0 l0 Hpa Hget Hanc IH]; intros c pid p Hc Hpc Hd.
  - apply list_elem_of_singleton in Hc as ->. congruence.
  - apply elem_of_app. left. apply elem_of_app in Hc as [Hc | Hc].
    + eapply IH; eauto.
    + apply list_elem_of_singleton in Hc as ->.
      assert (pid0 = pid) as -> by congruence.
      assert (p0 = p) as -> by congruence.
      destruct (ancestry_last _ _ _ _ Hanc) as [l' ->].
      apply elem_of_app. right. apply list_elem_of_here.
Qed.

(** The path from the root to a node under [s] goes through the root of
    [s]. *)
Lemma ancestry_through st t :
  tree_ok st t ->
  forall s, shape (heap st) s -> (forall b, b ∈ preorder s -> b ∈ preorder t) ->
  forall b l, b ∈ preorder s ->
    ancestry (heap st) (index_of (heap st) (preorder t)) b l -> raddr s ∈ l.
Proof.
  intros Hok. pose proof Hok as [_ Ht _ _].
  induction s as [x ks IH] using rtree_ind'. intros Hsh Hsub b l Hb Hanc.
  simpl raddr. rewrite preorder_unfold in Hb. apply elem_of_cons in Hb as [-> | Hb].
  - destruct (ancestry_last _ _ _ _ Hanc) as [l' ->].
    apply elem_of_app. right. apply list_elem_of_here.
  - apply elem_of_forest_nodes in Hb as (k & Hk & Hbk).
    pose proof (shape_kids _ _ _ Hsh) as Hshks.
    rewrite Forall_forall in IH, Hshks.
    assert (Hsubk : forall y, y ∈ preorder k -> y ∈ preorder t).
    { intros y Hy. apply Hsub. rewrite preorder_unfold. apply list_elem_of_further.
      apply elem_of_forest_nodes. eauto. }
    pose proof (IH k Hk (Hshks k Hk) Hsubk b l Hbk Hanc) as Hkl.
    assert (Hx : x ∈ preorder t).
    { apply Hsub. rewrite preorder_unfold. apply list_elem_of_here. }
    destruct (tree_in_keys_children _ _ x Ht Hx) as [cs Hcs].
    pose proof (shape_children _ _ _ _ Hsh Hcs) as Hcsk.
    destruct (tree_index_lookup _ _ x Ht Hx) as (xi & Hxi & Hget).
    eapply (ancestry_parent_in _ _ _ _ Hanc (raddr k) xi x Hkl); [| exact Hget].
    rewrite (tree_ok_child st t x cs (raddr k) Hok Hx Hcs); [exact Hxi |].
    rewrite Hcsk. apply list_elem_of_fmap. eauto.
Qed.

(** The children of a node under [s] are under [s]. *)
Lemma shape_closed h : forall s, shape h s ->
  forall x cs y, x ∈ preorder s -> children_at h x = Some cs -> y ∈ cs -> y ∈ preorder s.
Proof.
  induction s as [r ks IH] using rtree_ind'. intros Hsh x cs y Hx Hcs Hy.
  rewrite preorder_unfold. apply list_elem_of_further.
  rewrite preorder_unfold in Hx. apply elem_of_cons in Hx as [-> | Hx].
  - rewrite (shape_children _ _ _ _ Hsh Hcs) in Hy.
    apply list_elem_of_fmap in Hy as (k & -> & Hk). apply kid_root_in_forest, Hk.
  - apply elem_of_forest_nodes in Hx as (k & Hk & Hxk).
    pose proof (shape_kids _ _ _ Hsh) as Hshks. rewrite Forall_forall in IH, Hshks.
    apply elem_of_forest_nodes. exists k. split; [exact Hk |].
    eapply (IH k Hk (Hshks k Hk)); eauto.
Qed.

(** A path that goes down from child to child stays under [s] once it is
    there. *)
Lemma path_stays_below h s (l : list addr) :
  shape h s ->
  (forall i x y, l !! i = Some x -> l !! S i = Some y ->
     exists cs, children_at h x = Some cs /\ y ∈ cs) ->
  forall n i x y, l !! i = Some x -> x ∈ preorder s -> l !! (i + n)%nat = Some y ->
                  y ∈ preorder s.
Proof.
  intros Hsh Hstep. induction n as [|n IH]; intros i x y Hi Hx Hy.
  - rewrite Nat.add_0_r in Hy. congruence.
  - replace (i + S n)%nat with (S (i + n)) in Hy by lia.
    destruct (lookup_lt_is_Some_2 l (i + n)%nat) as [z Hz].
    { apply lookup_lt_Some in Hy. lia. }
    destruct (Hstep _ _ _ Hz Hy) as (cs & Hcs & Hin).
    apply (shape_closed h s Hsh z cs y); [| exact Hcs | exact Hin].
    apply (IH i x z Hi Hx Hz).
Qed.

(** The run of [node_ancestry] in a well-formed model. *)
Lemma node_ancestry_inv st t q l :
  tree_ok st t -> q ∈ preorder t ->
  node_ancestry q (tree_node_dict st) st = (Ok l, st) ->
  ancestry (heap st) (index_of (heap st) (preorder t)) q l.
Proof.
  intros Hok Hq Hrun. pose proof Hok as [_ Ht Hl Hidx].
  destruct (tree_ancestry _ _ q Ht Hl Hq) as (l0 & Hanc & Hlen).
  rewrite Hidx, (node_ancestry_spec _ _ _ _ Hanc Hlen) in Hrun. congruence.
Qed.

(** A node [a] is on the path from the root to [q] exactly when [q] is
    under [a]. *)
Lemma below_iff_on_path st t a q l sa :
  tree_ok st t -> q ∈ preorder t ->
  ancestry (heap st) (index_of (heap st) (preorder t)) q l ->
  shape (heap st) sa -> raddr sa = a -> (forall b, b ∈ preorder sa -> b ∈ preorder t) ->
  (a ∈ l <-> q ∈ preorder sa).
Proof.
  intros Hok Hq Hanc Hsh Hra Hsub. split.
  - intros Ha. destruct (ancestry_path st t q l Hok Hq Hanc) as (_ & Hlast & Hstep & _).
    apply list_elem_of_lookup in Ha as [i Hi].
    assert (Hlen : (i < length l)%nat) by (eapply lookup_lt_Some, Hi).
    rewrite last_lookup in Hlast.
    apply (path_stays_below (heap st) sa l Hsh Hstep (pred (length l) - i)%nat i a q Hi).
    + rewrite <- Hra. apply raddr_in_preorder.
    + replace (i + (pred (length l) - i))%nat with (pred (length l)) by lia. exact Hlast.
  - intros Hqs. rewrite <- Hra. eapply ancestry_through; eauto.
Qed.

Section Move.

Variable uuid1 : nat -> string.
Variable html2text_handle : string -> string.

(** X18: in a well-formed model [change_parent] moves a node [a] other
    than the root under a node [q] that is neither [a], nor below [a], nor
    the parent of [a]: [a] leaves the children of its parent, is added to
    the end of the children of [q] and carries the id of [q] as parent
    id.  The tree keeps its nodes, ids and root; no other list of children
    changes and the selection stays. *)
Theorem change_parent_appends_to_new_parent (st : TreeModel) (t : rtree)
    (node : option addr) (a q : addr) (qi : string) (l : list addr) :
  tree_ok st t -> uuid_fresh uuid1 st -> a ∈ preorder t -> names st node a ->
  q ∈ preorder t -> id_at (heap st) q = Some qi ->
  node_ancestry q (tree_node_dict st) st = (Ok l, st) -> a ∉ l ->
  a <> raddr t -> parent_id_at (heap st) a <> Some qi ->
  exists p cs k qs st' t',
    p ∈ preorder t /\ children_at (heap st) p = Some cs /\ cs !! k = Some a
    /\ children_at (heap st) q = Some qs
    /\ change_parent uuid1 html2text_handle node qi st = (Ok tt, st')
    /\ tree_ok st' t' /\ raddr t' = raddr t /\ preorder t' ≡ₚ preorder t
    /\ children_at (heap st') p = Some (take k cs ++ drop (S k) cs)%list
    /\ children_at (heap st') q = Some (qs ++ [a])%list
    /\ parent_id_at (heap st') a = Some qi
    /\ (forall b, b <> p -> b <> q -> children_at (heap st') b = children_at (heap st) b)
    /\ (forall b, id_at (heap st') b = id_at (heap st) b)
    /\ selected_node_id st' = selected_node_id st.
Proof.
  intros Hok Hfr Ha Hnames Hq Hqid Hrun Hal Hr Hpq.
  pose proof (node_ancestry_inv st t q l Hok Hq Hrun) as Hanc.
  destruct (tree_ok_parent st t a Hok Ha Hr) as (p & pid & cs & k & Hp & Hpa & Hpid & _ & Hcs & Hk).
  assert (Hqa : q <> a).
  { intros ->. apply Hal. destruct (ancestry_last _ _ _ _ Hanc) as [l' ->].
    apply elem_of_app. right. apply list_elem_of_here. }
  assert (Hnq : qi <> pid) by congruence.
  destruct (change_parent_run uuid1 html2text_handle st t node a q qi p pid cs k
              Hok Hfr Ha Hnames Hq Hqid Hp Hpa Hpid Hcs Hk Hqa Hnq)
    as (qs & ka & st' & t' & Hqs & Hrka & Hshka & Hsubka & Hgo & Hok' & _ & Hroot & Hkeep & _
        & Hchp & Hchq & Hcho & Hids & _ & Hsel).
  assert (Hqk : q ∉ preorder ka).
  { intros Hin. apply Hal.
    apply (below_iff_on_path st t a q l ka Hok Hq Hanc Hshka Hrka Hsubka), Hin. }
  specialize (Hkeep Hqk).
  assert (Hq' : q ∈ preorder t') by (rewrite Hkeep; exact Hq).
  exists p, cs, k, qs, st', t'.
  split; [exact Hp |]. split; [exact Hcs |]. split; [exact Hk |]. split; [exact Hqs |].
  split; [exact Hgo |]. split; [exact Hok' |]. split; [exact Hroot |].
  split; [exact Hkeep |]. split; [exact Hchp |]. split; [exact Hchq |].
  split; [| split; [exact Hcho | split; [exact Hids | exact Hsel]]].
  rewrite (tree_ok_child st' t' q _ a Hok' Hq' Hchq).
  - rewrite Hids. exact Hqid.
  - apply elem_of_app. right. apply list_elem_of_here.
Qed.

(** X19: [change_parent] does nothing, and runs no refresh, when the new
    parent id is the id of the node itself, when the node is the root
    (whatever the new parent id), and when the new parent id is the parent
    id that the node has. *)
Theorem change_parent_guards (st : TreeModel) (t : rtree) (node : option addr)
    (a : addr) (ai qi : string) :
  tree_ok st t -> a ∈ preorder t -> names st node a -> id_at (heap st) a = Some ai ->
  qi = ai \/ a = raddr t \/ parent_id_at (heap st) a = Some qi ->
  change_parent uuid1 html2text_handle node qi st = (Ok tt, st).
Proof.
  intros Hok Ha Hnames Hai Hcase.
  destruct (edit_start st t node a Hok Ha Hnames) as [Hsel Hfalsy].
  destruct (tree_ok_node st t a Hok Ha) as (an & ai' & Han & _ & _ & Haid).
  assert (ai' = ai) as -> by congruence.
  unfold change_parent. mstep Hsel. mstep Hfalsy. mstep (id_at_get_id _ _ _ Haid).
  destruct (decide (ai = qi)) as [Heq | Hne].
  { rewrite bool_decide_eq_true_2 by exact Heq. reflexivity. }
  rewrite bool_decide_eq_false_2 by exact Hne. mstep (read_ok _ _ _ Han).
  destruct Hcase as [-> | [Hr | Hpq]]; [contradiction | |].
  - rewrite <- (parent_id_at_read _ _ _ Han).
    rewrite (proj2 (tree_ok_root_iff st t a Hok Ha) Hr).
    mstep (raw_root_ok st t (ok_raw _ _ Hok)). rewrite <- Hr. apply assert_eq_refl.
  - rewrite (read_parent_id _ _ _ _ Han Hpq).
    rewrite bool_decide_eq_true_2 by reflexivity. reflexivity.
Qed.


(** X21: in a well-formed model [change_parent] of a node [a] other than
    the root under a node [q] below it (so that [a] is on the path from
    the root to [q]) returns without error and cuts [a] off the tree: the
    nodes of the subtree of [a], and [q] is one of them, all leave the
    tree and the index, where none of their ids is found any more; the
    tree that is left has the root and the other nodes, and no id
    changes. *)
Theorem change_parent_under_descendant_drops_subtree (st : TreeModel) (t : rtree)
    (node : option addr) (a q : addr) (qi : string) (l : list addr) :
  tree_ok st t -> uuid_fresh uuid1 st -> a ∈ preorder t -> names st node a ->
  q ∈ preorder t -> id_at (heap st) q = Some qi ->
  node_ancestry q (tree_node_dict st) st = (Ok l, st) -> a ∈ l -> q <> a ->
  a <> raddr t ->
  exists ka st' t',
    change_parent uuid1 html2text_handle node qi st = (Ok tt, st')
    /\ tree_ok st' t' /\ raddr t' = raddr t
    /\ raddr ka = a /\ shape (heap st) ka
    /\ preorder t ≡ₚ (preorder ka ++ preorder t')%list
    /\ q ∈ preorder ka
    /\ (forall b, b ∈ preorder ka ->
          (b ∉ preorder t')
          /\ forall i, id_at (heap st) b = Some i -> get_node (Some i) st' = (Ok None, st'))
    /\ (forall b, id_at (heap st') b = id_at (heap st) b).
Proof.
  intros Hok Hfr Ha Hnames Hq Hqid Hrun Hal Hqa Hr.
  pose proof (node_ancestry_inv st t q l Hok Hq Hrun) as Hanc.
  pose proof (tree_in_nodup _ _ (ok_tree _ _ Hok)) as Hnd.
  destruct (tree_ok_parent st t a Hok Ha Hr) as (p & pid & cs & k & Hp & Hpa & Hpid & _ & Hcs & Hk).
  assert (Hqp : q <> p).
  { intros ->.
    destruct (ancestry_above st t p l Hok Hp Hanc a Hal) as [-> | Hbefore].
    - contradiction.
    - eapply before_irrefl; [exact Hnd |]. eapply before_trans; [exact Hnd | exact Hbefore |].
      eapply parent_before; [apply (ok_tree _ _ Hok) | exact Hp | exact Hcs |].
      eapply list_elem_of_lookup_2, Hk. }
  assert (Hnq : qi <> pid).
  { intros ->. apply Hqp. apply (tree_ok_id_inj st t q p pid Hok Hq Hp Hqid Hpid). }
  destruct (change_parent_run uuid1 html2text_handle st t node a q qi p pid cs k
              Hok Hfr Ha Hnames Hq Hqid Hp Hpa Hpid Hcs Hk Hqa Hnq)
    as (qs & ka & st' & t' & Hqs & Hrka & Hshka & Hsubka & Hgo & Hok' & _ & Hroot & _ & Hdrop
        & _ & _ & _ & Hids & _ & _).
  assert (Hqk : q ∈ preorder ka).
  { apply (below_iff_on_path st t a q l ka Hok Hq Hanc Hshka Hrka Hsubka), Hal. }
  specialize (Hdrop Hqk).
  assert (Hak : a ∈ preorder ka) by (rewrite <- Hrka; apply raddr_in_preorder).
  assert (Hdisj : forall b, b ∈ preorder ka -> b ∉ preorder t').
  { intros b Hb Hb'. rewrite Hdrop in Hnd. apply NoDup_app in Hnd as (_ & Hd & _).
    apply (Hd b Hb Hb'). }
  assert (Hgone : forall b i, b ∈ preorder ka -> id_at (heap st) b = Some i ->
                              get_node (Some i) st' = (Ok None, st')).
  { intros b i Hb Hi. apply (get_node_unknown st' t' i Hok'). intros y Hy.
    rewrite Hids. intros Hyi.
    assert (Hyt : y ∈ preorder t) by (rewrite Hdrop; apply elem_of_app; auto).
    assert (y = b) as -> by apply (tree_ok_id_inj st t y b i Hok Hyt (Hsubka b Hb) Hyi Hi).
    apply (Hdisj b Hb Hy). }
  exists ka, st', t'.
  split; [exact Hgo |]. split; [exact Hok' |]. split; [exact Hroot |].
  split; [exact Hrka |]. split; [exact Hshka |].
  split; [exact Hdrop |]. split; [exact Hqk |]. split; [| exact Hids].
  intros b Hb. split; [apply (Hdisj b Hb) | intros i Hi; apply (Hgone b i Hb Hi)].
Qed.

End Move.

(** ** Calls without a node *)

Section NoSelection.

Variable uuid1 : nat -> string.
Variable html2text_handle : string -> string.

(** X22: when no node is selected (the selection is unset, or names no
    node of the index) and a method is called without a node, the edits
    [create_child], [create_sibling], [create_parent], [merge_with_parent],
    [merge_with_children], [change_parent] and [generate_continuation] and
    the moves [select_parent], [select_child] and [select_sibling] return
    without doing anything, whereas [delete_node] and
    [node_ancestry_text] raise [TypeError]. *)
Theorem calls_without_selection (st : TreeModel) (us ex re : bool) (qi : string)
    (n : Z) :
  selected_node st = (Ok None, st) ->
  create_child uuid1 html2text_handle None us ex st = (Ok None, st)
  /\ create_sibling uuid1 html2text_handle None us st = (Ok tt, st)
  /\ create_parent uuid1 html2text_handle None st = (Ok tt, st)
  /\ merge_with_parent uuid1 html2text_handle None st = (Ok tt, st)
  /\ merge_with_children uuid1 html2text_handle None st = (Ok tt, st)
  /\ change_parent uuid1 html2text_handle None qi st = (Ok tt, st)
  /\ generate_continuation uuid1 html2text_handle None us st = (Ok tt, st)
  /\ select_parent None st = (Ok None, st)
  /\ select_child n None st = (Ok None, st)
  /\ select_sibling n None st = (Ok None, st)
  /\ delete_node uuid1 html2text_handle None re st = (Raise TypeError, st)
  /\ node_ancestry_text None st = (Raise TypeError, st).
Proof.
  intros Hsel.
  assert (Hor : or_selected None st = (Ok None, st)) by exact Hsel.
  assert (Hf : is_falsy None st = (Ok true, st)) by reflexivity.
  repeat split.
  - unfold create_child. mstep Hor. mstep Hf. reflexivity.
  - unfold create_sibling. mstep Hor. mstep Hf. reflexivity.
  - unfold create_parent. mstep Hor. mstep Hf. reflexivity.
  - unfold merge_with_parent. mstep Hor. mstep Hf. reflexivity.
  - unfold merge_with_children. mstep Hor. mstep Hf. reflexivity.
  - unfold change_parent. mstep Hor. mstep Hf. reflexivity.
  - unfold generate_continuation. mstep Hor. mstep Hf. reflexivity.
  - unfold select_parent. mstep Hor. reflexivity.
  - unfold select_child. mstep Hor. reflexivity.
  - unfold select_sibling. mstep Hor. reflexivity.
  - unfold delete_node. mstep Hor. reflexivity.
  - unfold node_ancestry_text. mstep Hor. reflexivity.
Qed.

End NoSelection.

(** ** The index *)

(** X23: in a well-formed model [node(id)] returns the node of the tree
    that carries the id, for every node of the tree, and [None] for an id
    that no node of the tree carries; what it returns for an id is a node
    of the tree with that id.  Without an id it returns the selected
    node. *)
Theorem get_node_resolves_ids (st : TreeModel) (t : rtree) :
  tree_ok st t ->
  (forall a i, a ∈ preorder t -> id_at (heap st) a = Some i ->
     get_node (Some i) st = (Ok (Some a), st))
  /\ (forall i, (forall b, b ∈ preorder t -> id_at (heap st) b <> Some i) ->
        get_node (Some i) st = (Ok None, st))
  /\ (forall i a st', get_node (Some i) st = (Ok (Some a), st') ->
        st' = st /\ a ∈ preorder t /\ id_at (heap st) a = Some i)
  /\ (forall a, a ∈ preorder t -> selected_node_id st = id_at (heap st) a ->
        get_node None st = (Ok (Some a), st)).
Proof.
  intros Hok. split; [| split; [| split]].
  - intros a i Ha Hi. apply (get_node_of_id st t a i Hok Ha Hi).
  - intros i Hno. apply (get_node_unknown st t i Hok Hno).
  - intros i a st' Hrun. split; [| apply (get_node_inv st t i a st' Hok Hrun)].
    destruct (get_node_inv st t i a st' Hok Hrun) as [Ha Hi].
    rewrite (get_node_of_id st t a i Hok Ha Hi) in Hrun. congruence.
  - intros a Ha Hsel. cbn [get_node].
    destruct (tree_ok_node st t a Hok Ha) as (n & i & Hn & _ & _ & Hid).
    rewrite Hid in Hsel.
    rewrite (selected_node_ok st _ i (ok_index _ _ Hok) Hsel).
    rewrite (dict_get_index_of _ _ a i); auto.
    + intros x Hx. eapply tree_in_keys_id; eauto. apply (ok_tree _ _ Hok).
    + apply (ti_ids _ _ (ok_tree _ _ Hok)).
Qed.

(** ** The active text of [update_text] *)

Lemma steady_active_text h h' b :
  steady_at h' b = steady_at h b -> active_text_at h' b = active_text_at h b.
Proof.
  unfold steady_at, active_text_at, steady.
  destruct (h' !! b), (h !! b); simpl; intros H; inversion H; auto.
Qed.

Section ActiveText.

Variable uuid1 : nat -> string.
Variable html2text_handle : string -> string.

(** X24: [update_text] with the text that the node has already (trailing
    spaces apart) and an [active_text]: when the node's [active_text],
    read as the empty string where the key is missing, is the given one,
    nothing is written and no refresh runs; otherwise the given one is
    stored on the node, nothing else is written, and the tree is
    refreshed once.  On a node whose id is not a key of the index it
    raises [AssertionError] before anything is written. *)
Theorem update_text_stores_active_text (st : TreeModel) (t : rtree) (a : addr)
    (body : string) (k : nat) (at' : string) :
  tree_ok st t -> a ∈ preorder t ->
  endswith body " " = false -> text_at (heap st) a = Some body ->
  (default ""%string (active_text_at (heap st) a) = at' ->
   update_text uuid1 html2text_handle a (body ++ spaces k) (Some at') st = (Ok tt, st))
  /\ (default ""%string (active_text_at (heap st) a) <> at' ->
      exists st',
        update_text uuid1 html2text_handle a (body ++ spaces k) (Some at') st = (Ok tt, st')
        /\ tree_ok st' t
        /\ active_text_at (heap st') a = Some at'
        /\ (forall b, b <> a -> active_text_at (heap st') b = active_text_at (heap st) b)
        /\ (forall b, id_at (heap st') b = id_at (heap st) b)
        /\ (forall b, children_at (heap st') b = children_at (heap st) b)
        /\ (forall b s, text_at (heap st) b = Some s -> has_miro_markup s = false ->
              text_at (heap st') b = Some s)
        /\ selected_node_id st' = selected_node_id st
        /\ fired st' = (fired st ++ [ev_tree_updated])%list)
  /\ (forall b n i text active_text,
        heap st !! b = Some n -> n_id n = Some i ->
        dict_has (tree_node_dict st) i = false ->
        update_text uuid1 html2text_handle b text active_text st
        = (Raise AssertionError, st)).
Proof.
  intros Hok Ha Hbody Hold. pose proof Hok as [Hraw Ht Hl Hidx].
  destruct (tree_ok_node st t a Hok Ha) as (an & ai & Han & Hai & _ & Haid).
  assert (Hstart : update_text uuid1 html2text_handle a (body ++ spaces k) (Some at') st
            = (let* edited2 :=
                 if bool_decide (default ""%string (n_active_text an) <> at') then
                   update a (set_active_text (Some at')) ;;; ret true
                 else ret false in
               when (false || edited2) (tree_updated uuid1 html2text_handle true)) st).
  { unfold update_text. mstep (id_at_get_id _ _ _ Haid). mget. rewrite Hidx.
    rewrite (dict_get_index_of _ _ a ai); auto.
    2:{ intros y Hy. eapply tree_in_keys_id; eauto. }
    2:{ apply (ti_ids _ _ Ht). }
    cbn [has_key]. cbv iota. mret. rewrite (trim_trailing_spaces_spec body k Hbody).
    mstep (text_at_get _ _ _ Hold).
    rewrite bool_decide_eq_false_2 by (intros H; apply H; reflexivity). mret.
    mstep (read_ok _ _ _ Han). reflexivity. }
  assert (Hat : active_text_at (heap st) a = n_active_text an).
  { unfold active_text_at. rewrite Han. reflexivity. }
  split; [| split].
  - intros Heq. rewrite Hstart. rewrite <- Hat.
    rewrite bool_decide_eq_false_2 by (intros H; apply H, Heq). reflexivity.
  - intros Hne. rewrite Hstart. rewrite <- Hat.
    rewrite bool_decide_eq_true_2 by exact Hne.
    set (h1 := <[a := set_active_text (Some at') an]> (heap st)).
    assert (Hh1a : h1 !! a = Some (set_active_text (Some at') an))
      by apply (lookup_write_eq _ _ _ _ Han).
    assert (Hh1o : forall b, b <> a -> h1 !! b = heap st !! b).
    { intros b Hb. unfold h1. apply lookup_write_ne. congruence. }
    assert (Hview : forall (A : Type) (f : node -> A),
              (forall n, f (set_active_text (Some at') n) = f n) ->
              forall b, option_map f (h1 !! b) = option_map f (heap st !! b)).
    { intros A f Hf b. destruct (decide (b = a)) as [-> | Hb].
      - rewrite Hh1a, Han. simpl. rewrite Hf. reflexivity.
      - rewrite Hh1o by exact Hb. reflexivity. }
    assert (Hfr1 : forall b, frame_at h1 b = frame_at (heap st) b).
    { intros b. apply (Hview _ frame_keys). reflexivity. }
    assert (Hid1 : forall b, id_at h1 b = id_at (heap st) b).
    { intros b. apply frame_id, Hfr1. }
    assert (Hch1 : forall b, children_at h1 b = children_at (heap st) b).
    { intros b. apply frame_at_children, Hfr1. }
    assert (Htx1 : forall b, text_at h1 b = text_at (heap st) b).
    { intros b. unfold text_at. destruct (decide (b = a)) as [-> | Hb].
      - rewrite Hh1a, Han. reflexivity.
      - rewrite Hh1o by exact Hb. reflexivity. }
    assert (Hpa1 : forall b, parent_id_at h1 b = parent_id_at (heap st) b).
    { intros b. unfold parent_id_at. destruct (decide (b = a)) as [-> | Hb].
      - rewrite Hh1a, Han. reflexivity.
      - rewrite Hh1o by exact Hb. reflexivity. }
    destruct (refresh_settled uuid1 html2text_handle (with_heap h1 st) t)
      as (st' & Hrefresh & Hok' & Hset & Hsel' & Hfired).
    { exact Hraw. }
    { stsimp. eapply tree_in_ext; [exact Ht | intros b _; apply Hfr1 | apply Hpa1]. }
    pose proof (tree_updated_refreshed uuid1 html2text_handle true (with_heap h1 st)) as Hrf.
    rewrite Hrefresh in Hrf. simpl snd in Hrf.
    exists st'. split; [| split; [exact Hok' | split; [| split; [| split; [| split;
      [| split; [| split; [exact Hsel' | exact Hfired]]]]]]]].
    + mstep (update_ok st a an (set_active_text (Some at')) Han). fold h1. mret.
      simpl orb. simpl when. exact Hrefresh.
    + rewrite (steady_active_text _ _ _ (rf_steady _ _ Hrf a)). stsimp.
      unfold active_text_at. rewrite Hh1a. reflexivity.
    + intros b Hb. rewrite (steady_active_text _ _ _ (rf_steady _ _ Hrf b)). stsimp.
      unfold active_text_at. rewrite Hh1o by exact Hb. reflexivity.
    + intros b. rewrite (se_ids _ _ Hset). stsimp. apply Hid1.
    + intros b. rewrite (se_children _ _ Hset). stsimp. apply Hch1.
    + intros b s Hs Hm. apply (se_text _ _ Hset); [| exact Hm]. stsimp.
      rewrite Htx1. exact Hs.
  - intros b n i text active_text Hn Hi Hno.
    unfold update_text. mstep (get_id_ok st b n i Hn Hi). mget.
    rewrite Hidx in *. cbn [dict_has] in Hno.
    destruct (dict_get (index_of (heap st) (preorder t)) i); [discriminate |].
    reflexivity.
Qed.

End ActiveText.

(** ** [generate_continuation] *)

Lemma generation_settings_kept st st' t t' gs :
  tree_ok st t -> tree_ok st' t' ->
  option_map rd_generation_settings (tree_raw_data st')
  = option_map rd_generation_settings (tree_raw_data st) ->
  generation_settings st = (Ok gs, st) -> generation_settings st' = (Ok gs, st').
Proof.
  intros Hok Hok' Heq. pose proof (ok_raw _ _ Hok) as H1. pose proof (ok_raw _ _ Hok') as H2.
  unfold generation_settings. rewrite !bind_get.
  destruct (tree_raw_data st) as [rd|]; [| discriminate].
  destruct (tree_raw_data st') as [rd'|]; [| discriminate].
  simpl in Heq. injection Heq as Heq. rewrite Heq. unfold ret. congruence.
Qed.

Section Continue.

Variable uuid1 : nat -> string.
Variable html2text_handle : string -> string.

(** The loop that creates the placeholders, without grandchildren. *)
Lemma placeholders_loop (a : addr) (gs : gen_settings) :
  adaptive gs = Some false ->
  forall (n i : nat) (st : TreeModel) (t : rtree) (cs0 acc : list addr),
  tree_ok st t -> uuid_fresh uuid1 st -> a ∈ preorder t ->
  generation_settings st = (Ok gs, st) ->
  children_at (heap st) a = Some cs0 ->
  exists st' t',
    for_each (seq i n)
      (fun _ '(children, grandchildren) =>
         let* child := create_child uuid1 html2text_handle (Some a) false true in
         let* c := not_none child in
         let* settings := generation_settings in
         let* ad := key (adaptive settings) in
         if ad : bool then
           let* g := create_child uuid1 html2text_handle (Some c) false true in
           let* g' := not_none g in
           ret ((children ++ [c])%list, (grandchildren ++ [g'])%list)
         else ret ((children ++ [c])%list, grandchildren))
      (acc, []) st
    = (Ok ((acc ++ seq (length (heap st)) n)%list, []), st')
    /\ tree_ok st' t' /\ uuid_fresh uuid1 st'
    /\ raddr t' = raddr t
    /\ (forall b, b ∈ preorder t' <-> b ∈ seq (length (heap st)) n \/ b ∈ preorder t)
    /\ children_at (heap st') a = Some (cs0 ++ seq (length (heap st)) n)%list
    /\ (forall b, b <> a -> b ∉ seq (length (heap st)) n ->
          children_at (heap st') b = children_at (heap st) b)
    /\ (forall b, b ∉ seq (length (heap st)) n -> id_at (heap st') b = id_at (heap st) b)
    /\ (forall c, c ∈ seq (length (heap st)) n ->
          text_at (heap st') c = Some ""%string /\ children_at (heap st') c = Some [])
    /\ (forall b s, text_at (heap st) b = Some s -> has_miro_markup s = false ->
          text_at (heap st') b = Some s)
    /\ selected_node_id st' = selected_node_id st
    /\ generation_settings st' = (Ok gs, st')
    /\ started st' = started st
    /\ length (heap st') = (length (heap st) + n)%nat.
Proof.
  intros Had. induction n as [|n IH]; intros i st t cs0 acc Hok Hfr Ha Hgs Hcs.
  - exists st, t. simpl seq. rewrite !app_nil_r, Nat.add_0_r.
    split; [reflexivity |]. split; [exact Hok |]. split; [exact Hfr |].
    split; [reflexivity |].
    split; [intros b; split; [auto | intros [H | H]; [inversion H | exact H]] |].
    split; [exact Hcs |]. split; [reflexivity |]. split; [reflexivity |].
    split; [intros c Hc; inversion Hc |]. auto 10.
  - destruct (create_child_run uuid1 html2text_handle st t (Some a) a cs0 false true
                Hok Hfr Ha (or_introl eq_refl) Hcs)
      as (s1 & t1 & Hrun & Hok1 & Hfr1 & Hin1 & Hroot1 & Hcha1 & Hcho1 & Hido1 & Hidc1 & Htxc1
          & Hchc1 & Htxo1 & Hsel1 & _ & _ & Hlen1 & Hgs1 & Hw1).
    set (c := length (heap st)) in *.
    assert (Hct : c ∉ preorder t) by apply alloc_not_in_tree, (ok_tree _ _ Hok).
    assert (Hac : a <> c) by (intros ->; auto).
    assert (Ha1 : a ∈ preorder t1) by (apply Hin1; auto).
    pose proof (generation_settings_kept st s1 t t1 gs Hok Hok1 Hgs1 Hgs) as Hgs1'.
    destruct (IH (S i) s1 t1 (cs0 ++ [c])%list (acc ++ [c])%list Hok1 Hfr1 Ha1 Hgs1' Hcha1)
      as (st' & t' & Hloop & Hok' & Hfr' & Hroot' & Hin' & Hcha' & Hcho' & Hido' & Hnew'
          & Htxo' & Hsel' & Hgs' & Hw' & Hlen').
    rewrite Hlen1 in *.
    assert (Hcs1 : c ∉ seq (S c) n).
    { intros H. apply elem_of_seq in H. lia. }
    exists st', t'. cbn [seq].
    split.
    { cbn [for_each]. mstep Hrun. cbn [not_none]. mret. mstep Hgs1'. rewrite Had.
      unfold key at 1. mret. mret. rewrite Hloop. rewrite <- app_assoc. reflexivity. }
    split; [exact Hok' |]. split; [exact Hfr' |]. split; [congruence |].
    split.
    { intros b. rewrite Hin', Hin1, elem_of_cons. tauto. }
    split; [rewrite Hcha', <- app_assoc; reflexivity |].
    split.
    { intros b Hba Hb. apply not_elem_of_cons in Hb as [Hbc Hb].
      rewrite Hcho' by assumption. apply Hcho1; assumption. }
    split.
    { intros b Hb. apply not_elem_of_cons in Hb as [Hbc Hb].
      rewrite Hido' by assumption. apply Hido1; assumption. }
    split.
    { intros x Hx. apply elem_of_cons in Hx as [-> | Hx]; [| apply Hnew', Hx].
      split; [apply Htxo'; [exact Htxc1 | reflexivity] |].
      rewrite Hcho' by (try exact Hcs1; congruence). exact Hchc1. }
    split; [intros b s Hs Hm; apply Htxo'; [apply Htxo1 |]; assumption |].
    split; [congruence |]. split; [exact Hgs' |]. split; [congruence |]. lia.
Qed.

End Continue.

(** *** The prompt of a request *)

(** The path from a node to the root is one. *)
Lemma ancestry_functional h d a l1 :
  ancestry h d a l1 -> forall l2, ancestry h d a l2 -> l1 = l2.
Proof.
  induction 1 as [a Ha Hroot | a pid p l Hpa Hget Hanc IH]; intros l2 H2.
  - inversion H2 as [a' Ha' Hroot' | a' pid' p' l' Hpa' Hget' Hanc']; subst;
      [reflexivity | congruence].
  - inversion H2 as [a' Ha' Hroot' | a' pid' p' l' Hpa' Hget' Hanc']; subst;
      [congruence |].
    assert (pid' = pid) as -> by congruence.
    assert (p' = p) as -> by congruence.
    rewrite (IH l' Hanc'). reflexivity.
Qed.

(** A path to the root in one store is one in another store that has the
    same parent ids on its nodes and resolves them to the same nodes. *)
Lemma ancestry_transfer h d h' d' a l :
  ancestry h d a l ->
  (forall b, b ∈ l -> is_Some (h' !! b) /\ parent_id_at h' b = parent_id_at h b) ->
  (forall b pid p, b ∈ l -> parent_id_at h b = Some pid -> dict_get d pid = Some p ->
     dict_get d' pid = Some p) ->
  ancestry h' d' a l.
Proof.
  induction 1 as [a Ha Hroot | a pid p l Hpa Hget Hanc IH]; intros Hsame Hdict.
  - destruct (Hsame a (list_elem_of_here _ _)) as [Hs Hp].
    apply anc_root; [exact Hs | congruence].
  - assert (Hal : a ∈ (l ++ [a])%list) by (apply elem_of_app; right; apply list_elem_of_here).
    destruct (Hsame a Hal) as [Hs Hp].
    eapply anc_step.
    + rewrite Hp. exact Hpa.
    + eapply Hdict; eauto.
    + apply IH.
      * intros b Hb. apply Hsame, elem_of_app. auto.
      * intros b pid' p' Hb. apply Hdict, elem_of_app. auto.
Qed.

(** [node_ancestry_text] on a path whose nodes have the texts [texts]. *)
Lemma texts_loop (l : list addr) : forall (texts acc : list string) st,
  Forall2 (fun x s => text_at (heap st) x = Some s) l texts ->
  for_each l (fun x acc => let* t := get_text x in ret (acc ++ [t])%list) acc st
  = (Ok (acc ++ texts)%list, st).
Proof.
  induction l as [|x l IH]; intros texts acc st H.
  - inversion H; subst. rewrite app_nil_r. reflexivity.
  - inversion H as [| x' s l' texts' Hx Hl]; subst. cbn [for_each].
    mstep (text_at_get _ _ _ Hx). mret. rewrite (IH texts' _ st Hl).
    rewrite <- app_assoc. reflexivity.
Qed.

Lemma concat_empty_last (l : list string) :
  String.concat "" (l ++ [""%string]) = String.concat "" l.
Proof.
  induction l as [|x l IH]; [reflexivity |].
  destruct l as [|y l].
  - simpl. rewrite append_nil_r. reflexivity.
  - change (String.concat "" ((x :: y :: l) ++ [""%string]))
      with (x ++ "" ++ String.concat "" ((y :: l) ++ [""%string]))%string.
    rewrite IH. reflexivity.
Qed.

(** The loop that marks the placeholders. *)
Lemma mark_loop (s : string) : forall (l : list addr) (st : TreeModel),
  (forall x, x ∈ l -> is_Some (text_at (heap st) x)) ->
  exists st',
    for_each l (fun child _ => update child (set_text (Some s))) tt st = (Ok tt, st')
    /\ with_heap (heap st) st' = st
    /\ (forall b, b ∉ l -> heap st' !! b = heap st !! b)
    /\ (forall x, x ∈ l -> text_at (heap st') x = Some s)
    /\ (forall b, skeleton_at (heap st') b = skeleton_at (heap st) b).
Proof.
  induction l as [|x l IH]; intros st Htx.
  - exists st. split; [reflexivity |]. split; [destruct st; reflexivity |].
    split; [reflexivity |]. split; [| reflexivity]. intros x Hx. inversion Hx.
  - destruct (Htx x (list_elem_of_here _ _)) as [tx Hx].
    assert (Hn : exists n, heap st !! x = Some n /\ n_text n = Some tx).
    { unfold text_at in Hx. destruct (heap st !! x) as [n|]; [eauto | discriminate]. }
    destruct Hn as (n & Hn & Hnt).
    set (s1 := with_heap (<[x := set_text (Some s) n]> (heap st)) st).
    assert (Hsk1 : forall b, skeleton_at (heap s1) b = skeleton_at (heap st) b).
    { intros b. unfold s1. stsimp. apply (skeleton_write_text _ _ _ _ _ Hn).
      rewrite Hnt. eauto. }
    destruct (IH s1) as (st' & Hrun & Hsame & Hout & Hin & Hsk).
    { intros y Hy. apply (skeleton_text_Some (heap st)); [apply Hsk1 |].
      apply Htx, list_elem_of_further, Hy. }
    exists st'. split; [| split; [| split; [| split]]].
    + cbn [for_each]. mstep (update_ok st x n (set_text (Some s)) Hn). exact Hrun.
    + eapply with_heap_back; [reflexivity | exact Hsame].
    + intros b Hb. apply not_elem_of_cons in Hb as [Hbx Hb]. rewrite Hout by exact Hb.
      unfold s1. stsimp. apply lookup_write_ne. congruence.
    + intros y Hy. destruct (decide (y ∈ l)) as [Hyl | Hyl]; [apply Hin, Hyl |].
      apply elem_of_cons in Hy as [-> | Hy]; [| contradiction].
      unfold text_at. rewrite Hout by exact Hyl. unfold s1. stsimp.
      rewrite (lookup_write_eq _ _ _ _ Hn). reflexivity.
    + intros b. rewrite Hsk. apply Hsk1.
Qed.

Section Request.

Variable uuid1 : nat -> string.
Variable html2text_handle : string -> string.

(** X25: in a well-formed model, with [adaptive] off,
    [generate_continuation] on a node [a] adds [num_continuations]
    placeholders to the end of the children of [a], each with the text
    of a placeholder, no children and the id of [a] as parent id, and
    starts one worker for them.  The prompt of the worker is the setting
    [memory] followed by the slice [joined[-prompt_length:]] of the texts
    on the path from the root to [a], joined: for a positive
    [prompt_length] these are its last [prompt_length] characters, for
    [prompt_length = 0] it is the whole text.  The first placeholder is
    selected when it is asked for.  With a number of continuations of
    zero or less it raises [IndexError] and leaves the model as it is. *)
Theorem generate_continuation_starts_worker (st : TreeModel) (t : rtree)
    (node : option addr) (a : addr) (gs : gen_settings) (kz pl : Z) (mem : string)
    (l : list addr) (texts : list string) (us : bool) :
  tree_ok st t -> uuid_fresh uuid1 st -> a ∈ preorder t -> names st node a ->
  generation_settings st = (Ok gs, st) ->
  num_continuations gs = Some kz -> adaptive gs = Some false ->
  prompt_length gs = Some pl -> memory gs = Some mem ->
  node_ancestry a (tree_node_dict st) st = (Ok l, st) ->
  Forall2 (fun x s => text_at (heap st) x = Some s /\ has_miro_markup s = false) l texts ->
  (kz <= 0 ->
   generate_continuation uuid1 html2text_handle node us st = (Raise IndexError, st))
  /\ (0 < kz ->
      exists cs st' t',
        children_at (heap st) a = Some cs
        /\ generate_continuation uuid1 html2text_handle node us st = (Ok tt, st')
        /\ tree_ok st' t'
        /\ (forall b, b ∈ preorder t'
                      <-> b ∈ seq (length (heap st)) (Z.to_nat kz) \/ b ∈ preorder t)
        /\ children_at (heap st') a = Some (cs ++ seq (length (heap st)) (Z.to_nat kz))%list
        /\ (forall c, c ∈ seq (length (heap st)) (Z.to_nat kz) ->
              text_at (heap st') c = Some (nl ++ nl ++ "** Generating **")%string
              /\ children_at (heap st') c = Some []
              /\ parent_id_at (heap st') c = id_at (heap st) a)
        /\ started st'
           = (started st
              ++ [mkWorker (mem ++ py_slice_from (String.concat "" texts) (- pl))%string
                           (seq (length (heap st)) (Z.to_nat kz)) []])%list
        /\ selected_node_id st'
           = (if us then id_at (heap st') (length (heap st)) else selected_node_id st)
        /\ (forall b, b ∈ preorder t -> id_at (heap st') b = id_at (heap st) b)).
Proof.
  intros Hok Hfr Ha Hnames Hgs Hnum Had Hpl Hmem Hanc_run Htexts.
  destruct (edit_start st t node a Hok Ha Hnames) as [Hsel Hfalsy].
  pose proof Hok as [Hraw Ht Hl Hidx].
  destruct (tree_in_keys_children _ _ a Ht Ha) as [cs Hcs].
  destruct (placeholders_loop uuid1 html2text_handle a gs Had (Z.to_nat kz) 0%nat st t cs []
              Hok Hfr Ha Hgs Hcs)
    as (s1 & t1 & Hloop & Hok1 & Hfr1 & Hroot1 & Hin1 & Hcha1 & Hcho1 & Hido1 & Hnew1 & Htxo1
        & Hsel1 & Hgs1 & Hw1 & Hlen1).
  set (new := seq (length (heap st)) (Z.to_nat kz)) in *.
  assert (Hstart : forall r,
            (let* first := py_nth new 0 in
             let* texts := node_ancestry_text (Some first) in
             let* settings := generation_settings in
             let* pl := key (prompt_length settings) in
             let* mem := key (memory settings) in
             modify (fun st => with_started
                        (started st
                         ++ [mkWorker (mem ++ py_slice_from (String.concat "" texts) (- pl))
                               new []])%list st) ;;;
             for_each new
               (fun child _ =>
                  update child (set_text (Some (nl ++ nl ++ "** Generating **")%string))) tt ;;;
             for_each []
               (fun g _ =>
                  update g (set_text (Some (nl ++ nl ++ "** Generating **")%string))) tt ;;;
             tree_updated uuid1 html2text_handle true ;;;
             when us
               (let* first := py_nth new 0 in
                let* i := get_id first in
                select_node i true ;;; ret tt)) s1 = r ->
            generate_continuation uuid1 html2text_handle node us st = r).
  { intros r Hr. unfold generate_continuation. mstep Hsel. mstep Hfalsy. mstep Hgs.
    rewrite Hnum. unfold key at 1. mret. mstep Hloop. cbn [app]. exact Hr. }
  split.
  - intros Hk. apply Hstart.
    assert (Hz : Z.to_nat kz = 0%nat) by lia.
    unfold new in *. rewrite Hz in *. cbn in Hloop.
    assert (s1 = st) as -> by (unfold ret in Hloop; congruence).
    reflexivity.
  - intros Hk.
    set (first := length (heap st)).
    assert (Hnew_eq : new = first :: seq (S first) (Z.to_nat kz - 1)).
    { unfold new, first. destruct (Z.to_nat kz) as [|m] eqn:Hm; [lia |].
      simpl. rewrite Nat.sub_0_r. reflexivity. }
    assert (Hfirst_new : first ∈ new) by (rewrite Hnew_eq; apply list_elem_of_here).
    assert (Hnew_lt : forall c, c ∈ new -> (length (heap st) <= c)%nat).
    { intros c Hc. apply elem_of_seq in Hc. lia. }
    assert (Hold_new : forall b, b ∈ preorder t -> b ∉ new).
    { intros b Hb Hbn. destruct (tree_ok_node st t b Hok Hb) as (n & i & Hn & _).
      apply lookup_lt_Some in Hn. apply Hnew_lt in Hbn. lia. }
    assert (Hsub1 : forall b, b ∈ preorder t -> b ∈ preorder t1) by (intros b Hb; apply Hin1; auto).
    assert (Hnew1_in : forall c, c ∈ new -> c ∈ preorder t1) by (intros c Hc; apply Hin1; auto).
    assert (Ha1 : a ∈ preorder t1) by auto.
    destruct (tree_ok_node st t a Hok Ha) as (an & ai & Han & Hai & _ & Haid).
    assert (Haid1 : id_at (heap s1) a = Some ai).
    { rewrite Hido1 by auto. exact Haid. }
    (* the nodes of the tree keep their parent ids *)
    assert (Hpa1 : forall b, b ∈ preorder t ->
              parent_id_at (heap s1) b = parent_id_at (heap st) b).
    { intros b Hb. destruct (decide (b = raddr t)) as [-> | Hbr].
      - rewrite (ti_root _ _ Ht). rewrite <- Hroot1. apply (ti_root _ _ (ok_tree _ _ Hok1)).
      - destruct (tree_ok_parent st t b Hok Hb Hbr)
          as (p & pid & pcs & k & Hp & Hpb & Hpid & _ & Hpcs & Hkb).
        assert (Hpcs1 : exists pcs1, children_at (heap s1) p = Some pcs1 /\ b ∈ pcs1).
        { destruct (decide (p = a)) as [-> | Hpa].
          - eexists. split; [exact Hcha1 |]. apply elem_of_app. left.
            assert (pcs = cs) as <- by congruence. eapply list_elem_of_lookup_2, Hkb.
          - exists pcs. split; [rewrite Hcho1; auto |]. eapply list_elem_of_lookup_2, Hkb. }
        destruct Hpcs1 as (pcs1 & Hpcs1 & Hbin).
        rewrite (tree_ok_child s1 t1 p pcs1 b Hok1 (Hsub1 p Hp) Hpcs1 Hbin).
        rewrite Hido1 by auto. congruence. }
    (* the path from the root to the first placeholder *)
    pose proof (node_ancestry_inv st t a l Hok Ha Hanc_run) as Hanc.
    destruct (ancestry_path st t a l Hok Ha Hanc) as (_ & _ & _ & Hl_in).
    assert (Hanc1 : ancestry (heap s1) (index_of (heap s1) (preorder t1)) a l).
    { apply (ancestry_transfer _ _ _ _ _ _ Hanc).
      - intros b Hb. split; [| apply Hpa1, Hl_in, Hb].
        destruct (tree_ok_node s1 t1 b Hok1 (Hsub1 b (Hl_in b Hb))) as (n & i & Hn & _).
        eauto.
      - intros b pid p Hb Hpb Hget.
        apply dict_get_index_of_inv in Hget as [Hp Hpid].
        2:{ intros x Hx. eapply tree_in_keys_id; eauto. }
        apply dict_get_index_of.
        + intros x Hx. eapply tree_in_keys_id; [apply (ok_tree _ _ Hok1) | exact Hx].
        + apply (ti_ids _ _ (ok_tree _ _ Hok1)).
        + auto.
        + rewrite Hido1 by auto. exact Hpid. }
    assert (Hpf : parent_id_at (heap s1) first = Some ai).
    { rewrite (tree_ok_child s1 t1 a _ first Hok1 Ha1 Hcha1); [exact Haid1 |].
      apply elem_of_app. right. exact Hfirst_new. }
    assert (Hancf : ancestry (heap s1) (index_of (heap s1) (preorder t1)) first
                      (l ++ [first])%list).
    { eapply anc_step; [exact Hpf | | exact Hanc1].
      apply dict_get_index_of; auto.
      - intros x Hx. eapply tree_in_keys_id; [apply (ok_tree _ _ Hok1) | exact Hx].
      - apply (ti_ids _ _ (ok_tree _ _ Hok1)). }
    destruct (tree_ancestry _ t1 first (ok_tree _ _ Hok1) (ok_linked _ _ Hok1)
                (Hnew1_in first Hfirst_new)) as (l' & Hanc' & Hlen').
    rewrite <- (ancestry_functional _ _ _ _ Hancf l' Hanc') in Hlen'.
    assert (Htexts1 : Forall2 (fun x s => text_at (heap s1) x = Some s)
                        (l ++ [first])%list (texts ++ [""%string])%list).
    { apply Forall2_app.
      - eapply Forall2_impl; [exact Htexts |]. intros x s [Hx Hm]. apply Htxo1; assumption.
      - constructor; [| constructor]. apply (Hnew1 first Hfirst_new). }
    assert (Hrun_text : node_ancestry_text (Some first) s1
                        = (Ok (texts ++ [""%string])%list, s1)).
    { unfold node_ancestry_text.
      mstep (or_selected_names s1 t1 (Some first) first Hok1 (Hnew1_in first Hfirst_new)
               (or_introl eq_refl)).
      cbn [not_none]. mret. mget. rewrite (ok_index _ _ Hok1).
      mstep (node_ancestry_spec s1 _ first _ Hancf Hlen').
      apply (texts_loop _ _ [] s1 Htexts1). }
    (* the worker and the marks *)
    set (prompt := (mem ++ py_slice_from (String.concat "" texts) (- pl))%string).
    set (s2 := with_started (started s1 ++ [mkWorker prompt new []])%list s1).
    destruct (mark_loop (nl ++ nl ++ "** Generating **")%string new s2)
      as (s3 & Hmark & Hsame3 & Hout3 & Hin3 & Hsk3).
    { intros x Hx. unfold s2. stsimp. rewrite (proj1 (Hnew1 x Hx)). eauto. }
    assert (Hs3 : tree_node_dict s3 = tree_node_dict s1 /\ tree_raw_data s3 = tree_raw_data s1
                  /\ uuid_clock s3 = uuid_clock s1 /\ selected_node_id s3 = selected_node_id s1
                  /\ started s3 = (started s1 ++ [mkWorker prompt new []])%list).
    { pose proof (f_equal tree_node_dict Hsame3) as E1.
      pose proof (f_equal tree_raw_data Hsame3) as E2.
      pose proof (f_equal uuid_clock Hsame3) as E3.
      pose proof (f_equal selected_node_id Hsame3) as E4.
      pose proof (f_equal started Hsame3) as E5.
      cbn in E1, E2, E3, E4, E5. rewrite E1, E2, E3, E4, E5. unfold s2. stsimp.
      repeat split. }
    destruct Hs3 as (Hd3 & Hraw3 & Hclk3 & Hsel3 & Hw3).
    destruct (refresh_settled uuid1 html2text_handle s3 t1)
      as (s4 & Hrefresh & Hok4 & Hset4 & Hsel4 & _).
    { rewrite Hraw3. apply (ok_raw _ _ Hok1). }
    { eapply tree_in_ext; [apply (ok_tree _ _ Hok1) | |].
      - intros b _. rewrite (kept_frame _ _ _ (skeleton_kept _ _ _ (Hsk3 b))).
        unfold s2. stsimp. reflexivity.
      - rewrite (skeleton_parent_id _ _ _ (Hsk3 _)). unfold s2. stsimp. reflexivity. }
    assert (Hfinal : exists st',
              when us (let* first := py_nth new 0 in
                       let* i := get_id first in
                       select_node i true ;;; ret tt) s4 = (Ok tt, st')
              /\ tree_ok st' t1
              /\ (forall b, content_at (heap st') b = content_at (heap s4) b)
              /\ started st' = started s4
              /\ selected_node_id st'
                 = (if us then id_at (heap s4) first else selected_node_id s4)).
    { destruct us; [| exists s4; auto 10].
      destruct (tree_ok_node s4 t1 first Hok4 (Hnew1_in first Hfirst_new))
        as (fn & fi & Hfn & _ & _ & Hfid).
      destruct (select_node_tree_ok s4 t1 first fi true Hok4 (Hnew1_in first Hfirst_new) Hfid)
        as (r & s5 & Hrun5 & Hsel5 & Hpost5 & Hok5).
      exists s5. split; [| split; [exact Hok5 | split; [apply (sp_content _ _ Hpost5) |
        split; [apply (sp_started _ _ Hpost5) | congruence]]]].
      simpl when. rewrite Hnew_eq.
      mstep (py_nth_ok (first :: seq (S first) (Z.to_nat kz - 1)) 0 first s4
               (Z.le_refl 0) eq_refl).
      mstep (id_at_get_id _ _ _ Hfid). mstep Hrun5. reflexivity. }
    destruct Hfinal as (st' & Hlast & Hok' & Hct' & Hw' & Hsel').
    assert (Hch' : forall b, children_at (heap st') b = children_at (heap s1) b).
    { intros b. rewrite (content_children _ _ _ (Hct' b)), (se_children _ _ Hset4).
      rewrite (skeleton_children _ _ _ (Hsk3 b)). unfold s2. stsimp. reflexivity. }
    assert (Hid' : forall b, id_at (heap st') b = id_at (heap s1) b).
    { intros b. rewrite (content_id _ _ _ (Hct' b)), (se_ids _ _ Hset4).
      rewrite (skeleton_id _ _ _ (Hsk3 b)). unfold s2. stsimp. reflexivity. }
    exists cs, st', t1.
    split; [exact Hcs |].
    split.
    { apply Hstart. rewrite Hnew_eq at 1.
      mstep (py_nth_ok (first :: seq (S first) (Z.to_nat kz - 1)) 0 first s1
               (Z.le_refl 0) eq_refl).
      mstep Hrun_text. mstep Hgs1. rewrite Hpl. unfold key at 1. mret.
      rewrite Hmem. unfold key at 1. mret. mmod.
      rewrite concat_empty_last. fold prompt. fold s2.
      mstep Hmark. cbn [for_each]. mret. mstep Hrefresh. exact Hlast. }
    split; [exact Hok' |]. split; [exact Hin1 |].
    split; [rewrite Hch'; exact Hcha1 |].
    split.
    { intros c Hc. split; [| split].
      - rewrite (content_text _ _ _ (Hct' c)).
        apply (se_text _ _ Hset4); [apply Hin3, Hc | reflexivity].
      - rewrite Hch'. apply (Hnew1 c Hc).
      - rewrite (tree_ok_child st' t1 a (cs ++ new)%list c Hok' Ha1).
        + rewrite Hid', Hido1 by auto. reflexivity.
        + rewrite Hch'. exact Hcha1.
        + apply elem_of_app. right. exact Hc. }
    split; [rewrite Hw', (se_started _ _ Hset4), Hw3, Hw1; reflexivity |].
    split.
    { rewrite Hsel'. destruct us.
      - rewrite (content_id _ _ _ (Hct' first)). reflexivity.
      - rewrite Hsel4, Hsel3, Hsel1. reflexivity. }
    intros b Hb. rewrite Hid'. apply Hido1. auto.
Qed.

End Request.

(** ** Loading a document *)

(** The loop that gives every node an [open] flag. *)
Lemma open_defaults_full (l : list addr) : forall st,
  (forall x, x ∈ l -> is_Some (heap st !! x)) ->
  exists h',
    for_each l (fun node _ =>
                  let* n := read node in
                  update node (set_open (Some (default false (n_open n))))) tt st
    = (Ok tt, with_heap h' st)
    /\ (forall b, content_at h' b = content_at (heap st) b)
    /\ (forall x, x ∈ l -> open_at h' x = Some (default false (open_at (heap st) x)))
    /\ (forall b, b ∉ l -> h' !! b = heap st !! b).
Proof.
  induction l as [|x l IH]; intros st Hex.
  - exists (heap st). split; [destruct st; reflexivity |]. split; [reflexivity |].
    split; [| reflexivity]. intros x Hx. inversion Hx.
  - destruct (Hex x (list_elem_of_here _ _)) as [n Hn].
    set (h1 := <[x := set_open (Some (default false (n_open n))) n]> (heap st)).
    assert (Hc1 : forall b, content_at h1 b = content_at (heap st) b).
    { intros b. unfold h1. eapply content_at_write; eauto. }
    assert (Hx1 : open_at h1 x = Some (default false (open_at (heap st) x))).
    { unfold open_at, h1. rewrite (lookup_write_eq _ _ _ _ Hn), Hn. reflexivity. }
    assert (Ho1 : forall b, b <> x -> h1 !! b = heap st !! b).
    { intros b Hb. unfold h1. apply lookup_write_ne. congruence. }
    destruct (IH (with_heap h1 st)) as (h' & Hrun & Hc & Hin & Hout).
    { intros y Hy. stsimp. eapply content_is_Some; [apply Hc1 |].
      apply Hex, list_elem_of_further, Hy. }
    exists h'. split; [| split; [| split]].
    + cbn [for_each]. mstep (read_ok _ _ _ Hn).
      mstep (update_ok st x n (set_open (Some (default false (n_open n)))) Hn).
      fold h1. rewrite Hrun. stsimp. reflexivity.
    + intros b. rewrite Hc. stsimp. apply Hc1.
    + intros y Hy. destruct (decide (y ∈ l)) as [Hyl | Hyl].
      * rewrite (Hin y Hyl). stsimp. destruct (decide (y = x)) as [-> | Hyx].
        -- rewrite Hx1. reflexivity.
        -- unfold open_at. rewrite Ho1 by exact Hyx. reflexivity.
      * apply elem_of_cons in Hy as [-> | Hy]; [| contradiction].
        unfold open_at at 1. rewrite (Hout x Hyl). stsimp. exact Hx1.
    + intros b Hb. apply not_elem_of_cons in Hb as [Hbx Hb].
      rewrite (Hout b Hb). stsimp. apply Ho1, Hbx.
Qed.

(** What every step of [select_node] keeps, [select_node] keeps. *)
Lemma select_node_frame (R : TreeModel -> TreeModel -> Prop) :
  (forall x, R x x) -> (forall x y z, R x y -> R y z -> R x z) ->
  (forall e s, R s (snd (fire e s))) ->
  (forall i s, R s (with_selected (Some i) s)) ->
  (forall a s, R s (snd (update a (set_visited (Some true)) s))) ->
  (forall i s, R s (snd (set_raw_selected (Some i) s))) ->
  (forall a s, R s (snd (update a (set_open (Some true)) s))) ->
  forall node_id fire_callbacks st, R st (snd (select_node node_id fire_callbacks st)).
Proof.
  intros Hrefl Htr Hfire Hsel Hvis Hraw Hopen node_id fire_callbacks st.
  unfold select_node. rewrite bind_get.
  destruct (bool_decide (selected_node_id st <> Some node_id)
            && dict_truthy (tree_node_dict st) && dict_has (tree_node_dict st) node_id);
    [| apply Hrefl].
  apply frame_bind; [exact Htr | apply Hfire |]. intros _ s1 _.
  apply frame_bind; [exact Htr | apply Hsel |]. intros _ s2 _.
  apply frame_bind; [exact Htr | |].
  { apply reads_only_frame; [exact Hrefl | apply reads_only_selected_node]. }
  intros sel s3 _.
  apply frame_bind; [exact Htr | |].
  { apply reads_only_frame; [exact Hrefl | apply reads_only_not_none]. }
  intros a s4 _.
  apply frame_bind; [exact Htr | apply Hvis |]. intros _ s5 _.
  apply frame_bind; [exact Htr | apply Hraw |]. intros _ s6 _.
  apply frame_bind; [exact Htr | |].
  { apply reads_only_frame; [exact Hrefl | apply reads_only_node_ancestry]. }
  intros anc s7 _.
  apply frame_bind; [exact Htr | |].
  { apply frame_for_each; [exact Hrefl | exact Htr |]. intros x acc s. apply Hopen. }
  intros _ s8 _.
  apply frame_bind; [exact Htr | |].
  { apply reads_only_frame; [exact Hrefl | apply reads_only_raw_root]. }
  intros r s9 _.
  apply frame_bind; [exact Htr | apply Hopen |]. intros _ s10 _.
  apply frame_bind; [exact Htr | |].
  { destruct fire_callbacks; simpl when; [apply Hfire | apply Hrefl]. }
  intros _ s11 _.
  apply reads_only_frame; [exact Hrefl | apply reads_only_selected_node].
Qed.

(** [select_node] takes no [open] flag away. *)
Lemma select_node_keeps_open (node_id : string) (fire_callbacks : bool) st :
  forall b, is_Some (open_at (heap st) b) ->
            is_Some (open_at (heap (snd (select_node node_id fire_callbacks st))) b).
Proof.
  assert (Hupd : forall a f s,
            (forall n, is_Some (n_open n) -> is_Some (n_open (f n))) ->
            forall b, is_Some (open_at (heap s) b) ->
                      is_Some (open_at (heap (snd (update a f s))) b)).
  { intros a f s Hf b H. unfold update, bind, read, modify.
    destruct (heap s !! a) as [n|] eqn:Hn; simpl; [| exact H]. stsimp.
    unfold open_at in *. destruct (decide (a = b)) as [<- | Hne].
    - rewrite (lookup_write_eq _ _ _ _ Hn). rewrite Hn in H. apply Hf, H.
    - rewrite lookup_write_ne by exact Hne. exact H. }
  apply (select_node_frame
           (fun s s' => forall b, is_Some (open_at (heap s) b) ->
                                  is_Some (open_at (heap s') b))).
  - intros x b H. exact H.
  - intros x y z H1 H2 b H. auto.
  - intros e s b H. exact H.
  - intros i s b H. exact H.
  - intros a s. apply Hupd. intros n H. exact H.
  - intros i s b H. unfold set_raw_selected. rewrite bind_get.
    destruct (tree_raw_data s); exact H.
  - intros a s. apply Hupd. intros n _. simpl. eauto.
Qed.

(** [select_node] leaves the chapters of the document. *)
Lemma select_node_keeps_chapters (node_id : string) (fire_callbacks : bool) st :
  option_map rd_chapters (tree_raw_data (snd (select_node node_id fire_callbacks st)))
  = option_map rd_chapters (tree_raw_data st).
Proof.
  assert (Hupd : forall a f s,
            option_map rd_chapters (tree_raw_data (snd (update a f s)))
            = option_map rd_chapters (tree_raw_data s)).
  { intros a f s. unfold update, bind, read, modify.
    destruct (heap s !! a) as [n|]; reflexivity. }
  apply (select_node_frame
           (fun s s' => option_map rd_chapters (tree_raw_data s')
                        = option_map rd_chapters (tree_raw_data s))).
  - reflexivity.
  - intros x y z H1 H2. congruence.
  - reflexivity.
  - reflexivity.
  - intros a s. apply Hupd.
  - intros i s. unfold set_raw_selected. rewrite bind_get.
    destruct (tree_raw_data s) as [rd|] eqn:E; simpl; rewrite ?E; reflexivity.
  - intros a s. apply Hupd.
Qed.

Section LoadFull.

Variable uuid1 : nat -> string.
Variable html2text_handle : string -> string.

(** X26: loading a document whose nested tree has a text and a list of
    children on every node leaves a well-formed model, with an id
    generator that is still fresh: the model that the edits start from.
    Every node of the tree then has an [open] flag, the lists of children
    and the ids that were there are as the document has them, the
    generation settings are the default ones overridden by those of the
    document, and the document has its dictionary of chapters. *)
Theorem load_tree_data_establishes_invariant (data : loaded_data) (st : TreeModel)
    (t : rtree) :
  doc_root data = raddr t -> doc_in (heap st) t -> uuid_fresh uuid1 st ->
  (forall a, a ∈ preorder t -> is_Some (children_at (heap st) a)) ->
  exists st',
    load_tree_data uuid1 html2text_handle data st = (Ok tt, st')
    /\ tree_ok st' t /\ uuid_fresh uuid1 st'
    /\ (forall a, a ∈ preorder t -> is_Some (open_at (heap st') a))
    /\ (forall b, children_at (heap st') b = children_at (heap st) b)
    /\ (forall b i, id_at (heap st) b = Some i -> id_at (heap st') b = Some i)
    /\ generation_settings st'
       = (Ok (merge_gen_settings DEFAULT_GENERATION_SETTINGS
                (default no_settings (doc_settings data))), st')
    /\ option_map rd_chapters (tree_raw_data st')
       = Some (Some (default [] (doc_chapters data))).
Proof.
  intros Hroot Hdoc Hfresh Hkids.
  set (rd0 := match data with
              | Document doc => doc
              | BareRecord r => mkRaw r None None None
              end).
  assert (Hrd0 : rd_root rd0 = raddr t /\ rd_selected_node_id rd0 = doc_selection data
                 /\ rd_generation_settings rd0 = doc_settings data
                 /\ rd_chapters rd0 = doc_chapters data).
  { unfold rd0. destruct data; simpl in *; auto. }
  destruct Hrd0 as (Hrd0r & Hrd0s & Hrd0g & Hrd0c).
  set (s0 := with_raw (Some rd0) st).
  assert (Hfirst : forall k : M unit,
            (match data with
             | Document doc => modify (with_raw (Some doc))
             | BareRecord r =>
                 let* n := read r in
                 if has_key (n_text n) then modify (with_raw (Some (mkRaw r None None None)))
                 else raise AssertionError
             end ;;; k) st = k s0).
  { intros k. destruct data as [doc | r]; [reflexivity |].
    simpl in Hroot. subst r.
    destruct (di_text _ _ Hdoc (raddr t) (raddr_in_preorder t)) as [s Hs].
    unfold text_at in Hs. destruct (heap st !! raddr t) as [n|] eqn:Hn; [| discriminate].
    mstep (read_ok _ _ _ Hn). rewrite Hs. reflexivity. }
  set (l := preorder t).
  destruct (flatten_tree_spec uuid1 t s0 (di_shape _ _ Hdoc) (di_nodup _ _ Hdoc))
    as (h1 & Hrun1 & Hpost1).
  destruct (flat_post_ids uuid1 _ _ t h1 Hpost1 (proj1 Hfresh) (proj2 Hfresh)
              (di_ids _ _ Hdoc)) as [Hnd1 Hlook1].
  assert (Hf1 : flat_in h1 t).
  { split.
    - eapply shape_payload; [apply (di_shape _ _ Hdoc) | apply (fp_payload _ _ _ _ _ Hpost1)].
    - intros a Ha. apply list_elem_of_lookup in Ha as [j Hj]. rewrite (Hlook1 j a Hj). eauto.
    - intros a Ha. rewrite (payload_text _ _ _ (fp_payload _ _ _ _ _ Hpost1 a)).
      apply (di_text _ _ Hdoc a Ha).
    - exact Hnd1.
    - rewrite (fp_root _ _ _ _ _ Hpost1). apply (di_root _ _ Hdoc).
    - apply (fp_linked _ _ _ _ _ Hpost1). }
  set (s1 := with_clock (uuid_clock s0 + missing (heap s0) (preorder t)) (with_heap h1 s0)).
  fold s1 in Hrun1.
  set (d1 := index_of h1 l).
  set (s2 := with_dict (Some d1) s1).
  destruct (open_defaults_full l s2) as (h2 & Hrun2 & Hc2 & Hopen2 & Hout2).
  { intros x Hx. eapply shape_lookup; [apply (fi_shape _ _ Hf1) | exact Hx]. }
  assert (Hf2 : flat_in h2 t).
  { eapply flat_in_ext; [exact Hf1 | |].
    - intros b _. apply content_frame, Hc2.
    - intros b _. apply content_parent_id, Hc2. }
  set (rd1 := mkRaw (rd_root rd0) (rd_selected_node_id rd0)
                (Some (default [] (rd_chapters rd0)))
                (Some (merge_gen_settings DEFAULT_GENERATION_SETTINGS
                         (default no_settings (rd_generation_settings rd0))))).
  set (s4 := with_raw (Some rd1) (with_heap h2 s2)).
  destruct (tree_updated_flat uuid1 html2text_handle s4 t) as (h3 & Hrun3 & Hf3 & Hid3).
  { unfold s4. stsimp. simpl. f_equal. exact Hrd0r. }
  { exact Hf2. }
  set (d3 := index_of h3 l).
  set (s5 := with_fired (fired s4 ++ [ev_tree_updated])
               (with_dict (Some d3) (with_heap h3 s4))).
  fold l d3 s5 in Hrun3.
  pose proof (tree_updated_refreshed uuid1 html2text_handle true s4) as Hrf.
  rewrite Hrun3 in Hrf. simpl snd in Hrf.
  assert (Hst3 : forall b, steady_at h3 b = steady_at h2 b).
  { intros b. exact (rf_steady _ _ Hrf b). }
  assert (Hch3 : forall b, children_at h3 b = children_at (heap st) b).
  { intros b. transitivity (children_at h2 b).
    - pose proof (Hst3 b) as H. unfold steady_at, children_at, steady in *.
      destruct (h3 !! b), (h2 !! b); simpl in H; inversion H; auto.
    - rewrite (content_children _ _ _ (Hc2 b)). unfold s2, s1. stsimp.
      apply payload_children, (fp_payload _ _ _ _ _ Hpost1). }
  assert (Hop3 : forall b, open_at h3 b = open_at h2 b).
  { intros b. pose proof (Hst3 b) as H. unfold steady_at, open_at, steady in *.
    destruct (h3 !! b), (h2 !! b); simpl in H; inversion H; auto. }
  assert (Hids3 : forall b, id_at h3 b = id_at h1 b).
  { intros b. rewrite Hid3. unfold s4. stsimp. apply content_id, Hc2. }
  assert (Hok5 : tree_ok s5 t).
  { split.
    - unfold s5, s4. stsimp. simpl. f_equal. exact Hrd0r.
    - split.
      + apply (fi_shape _ _ Hf3).
      + intros a Ha. destruct (shape_lookup _ _ _ (fi_shape _ _ Hf3) Ha) as [n Hn].
        exists n. split; [exact Hn |].
        pose proof (fi_has_ids _ _ Hf3 a Ha) as Hi. pose proof (fi_text _ _ Hf3 a Ha) as Htx.
        pose proof (Hkids a Ha) as Hk. rewrite <- Hch3 in Hk.
        unfold id_at, text_at, children_at in *. rewrite Hn in *. auto.
      + apply (fi_ids _ _ Hf3).
      + apply (fi_root _ _ Hf3).
    - apply (fi_linked _ _ Hf3).
    - reflexivity. }
  destruct (fi_has_ids _ _ Hf3 (raddr t) (raddr_in_preorder t)) as [rid Hrid].
  set (i := default rid (doc_selection data)).
  pose proof (select_node_selected_post i true s5) as Hpost.
  pose proof (select_node_keeps_open i true s5) as Hkeep.
  pose proof (select_node_keeps_chapters i true s5) as Hchap.
  assert (Hsel : exists r st', select_node i true s5 = (Ok r, st') /\ tree_ok st' t).
  { destruct (dict_get d3 i) as [a|] eqn:Hg.
    - destruct (dict_get_index_of_inv h3 l a i (fi_has_ids _ _ Hf3) Hg) as [Ha Hai].
      destruct (select_node_tree_ok s5 t a i true Hok5 Ha Hai) as (r & st' & Hrun & _ & _ & Hok').
      exists r, st'. auto.
    - exists None, s5. split; [| exact Hok5].
      unfold select_node. mget.
      replace (dict_has (tree_node_dict s5) i) with false
        by (unfold s5; stsimp; unfold dict_has; rewrite Hg; reflexivity).
      rewrite andb_false_r. reflexivity. }
  destruct Hsel as (r & st' & Hrunsel & Hok').
  rewrite Hrunsel in Hpost, Hkeep, Hchap. simpl snd in Hpost, Hkeep, Hchap.
  assert (Hids' : forall b, id_at (heap st') b = id_at h1 b).
  { intros b. rewrite (content_id _ _ _ (sp_content _ _ Hpost b)). apply Hids3. }
  assert (Hclk' : uuid_clock st' = (uuid_clock st + missing (heap st) (preorder t))%nat).
  { rewrite (sp_clock _ _ Hpost). reflexivity. }
  assert (Hold : forall b i0, id_at (heap st) b = Some i0 -> id_at h1 b = Some i0).
  { intros b i0 Hb. destruct (decide (b ∈ preorder t)) as [Hin | Hout].
    - apply list_elem_of_lookup in Hin as [j Hj]. rewrite (Hlook1 j b Hj).
      unfold s0. stsimp. rewrite Hb. reflexivity.
    - unfold id_at. rewrite (fp_frame _ _ _ _ _ Hpost1 b Hout). exact Hb. }
  exists st'. split; [| split; [exact Hok' | split; [| split; [| split; [| split; [| split]]]]]].
  - unfold load_tree_data. rewrite Hfirst.
    assert (Hrr : raw_root s0 = (Ok (raddr t), s0)).
    { apply raw_root_ok. unfold s0. stsimp. simpl. f_equal. exact Hrd0r. }
    mstep Hrr. mstep Hrun1.
    mstep (build_dict_spec l s1 (fi_has_ids _ _ Hf1) (fi_ids _ _ Hf1)).
    change (index_of (heap s1) l) with d1.
    mmod. change (with_dict (Some d1) s1) with s2.
    unfold d1 at 1. rewrite dict_values_index_of.
    mstep Hrun2.
    unfold _init_global_objects. mget.
    change (tree_raw_data (with_heap h2 s2)) with (Some rd0). cbv iota.
    mmod. change (with_raw _ (with_heap h2 s2)) with s4.
    mstep Hrun3.
    unfold nodes. mget. change (tree_node_dict s5) with (Some d3).
    unfold d3 at 1. unfold l at 1.
    rewrite dict_truthy_index_of. mret. simpl option_map. unfold not_none at 1. mret.
    unfold d3 at 1. rewrite dict_values_index_of.
    assert (Hn0 : py_nth l 0 s5 = (Ok (raddr t), s5)).
    { apply py_nth_ok; [lia |]. unfold l. rewrite preorder_head. reflexivity. }
    mstep Hn0.
    assert (Hgi : get_id (raddr t) s5 = (Ok rid, s5)).
    { apply id_at_get_id. unfold s5. stsimp. exact Hrid. }
    mstep Hgi. mget. change (tree_raw_data s5) with (Some rd1). unfold not_none. mret.
    change (rd_selected_node_id rd1) with (rd_selected_node_id rd0). rewrite Hrd0s. fold i.
    mstep Hrunsel. reflexivity.
  - destruct Hfresh as [Hinj Hfr]. split; [exact Hinj |].
    intros b k Hk. rewrite Hclk' in Hk. rewrite Hids'.
    destruct (id_at (heap st) b) as [i0|] eqn:Hb.
    + rewrite (Hold b i0 Hb). rewrite <- Hb. apply Hfr. lia.
    + destruct (decide (b ∈ preorder t)) as [Hin | Hout].
      * apply list_elem_of_lookup in Hin as [j Hj]. rewrite (Hlook1 j b Hj).
        unfold s0. stsimp. rewrite Hb. simpl. intros Heq. injection Heq as Heq.
        apply Hinj in Heq.
        pose proof (missing_take_lt (heap st) (preorder t) j b Hj Hb). lia.
      * unfold id_at. rewrite (fp_frame _ _ _ _ _ Hpost1 b Hout).
        unfold s0. stsimp. fold (id_at (heap st) b). rewrite Hb. discriminate.
  - intros a Ha. apply Hkeep. unfold s5. stsimp. rewrite Hop3, (Hopen2 a Ha). eauto.
  - intros b. rewrite (content_children _ _ _ (sp_content _ _ Hpost b)).
    unfold s5. stsimp. apply Hch3.
  - intros b i0 Hb. rewrite Hids'. apply Hold, Hb.
  - pose proof (sp_settings _ _ Hpost) as Hs. pose proof (ok_raw _ _ Hok') as Hr'.
    unfold generation_settings. rewrite bind_get.
    destruct (tree_raw_data st') as [rd'|]; [| discriminate].
    unfold s5, s4 in Hs. revert Hs. stsimp. simpl. intros Hs. injection Hs as Hs.
    rewrite Hs, Hrd0g. reflexivity.
  - rewrite Hchap. unfold s5, s4. stsimp. simpl. rewrite Hrd0c. reflexivity.
Qed.

End LoadFull.

(** ** Flattening with the parents revisited *)

Lemma bind_diverge {A B : Type} (m : M A) (k : A -> M B) st st' :
  m st = (Diverge, st') -> bind m k st = (Diverge, st').
Proof. intros H. unfold bind. rewrite H. reflexivity. Qed.

Section RevisitSim.

Variable uuid1 : nat -> string.

(** The two loops over the children of [d], when the calls on the children
    agree. *)
Lemma revisit_loop (depth : nat) (d : addr) (id : string) :
  (forall c st,
     match flatten_tree_rec uuid1 depth c st with
     | (Ok l, s) =>
         exists l', flatten_tree_revisit_parents_rec uuid1 depth c (Some d) st = (Ok l', s)
                    /\ length l' = (2 * length l)%nat /\ l <> []
                    /\ (forall x, x ∈ l' <-> x ∈ l \/ x = d)
                    /\ l `sublist_of` l'
     | (Raise e, s) => flatten_tree_revisit_parents_rec uuid1 depth c (Some d) st = (Raise e, s)
     | (Diverge, s) => flatten_tree_revisit_parents_rec uuid1 depth c (Some d) st = (Diverge, s)
     end) ->
  forall (cs acc acc' : list addr) st,
    length acc' = (2 * length acc)%nat ->
    (forall x, x ∈ acc' <-> x ∈ acc \/ (x = d /\ acc <> [])) ->
    acc `sublist_of` acc' ->
    match for_each cs
            (fun child flat =>
               update child (set_parent_id (Some id)) ;;;
               let* sub := flatten_tree_rec uuid1 depth child in
               ret (flat ++ sub)%list) acc st with
    | (Ok fl, s) =>
        exists fl',
          for_each cs
            (fun child flat =>
               update child (set_parent_id (Some id)) ;;;
               let* sub := flatten_tree_revisit_parents_rec uuid1 depth child (Some d) in
               ret (flat ++ sub)%list) acc' st = (Ok fl', s)
          /\ length fl' = (2 * length fl)%nat
          /\ (forall x, x ∈ fl' <-> x ∈ fl \/ (x = d /\ fl <> []))
          /\ fl `sublist_of` fl'
    | (Raise e, s) =>
        for_each cs
          (fun child flat =>
             update child (set_parent_id (Some id)) ;;;
             let* sub := flatten_tree_revisit_parents_rec uuid1 depth child (Some d) in
             ret (flat ++ sub)%list) acc' st = (Raise e, s)
    | (Diverge, s) =>
        for_each cs
          (fun child flat =>
             update child (set_parent_id (Some id)) ;;;
             let* sub := flatten_tree_revisit_parents_rec uuid1 depth child (Some d) in
             ret (flat ++ sub)%list) acc' st = (Diverge, s)
    end.
Proof.
  intros Hrec. induction cs as [|c cs IH]; intros acc acc' st Hlen Hmem Hsub.
  - cbn [for_each]. unfold ret. exists acc'. auto.
  - cbn [for_each]. rewrite !bind_assoc.
    destruct (update c (set_parent_id (Some id)) st) as [[[] | e |] s1] eqn:Hu.
    + rewrite !(bind_ok _ _ _ _ _ Hu). rewrite ?bind_assoc. specialize (Hrec c s1).
      destruct (flatten_tree_rec uuid1 depth c s1) as [[sub | e |] s2] eqn:Hsub1.
      * destruct Hrec as (sub' & Hrun' & Hl' & Hne & Hm' & Hs').
        rewrite (bind_ok _ _ _ _ _ Hsub1), (bind_ok _ _ _ _ _ Hrun'). rewrite !bind_ret_l.
        apply IH.
        -- rewrite !length_app. lia.
        -- intros x. rewrite !elem_of_app, Hmem, Hm'. split.
           ++ intros [[H | [H1 H2]] | [H | H]]; auto.
              ** right. split; [exact H1 |]. intros E. apply app_eq_nil in E as [E _]. auto.
              ** right. split; [exact H |]. intros E. apply app_eq_nil in E as [_ E]. auto.
           ++ intros [[H | H] | [H1 _]]; auto.
        -- apply sublist_app; assumption.
      * rewrite (bind_raise _ _ _ _ _ Hsub1), (bind_raise _ _ _ _ _ Hrec). reflexivity.
      * rewrite (bind_diverge _ _ _ _ Hsub1), (bind_diverge _ _ _ _ Hrec). reflexivity.
    + rewrite !(bind_raise _ _ _ _ _ Hu). reflexivity.
    + rewrite !(bind_diverge _ _ _ _ Hu). reflexivity.
Qed.

(** The calls of the two functions agree. *)
Lemma revisit_rec_sim : forall (depth : nat) (d : addr) (parent : option addr) st,
  match flatten_tree_rec uuid1 depth d st with
  | (Ok l, s) =>
      exists l',
        flatten_tree_revisit_parents_rec uuid1 depth d parent st = (Ok l', s)
        /\ length l' = (2 * length l - 1 + (match parent with Some _ => 1 | None => 0 end))%nat
        /\ l <> []
        /\ (forall x, x ∈ l' <-> x ∈ l \/ parent = Some x)
        /\ l `sublist_of` l'
  | (Raise e, s) => flatten_tree_revisit_parents_rec uuid1 depth d parent st = (Raise e, s)
  | (Diverge, s) => flatten_tree_revisit_parents_rec uuid1 depth d parent st = (Diverge, s)
  end.
Proof.
  induction depth as [|depth IH]; intros d parent st; [reflexivity |].
  cbn [flatten_tree_rec flatten_tree_revisit_parents_rec].
  destruct (read d st) as [[n | e |] s0] eqn:Hread.
  2:{ rewrite !(bind_raise _ _ _ _ _ Hread). reflexivity. }
  2:{ rewrite !(bind_diverge _ _ _ _ Hread). reflexivity. }
  rewrite !(bind_ok _ _ _ _ _ Hread).
  destruct ((match n_id n with
             | Some i => ret i
             | None => let* u := str_uuid1 uuid1 in update d (set_id (Some u)) ;;; ret u
             end) s0) as [[id | e |] s1] eqn:Hid.
  2:{ rewrite !(bind_raise _ _ _ _ _ Hid). reflexivity. }
  2:{ rewrite !(bind_diverge _ _ _ _ Hid). reflexivity. }
  rewrite !(bind_ok _ _ _ _ _ Hid).
  assert (Hkids : forall c st',
     match flatten_tree_rec uuid1 depth c st' with
     | (Ok l, s) =>
         exists l', flatten_tree_revisit_parents_rec uuid1 depth c (Some d) st' = (Ok l', s)
                    /\ length l' = (2 * length l)%nat /\ l <> []
                    /\ (forall x, x ∈ l' <-> x ∈ l \/ x = d)
                    /\ l `sublist_of` l'
     | (Raise e, s) => flatten_tree_revisit_parents_rec uuid1 depth c (Some d) st' = (Raise e, s)
     | (Diverge, s) => flatten_tree_revisit_parents_rec uuid1 depth c (Some d) st' = (Diverge, s)
     end).
  { intros c st'. specialize (IH c (Some d) st').
    destruct (flatten_tree_rec uuid1 depth c st') as [[l | e |] s]; [| exact IH..].
    destruct IH as (l' & Hrun & Hlen & Hne & Hm & Hs).
    exists l'. split; [exact Hrun |]. split; [| split; [exact Hne | split; [| exact Hs]]].
    - destruct l; [contradiction | simpl in *; lia].
    - intros x. rewrite Hm. split; intros [H | H]; auto; right; congruence. }
  assert (Hnil : forall x : addr, x ∈ @nil addr <-> x ∈ @nil addr \/ (x = d /\ @nil addr <> [])).
  { intros x. split; [intros H; inversion H | intros [H | [_ H]]; [inversion H | contradiction]]. }
  pose proof (revisit_loop depth d id Hkids (default [] (n_children n)) [] [] s1
                eq_refl Hnil (reflexivity _)) as Hloop.
  destruct (for_each (default [] (n_children n))
              (fun child flat =>
                 update child (set_parent_id (Some id)) ;;;
                 let* sub := flatten_tree_rec uuid1 depth child in
                 ret (flat ++ sub)%list) [] s1) as [[fl | e |] s2] eqn:Hfl.
  - destruct Hloop as (fl' & Hrun' & Hlen' & Hm' & Hs').
    rewrite (bind_ok _ _ _ _ _ Hfl), (bind_ok _ _ _ _ _ Hrun'). unfold ret.
    eexists. split; [reflexivity |].
    split; [| split; [discriminate | split]].
    + destruct parent; simpl; rewrite ?length_app; simpl; lia.
    + intros x. destruct parent as [p|].
      * rewrite !elem_of_cons, elem_of_app, Hm', list_elem_of_singleton. split.
        -- intros [H | [[H | [H _]] | H]]; auto; right; congruence.
        -- intros [[H | H] | H]; auto; injection H as ->; auto.
      * rewrite !elem_of_cons, Hm'. split.
        -- intros [H | [H | [H _]]]; auto.
        -- intros [[H | H] | H]; [auto | auto | discriminate].
    + destruct parent as [p|].
      * apply sublist_skip. apply sublist_inserts_r. exact Hs'.
      * apply sublist_skip. exact Hs'.
  - rewrite (bind_raise _ _ _ _ _ Hfl), (bind_raise _ _ _ _ _ Hloop). reflexivity.
  - rewrite (bind_diverge _ _ _ _ Hfl), (bind_diverge _ _ _ _ Hloop). reflexivity.
Qed.

(** X27: [flatten_tree_revisit_parents(d)] does to the nodes what
    [flatten_tree(d)] does, and fails where it fails; where [flatten_tree]
    returns [n] nodes it returns [2 * n - 1] entries, the same nodes, with
    the list of [flatten_tree] as a subsequence: each node but [d] is
    followed, after its subtree, by its parent once more. *)
Theorem flatten_tree_revisit_parents_follows_flatten_tree (d : addr) (st : TreeModel) :
  match flatten_tree uuid1 d st with
  | (Ok l, s) =>
      exists l',
        flatten_tree_revisit_parents uuid1 d None st = (Ok l', s)
        /\ length l' = (2 * length l - 1)%nat
        /\ (forall x, x ∈ l' <-> x ∈ l)
        /\ l `sublist_of` l'
  | (Raise e, s) => flatten_tree_revisit_parents uuid1 d None st = (Raise e, s)
  | (Diverge, s) => flatten_tree_revisit_parents uuid1 d None st = (Diverge, s)
  end.
Proof.
  unfold flatten_tree, flatten_tree_revisit_parents. rewrite !bind_get.
  pose proof (revisit_rec_sim (S (length (heap st))) d None st) as H.
  destruct (flatten_tree_rec uuid1 (S (length (heap st))) d st) as [[l | e |] s];
    [| exact H..].
  destruct H as (l' & Hrun & Hlen & _ & Hm & Hs).
  exists l'. split; [exact Hrun |]. split; [lia |]. split; [| exact Hs].
  intros x. rewrite Hm. split; [intros [H | H]; [exact H | discriminate] | auto].
Qed.

End RevisitSim.

(** ** Chapters *)

Lemma chapters_get_set_eq d k v : chapters_get (chapters_set d k v) k = Some v.
Proof.
  induction d as [|[k' v'] d IH]; simpl.
  - rewrite decide_True by reflexivity. reflexivity.
  - destruct (decide (k = k')) as [-> | Hne]; simpl.
    + rewrite decide_True by reflexivity. reflexivity.
    + rewrite decide_False by exact Hne. exact IH.
Qed.

Lemma chapters_get_set_ne d k v k' :
  k' <> k -> chapters_get (chapters_set d k v) k' = chapters_get d k'.
Proof.
  intros Hne. induction d as [|[k0 v0] d IH]; simpl.
  - rewrite decide_False by exact Hne. reflexivity.
  - destruct (decide (k = k0)) as [-> | Hk]; simpl.
    + rewrite !decide_False by exact Hne. reflexivity.
    + destruct (decide (k' = k0)); [reflexivity | exact IH].
Qed.

Lemma chapters_get_pop_ne d k k' :
  k' <> k -> chapters_get (chapters_pop d k) k' = chapters_get d k'.
Proof.
  intros Hne. induction d as [|[k0 v0] d IH]; simpl; [reflexivity |].
  destruct (decide (k = k0)) as [-> | Hk]; simpl.
  - rewrite decide_False by exact Hne. reflexivity.
  - destruct (decide (k' = k0)); [reflexivity | exact IH].
Qed.

Lemma chapters_get_absent d k : k ∉ map fst d -> chapters_get d k = None.
Proof.
  induction d as [|[k0 v0] d IH]; simpl; intros Hk; [reflexivity |].
  rewrite not_elem_of_cons in Hk. destruct Hk as [Hne Hk].
  rewrite decide_False by exact Hne. apply IH, Hk.
Qed.

Lemma chapters_get_pop_eq d k :
  NoDup (map fst d) -> chapters_get (chapters_pop d k) k = None.
Proof.
  induction d as [|[k0 v0] d IH]; simpl; intros Hnd; [reflexivity |].
  apply NoDup_cons in Hnd as [Hk0 Hnd].
  destruct (decide (k = k0)) as [-> | Hk]; simpl.
  - apply chapters_get_absent, Hk0.
  - rewrite decide_False by exact Hk. apply IH, Hnd.
Qed.

Lemma chapters_pop_keys d k x : x ∈ map fst (chapters_pop d k) -> x ∈ map fst d.
Proof.
  induction d as [|[k0 v0] d IH]; simpl; [auto |].
  destruct (decide (k = k0)); simpl.
  - apply list_elem_of_further.
  - rewrite !elem_of_cons. intros [H | H]; auto.
Qed.

Lemma chapters_pop_nodup d k : NoDup (map fst d) -> NoDup (map fst (chapters_pop d k)).
Proof.
  induction d as [|[k0 v0] d IH]; simpl; intros Hnd; [constructor |].
  apply NoDup_cons in Hnd as [Hk0 Hnd].
  destruct (decide (k = k0)); simpl; [exact Hnd |].
  apply NoDup_cons. split; [| apply IH, Hnd].
  intros H. apply Hk0, (chapters_pop_keys _ _ _ H).
Qed.

Lemma chapters_ok_run st chs :
  option_map rd_chapters (tree_raw_data st) = Some (Some chs) ->
  chapters st = (Ok (Some chs), st).
Proof.
  unfold chapters. rewrite bind_get. destruct (tree_raw_data st) as [rd|]; simpl; [| discriminate].
  intros H. injection H as ->. reflexivity.
Qed.

Lemma chapters_item_run st chs k :
  option_map rd_chapters (tree_raw_data st) = Some (Some chs) ->
  chapters_item k st = key (chapters_get chs k) st.
Proof.
  intros H. unfold chapters_item. mstep (chapters_ok_run _ _ H). cbn [not_none]. mret.
  reflexivity.
Qed.

Lemma with_chapters_raw st chs d :
  option_map rd_chapters (tree_raw_data st) = Some (Some chs) ->
  option_map rd_chapters (tree_raw_data (with_chapters d st)) = Some (Some d)
  /\ option_map rd_root (tree_raw_data (with_chapters d st)) = option_map rd_root (tree_raw_data st)
  /\ option_map rd_generation_settings (tree_raw_data (with_chapters d st))
     = option_map rd_generation_settings (tree_raw_data st)
  /\ option_map rd_selected_node_id (tree_raw_data (with_chapters d st))
     = option_map rd_selected_node_id (tree_raw_data st).
Proof.
  unfold with_chapters. stsimp. destruct (tree_raw_data st) as [rd|]; simpl; [auto | discriminate].
Qed.

Lemma kept_chapter h h' b :
  kept_at h' b = kept_at h b -> chapter_id_at h' b = chapter_id_at h b.
Proof.
  unfold kept_at, chapter_id_at, kept. destruct (h' !! b), (h !! b); simpl; congruence.
Qed.

(** What a write of the key [chapter_id] leaves of a store. *)
Lemma chapter_write (h : list node) a n v :
  h !! a = Some n ->
  let h1 := <[a := set_chapter_id v n]> h in
  chapter_id_at h1 a = v
  /\ (forall b, b <> a -> h1 !! b = h !! b)
  /\ (forall b, frame_at h1 b = frame_at h b)
  /\ (forall b, parent_id_at h1 b = parent_id_at h b)
  /\ (forall b, text_at h1 b = text_at h b)
  /\ length h1 = length h.
Proof.
  intros Hn h1.
  assert (Ha : h1 !! a = Some (set_chapter_id v n)) by apply (lookup_write_eq _ _ _ _ Hn).
  assert (Ho : forall b, b <> a -> h1 !! b = h !! b).
  { intros b Hb. unfold h1. apply lookup_write_ne. congruence. }
  assert (Hview : forall (A : Type) (f : node -> A),
            (forall m, f (set_chapter_id v m) = f m) ->
            forall b, option_map f (h1 !! b) = option_map f (h !! b)).
  { intros A f Hf b. destruct (decide (b = a)) as [-> | Hb].
    - rewrite Ha, Hn. simpl. rewrite Hf. reflexivity.
    - rewrite Ho by exact Hb. reflexivity. }
  split; [unfold chapter_id_at; rewrite Ha; reflexivity |].
  split; [exact Ho |].
  split; [intros b; apply (Hview _ frame_keys); reflexivity |].
  split; [| split].
  - intros b. unfold parent_id_at. destruct (decide (b = a)) as [-> | Hb].
    + rewrite Ha, Hn. reflexivity.
    + rewrite Ho by exact Hb. reflexivity.
  - intros b. unfold text_at. destruct (decide (b = a)) as [-> | Hb].
    + rewrite Ha, Hn. reflexivity.
    + rewrite Ho by exact Hb. reflexivity.
  - unfold h1. apply length_insert.
Qed.

Section ChapterEdits.

Variable uuid1 : nat -> string.
Variable html2text_handle : string -> string.

(** [delete_chapter] without a refresh, when nothing is missing. *)
Lemma delete_chapter_run st chs ch idx r n c :
  option_map rd_chapters (tree_raw_data st) = Some (Some chs) ->
  is_Some (chapters_get chs (ch_id ch)) ->
  tree_node_dict st = Some idx -> dict_get idx (ch_root_id ch) = Some r ->
  heap st !! r = Some n -> n_chapter_id n = Some c ->
  delete_chapter uuid1 html2text_handle ch false st
  = (Ok tt, with_heap (<[r := set_chapter_id None n]> (heap st))
              (with_chapters (chapters_pop chs (ch_id ch)) st)).
Proof.
  intros Hchs [x Hx] Hidx Hr Hn Hc. unfold delete_chapter.
  mstep (chapters_ok_run _ _ Hchs). rewrite Hx. mmod. mget.
  unfold with_chapters at 1. stsimp. rewrite Hidx. unfold dict_lookup. rewrite Hr.
  unfold key at 1. mret.
  assert (Hn' : heap (with_chapters (chapters_pop chs (ch_id ch)) st) !! r = Some n) by exact Hn.
  mstep (read_ok _ _ _ Hn'). rewrite Hc.
  mstep (update_ok _ _ _ (set_chapter_id None) Hn'). reflexivity.
Qed.

(** A write of a chapter id and of the dictionary of chapters leaves the
    model well formed. *)
Lemma chapter_edit_ok st t chs a n v d :
  tree_ok st t -> option_map rd_chapters (tree_raw_data st) = Some (Some chs) ->
  heap st !! a = Some n ->
  let st1 := with_heap (<[a := set_chapter_id v n]> (heap st)) (with_chapters d st) in
  tree_ok st1 t
  /\ option_map rd_chapters (tree_raw_data st1) = Some (Some d)
  /\ heap st1 !! a = Some (set_chapter_id v n)
  /\ (forall b, b <> a -> heap st1 !! b = heap st !! b)
  /\ (forall b, frame_at (heap st1) b = frame_at (heap st) b)
  /\ uuid_clock st1 = uuid_clock st.
Proof.
  intros Hok Hchs Hn st1.
  destruct (chapter_write (heap st) a n v Hn) as (_ & Ho & Hfr & Hpa & _ & _).
  destruct (with_chapters_raw st chs d Hchs) as (Hc1 & Hr1 & _ & _).
  split; [| split; [exact Hc1 | split; [apply (lookup_write_eq _ _ _ _ Hn) | auto]]].
  apply (tree_ok_frame st st1 t Hok).
  - exact Hr1.
  - reflexivity.
  - intros b _. apply Hfr.
  - intros b _. apply Hpa.
Qed.

Lemma clock_edit_ok st t c : tree_ok st t -> tree_ok (with_clock c st) t.
Proof. intros [H1 H2 H3 H4]. constructor; stsimp; assumption. Qed.

(** What [create_new_chapter] does on a node of a well-formed model whose
    chapter, if it has one, is in the dictionary under its id and has the
    node as root. *)
Lemma create_new_chapter_run st t chs a ia title :
  tree_ok st t -> a ∈ preorder t ->
  option_map rd_chapters (tree_raw_data st) = Some (Some chs) ->
  id_at (heap st) a = Some ia ->
  (forall cid, chapter_id_at (heap st) a = Some cid ->
     exists ch, chapters_get chs cid = Some ch /\ ch_id ch = cid /\ ch_root_id ch = ia) ->
  let d := match chapter_id_at (heap st) a with
           | Some cid => chapters_pop chs cid
           | None => chs
           end in
  let new_id := uuid1 (uuid_clock st) in
  exists st',
    create_new_chapter uuid1 html2text_handle a title st = (Ok tt, st')
    /\ tree_ok st' t
    /\ option_map rd_chapters (tree_raw_data st')
       = Some (Some (if decide (title = ""%string) then d
                     else chapters_set d new_id (mkChapter new_id ia title)))
    /\ chapter_id_at (heap st') a = (if decide (title = ""%string) then None else Some new_id)
    /\ (forall b, b <> a -> chapter_id_at (heap st') b = chapter_id_at (heap st) b)
    /\ (forall b, id_at (heap st') b = id_at (heap st) b)
    /\ (forall b, children_at (heap st') b = children_at (heap st) b)
    /\ uuid_clock st'
       = (if decide (title = ""%string) then uuid_clock st else S (uuid_clock st)).
Proof.
  intros Hok Ha Hchs Hia Hold d new_id. pose proof Hok as [Hraw Ht Hl Hidx].
  assert (Hn : exists n, heap st !! a = Some n /\ n_id n = Some ia).
  { unfold id_at in Hia. destruct (heap st !! a) as [n|]; [eauto | discriminate]. }
  destruct Hn as (n & Hn & Hi).
  assert (Hcid : chapter_id_at (heap st) a = n_chapter_id n).
  { unfold chapter_id_at. rewrite Hn. reflexivity. }
  (* the old chapter goes *)
  assert (H1 : exists st1 n1,
    (match n_chapter_id n with
     | Some cid => let* ch := chapters_item cid in
                   delete_chapter uuid1 html2text_handle ch false
     | None => ret tt
     end) st = (Ok tt, st1)
    /\ tree_ok st1 t
    /\ option_map rd_chapters (tree_raw_data st1) = Some (Some d)
    /\ heap st1 !! a = Some n1 /\ n_chapter_id n1 = None /\ n_id n1 = Some ia
    /\ (forall b, b <> a -> heap st1 !! b = heap st !! b)
    /\ (forall b, frame_at (heap st1) b = frame_at (heap st) b)
    /\ uuid_clock st1 = uuid_clock st).
  { subst d. rewrite Hcid in *. destruct (n_chapter_id n) as [cid|] eqn:Hc.
    - destruct (Hold cid eq_refl) as (ch & Hch & Hchid & Hchr).
      destruct (chapter_edit_ok st t chs a n None (chapters_pop chs cid) Hok Hchs Hn)
        as (Hok1 & Hc1 & Ha1 & Ho1 & Hf1 & Hk1).
      eexists _, _. split.
      + rewrite (bind_ok _ _ _ _ _ (eq_trans (chapters_item_run st chs cid Hchs)
                                     (f_equal (fun o => key o st) Hch))).
        rewrite (delete_chapter_run st chs ch (index_of (heap st) (preorder t)) a n cid Hchs);
          rewrite ?Hchid; eauto.
        rewrite Hchr. apply dict_get_index_of; auto.
        * intros y Hy. eapply tree_in_keys_id; eauto.
        * apply (ti_ids _ _ Ht).
      + split; [exact Hok1 |]. split; [exact Hc1 |]. split; [exact Ha1 |].
        split; [reflexivity |]. split; [exact Hi |]. auto.
    - exists st, n. split; [reflexivity |]. auto 10. }
  destruct H1 as (st1 & n1 & Hrun1 & Hok1 & Hchs1 & Ha1 & Hc1 & Hi1 & Ho1 & Hf1 & Hk1).
  (* the new chapter comes *)
  assert (H2 : exists st2,
    (if decide (title = ""%string) then ret tt
     else
       let* new_id := str_uuid1 uuid1 in
       let* root_id := get_id a in
       let new_chapter := mkChapter new_id root_id title in
       let* c := chapters in
       let* d := not_none c in
       modify (with_chapters (chapters_set d new_id new_chapter)) ;;;
       update a (set_chapter_id (Some new_id))) st1 = (Ok tt, st2)
    /\ tree_ok st2 t
    /\ option_map rd_chapters (tree_raw_data st2)
       = Some (Some (if decide (title = ""%string) then d
                     else chapters_set d new_id (mkChapter new_id ia title)))
    /\ chapter_id_at (heap st2) a = (if decide (title = ""%string) then None else Some new_id)
    /\ (forall b, b <> a -> heap st2 !! b = heap st !! b)
    /\ (forall b, frame_at (heap st2) b = frame_at (heap st) b)
    /\ uuid_clock st2
       = (if decide (title = ""%string) then uuid_clock st else S (uuid_clock st))).
  { destruct (decide (title = ""%string)) as [Ht0 | Ht0].
    - exists st1. split; [reflexivity |]. split; [exact Hok1 |]. split; [exact Hchs1 |].
      split; [unfold chapter_id_at; rewrite Ha1; exact Hc1 |]. auto.
    - set (sc := with_clock (S (uuid_clock st1)) st1).
      assert (Hokc : tree_ok sc t) by apply clock_edit_ok, Hok1.
      assert (Hchsc : option_map rd_chapters (tree_raw_data sc) = Some (Some d)) by exact Hchs1.
      assert (Hac : heap sc !! a = Some n1) by exact Ha1.
      destruct (chapter_edit_ok sc t d a n1 (Some new_id)
                  (chapters_set d new_id (mkChapter new_id ia title)) Hokc Hchsc Hac)
        as (Hok2 & Hc2 & Ha2 & Ho2 & Hf2 & Hk2).
      eexists. split.
      + unfold str_uuid1 at 1. unfold bind at 1. fold sc.
        mstep (get_id_ok sc a n1 ia Hac Hi1).
        mstep (chapters_ok_run _ _ Hchsc). cbn [not_none]. mret. mmod.
        rewrite Hk1. fold new_id.
        assert (Hac' : heap (with_chapters (chapters_set d new_id (mkChapter new_id ia title)) sc)
                       !! a = Some n1) by exact Hac.
        rewrite (update_ok _ _ _ (set_chapter_id (Some new_id)) Hac'). reflexivity.
      + split; [exact Hok2 |]. split; [exact Hc2 |].
        split.
        { exact (f_equal (fun o => match o with Some m => n_chapter_id m | None => None end)
                   Ha2). }
        split; [intros b Hb; etrans; [exact (Ho2 b Hb) | exact (Ho1 b Hb)] |].
        split; [intros b; etrans; [exact (Hf2 b) | exact (Hf1 b)] |].
        etrans; [exact Hk2 |]. subst sc. stsimp. rewrite Hk1. reflexivity. }
  destruct H2 as (st2 & Hrun2 & Hok2 & Hchs2 & Hca2 & Ho2 & Hf2 & Hk2).
  destruct (tree_updated_ok uuid1 html2text_handle st2 t (ok_raw _ _ Hok2) (ok_tree _ _ Hok2))
    as (st' & Hrun3 & Hok' & [Hl3 Hfr3 Hkept3 Htx3] & Hsel3 & Hrd3 & Hclk3 & _).
  exists st'. split; [| split; [exact Hok' | split; [| split; [| split; [| split; [| split]]]]]].
  - unfold create_new_chapter. mstep (read_ok _ _ _ Hn).
    rewrite ?bind_assoc. rewrite (bind_ok _ _ _ _ _ Hrun1).
    rewrite (bind_ok _ _ _ _ _ Hrun2). exact Hrun3.
  - rewrite Hrd3. exact Hchs2.
  - rewrite (kept_chapter _ _ _ (Hkept3 a)). exact Hca2.
  - intros b Hb. rewrite (kept_chapter _ _ _ (Hkept3 b)). unfold chapter_id_at.
    rewrite (Ho2 b Hb). reflexivity.
  - intros b. rewrite (kept_id _ _ _ (Hkept3 b)). apply frame_id, Hf2.
  - intros b. rewrite (kept_children _ _ _ (Hkept3 b)). apply frame_at_children, Hf2.
  - rewrite Hclk3. exact Hk2.
Qed.

End ChapterEdits.

Lemma chapters_set_keys d k v x :
  x ∈ map fst (chapters_set d k v) -> x = k \/ x ∈ map fst d.
Proof.
  induction d as [|[k0 v0] d IH]; simpl.
  - rewrite list_elem_of_singleton. auto.
  - destruct (decide (k = k0)) as [-> | Hk]; simpl; rewrite !elem_of_cons.
    + intros [H | H]; auto.
    + intros [H | H]; auto. destruct (IH H); auto.
Qed.

Lemma chapters_set_nodup d k v : NoDup (map fst d) -> NoDup (map fst (chapters_set d k v)).
Proof.
  induction d as [|[k0 v0] d IH]; simpl; intros Hnd.
  - apply NoDup_singleton.
  - apply NoDup_cons in Hnd as [Hk0 Hnd].
    destruct (decide (k = k0)) as [-> | Hk]; simpl.
    + apply NoDup_cons. auto.
    + apply NoDup_cons. split; [| apply IH, Hnd].
      intros H. apply chapters_set_keys in H as [H | H]; [congruence | auto].
Qed.

(** [chapter_title] reads the title under the chapter id of the node. *)
Lemma chapter_title_run st chs a n :
  heap st !! a = Some n ->
  option_map rd_chapters (tree_raw_data st) = Some (Some chs) ->
  chapter_title a st
  = (match n_chapter_id n with
     | Some cid => match chapters_get chs cid with
                   | Some ch => Ok (ch_title ch)
                   | None => Raise KeyError
                   end
     | None => Ok ""%string
     end, st).
Proof.
  intros Hn Hchs. unfold chapter_title. mstep (read_ok _ _ _ Hn).
  destruct (n_chapter_id n) as [cid|]; [| reflexivity].
  unfold bind. rewrite (chapters_item_run st chs cid Hchs).
  destruct (chapters_get chs cid); reflexivity.
Qed.

(** The loop of [chapter] stops at the first node with a chapter id. *)
Lemma chapter_loop_here st chs a n l :
  heap st !! a = Some n ->
  option_map rd_chapters (tree_raw_data st) = Some (Some chs) ->
  chapter_loop (a :: l) st
  = match n_chapter_id n with
    | Some cid => (match chapters_get chs cid with
                   | Some ch => Ok (Some ch)
                   | None => Raise KeyError
                   end, st)
    | None => chapter_loop l st
    end.
Proof.
  intros Hn Hchs. cbn [chapter_loop]. mstep (read_ok _ _ _ Hn).
  destruct (n_chapter_id n) as [cid|]; [| reflexivity].
  unfold bind. rewrite (chapters_item_run st chs cid Hchs).
  destruct (chapters_get chs cid); reflexivity.
Qed.

Lemma ancestry_cases h d a l :
  ancestry h d a l ->
  (parent_id_at h a = None /\ l = [a])
  \/ (exists pid p l', parent_id_at h a = Some pid /\ dict_get d pid = Some p
                       /\ ancestry h d p l' /\ l = (l' ++ [a])%list).
Proof. destruct 1; [left | right]; eauto 10. Qed.

(** [chapter] on a node of a well-formed model, by the path to the node. *)
Lemma chapter_of_path st t a :
  tree_ok st t -> a ∈ preorder t ->
  exists l, ancestry (heap st) (index_of (heap st) (preorder t)) a (l ++ [a])
            /\ chapter_of a st = chapter_loop (a :: rev l) st.
Proof.
  intros Hok Ha. pose proof Hok as [_ Ht Hl Hidx].
  destruct (tree_ancestry _ _ a Ht Hl Ha) as (l0 & Hanc & Hlen).
  destruct (ancestry_last _ _ _ _ Hanc) as [l ->].
  exists l. split; [exact Hanc |].
  unfold chapter_of. mget. rewrite Hidx.
  mstep (node_ancestry_spec _ _ _ _ Hanc Hlen).
  rewrite rev_app_distr. reflexivity.
Qed.

Section ChapterTitles.

Variable uuid1 : nat -> string.
Variable html2text_handle : string -> string.

(** X28: in a well-formed model whose chapters agree with the tree,
    [create_new_chapter(node, title)] returns and leaves the model well
    formed; afterwards [chapter_title(node)] is [title].  With a title the
    node is the root of a new chapter with a new id, which [chapter(node)]
    returns; without one ([""]) the node has no chapter.  The chapter that
    the node had is removed from the dictionary, the other chapters and
    the chapter ids of the other nodes stay, and the chapters agree with
    the tree again when the new id was not in use. *)
Theorem create_new_chapter_sets_title (st : TreeModel) (t : rtree) (chs : chapters_dict)
    (a : addr) (title : string) :
  tree_ok st t -> a ∈ preorder t -> chapters_ok st t chs ->
  exists st' chs',
    create_new_chapter uuid1 html2text_handle a title st = (Ok tt, st')
    /\ tree_ok st' t
    /\ option_map rd_chapters (tree_raw_data st') = Some (Some chs')
    /\ chapter_title a st' = (Ok title, st')
    /\ (title <> ""%string ->
        exists ia, id_at (heap st) a = Some ia
          /\ chapter_id_at (heap st') a = Some (uuid1 (uuid_clock st))
          /\ chapter_of a st'
             = (Ok (Some (mkChapter (uuid1 (uuid_clock st)) ia title)), st'))
    /\ (title = ""%string -> chapter_id_at (heap st') a = None)
    /\ (forall cid, chapter_id_at (heap st) a = Some cid -> cid <> uuid1 (uuid_clock st) ->
          chapters_get chs' cid = None)
    /\ (forall k, chapter_id_at (heap st) a <> Some k -> k <> uuid1 (uuid_clock st) ->
          chapters_get chs' k = chapters_get chs k)
    /\ (forall b, b <> a -> chapter_id_at (heap st') b = chapter_id_at (heap st) b)
    /\ (chapters_get chs (uuid1 (uuid_clock st)) = None -> chapters_ok st' t chs').
Proof.
  intros Hok Ha [Hchs Hnd Hnodes].
  destruct (tree_ok_node st t a Hok Ha) as (n & ia & Hn & Hi & _ & Hia).
  assert (Hold : forall cid, chapter_id_at (heap st) a = Some cid ->
     exists ch, chapters_get chs cid = Some ch /\ ch_id ch = cid /\ ch_root_id ch = ia).
  { intros cid Hc. destruct (Hnodes a cid Ha Hc) as (ch & Hch & Hchid & Hr).
    exists ch. split; [exact Hch |]. split; [exact Hchid |]. congruence. }
  destruct (create_new_chapter_run uuid1 html2text_handle st t chs a ia title Hok Ha Hchs Hia
              Hold) as (st' & Hrun & Hok' & Hchs' & Hca' & Hcb' & Hids' & _ & _).
  set (new_id := uuid1 (uuid_clock st)) in *.
  set (d := match chapter_id_at (heap st) a with
            | Some cid => chapters_pop chs cid
            | None => chs
            end) in *.
  set (chs' := if decide (title = ""%string) then d
               else chapters_set d new_id (mkChapter new_id ia title)) in *.
  destruct (tree_ok_node st' t a Hok' Ha) as (n' & ia' & Hn' & _ & _ & _).
  assert (Hcn' : n_chapter_id n' = if decide (title = ""%string) then None else Some new_id).
  { rewrite <- Hca'. unfold chapter_id_at. rewrite Hn'. reflexivity. }
  assert (Hgone : forall cid, chapter_id_at (heap st) a = Some cid -> cid <> new_id ->
            chapters_get chs' cid = None).
  { intros cid Hc Hne. subst chs' d. rewrite Hc.
    destruct (decide (title = ""%string)).
    - apply chapters_get_pop_eq, Hnd.
    - rewrite chapters_get_set_ne by exact Hne. apply chapters_get_pop_eq, Hnd. }
  assert (Hkept : forall k, chapter_id_at (heap st) a <> Some k -> k <> new_id ->
            chapters_get chs' k = chapters_get chs k).
  { intros k Hk Hne. subst chs'.
    assert (Hd : chapters_get d k = chapters_get chs k).
    { subst d. destruct (chapter_id_at (heap st) a) as [cid|]; [| reflexivity].
      apply chapters_get_pop_ne. congruence. }
    destruct (decide (title = ""%string)); [exact Hd |].
    rewrite chapters_get_set_ne by exact Hne. exact Hd. }
  exists st', chs'. split; [exact Hrun |]. split; [exact Hok' |]. split; [exact Hchs' |].
  split; [| split; [| split; [| split; [exact Hgone | split; [exact Hkept | split;
    [exact Hcb' |]]]]]].
  - rewrite (chapter_title_run st' chs' a n' Hn' Hchs'). rewrite Hcn'. subst chs'.
    destruct (decide (title = ""%string)) as [-> | Hne]; [reflexivity |].
    cbv beta iota. rewrite chapters_get_set_eq. reflexivity.
  - intros Hne. exists ia. split; [exact Hia |].
    rewrite decide_False in Hca' by exact Hne. split; [exact Hca' |].
    destruct (chapter_of_path st' t a Hok' Ha) as (l & _ & Hrun').
    rewrite Hrun', (chapter_loop_here st' chs' a n' _ Hn' Hchs'), Hcn'. subst chs'.
    rewrite !decide_False by exact Hne. cbv beta iota.
    rewrite chapters_get_set_eq. reflexivity.
  - intros ->. exact Hca'.
  - intros Hfresh. constructor; [exact Hchs' | |].
    + subst chs'. assert (Hd : NoDup (map fst d)).
      { subst d. destruct (chapter_id_at (heap st) a); [apply chapters_pop_nodup |]; exact Hnd. }
      destruct (decide (title = ""%string)); [exact Hd | apply chapters_set_nodup, Hd].
    + intros b c Hb Hc. destruct (decide (b = a)) as [-> | Hba].
      * rewrite Hca' in Hc. subst chs'.
        destruct (decide (title = ""%string)) as [| Hne]; [discriminate |].
        injection Hc as <-. eexists. split; [apply chapters_get_set_eq |].
        split; [reflexivity |]. simpl. rewrite Hids'. exact Hia.
      * rewrite (Hcb' b Hba) in Hc.
        destruct (Hnodes b c Hb Hc) as (ch & Hch & Hchid & Hr).
        exists ch. split; [| split; [exact Hchid | rewrite Hids'; exact Hr]].
        rewrite Hkept; [exact Hch | | congruence].
        intros Hac. destruct (Hnodes a c Ha Hac) as (ch2 & Hch2 & _ & Hr2).
        apply Hba. apply (tree_ok_id_inj st t b a (ch_root_id ch) Hok Hb Ha Hr). congruence.
Qed.

(** X29: in a well-formed model [chapter(node)] is the chapter of the node
    when the node has a chapter id ([KeyError] when the dictionary does
    not have it); a node without one inherits: the root has no chapter,
    and any other node has the chapter of its parent.  The model is not
    changed. *)
Theorem chapter_is_inherited (st : TreeModel) (t : rtree) (chs : chapters_dict) (a : addr) :
  tree_ok st t -> a ∈ preorder t ->
  option_map rd_chapters (tree_raw_data st) = Some (Some chs) ->
  match chapter_id_at (heap st) a with
  | Some cid =>
      chapter_of a st = (match chapters_get chs cid with
                         | Some ch => Ok (Some ch)
                         | None => Raise KeyError
                         end, st)
  | None =>
      (a = raddr t -> chapter_of a st = (Ok None, st))
      /\ (a <> raddr t ->
          exists p, p ∈ preorder t /\ parent a st = (Ok p, st)
                    /\ chapter_of a st = chapter_of p st)
  end.
Proof.
  intros Hok Ha Hchs. pose proof Hok as [_ Ht Hl Hidx].
  destruct (tree_ok_node st t a Hok Ha) as (n & ia & Hn & _ & _ & _).
  destruct (chapter_of_path st t a Hok Ha) as (l & Hanc & Hrun).
  rewrite Hrun, (chapter_loop_here st chs a n _ Hn Hchs).
  unfold chapter_id_at. rewrite Hn.
  destruct (n_chapter_id n) as [cid|]; [reflexivity |]. split.
  - intros ->. pose proof (ti_root _ _ Ht) as Hroot.
    apply ancestry_cases in Hanc as [[_ Hl'] | (pid & p & l' & Hpa & _)]; [| congruence].
    destruct l as [|x l]; [reflexivity |].
    apply (f_equal (@length _)) in Hl'. rewrite length_app in Hl'. simpl in Hl'. lia.
  - intros Hne.
    destruct (tree_ok_parent st t a Hok Ha Hne) as (p & pid & cs & k & Hp & Hpa & _ & Hget & _).
    exists p. split; [exact Hp |]. split.
    + unfold parent. mstep (read_ok _ _ _ Hn).
      assert (Hnp : n_parent_id n = Some pid).
      { unfold parent_id_at in Hpa. rewrite Hn in Hpa. exact Hpa. }
      rewrite Hnp. unfold key at 1. mret. mget. rewrite Hidx. unfold dict_lookup.
      rewrite Hget. reflexivity.
    + apply ancestry_cases in Hanc as [[Hr' _] | (pid' & p' & l' & Hpa' & Hget' & Hanc' & Hl')];
        [congruence |].
      apply app_inj_tail in Hl' as [-> _].
      assert (pid' = pid) as -> by congruence.
      assert (p' = p) as -> by congruence.
      destruct (chapter_of_path st t p Hok Hp) as (lp & Hancp & Hrunp).
      rewrite Hrunp. rewrite (ancestry_functional _ _ _ _ Hanc' _ Hancp).
      rewrite rev_app_distr. reflexivity.
Qed.

End ChapterTitles.

(** ** Removing all chapters *)

Lemma or_root_node st t a :
  tree_ok st t -> a ∈ preorder t -> or_root (Some a) st = (Ok a, st).
Proof.
  intros Hok Ha. destruct (tree_ok_node st t a Hok Ha) as (n & i & Hn & _ & Htr & _).
  unfold or_root. mstep (read_ok _ _ _ Hn). rewrite Htr. reflexivity.
Qed.

Section RemoveChapters.

Variable uuid1 : nat -> string.
Variable html2text_handle : string -> string.
Variable st : TreeModel.
Variable t : rtree.
Variable chs : chapters_dict.
Hypothesis Hok : tree_ok st t.
Hypothesis Hco : chapters_ok st t chs.

(** Two nodes of the tree do not have the same chapter. *)
Lemma chapter_id_inj a b cid :
  a ∈ preorder t -> b ∈ preorder t ->
  chapter_id_at (heap st) a = Some cid -> chapter_id_at (heap st) b = Some cid -> a = b.
Proof.
  intros Ha Hb Hca Hcb.
  destruct (co_nodes _ _ _ Hco a cid Ha Hca) as (ch & Hch & _ & Hr).
  destruct (co_nodes _ _ _ Hco b cid Hb Hcb) as (ch' & Hch' & _ & Hr').
  assert (ch' = ch) as -> by congruence.
  apply (tree_ok_id_inj st t a b (ch_root_id ch) Hok Ha Hb Hr Hr').
Qed.

(** The chapter of one more node is deleted. *)
Lemma clear_node done st1 chs1 a n :
  chapters_cleared st t chs done st1 chs1 ->
  a ∈ preorder t -> a ∉ done -> (forall b, b ∈ done -> b ∈ preorder t) ->
  heap st !! a = Some n ->
  exists st2 chs2,
    (match n_chapter_id n with
     | Some cid => let* ch := chapters_item cid in
                   delete_chapter uuid1 html2text_handle ch false
     | None => ret tt
     end) st1 = (Ok tt, st2)
    /\ chapters_cleared st t chs (done ++ [a]) st2 chs2.
Proof.
  intros [Hok1 Hchs1 Hnd1 Hdone Hrest Hframe Hgone Hkept] Ha Hnot Hsub Hn.
  assert (Hn1 : heap st1 !! a = Some n) by (rewrite (Hrest a Hnot); exact Hn).
  assert (Hca : chapter_id_at (heap st) a = n_chapter_id n).
  { unfold chapter_id_at. rewrite Hn. reflexivity. }
  destruct (n_chapter_id n) as [cid|] eqn:Hc.
  - destruct (co_nodes _ _ _ Hco a cid Ha Hca) as (ch & Hch & Hchid & Hr).
    assert (Hch1 : chapters_get chs1 cid = Some ch).
    { rewrite Hkept; [exact Hch |]. intros b Hb Hcb. apply Hnot.
      rewrite (chapter_id_inj a b cid Ha (Hsub b Hb) Hca Hcb). exact Hb. }
    destruct (chapter_edit_ok st1 t chs1 a n None (chapters_pop chs1 cid) Hok1 Hchs1 Hn1)
      as (Hok2 & Hc2 & Ha2 & Ho2 & Hf2 & _).
    eexists _, (chapters_pop chs1 cid). split.
    + rewrite (bind_ok _ _ _ _ _ (eq_trans (chapters_item_run st1 chs1 cid Hchs1)
                                   (f_equal (fun o => key o st1) Hch1))).
      rewrite (delete_chapter_run uuid1 html2text_handle st1 chs1 ch
                 (index_of (heap st1) (preorder t)) a n cid Hchs1);
        rewrite ?Hchid; eauto.
      * apply (ok_index _ _ Hok1).
      * apply dict_get_index_of; auto.
        -- intros y Hy. eapply tree_in_keys_id; [apply (ok_tree _ _ Hok1) | exact Hy].
        -- apply (ti_ids _ _ (ok_tree _ _ Hok1)).
        -- rewrite (frame_id _ _ _ (Hframe a)). exact Hr.
    + constructor.
      * exact Hok2.
      * exact Hc2.
      * apply chapters_pop_nodup, Hnd1.
      * intros b Hb. apply elem_of_app in Hb as [Hb | Hb].
        -- unfold chapter_id_at. rewrite (Ho2 b) by (intros ->; auto). apply (Hdone b Hb).
        -- apply list_elem_of_singleton in Hb as ->.
           exact (f_equal (fun o => match o with Some m => n_chapter_id m | None => None end)
                    Ha2).
      * intros b Hb. rewrite elem_of_app, list_elem_of_singleton in Hb.
        etrans; [apply Ho2; intros ->; auto | apply Hrest; auto].
      * intros b. etrans; [apply Hf2 | apply Hframe].
      * intros b c Hb Hcb. apply elem_of_app in Hb as [Hb | Hb].
        -- rewrite chapters_get_pop_ne; [apply (Hgone b c Hb Hcb) |].
           intros ->. apply Hnot.
           rewrite (chapter_id_inj a b cid Ha (Hsub b Hb) Hca Hcb). exact Hb.
        -- apply list_elem_of_singleton in Hb as ->.
           assert (c = cid) as -> by congruence.
           apply chapters_get_pop_eq, Hnd1.
      * intros k Hk. rewrite chapters_get_pop_ne.
        -- apply Hkept. intros b Hb. apply Hk, elem_of_app. auto.
        -- intros ->. apply (Hk a); [apply elem_of_app; right; apply list_elem_of_here | exact Hca].
  - exists st1, chs1. split; [reflexivity |]. constructor; auto.
    + intros b Hb. apply elem_of_app in Hb as [Hb | Hb]; [auto |].
      apply list_elem_of_singleton in Hb as ->.
      unfold chapter_id_at. rewrite Hn1. exact Hc.
    + intros b Hb. apply Hrest. intros H. apply Hb, elem_of_app. auto.
    + intros b c Hb Hcb. apply elem_of_app in Hb as [Hb | Hb]; [eauto |].
      apply list_elem_of_singleton in Hb as ->. congruence.
    + intros k Hk. apply Hkept. intros b Hb. apply Hk, elem_of_app. auto.
Qed.

(** The loop over the children of a node. *)
Lemma clear_loop (depth : nat) (ks : list rtree) :
  Forall (fun k => forall node st1 chs1 done,
     or_root node st1 = (Ok (raddr k), st1) ->
     shape (heap st) k -> NoDup (preorder k) ->
     (forall b, b ∈ preorder k -> b ∈ preorder t) ->
     (forall b, b ∈ preorder k -> b ∉ done) ->
     (forall b, b ∈ done -> b ∈ preorder t) ->
     chapters_cleared st t chs done st1 chs1 ->
     exists st2 chs2,
       remove_all_chapters_rec uuid1 html2text_handle depth node st1
       = when (negb (has_key node)) (tree_updated uuid1 html2text_handle true) st2
       /\ chapters_cleared st t chs (done ++ preorder k) st2 chs2) ks ->
  forall st1 chs1 done,
    Forall (shape (heap st)) ks -> NoDup (forest_nodes ks) ->
    (forall b, b ∈ forest_nodes ks -> b ∈ preorder t) ->
    (forall b, b ∈ forest_nodes ks -> b ∉ done) ->
    (forall b, b ∈ done -> b ∈ preorder t) ->
    chapters_cleared st t chs done st1 chs1 ->
    exists st2 chs2,
      for_each (map raddr ks)
        (fun child _ => remove_all_chapters_rec uuid1 html2text_handle depth (Some child))
        tt st1 = (Ok tt, st2)
      /\ chapters_cleared st t chs (done ++ forest_nodes ks) st2 chs2.
Proof.
  induction ks as [|k ks IH]; intros Hrec st1 chs1 done Hsh Hnd Hsub Hdis Hdone Hcl.
  - exists st1, chs1. split; [reflexivity |]. unfold forest_nodes. simpl.
    rewrite app_nil_r. exact Hcl.
  - apply Forall_cons in Hrec as [Hk Hrec]. apply Forall_cons in Hsh as [Hsk Hsh].
    rewrite forest_nodes_cons in *. apply NoDup_app in Hnd as (Hndk & Hkks & Hndks).
    destruct (Hk (Some (raddr k)) st1 chs1 done) as (st2 & chs2 & Hrun & Hcl2); auto.
    { apply (or_root_node st1 t); [apply (cc_ok _ _ _ _ _ _ Hcl) |].
      apply Hsub, elem_of_app. left. apply raddr_in_preorder. }
    { intros b Hb. apply Hsub, elem_of_app. auto. }
    { intros b Hb. apply Hdis, elem_of_app. auto. }
    destruct (IH Hrec st2 chs2 (done ++ preorder k)%list) as (st3 & chs3 & Hrun3 & Hcl3); auto.
    { intros b Hb. apply Hsub, elem_of_app. auto. }
    { intros b Hb Hin. apply elem_of_app in Hin as [Hin | Hin].
      - apply (Hdis b); [apply elem_of_app; auto | exact Hin].
      - apply (Hkks b Hin Hb). }
    { intros b Hb. apply elem_of_app in Hb as [Hb | Hb]; [auto |].
      apply Hsub, elem_of_app. auto. }
    exists st3, chs3. split.
    + cbn [map for_each]. rewrite (bind_ok _ _ _ _ _ Hrun). exact Hrun3.
    + rewrite app_assoc. exact Hcl3.
Qed.

(** A call on the subtree [s] of the tree deletes the chapters of its
    nodes; the refresh that ends the outermost call is left to run. *)
Lemma remove_rec_spec (s : rtree) : forall depth node st1 chs1 done,
  (height s <= depth)%nat ->
  or_root node st1 = (Ok (raddr s), st1) ->
  shape (heap st) s -> NoDup (preorder s) ->
  (forall b, b ∈ preorder s -> b ∈ preorder t) ->
  (forall b, b ∈ preorder s -> b ∉ done) ->
  (forall b, b ∈ done -> b ∈ preorder t) ->
  chapters_cleared st t chs done st1 chs1 ->
  exists st2 chs2,
    remove_all_chapters_rec uuid1 html2text_handle depth node st1
    = when (negb (has_key node)) (tree_updated uuid1 html2text_handle true) st2
    /\ chapters_cleared st t chs (done ++ preorder s) st2 chs2.
Proof.
  induction s as [a ks IH] using rtree_ind'.
  intros depth node st1 chs1 done Hh Hor Hs Hnd Hsub Hdis Hdone Hcl.
  destruct depth as [|depth]; [simpl in Hh; lia |].
  apply shape_inv in Hs as (n & Hn & Hc & Hks).
  rewrite preorder_unfold in *. apply NoDup_cons in Hnd as [Hak Hnd].
  assert (Hat : a ∈ preorder t) by apply Hsub, list_elem_of_here.
  assert (Had : a ∉ done) by apply Hdis, list_elem_of_here.
  assert (Hn1 : heap st1 !! a = Some n).
  { rewrite (cc_rest _ _ _ _ _ _ Hcl a Had). exact Hn. }
  destruct (clear_node done st1 chs1 a n Hcl Hat Had Hdone Hn)
    as (st2 & chs2 & Hrun2 & Hcl2).
  assert (Hcs : children_at (heap st2) a = Some (map raddr ks)).
  { rewrite (frame_at_children _ _ _ (cc_frame _ _ _ _ _ _ Hcl2 a)).
    unfold children_at. rewrite Hn.
    destruct (ti_keys _ _ (ok_tree _ _ Hok) a Hat) as (n' & Hn' & _ & _ & [cs Hcs]).
    assert (n' = n) as -> by congruence. rewrite Hcs in *. simpl in Hc. congruence. }
  destruct (clear_loop depth ks) with (st1 := st2) (chs1 := chs2) (done := (done ++ [a])%list)
    as (st3 & chs3 & Hrun3 & Hcl3); auto.
  { rewrite Forall_forall in IH. apply Forall_forall. intros k Hk node' st' chs' done'.
    apply IH; [exact Hk |]. pose proof (height_kid k a ks Hk). lia. }
  { intros b Hb. apply Hsub, list_elem_of_further, Hb. }
  { intros b Hb Hin. apply elem_of_app in Hin as [Hin | Hin].
    - apply (Hdis b); [apply list_elem_of_further, Hb | exact Hin].
    - apply list_elem_of_singleton in Hin as ->. auto. }
  { intros b Hb. apply elem_of_app in Hb as [Hb | Hb]; [auto |].
    apply list_elem_of_singleton in Hb as ->. exact Hat. }
  exists st3, chs3. split.
  - cbn [remove_all_chapters_rec]. cbn [raddr] in Hor. mstep Hor.
    mstep (read_ok _ _ _ Hn1). rewrite ?bind_assoc. rewrite (bind_ok _ _ _ _ _ Hrun2).
    mstep (children_at_get _ _ _ Hcs). rewrite (bind_ok _ _ _ _ _ Hrun3). reflexivity.
  - rewrite <- app_assoc in Hcl3. exact Hcl3.
Qed.

End RemoveChapters.

Section RemoveAll.

Variable uuid1 : nat -> string.
Variable html2text_handle : string -> string.

(** X30: in a well-formed model whose chapters agree with the tree,
    [remove_all_chapters()] returns and leaves no node of the tree with a
    chapter id: the chapters of the nodes of the tree are deleted from the
    dictionary, the other entries of the dictionary stay, and nothing else
    in the nodes changes but what the refresh at the end writes. *)
Theorem remove_all_chapters_clears_tree (st : TreeModel) (t : rtree) (chs : chapters_dict) :
  tree_ok st t -> chapters_ok st t chs ->
  exists st' chs',
    remove_all_chapters uuid1 html2text_handle None st = (Ok tt, st')
    /\ tree_ok st' t
    /\ chapters_ok st' t chs'
    /\ (forall a, a ∈ preorder t ->
          chapter_id_at (heap st') a = None /\ chapter_title a st' = (Ok ""%string, st'))
    /\ (forall a cid, a ∈ preorder t -> chapter_id_at (heap st) a = Some cid ->
          chapters_get chs' cid = None)
    /\ (forall k, (forall a, a ∈ preorder t -> chapter_id_at (heap st) a <> Some k) ->
          chapters_get chs' k = chapters_get chs k)
    /\ (forall b, b ∉ preorder t -> chapter_id_at (heap st') b = chapter_id_at (heap st) b)
    /\ (forall b, id_at (heap st') b = id_at (heap st) b)
    /\ (forall b, children_at (heap st') b = children_at (heap st) b).
Proof.
  intros Hok Hco.
  pose proof Hok as [Hraw Ht Hl Hidx]. pose proof (tree_in_nodup _ _ Ht) as Hnd.
  destruct (remove_rec_spec uuid1 html2text_handle st t chs Hok Hco t
              (S (length (heap st)) * S (length (heap st))) None st chs [])
    as (st2 & chs2 & Hrun2 & Hcl2); auto.
  - pose proof (height_le_store _ _ (ti_shape _ _ Ht) Hnd). simpl. lia.
  - unfold or_root, raw_root. mget. destruct (tree_raw_data st) as [rd|]; [| discriminate].
    simpl in Hraw. injection Hraw as <-. reflexivity.
  - apply (ti_shape _ _ Ht).
  - intros b _ H. inversion H.
  - intros b H. inversion H.
  - destruct Hco as [Hc1 Hc2 Hc3]. constructor; auto.
    + intros b H. inversion H.
    + intros b c H. inversion H.
  - simpl app in Hcl2. destruct Hcl2 as [Hok2 Hchs2 Hnd2 Hdone2 Hrest2 Hframe2 Hgone2 Hkept2].
    destruct (tree_updated_ok uuid1 html2text_handle st2 t (ok_raw _ _ Hok2)
                (ok_tree _ _ Hok2))
      as (st' & Hrun3 & Hok' & [Hl3 Hfr3 Hkept3 Htx3] & Hsel3 & Hrd3 & _).
    assert (Hnone : forall a, a ∈ preorder t -> chapter_id_at (heap st') a = None).
    { intros a Ha. rewrite (kept_chapter _ _ _ (Hkept3 a)). apply Hdone2, Ha. }
    exists st', chs2.
    split; [| split; [exact Hok' | split; [| split; [| split; [exact Hgone2 | split;
      [exact Hkept2 | split; [| split]]]]]]].
    + unfold remove_all_chapters. mget. rewrite Hrun2. exact Hrun3.
    + constructor; [rewrite Hrd3; exact Hchs2 | exact Hnd2 |].
      intros a c Ha Hc. rewrite (Hnone a Ha) in Hc. discriminate.
    + intros a Ha. split; [apply Hnone, Ha |].
      destruct (tree_ok_node st' t a Hok' Ha) as (n' & i & Hn' & _).
      rewrite (chapter_title_run st' chs2 a n' Hn'); [| rewrite Hrd3; exact Hchs2].
      pose proof (Hnone a Ha) as Hc. unfold chapter_id_at in Hc. rewrite Hn' in Hc.
      rewrite Hc. reflexivity.
    + intros b Hb. rewrite (kept_chapter _ _ _ (Hkept3 b)). unfold chapter_id_at.
      rewrite (Hrest2 b Hb). reflexivity.
    + intros b. rewrite (kept_id _ _ _ (Hkept3 b)). apply frame_id, Hframe2.
    + intros b. rewrite (kept_children _ _ _ (Hkept3 b)). apply frame_at_children, Hframe2.
Qed.

End RemoveAll.

(** * Examples on the chain *)

Local Open Scope string_scope.

Lemma ex_chain_in : tree_in ex_chain_heap ex_chain_tree.
Proof.
  constructor.
  - repeat econstructor.
  - intros a Ha. simpl in Ha.
    repeat (apply elem_of_cons in Ha as [-> | Ha]);
      [| | | inversion Ha]; eexists; (split; [reflexivity |]); simpl; eauto.
  - refine (bool_decide_unpack _ _). vm_compute. exact I.
  - reflexivity.
Qed.

Lemma ex_chain_ok : tree_ok ex_chain_state ex_chain_tree.
Proof.
  constructor.
  - reflexivity.
  - exact ex_chain_in.
  - repeat constructor.
  - reflexivity.
Qed.

Lemma ex_chain_nodup : NoDup (preorder ex_chain_tree).
Proof. exact (tree_in_nodup _ _ ex_chain_in). Qed.

(** X1, on the chain. *)
Lemma num_descendents_counts_flat_witness :
  exists l st',
    flatten_tree ex_uuid (raddr ex_chain_tree) ex_chain_state = (Ok l, st')
    /\ util_tree.num_descendents (raddr ex_chain_tree) ex_chain_state
       = (Ok (length l), ex_chain_state)
    /\ util_tree.num_descendents (raddr ex_chain_tree) st' = (Ok (length l), st').
Proof.
  apply (num_descendents_counts_flat ex_uuid ex_chain_state ex_chain_tree).
  - exact (ti_shape _ _ ex_chain_in).
  - exact ex_chain_nodup.
Defined.

(** X2, on the chain: its one leaf is counted as two. *)
Lemma num_leaves_counts_all_below_witness :
  exists n,
    util_tree.num_descendents 0%nat ex_chain_state = (Ok n, ex_chain_state)
    /\ n = 3%nat
    /\ util_tree.num_leaves 0%nat ex_chain_state = (Ok (n - 1)%nat, ex_chain_state).
Proof.
  apply (num_leaves_counts_all_below ex_chain_state ex_chain_tree).
  - exact (ti_shape _ _ ex_chain_in).
  - exact ex_chain_nodup.
Defined.

(** X4, on the middle node of the chain. *)
Lemma depth_plus_height_bounded_witness :
  exists d ha hr,
    util_tree.depth 1%nat (tree_node_dict ex_chain_state) ex_chain_state
    = (Ok d, ex_chain_state)
    /\ util_tree.height 1%nat ex_chain_state = (Ok ha, ex_chain_state)
    /\ util_tree.height (raddr ex_chain_tree) ex_chain_state = (Ok hr, ex_chain_state)
    /\ (1 <= ha)%nat /\ (d + ha <= hr)%nat
    /\ (d = 0%nat <-> 1%nat = raddr ex_chain_tree).
Proof.
  apply (depth_plus_height_bounded ex_chain_state ex_chain_tree 1%nat ex_chain_ok).
  simpl. apply list_elem_of_further, list_elem_of_here.
Defined.

(** X5, on the document that is not yet loaded: its child has no list of
    children. *)
Lemma height_needs_children_key_witness :
  util_tree.height (raddr ex_raw_tree) ex_raw_state = (Raise KeyError, ex_raw_state)
  /\ util_tree.num_descendents (raddr ex_raw_tree) ex_raw_state = (Ok 2%nat, ex_raw_state).
Proof.
  apply (height_needs_children_key ex_raw_state ex_raw_tree).
  - exact (di_shape _ _ ex_raw_doc).
  - exact (di_nodup _ _ ex_raw_doc).
Defined.

(** X6, on the leaf of the chain. *)
Lemma node_ancestry_is_root_path_witness :
  exists l,
    node_ancestry 2%nat (tree_node_dict ex_chain_state) ex_chain_state = (Ok l, ex_chain_state)
    /\ head l = Some (raddr ex_chain_tree) /\ last l = Some 2%nat
    /\ (forall i x y, l !! i = Some x -> l !! S i = Some y ->
          exists cs, children_at (heap ex_chain_state) x = Some cs /\ y ∈ cs)
    /\ NoDup l.
Proof.
  apply (node_ancestry_is_root_path ex_chain_state ex_chain_tree 2%nat ex_chain_ok).
  simpl. do 2 apply list_elem_of_further. apply list_elem_of_here.
Defined.

(** * Examples of generation *)

(** X7, on the four placeholders of the example. *)
Lemma generate_for_nodes_fills_placeholders_witness :
  exists st',
    generate_for_nodes ex_backend_four "p" [4; 5; 6; 7]%nat [] ex_gen_state = (Ok tt, st')
    /\ (forall j n c, [4; 5; 6; 7]%nat !! j = Some n
          -> fst (api_generate ex_backend_four) = Some c
          -> forall x, c !! j = Some x -> text_at (heap st') n = Some (c_text x))
    /\ app_queue st' = ["<<TreeUpdated>>"].
Proof.
  destruct (generate_for_nodes_fills_placeholders ex_backend_four "p" [4; 5; 6; 7]%nat []
              ex_gen_state DEFAULT_GENERATION_SETTINGS
              [ mkCompletion " first" [] []; mkCompletion " second" [] [];
                mkCompletion " third" [] []; mkCompletion " fourth" [] [] ] None)
    as (st' & Hrun & Htx & _ & _ & _ & _ & Hq); try reflexivity; simpl; eauto.
  - refine (bool_decide_unpack _ _). vm_compute. exact I.
  - intros n Hn. repeat (apply elem_of_cons in Hn as [-> | Hn]); [| | | | inversion Hn];
      vm_compute; eauto.
  - exists st'. split; [exact Hrun |]. split; [| exact Hq].
    intros j n c Hj Hc x Hx. injection Hc as <-. eapply Htx; eauto.
Defined.

(** X8, on the chain: the second token is the least likely one; it starts
    at offset 16, six characters into the completion, the prompt being
    ten characters long. *)
Lemma generate_for_nodes_splits_completions_witness :
  exists st',
    generate_for_nodes ex_backend_adaptive "0123456789" [1%nat] [2%nat]
      (ex_chain_with (ex_settings false true)) = (Ok tt, st')
    /\ (exists (m : nat) (q : Q) (off : Z),
          [Qmake (-1) 10; Qmake (-5) 1; Qmake (-2) 1] !! m = Some q
          /\ (forall i x, [Qmake (-1) 10; Qmake (-5) 1; Qmake (-2) 1] !! i = Some x ->
                (q <= x)%Q)
          /\ [10; 16; 20] !! m = Some off
          /\ text_at (heap st') 1%nat
             = Some (py_slice_to "hello world" (off - Z.of_nat (String.length "0123456789")))
          /\ text_at (heap st') 2%nat
             = Some (py_slice_from "hello world"
                       (off - Z.of_nat (String.length "0123456789"))))
    /\ app_queue st' = ["<<TreeUpdated>>"].
Proof.
  destruct (generate_for_nodes_splits_completions ex_backend_adaptive "0123456789"
              [1%nat] [2%nat] (ex_chain_with (ex_settings false true))
              (ex_settings false true)
              [ mkCompletion "hello world" [Qmake (-1) 10; Qmake (-5) 1; Qmake (-2) 1]
                             [10; 16; 20] ] None)
    as (st' & Hrun & Htx & _ & _ & _ & Hq); try reflexivity; simpl; eauto.
  - refine (bool_decide_unpack _ _). vm_compute. exact I.
  - intros n Hn. repeat (apply elem_of_cons in Hn as [-> | Hn]); [| | inversion Hn];
      vm_compute; eauto.
  - exists st'. split; [exact Hrun |]. split; [| exact Hq].
    destruct (Htx 0%nat 1%nat 2%nat _ eq_refl eq_refl eq_refl)
      as (m & q & off & H1 & H2 & _ & H4 & H5 & H6 & _).
    exists m, q, off. auto.
Defined.

(** X9, on the chain with the parallel mode on. *)
Lemma generate_for_nodes_janus_always_raises_witness :
  exists e st',
    generate_for_nodes ex_backend_four "p" [1%nat] []
      (ex_chain_with (ex_settings true false)) = (Raise e, st')
    /\ app_queue st' = []
    /\ ([1%nat] = [] -> e = ValueError).
Proof.
  apply (generate_for_nodes_janus_always_raises ex_backend_four "p" [1%nat] []
           (ex_chain_with (ex_settings true false)) (ex_settings true false));
    reflexivity.
Defined.

(** X10, on the leaf of the chain while its root is selected. *)
Lemma select_node_opens_path_witness :
  (selected_node_id ex_chain_state = Some "b" ->
   select_node "b" true ex_chain_state = (Ok None, ex_chain_state))
  /\ (forall j, dict_has (tree_node_dict ex_chain_state) j = false ->
        select_node j true ex_chain_state = (Ok None, ex_chain_state))
  /\ (selected_node_id ex_chain_state <> Some "b" ->
      exists l st',
        node_ancestry 2%nat (tree_node_dict ex_chain_state) ex_chain_state
        = (Ok l, ex_chain_state)
        /\ select_node "b" true ex_chain_state = (Ok (Some 2%nat), st')
        /\ selected_node_id st' = Some "b"
        /\ option_map rd_selected_node_id (tree_raw_data st') = Some (Some "b")
        /\ visited_at (heap st') 2%nat = Some true
        /\ (forall x, x ∈ l -> x <> 2%nat -> open_at (heap st') x = Some true)
        /\ open_at (heap st') (raddr ex_chain_tree) = Some true
        /\ (2%nat <> raddr ex_chain_tree ->
            open_at (heap st') 2%nat = open_at (heap ex_chain_state) 2%nat)
        /\ (forall x, x ∉ l -> heap st' !! x = heap ex_chain_state !! x)
        /\ (forall x, content_at (heap st') x = content_at (heap ex_chain_state) x)
        /\ fired st'
           = (fired ex_chain_state ++ ev_pre_selection_updated
                :: (if true then [ev_selection_updated] else []))%list).
Proof.
  apply (select_node_opens_path ex_chain_state ex_chain_tree 2%nat "b" true ex_chain_ok).
  - simpl. apply list_elem_of_further, list_elem_of_further, list_elem_of_here.
  - reflexivity.
Defined.

(** X11, on the middle node of the chain. *)
Lemma select_parent_stops_at_root_witness :
  (1%nat = raddr ex_chain_tree ->
   select_parent (Some 1%nat) ex_chain_state = (Ok None, ex_chain_state))
  /\ (1%nat <> raddr ex_chain_tree ->
      exists p cs r st',
        p ∈ preorder ex_chain_tree /\ children_at (heap ex_chain_state) p = Some cs
        /\ 1%nat ∈ cs
        /\ select_parent (Some 1%nat) ex_chain_state = (Ok r, st')
        /\ selected_node_id st' = id_at (heap ex_chain_state) p
        /\ is_Some (selected_node_id st')
        /\ (forall x, content_at (heap st') x = content_at (heap ex_chain_state) x)
        /\ tree_ok st' ex_chain_tree).
Proof.
  apply (select_parent_stops_at_root ex_chain_state ex_chain_tree (Some 1%nat) 1%nat
           ex_chain_ok).
  - simpl. apply list_elem_of_further, list_elem_of_here.
  - left. reflexivity.
Defined.

(** * Examples of the edits *)

Lemma ex_chain_fresh : uuid_fresh ex_uuid ex_chain_state.
Proof.
  split.
  - intros i j H. apply (f_equal String.length) in H. rewrite !ex_uuid_length in H. lia.
  - intros a k _ H. destruct (ex_uuid_head k) as [s Hs]. rewrite Hs in H.
    destruct a as [|[|[|a]]]; discriminate H.
Qed.

(** X13, on the root of the example. *)
Lemma create_child_appends_leaf_witness :
  exists (cs : list nat) (c : nat) (st' : TreeModel) (t' : rtree),
  children_at (heap ex_state) 0 = Some cs
  /\ create_child ex_uuid ex_html (Some 0%nat) true true ex_state = (Ok (Some c), st')
  /\ (c ∉ preorder ex_tree)
  /\ tree_ok st' t'
  /\ raddr t' = raddr ex_tree
  /\ (forall b : nat, b ∈ preorder t' <-> b = c \/ b ∈ preorder ex_tree)
  /\ children_at (heap st') 0 = Some (cs ++ [c])%list
  /\ id_at (heap st') c = Some (ex_uuid (uuid_clock ex_state))
  /\ text_at (heap st') c = Some ""
  /\ children_at (heap st') c = Some []
  /\ parent_id_at (heap st') c = id_at (heap ex_state) 0
  /\ get_node (Some (ex_uuid (uuid_clock ex_state))) st' =
  (Ok (Some c), st')
  /\ (forall b : nat,
  b <> c -> id_at (heap st') b = id_at (heap ex_state) b)
  /\ (forall b : nat,
  b <> 0%nat
  -> b <> c
  -> children_at (heap st') b =
  children_at (heap ex_state) b)
  /\ selected_node_id st' =
  Some (ex_uuid (uuid_clock ex_state))
  /\ (true = true -> open_at (heap st') c = Some true).
Proof.
  apply (create_child_appends_leaf ex_uuid ex_html ex_state ex_tree (Some 0%nat) 0%nat true true
           ex_state_ok ex_uuid_fresh).
  - simpl. apply list_elem_of_here.
  - left. reflexivity.
Defined.

(** X14, on the first child of the example. *)
Lemma create_sibling_appends_last_witness :
  (1%nat = raddr ex_tree
  -> create_sibling ex_uuid ex_html (Some 1%nat) true ex_state =
  (Raise KeyError, ex_state))
  /\ (1%nat <> raddr ex_tree
  -> exists (p : nat) (cs : list nat) (c : nat) (st' : TreeModel) (t' : rtree),
  p ∈ preorder ex_tree
  /\ children_at (heap ex_state) p = Some cs
  /\ 1%nat ∈ cs
  /\ create_sibling ex_uuid ex_html (Some 1%nat) true ex_state = (Ok tt, st')
  /\ (c ∉ preorder ex_tree)
  /\ tree_ok st' t'
  /\ (forall b : nat, b ∈ preorder t' <-> b = c \/ b ∈ preorder ex_tree)
  /\ children_at (heap st') p = Some (cs ++ [c])%list
  /\ id_at (heap st') c = Some (ex_uuid (uuid_clock ex_state))
  /\ text_at (heap st') c = Some ""
  /\ children_at (heap st') c = Some []
  /\ parent_id_at (heap st') c = parent_id_at (heap ex_state) 1
  /\ open_at (heap st') c = Some true
  /\ selected_node_id st' =
  Some (ex_uuid (uuid_clock ex_state))).
Proof.
  apply (create_sibling_appends_last ex_uuid ex_html ex_state ex_tree (Some 1%nat) 1%nat true
           ex_state_ok ex_uuid_fresh).
  - simpl. apply list_elem_of_further, list_elem_of_here.
  - left. reflexivity.
Defined.

(** X15, on the first child of the example. *)
Lemma create_parent_inserts_above_witness :
  exists (c : nat) (st' : TreeModel) (t' : rtree),
  create_parent ex_uuid ex_html (Some 1%nat) ex_state = (Ok tt, st')
  /\ (c ∉ preorder ex_tree)
  /\ tree_ok st' t'
  /\ (forall b : nat, b ∈ preorder t' <-> b = c \/ b ∈ preorder ex_tree)
  /\ id_at (heap st') c = Some (ex_uuid (uuid_clock ex_state))
  /\ text_at (heap st') c = Some ""
  /\ children_at (heap st') c = Some [1%nat]
  /\ parent_id_at (heap st') 1 = Some (ex_uuid (uuid_clock ex_state))
  /\ parent_id_at (heap st') c = parent_id_at (heap ex_state) 1
  /\ (forall b : nat, b <> c -> id_at (heap st') b = id_at (heap ex_state) b)
  /\ selected_node_id st' = selected_node_id ex_state
  /\ (1%nat = raddr ex_tree
  -> option_map rd_root (tree_raw_data st') = Some c
  /\ forall b : nat,
  b <> c
  -> children_at (heap st') b =
  children_at (heap ex_state) b)
  /\ (1%nat <> raddr ex_tree
  -> option_map rd_root (tree_raw_data st') =
  option_map rd_root (tree_raw_data ex_state)
  /\ exists (p : nat) (cs : list nat) (k : nat),
  p ∈ preorder ex_tree
  /\ children_at (heap ex_state) p = Some cs
  /\ cs !! k = Some 1%nat
  /\ children_at (heap st') p = Some (<[k:=c]> cs)
  /\ forall b : nat,
  b <> c
  -> b <> p
  -> children_at (heap st') b =
  children_at (heap ex_state) b).
Proof.
  apply (create_parent_inserts_above ex_uuid ex_html ex_state ex_tree (Some 1%nat) 1%nat
           ex_state_ok ex_uuid_fresh).
  - simpl. apply list_elem_of_further, list_elem_of_here.
  - left. reflexivity.
Defined.

(** X16, on the middle node of the chain. *)
Lemma merge_with_parent_splices_witness :
  exists (p : nat) (pid : string) (cs : list nat) (k : nat) (pt ta : string)
  (cas : list nat) (st' : TreeModel) (t' : rtree),
  p ∈ preorder ex_chain_tree
  /\ id_at (heap ex_chain_state) p = Some pid
  /\ children_at (heap ex_chain_state) p = Some cs
  /\ cs !! k = Some 1%nat
  /\ text_at (heap ex_chain_state) p = Some pt
  /\ text_at (heap ex_chain_state) 1 = Some ta
  /\ children_at (heap ex_chain_state) 1 = Some cas
  /\ merge_with_parent ex_uuid ex_html (Some 1%nat) ex_chain_state =
  (Ok tt, st')
  /\ tree_ok st' t'
  /\ (forall b : nat, b ∈ preorder t' <-> b ∈ preorder ex_chain_tree /\ b <> 1%nat)
  /\ children_at (heap st') p =
  Some (take k cs ++ cas ++ drop (S k) cs)%list
  /\ (has_miro_markup (pt +:+ ta) = false
  -> text_at (heap st') p = Some (pt +:+ ta))
  /\ (forall c : nat, c ∈ cas -> parent_id_at (heap st') c = Some pid)
  /\ selected_node_id st' = Some pid
  /\ get_node (Some "a") st' = (Ok None, st')
  /\ (forall b : nat,
  b <> p
  -> children_at (heap st') b =
  children_at (heap ex_chain_state) b)
  /\ forall b : nat,
  id_at (heap st') b = id_at (heap ex_chain_state) b.
Proof.
  apply (merge_with_parent_splices ex_uuid ex_html ex_chain_state ex_chain_tree (Some 1%nat)
           1%nat "a" ex_chain_ok ex_chain_fresh).
  - simpl. apply list_elem_of_further, list_elem_of_here.
  - left. reflexivity.
  - simpl. discriminate.
  - reflexivity.
Defined.

(** X17, on the middle node of the chain. *)
Lemma merge_with_children_prefixes_witness :
  exists (ta : string) (cas : list nat),
  text_at (heap ex_chain_state) 1 = Some ta
  /\ children_at (heap ex_chain_state) 1 = Some cas
  /\ (1%nat = raddr ex_chain_tree
  -> exists st' : TreeModel,
  merge_with_children ex_uuid ex_html (Some 1%nat) ex_chain_state =
  (Ok tt, st')
  /\ tree_ok st' ex_chain_tree
  /\ (forall (c : nat) (tc : string),
  c ∈ cas
  -> text_at (heap ex_chain_state) c = Some tc
  -> text_at (heap st') c = Some (ta +:+ tc))
  /\ (forall b : nat, b ∉ cas -> heap st' !! b = heap ex_chain_state !! b)
  /\ children_at (heap st') 1 = Some cas
  /\ selected_node_id st' = selected_node_id ex_chain_state
  /\ fired st' = fired ex_chain_state)
  /\ (1%nat <> raddr ex_chain_tree
  -> exists (p : nat) (pid : string) (cs : list nat) (k : nat)
  (st' : TreeModel) (t' : rtree),
  p ∈ preorder ex_chain_tree
  /\ id_at (heap ex_chain_state) p = Some pid
  /\ children_at (heap ex_chain_state) p = Some cs
  /\ cs !! k = Some 1%nat
  /\ merge_with_children ex_uuid ex_html (Some 1%nat) ex_chain_state =
  (Ok tt, st')
  /\ tree_ok st' t'
  /\ (forall b : nat,
  b ∈ preorder t' <-> b ∈ preorder ex_chain_tree /\ b <> 1%nat)
  /\ children_at (heap st') p =
  Some ((take k cs ++ drop (S k) cs) ++ cas)%list
  /\ (forall (c : nat) (tc : string),
  c ∈ cas
  -> text_at (heap ex_chain_state) c = Some tc
  -> has_miro_markup (ta +:+ tc) = false
  -> text_at (heap st') c = Some (ta +:+ tc))
  /\ (forall c : nat,
  c ∈ cas -> parent_id_at (heap st') c = Some pid)
  /\ selected_node_id st' = Some pid
  /\ forall b : nat,
  b <> p
  -> children_at (heap st') b =
  children_at (heap ex_chain_state) b).
Proof.
  apply (merge_with_children_prefixes ex_uuid ex_html ex_chain_state ex_chain_tree
           (Some 1%nat) 1%nat ex_chain_ok).
  - simpl. apply list_elem_of_further, list_elem_of_here.
  - left. reflexivity.
Defined.

(** X18: the first child of the example moves under the second. *)
Lemma change_parent_appends_to_new_parent_witness :
  exists (p : nat) (cs : list nat) (k : nat) (qs : list nat) (st' : TreeModel) (t' : rtree),
  p ∈ preorder ex_tree
  /\ children_at (heap ex_state) p = Some cs
  /\ cs !! k = Some 1%nat
  /\ children_at (heap ex_state) 2 = Some qs
  /\ change_parent ex_uuid ex_html (Some 1%nat) "b" ex_state = (Ok tt, st')
  /\ tree_ok st' t'
  /\ raddr t' = raddr ex_tree
  /\ preorder t' ≡ₚ preorder ex_tree
  /\ children_at (heap st') p = Some (take k cs ++ drop (S k) cs)%list
  /\ children_at (heap st') 2 = Some (qs ++ [1%nat])%list
  /\ parent_id_at (heap st') 1 = Some "b"
  /\ (forall b : nat,
  b <> p
  -> b <> 2%nat
  -> children_at (heap st') b = children_at (heap ex_state) b)
  /\ (forall b : nat, id_at (heap st') b = id_at (heap ex_state) b)
  /\ selected_node_id st' = selected_node_id ex_state.
Proof.
  apply (change_parent_appends_to_new_parent ex_uuid ex_html ex_state ex_tree (Some 1%nat)
           1%nat 2%nat "b" [0%nat; 2%nat] ex_state_ok ex_uuid_fresh).
  - simpl. apply list_elem_of_further, list_elem_of_here.
  - left. reflexivity.
  - simpl. apply list_elem_of_further, list_elem_of_further, list_elem_of_here.
  - reflexivity.
  - reflexivity.
  - intros H. apply elem_of_cons in H as [H | H]; [discriminate |].
    apply elem_of_cons in H as [H | H]; [discriminate | inversion H].
  - simpl. discriminate.
  - simpl. discriminate.
Defined.

(** X19, with the id of the node itself. *)
Lemma change_parent_guards_witness :
  change_parent ex_uuid ex_html (Some 1%nat) "a" ex_state = (Ok tt, ex_state).
Proof.
  apply (change_parent_guards ex_uuid ex_html ex_state ex_tree (Some 1%nat) 1%nat "a" "a"
           ex_state_ok).
  - simpl. apply list_elem_of_further, list_elem_of_here.
  - left. reflexivity.
  - reflexivity.
  - left. reflexivity.
Defined.


(** X21: the middle node of the chain moves under its own child. *)
Lemma change_parent_under_descendant_drops_subtree_witness :
  exists (ka : rtree) (st' : TreeModel) (t' : rtree),
  change_parent ex_uuid ex_html (Some 1%nat) "b" ex_chain_state = (Ok tt, st')
  /\ tree_ok st' t'
  /\ raddr t' = raddr ex_chain_tree
  /\ raddr ka = 1%nat
  /\ shape (heap ex_chain_state) ka
  /\ preorder ex_chain_tree ≡ₚ preorder ka ++ preorder t'
  /\ 2%nat ∈ preorder ka
  /\ (forall b : nat, b ∈ preorder ka ->
        (b ∉ preorder t')
        /\ forall i : string, id_at (heap ex_chain_state) b = Some i ->
             get_node (Some i) st' = (Ok None, st'))
  /\ forall b : nat, id_at (heap st') b = id_at (heap ex_chain_state) b.
Proof.
  apply (change_parent_under_descendant_drops_subtree ex_uuid ex_html ex_chain_state
           ex_chain_tree (Some 1%nat) 1%nat 2%nat "b" [0%nat; 1%nat; 2%nat]
           ex_chain_ok ex_chain_fresh).
  - simpl. apply list_elem_of_further, list_elem_of_here.
  - left. reflexivity.
  - simpl. apply list_elem_of_further, list_elem_of_further, list_elem_of_here.
  - reflexivity.
  - reflexivity.
  - apply list_elem_of_further, list_elem_of_here.
  - discriminate.
  - simpl. discriminate.
Defined.

(** * Examples of the other calls *)

(** X22, on the model before a document is loaded. *)
Lemma calls_without_selection_witness :
  create_child ex_uuid ex_html None true true init_model = (Ok None, init_model)
  /\ create_sibling ex_uuid ex_html None true init_model = (Ok tt, init_model)
  /\ create_parent ex_uuid ex_html None init_model = (Ok tt, init_model)
  /\ merge_with_parent ex_uuid ex_html None init_model = (Ok tt, init_model)
  /\ merge_with_children ex_uuid ex_html None init_model = (Ok tt, init_model)
  /\ change_parent ex_uuid ex_html None "b" init_model = (Ok tt, init_model)
  /\ generate_continuation ex_uuid ex_html None true init_model =
  (Ok tt, init_model)
  /\ select_parent None init_model = (Ok None, init_model)
  /\ select_child 0 None init_model = (Ok None, init_model)
  /\ select_sibling 0 None init_model = (Ok None, init_model)
  /\ delete_node ex_uuid ex_html None false init_model =
  (Raise TypeError, init_model)
  /\ node_ancestry_text None init_model = (Raise TypeError, init_model).
Proof.
  apply (calls_without_selection ex_uuid ex_html init_model true true false "b" 0).
  - reflexivity.
Defined.

(** X23, on the example. *)
Lemma get_node_resolves_ids_witness :
  (forall (a : nat) (i : string),
  a ∈ preorder ex_tree
  -> id_at (heap ex_state) a = Some i
  -> get_node (Some i) ex_state = (Ok (Some a), ex_state))
  /\ (forall i : string,
  (forall b : nat, b ∈ preorder ex_tree -> id_at (heap ex_state) b <> Some i)
  -> get_node (Some i) ex_state = (Ok None, ex_state))
  /\ (forall (i : string) (a : nat) (st' : TreeModel),
  get_node (Some i) ex_state = (Ok (Some a), st')
  -> st' = ex_state /\ a ∈ preorder ex_tree /\ id_at (heap ex_state) a = Some i)
  /\ forall a : nat,
  a ∈ preorder ex_tree
  -> selected_node_id ex_state = id_at (heap ex_state) a
  -> get_node None ex_state = (Ok (Some a), ex_state).
Proof.
  apply (get_node_resolves_ids ex_state ex_tree).
  - exact ex_state_ok.
Defined.

(** X24, on the first child of the example. *)
Lemma update_text_stores_active_text_witness :
  (default "" (active_text_at (heap ex_state) 1) = "draft"
  -> update_text ex_uuid ex_html 1 ("one" +:+ spaces 2) (Some "draft") ex_state =
  (Ok tt, ex_state))
  /\ (default "" (active_text_at (heap ex_state) 1) <> "draft"
  -> exists st' : TreeModel,
  update_text ex_uuid ex_html 1 ("one" +:+ spaces 2) (Some "draft") ex_state =
  (Ok tt, st')
  /\ tree_ok st' ex_tree
  /\ active_text_at (heap st') 1 = Some "draft"
  /\ (forall b : nat,
  b <> 1%nat
  -> active_text_at (heap st') b = active_text_at (heap ex_state) b)
  /\ (forall b : nat, id_at (heap st') b = id_at (heap ex_state) b)
  /\ (forall b : nat, children_at (heap st') b = children_at (heap ex_state) b)
  /\ (forall (b : nat) (s : string),
  text_at (heap ex_state) b = Some s
  -> has_miro_markup s = false -> text_at (heap st') b = Some s)
  /\ selected_node_id st' = selected_node_id ex_state
  /\ fired st' = (fired ex_state ++ [ev_tree_updated])%list)
  /\ forall (b : nat) (n : node) (i text : string) (active_text : option string),
  heap ex_state !! b = Some n
  -> n_id n = Some i
  -> dict_has (tree_node_dict ex_state) i = false
  -> update_text ex_uuid ex_html b text active_text ex_state =
  (Raise AssertionError, ex_state).
Proof.
  apply (update_text_stores_active_text ex_uuid ex_html ex_state ex_tree 1%nat "one" 2%nat
           "draft" ex_state_ok).
  - simpl. apply list_elem_of_further, list_elem_of_here.
  - reflexivity.
  - reflexivity.
Defined.

(** X25, on the root of the example, with the default settings. *)
Lemma generate_continuation_starts_worker_witness :
  ((4 <= 0)%Z
  -> generate_continuation ex_uuid ex_html (Some 0%nat) true ex_state =
  (Raise IndexError, ex_state))
  /\ (0 < 4
  -> exists (cs : list nat) (st' : TreeModel) (t' : rtree),
  children_at (heap ex_state) 0 = Some cs
  /\ generate_continuation ex_uuid ex_html (Some 0%nat) true ex_state = (Ok tt, st')
  /\ tree_ok st' t'
  /\ (forall b : nat,
  b ∈ preorder t'
  <-> b ∈ seq (length (heap ex_state)) (Z.to_nat 4) \/ b ∈ preorder ex_tree)
  /\ children_at (heap st') 0 =
  Some (cs ++ seq (length (heap ex_state)) (Z.to_nat 4))%list
  /\ (forall c : nat,
  c ∈ seq (length (heap ex_state)) (Z.to_nat 4)
  -> text_at (heap st') c = Some (nl +:+ nl +:+ "** Generating **")
  /\ children_at (heap st') c = Some []
  /\ parent_id_at (heap st') c = id_at (heap ex_state) 0)
  /\ started st' =
  (started ex_state ++
  [{|
  w_prompt :=
  "" +:+ py_slice_from (String.concat "" ["root"]) (- (6000));
  w_nodes := seq (length (heap ex_state)) (Z.to_nat 4);
  w_grandchildren := []
  |}])%list
  /\ selected_node_id st' = id_at (heap st') (length (heap ex_state))
  /\ forall b : nat,
  b ∈ preorder ex_tree
  -> id_at (heap st') b = id_at (heap ex_state) b).
Proof.
  apply (generate_continuation_starts_worker ex_uuid ex_html ex_state ex_tree (Some 0%nat)
           0%nat DEFAULT_GENERATION_SETTINGS 4 6000 "" [0%nat] ["root"] true
           ex_state_ok ex_uuid_fresh).
  - simpl. apply list_elem_of_here.
  - left. reflexivity.
  - reflexivity.
  - reflexivity.
  - reflexivity.
  - reflexivity.
  - reflexivity.
  - reflexivity.
  - constructor; [split; reflexivity | constructor].
Defined.

(** * Examples of loading and flattening *)

Lemma ex_listed_doc_in : doc_in (heap ex_listed_state) ex_raw_tree.
Proof.
  constructor.
  - repeat econstructor.
  - refine (bool_decide_unpack _ _). vm_compute. exact I.
  - intros a Ha. simpl in Ha.
    repeat (apply elem_of_cons in Ha as [-> | Ha]; [simpl; eauto |]). inversion Ha.
  - constructor.
  - reflexivity.
Qed.

Lemma ex_listed_fresh : uuid_fresh ex_uuid ex_listed_state.
Proof.
  split.
  - intros i j H. apply (f_equal String.length) in H. rewrite !ex_uuid_length in H. lia.
  - intros a k _ H. destruct a as [|[|a]]; discriminate H.
Qed.

(** X26, on the document with the children listed. *)
Lemma load_tree_data_establishes_invariant_witness :
  exists st' : TreeModel,
    load_tree_data ex_uuid ex_html ex_listed_doc ex_listed_state = (Ok tt, st')
    /\ tree_ok st' ex_raw_tree
    /\ uuid_fresh ex_uuid st'
    /\ (forall a : nat, a ∈ preorder ex_raw_tree -> is_Some (open_at (heap st') a))
    /\ (forall b : nat, children_at (heap st') b = children_at (heap ex_listed_state) b)
    /\ (forall (b : nat) (i : string),
          id_at (heap ex_listed_state) b = Some i -> id_at (heap st') b = Some i)
    /\ generation_settings st'
       = (Ok (merge_gen_settings DEFAULT_GENERATION_SETTINGS
                (default no_settings (doc_settings ex_listed_doc))), st')
    /\ option_map rd_chapters (tree_raw_data st')
       = Some (Some (default [] (doc_chapters ex_listed_doc))).
Proof.
  apply (load_tree_data_establishes_invariant ex_uuid ex_html ex_listed_doc ex_listed_state
           ex_raw_tree).
  - reflexivity.
  - exact ex_listed_doc_in.
  - exact ex_listed_fresh.
  - intros a Ha. simpl in Ha.
    repeat (apply elem_of_cons in Ha as [-> | Ha]; [simpl; eauto |]). inversion Ha.
Defined.

(** * Examples of the chapters *)

Lemma ex_chain_chapters : chapters_ok ex_chain_state ex_chain_tree [].
Proof.
  constructor; [reflexivity | constructor |].
  intros a cid Ha Hc. simpl in Ha.
  repeat (apply elem_of_cons in Ha as [-> | Ha]; [discriminate Hc |]). inversion Ha.
Qed.

Lemma ex_chaptered_ok : tree_ok ex_chaptered_state ex_chain_tree.
Proof.
  apply (tree_ok_frame ex_chain_state ex_chaptered_state ex_chain_tree ex_chain_ok).
  - reflexivity.
  - reflexivity.
  - intros b Hb. simpl in Hb.
    repeat (apply elem_of_cons in Hb as [-> | Hb]; [reflexivity |]). inversion Hb.
  - intros b Hb. simpl in Hb.
    repeat (apply elem_of_cons in Hb as [-> | Hb]; [reflexivity |]). inversion Hb.
Qed.

Lemma ex_chaptered_chapters : chapters_ok ex_chaptered_state ex_chain_tree ex_chapters.
Proof.
  constructor; [reflexivity | apply NoDup_singleton |].
  intros a cid Ha Hc. simpl in Ha.
  apply elem_of_cons in Ha as [-> | Ha]; [discriminate Hc |].
  apply elem_of_cons in Ha as [-> | Ha].
  - injection Hc as <-. eexists. split; [reflexivity |]. split; reflexivity.
  - apply elem_of_cons in Ha as [-> | Ha]; [discriminate Hc | inversion Ha].
Qed.

(** X28, on the middle node of the chain, which has no chapter yet. *)
Lemma create_new_chapter_sets_title_witness :
  exists (st' : TreeModel) (chs' : chapters_dict),
    create_new_chapter ex_uuid ex_html 1%nat "One" ex_chain_state = (Ok tt, st')
    /\ tree_ok st' ex_chain_tree
    /\ option_map rd_chapters (tree_raw_data st') = Some (Some chs')
    /\ chapter_title 1%nat st' = (Ok "One", st')
    /\ ("One" <> "" ->
        exists ia : string,
          id_at (heap ex_chain_state) 1%nat = Some ia
          /\ chapter_id_at (heap st') 1%nat = Some (ex_uuid (uuid_clock ex_chain_state))
          /\ chapter_of 1%nat st'
             = (Ok (Some (mkChapter (ex_uuid (uuid_clock ex_chain_state)) ia "One")), st'))
    /\ ("One" = "" -> chapter_id_at (heap st') 1%nat = None)
    /\ (forall cid : string,
          chapter_id_at (heap ex_chain_state) 1%nat = Some cid ->
          cid <> ex_uuid (uuid_clock ex_chain_state) -> chapters_get chs' cid = None)
    /\ (forall k : string,
          chapter_id_at (heap ex_chain_state) 1%nat <> Some k ->
          k <> ex_uuid (uuid_clock ex_chain_state) ->
          chapters_get chs' k = chapters_get [] k)
    /\ (forall b : nat, b <> 1%nat ->
          chapter_id_at (heap st') b = chapter_id_at (heap ex_chain_state) b)
    /\ (chapters_get [] (ex_uuid (uuid_clock ex_chain_state)) = None ->
        chapters_ok st' ex_chain_tree chs').
Proof.
  apply (create_new_chapter_sets_title ex_uuid ex_html ex_chain_state ex_chain_tree []
           1%nat "One" ex_chain_ok).
  - simpl. apply list_elem_of_further, list_elem_of_here.
  - exact ex_chain_chapters.
Defined.

(** X29, on the leaf of the chain, below the node with the chapter. *)
Lemma chapter_is_inherited_witness :
  (2%nat = raddr ex_chain_tree ->
   chapter_of 2%nat ex_chaptered_state = (Ok None, ex_chaptered_state))
  /\ (2%nat <> raddr ex_chain_tree ->
      exists p : nat,
        p ∈ preorder ex_chain_tree
        /\ parent 2%nat ex_chaptered_state = (Ok p, ex_chaptered_state)
        /\ chapter_of 2%nat ex_chaptered_state = chapter_of p ex_chaptered_state).
Proof.
  apply (chapter_is_inherited ex_chaptered_state ex_chain_tree ex_chapters 2%nat
           ex_chaptered_ok).
  - simpl. apply list_elem_of_further, list_elem_of_further, list_elem_of_here.
  - reflexivity.
Defined.

(** X30, on the chain with its one chapter. *)
Lemma remove_all_chapters_clears_tree_witness :
  exists (st' : TreeModel) (chs' : chapters_dict),
    remove_all_chapters ex_uuid ex_html None ex_chaptered_state = (Ok tt, st')
    /\ tree_ok st' ex_chain_tree
    /\ chapters_ok st' ex_chain_tree chs'
    /\ (forall a : nat, a ∈ preorder ex_chain_tree ->
          chapter_id_at (heap st') a = None /\ chapter_title a st' = (Ok "", st'))
    /\ (forall (a : nat) (cid : string),
          a ∈ preorder ex_chain_tree ->
          chapter_id_at (heap ex_chaptered_state) a = Some cid ->
          chapters_get chs' cid = None)
    /\ (forall k : string,
          (forall a : nat, a ∈ preorder ex_chain_tree ->
             chapter_id_at (heap ex_chaptered_state) a <> Some k) ->
          chapters_get chs' k = chapters_get ex_chapters k)
    /\ (forall b : nat, b ∉ preorder ex_chain_tree ->
          chapter_id_at (heap st') b = chapter_id_at (heap ex_chaptered_state) b)
    /\ (forall b : nat, id_at (heap st') b = id_at (heap ex_chaptered_state) b)
    /\ (forall b : nat,
          children_at (heap st') b = children_at (heap ex_chaptered_state) b).
Proof.
  apply (remove_all_chapters_clears_tree ex_uuid ex_html ex_chaptered_state ex_chain_tree
           ex_chapters ex_chaptered_ok ex_chaptered_chapters).
Defined.
